(* ===== verification/_CoqProject ===== *)
-Q . S2P
Prelude.v
GoStrings.v
GoErrors.v
Conc.v
Trace.v
Progress.v
SpiffeID.v
X509.v
X509SVID.v
Identity.v
TrustBundle.v
CommandLine.v
Authz.v
Slog.v
Context.v
Authenticator.v
TestPKI.v
TestPKISpec.v
TestPKIProperties.v
Job.v
JobInvariant.v
JobProperties.v
TickInterval.v
TimedJob.v
Wire.v
Registry.v
Ticks.v
Service.v
ServiceSpec.v
StreamSpec.v
Interceptor.v
Work.v
Liveness.v
Client.v
Fizzle.v
FizzleProperties.v
System.v
Sample.v
Rpc.v
Ownership.v
Evidence.v
Model.v
SystemLiveness.v
Server.v
Fizzled.v
ServerProperties.v
Daemon.v
ServerLiveness.v
TimedServe.v
InterceptorProperties.v
SystemProperties.v
WireTypes.v
EndToEnd.v
Commands.v
