(* ===== verification/Prelude.v ===== *)
(** * fizzled-go: a verification library

    fizzled runs stochastic countdowns for agents over mutual TLS. This library
    models the program, from the parsing of a certificate's URI to the exit code
    of its two commands, and proves what makes it correct.

    ** The program, and the files that model it

    - A job is a countdown in a goroutine, with a buffer of ticks that any number
      of readers follow ([internal/worker]). [Job] holds the struct, its critical
      sections and the goroutine [countdown] as a machine over program points;
      [JobInvariant] its state machine and invariants; [JobProperties] what
      follows; [TickInterval] the float64 arithmetic of the wait before a tick;
      [TimedJob] the countdown with its clock and timers, over [Job]; [Ticks] the
      iterator [Job.Ticks] and its readers.
    - The registry owns the jobs, by agent and id ([internal/registry]):
      [Registry].
    - The service answers the four RPCs ([internal/server/service.go]): [Service]
      holds the handlers, [ServiceSpec] and [StreamSpec] what they promise,
      [Liveness] that they end, [Work] after how many actions, [WireTypes] what
      they put on the wire.
    - The interceptors authenticate, authorize and record every RPC and recover
      its panics ([internal/server/interceptor.go]): [Interceptor],
      [InterceptorProperties].
    - The server builds the stack, serves and shuts down
      ([internal/server/server.go]): [System] is everything that runs at once,
      [Sample] a concrete one, [Ownership] who can affect a job, [Model] the
      abstract service that all of it refines, [Server] the construction and the
      shutdown sequence, [TimedServe] that sequence with the clock and the timer
      of its grace, over [Server]; [Evidence] what an RPC's own choices along a
      run say of its answer; [SystemProperties] and [ServerProperties] the
      guarantees of the whole, [SystemLiveness] and [ServerLiveness] that it comes
      to an end.
    - Identity ([internal/authn] and below): [SpiffeID] parses SPIFFE-IDs
      ([spiffeid/id.go]), [X509SVID] verifies chains ([x509svid/verifier.go]),
      [Identity] holds agent ids and what a URI stands for ([agentid.go],
      [identity.go]), [TrustBundle] the bundle file ([trustbundle.go]),
      [Authenticator] the verdicts on peers and the TLS configurations
      ([authenticator.go], [tlsconfig.go]).
    - Authorization ([internal/authz]): [Authz].
    - The client ([internal/client]) and the commands ([cmd/fizzle],
      [cmd/fizzled]): [Client], [Fizzle], [FizzleProperties] (what its command
      line means and how it fails), [Fizzled]. The composed program:
      [EndToEnd] puts the client's methods on the running server, [Commands] the
      command [fizzle] on that, [Daemon] the command [fizzled] on [Serve].
    - The certificates, bundles and roles the tests are written against
      ([internal/testpki]): [TestPKI] holds the helpers, [TestPKISpec] what they
      return, [TestPKIProperties] what the program makes of it.
    - What they share: this prelude (automation, machine integers, lists),
      [GoStrings] (package [strings], [regexp] classes, [time.Duration.String]),
      [GoErrors] (errors as trees with [errors.Is], the sentinels, fallible
      results), [Slog], [Context], [X509], [Wire] (the messages of
      [internal/gen]), [Rpc] (its stub, handlers and service description),
      [CommandLine] (packages [flag] and [strconv]), [Conc],
      [Trace] and [Progress].

    In each file the definitions of a Go package are in a Module of its name, and
    keep the names of the source.

    ** Concurrency

    A goroutine is a program of atomic actions on a shared world ([Conc.prog]):
    a critical section, one blocking operation, or one call out is one action,
    and anything may run between two. [Conc.wp] is a rely-guarantee logic for
    such programs; [Trace.traced] ties what a program answers to the choices it
    met (what the clock read, what a [Send] answered, what panicked), and
    [Trace.blind] says that it cannot tell two worlds apart. The world
    ([Registry.world]) is the registry, the heap of jobs each with its
    goroutine, the contexts that have ended, the log, and what streams have
    delivered; [Registry.evolves] is how it may change under a handler's feet.
    [Progress.live] is its counterpart for liveness: from any point, a program
    that waits only for what [ready] says can act, and ends.
    [Progress.inevitable] says that every run of a relation meets a set of
    states and is never stuck before it. [System.sys_step] is one event of the
    whole: an RPC arrives, with a message that can be decoded or not, a
    goroutine or a job moves, an RPC's context ends, a shutdown begins.
    [Server.serve_step] adds [Serve] and its shutdown around it,
    [TimedServe.timed_step] the clock. Every theorem about the whole holds for
    every interleaving.

    ** What is proved

    - Jobs: they follow RUNNING to one of COMPLETED, STOPPED, FAILED and stay; the
      buffer agrees with the status; no channel is closed twice; the transition
      is recorded once; the countdown ends, and promptly once cancelled; every
      wait is at most 9.21034 s whatever the random sample and the rounding, so a
      countdown whose steps are never [late] behind ends within a bound on the
      clock, its ticks stamped in order from zero ([TimedJob]); every reader gets
      the output in order, misses no wake-up, and gets all of it.
    - The service: what each RPC is answered, on every branch, and each refusal
      with its grounds; ids are new; a foreign job cannot be told from none, on a
      stream either; a stopped job was told to stop; a stream
      delivers a prefix of one job's output, and all of it unless its context
      ends or the transport fails; only its owner, a shutdown and its own
      goroutine change a job.
    - The abstract service ([Model]): agents own countdowns by id; every event of
      the running server opens one, emits a tick of one, tells one to stop or
      closes the service, on behalf of who may do so, or cannot be seen.
    - Progress: no goroutine is stuck, and each waits at most for the job of its
      own agent; once no RPC arrives, every run is finite and answers every RPC,
      ends every job and returns from every shutdown; an RPC takes at most 827
      actions of the server, whatever its client does; [Serve] returns once it is
      told to. No fairness is assumed: these hold of every schedule.
    - The wire: every answer is of the type of its request, every stream is a
      countdown within 32 bits, and no text of an internal error leaves. End to
      end, what a method of the client returns is true of the server.
    - The routing ([Rpc]): each request reaches the handler of its own method,
      behind the interceptor, as it was sent; one that cannot be decoded reaches
      none, and changes nothing but the log.
    - The gate: no handler runs for a peer that is not an authenticated,
      authorized agent; every decision is recorded, and nothing else is
      done before a handler, on a unary call and on a stream; no panic leaves;
      refusals say nothing of their reason.
    - Shutdown: jobs end before the transport drains; a clean shutdown leaves no
      job running and no RPC unanswered, and the daemon's exit code says whether
      the shutdown was clean and what the transport's own [Serve] returned
      ([Daemon]). On the clock ([TimedServe]) the grace is never cut short, a
      shutdown that ends before it by more than a step takes is never reported as
      cut, and [Serve] returns in time once its shutdown and its transport have
      ended.
    - Identity and authorization: the parsers and verifiers accept exactly their
      grammars and rules (equivalences with declarative specifications); both
      sides of a connection are held to one standard; a roles file is loaded
      exactly when it is well formed, and absence from it denies.
    - The client and the commands: statuses and streams arrive as they were sent;
      command lines are read as they were meant; every failure has its exit code
      and its text on the right stream;
      what [fizzle] prints and exits with is true of the jobs of the server that
      answered ([Commands]).
    - The test PKI: a leaf it issues is authenticated exactly when its options
      describe an agent's certificate, and its files configure a client or a
      server exactly then; its bundles and roles files load, as what they were
      written from.

    ** Bounds

    Machine integers are [Z] with the wrap-around written out ([int32], [int64]).
    The counter of a record is 64 bits wide; [Registry.fits] says that a process
    has started fewer jobs than that, and theorems that depend on fresh ids assume
    it. [Service.stream_fuel] is 408 moves of the iterator: four for each of the
    most ticks a job can have, and four more; [StreamSpec] proves that they are
    never used up. [TrustBundle.read_blocks] has one unit of fuel a byte, enough
    because [pem.Decode] consumes what it decodes. A float64 is the standard
    library's [spec_float] with 53 bits of mantissa ([TickInterval]); its bounds
    are for means up to [2 ^ 48] ns, and every job has a mean of 1 s.

    ** What is not modelled

    Package code outside the repository is a parameter:
    [x509.Certificate.Verify], [pem.Decode] and [x509.ParseCertificate],
    recognising JSON, protobuf's and gRPC's encoding and transport
    ([GracefulStop] by what it documents, in [ServerProperties]), files and
    sockets, the random numbers, and the clock, which in [TimedJob] and
    [TimedServe] passes in any amounts between two steps. What [TestPKI] calls
    is the class [TestPKI.testpki.Library], what it documents the class
    [TestPKISpec.testpki_spec.Documented]. Protobuf's encoding and gRPC's table
    of methods are the classes [Codec] and [Registered] of [Rpc]. Signals are
    the context they end: to the daemon the step [ContextDone], to a client's
    call an answer of its stub. *)

From stdpp Require Export base tactics list strings pretty gmap sorting.
From Stdlib Require Export ZArith Lia Ascii.

Declare Scope go_scope.
Delimit Scope go_scope with go.

(** [s1 +:+ s2] is Go's string concatenation; a Go string is a byte sequence,
    which [String.string] (a list of 8-bit characters) is as well. *)

(** stdpp seals [String.append]; the components compute with it on literals. *)
#[global] Arguments String.append !_ _ / : simpl nomatch.

(** ** Automation *)

Create HintDb fizz discriminated.

(** Case analysis on the scrutinee of the first [match] or [if] of the goal or
    of a hypothesis, keeping the equation, then closing the absurd cases. *)
Ltac break_match :=
  match goal with
  | |- context [match ?x with _ => _ end] => destruct x eqn:?
  end.

Ltac break_match_hyp :=
  match goal with
  | H : context [match ?x with _ => _ end] |- _ => destruct x eqn:?
  end.

Ltac crush_step :=
  first [ progress simplify_eq/= | done | break_match_hyp | break_match ].

(** [crush] explores every branch of the definitions unfolded in the goal. *)
Ltac crush := repeat crush_step; try done.

(** Turn every boolean test in the context into the proposition it decides. *)
Ltac reflect :=
  repeat match goal with
  | H : bool_decide _ = true |- _ => apply bool_decide_eq_true in H
  | H : bool_decide _ = false |- _ => apply bool_decide_eq_false in H
  | H : (_ && _)%bool = true |- _ => apply andb_true_iff in H as [? ?]
  | H : (_ && _)%bool = false |- _ => apply andb_false_iff in H
  | H : (_ || _)%bool = true |- _ => apply orb_true_iff in H
  | H : (_ || _)%bool = false |- _ => apply orb_false_iff in H as [? ?]
  | H : negb _ = true |- _ => apply negb_true_iff in H
  | H : negb _ = false |- _ => apply negb_false_iff in H
  | H : (_ <? _)%Z = true |- _ => apply Z.ltb_lt in H
  | H : (_ <? _)%Z = false |- _ => apply Z.ltb_ge in H
  | H : (_ <=? _)%Z = true |- _ => apply Z.leb_le in H
  | H : (_ <=? _)%Z = false |- _ => apply Z.leb_gt in H
  | H : (_ >? _)%Z = _ |- _ => rewrite Z.gtb_ltb in H
  | H : (_ =? _)%Z = true |- _ => apply Z.eqb_eq in H
  | H : (_ =? _)%Z = false |- _ => apply Z.eqb_neq in H
  | H : (_ <? _)%nat = true |- _ => apply Nat.ltb_lt in H
  | H : (_ <? _)%nat = false |- _ => apply Nat.ltb_ge in H
  | H : (_ =? _)%nat = true |- _ => apply Nat.eqb_eq in H
  | H : (_ =? _)%nat = false |- _ => apply Nat.eqb_neq in H
  end.

(** ** Machine integers

    Go's [int] is 64 bits wide on every platform the program is built for; a
    conversion or an increment keeps the low bits, read as two's complement. *)

Definition wrap (w : Z) (z : Z) : Z :=
  let m := (z mod 2 ^ w)%Z in
  if (m <? 2 ^ (w - 1))%Z then m else (m - 2 ^ w)%Z.

Definition in_width (w : Z) (z : Z) : Prop := (- 2 ^ (w - 1) <= z < 2 ^ (w - 1))%Z.

Definition int32 : Z → Z := wrap 32.
Definition int64 : Z → Z := wrap 64.
Definition MinInt32 : Z := (- 2 ^ 31)%Z.
Definition MaxInt32 : Z := (2 ^ 31 - 1)%Z.
Definition MinInt64 : Z := (- 2 ^ 63)%Z.
Definition MaxInt64 : Z := (2 ^ 63 - 1)%Z.

Lemma wrap_id w z : (0 < w)%Z → in_width w z → wrap w z = z.
Proof.
  unfold wrap, in_width. intros Hw Hz.
  assert (2 ^ w = 2 * 2 ^ (w - 1))%Z as Hp
    by (rewrite <-Z.pow_succ_r by lia; f_equal; lia).
  destruct (decide (0 <= z)%Z).
  - rewrite Z.mod_small by lia. destruct (Z.ltb_spec z (2 ^ (w - 1))); lia.
  - assert (z mod 2 ^ w = z + 2 ^ w)%Z as ->.
    { symmetry. apply Z.mod_unique_pos with (q := (-1)%Z); lia. }
    destruct (Z.ltb_spec (z + 2 ^ w) (2 ^ (w - 1))); lia.
Qed.

Lemma wrap_in_width w z : (0 < w)%Z → in_width w (wrap w z).
Proof.
  unfold wrap, in_width. intros Hw.
  assert (2 ^ w = 2 * 2 ^ (w - 1))%Z as Hp
    by (rewrite <-Z.pow_succ_r by lia; f_equal; lia).
  assert (0 < 2 ^ (w - 1))%Z by (apply Z.pow_pos_nonneg; lia).
  pose proof (Z.mod_pos_bound z (2 ^ w) ltac:(lia)).
  destruct (Z.ltb_spec (z mod 2 ^ w) (2 ^ (w - 1))); lia.
Qed.

Lemma int32_id z : (MinInt32 <= z <= MaxInt32)%Z → int32 z = z.
Proof.
  unfold MinInt32, MaxInt32. intros. apply wrap_id; [lia|].
  unfold in_width. change (32 - 1)%Z with 31%Z. lia.
Qed.

Lemma int64_id z : (MinInt64 <= z <= MaxInt64)%Z → int64 z = z.
Proof.
  unfold MinInt64, MaxInt64. intros. apply wrap_id; [lia|].
  unfold in_width. change (64 - 1)%Z with 63%Z. lia.
Qed.

Lemma int32_range z : (MinInt32 <= int32 z <= MaxInt32)%Z.
Proof. pose proof (wrap_in_width 32 z ltac:(lia)) as [? ?]. unfold int32, MinInt32, MaxInt32 in *.
  change (32 - 1)%Z with 31%Z in *. lia. Qed.

(** ** Lists *)

Section lists.
Context {A : Type}.
Implicit Types (l k : list A).

Lemma take_app_prefix l k n : n ≤ length l → take n (l ++ k) = take n l.
Proof. intros. rewrite take_app_le; [done|lia]. Qed.

Lemma prefix_take l n : take n l `prefix_of` l.
Proof. exists (drop n l). by rewrite take_drop. Qed.

Lemma list_alter_out (f : A → A) l n : length l ≤ n → alter f n l = l.
Proof.
  intros Hn. apply list_eq. intros k. destruct (decide (n = k)) as [<-|Hne]; [|by apply list_lookup_alter_ne].
  by rewrite list_lookup_alter_eq, lookup_ge_None_2.
Qed.

Lemma take_drop_cons l n x k : drop n l = x :: k → take (S n) l = take n l ++ [x] ∧ drop (S n) l = k.
Proof.
  intros H. assert (l !! n = Some x) as Hn.
  { rewrite <-(Nat.add_0_r n), <-lookup_drop, H. done. }
  split; [by apply take_S_r|].
  apply drop_S in Hn. rewrite Hn in H. by simplify_eq.
Qed.
End lists.

#[export] Hint Resolve prefix_take : fizz.
