(* ===== verification/GoStrings.v ===== *)
(** * Go's [strings], [bytes], [strconv] and [regexp], as far as the program uses them

    A Go string and a Go byte slice are both byte sequences, modelled by
    [String.string]. Every function here is executable and comes with the
    lemmas the components share: [HasPrefix], slicing, [Cut] and [Split] at a
    one-byte separator and their inverse [Join], a byte-class match (the only
    regular expressions the program compiles have the shape [^[class]+$]),
    [TrimSpace], [Count], and the decimal and hexadecimal printers. *)

From S2P Require Import Prelude.

(** ** Concatenation and length *)

Lemma append_assoc (a b c : string) : (a +:+ b) +:+ c = a +:+ (b +:+ c).
Proof. induction a as [|x a IH]; [done|]. cbn. by rewrite IH. Qed.

Lemma append_nil_r (a : string) : a +:+ "" = a.
Proof. induction a as [|x a IH]; [done|]. cbn. by rewrite IH. Qed.

Lemma length_append (a b : string) :
  String.length (a +:+ b) = String.length a + String.length b.
Proof. induction a as [|x a IH]; [done|]. cbn. by rewrite IH. Qed.

Lemma append_inj_l (a b c : string) : a +:+ b = a +:+ c → b = c.
Proof. induction a as [|x a IH]; cbn; [done|]. intros H. injection H as H. auto. Qed.

(** [len(s)] *)
Definition len (s : string) : nat := String.length s.

(** [strings.HasPrefix(s, p)] *)
Definition HasPrefix (s p : string) : bool := String.prefix p s.

Lemma prefix_cons c d p s :
  String.prefix (String c p) (String d s) = bool_decide (c = d) && String.prefix p s.
Proof.
  change (String.prefix (String c p) (String d s))
    with (if Ascii.ascii_dec c d then String.prefix p s else false).
  destruct (Ascii.ascii_dec c d) as [->|?]; [by rewrite bool_decide_eq_true_2|].
  by rewrite bool_decide_eq_false_2.
Qed.

Lemma prefix_spec p s : String.prefix p s = true ↔ ∃ r, s = p +:+ r.
Proof.
  revert s. induction p as [|c p IH]; intros s.
  - split; [intros _; by exists s|]. by destruct s.
  - destruct s as [|d s]; [split; [done|by intros [? H]]|].
    rewrite prefix_cons, andb_true_iff, bool_decide_eq_true, IH. cbn. split.
    + intros [-> [r ->]]. by exists r.
    + intros [r Hr]. injection Hr as -> ->. eauto.
Qed.

Lemma HasPrefix_spec s p : HasPrefix s p = true ↔ ∃ r, s = p +:+ r.
Proof. apply prefix_spec. Qed.

Lemma HasPrefix_app p r : HasPrefix (p +:+ r) p = true.
Proof. apply HasPrefix_spec. by exists r. Qed.

(** [s[n:]], for [n <= len(s)]: every use in the program is in range. *)
Fixpoint slice_from (n : nat) (s : string) : string :=
  match n, s with
  | O, _ => s
  | S n, String _ s => slice_from n s
  | S _, EmptyString => ""
  end.

Lemma slice_from_app p r : slice_from (len p) (p +:+ r) = r.
Proof. unfold len. induction p as [|c p IH]; [by destruct r|done]. Qed.

Lemma slice_from_app_plus p r n : slice_from (len p + n) (p +:+ r) = slice_from n r.
Proof. unfold len. induction p as [|c p IH]; done. Qed.

Lemma length_slice_from n s : String.length (slice_from n s) = String.length s - n.
Proof. revert s. induction n as [|n IH]; intros [|c s]; cbn; auto. Qed.

(** ** Byte classes *)

(** Every byte of [s] satisfies [P]. *)
Fixpoint all_bytes (P : Ascii.ascii → bool) (s : string) : bool :=
  match s with
  | EmptyString => true
  | String c s => P c && all_bytes P s
  end.

Lemma all_bytes_app P a b : all_bytes P (a +:+ b) = all_bytes P a && all_bytes P b.
Proof. induction a as [|c a IH]; [done|]. cbn. by rewrite IH, andb_assoc. Qed.

Lemma all_bytes_weaken (P Q : Ascii.ascii → bool) s :
  (∀ c, P c = true → Q c = true) → all_bytes P s = true → all_bytes Q s = true.
Proof.
  intros HPQ. induction s as [|c s IH]; [done|]. cbn.
  rewrite !andb_true_iff. intros [??]. auto.
Qed.

(** The pattern [^[class]+$] of [regexp]: Go's [$] matches only at the end of
    the text, so the whole string is a non-empty sequence of class bytes. A
    byte above 0x7f is part of a rune outside every ASCII class. *)
Definition match_class_plus (P : Ascii.ascii → bool) (s : string) : bool :=
  negb (s =? "")%string && all_bytes P s.

Lemma match_class_plus_spec P s :
  match_class_plus P s = true ↔ s ≠ "" ∧ all_bytes P s = true.
Proof.
  unfold match_class_plus. rewrite andb_true_iff, negb_true_iff, String.eqb_neq. done.
Qed.

Definition byte_range (lo hi c : Ascii.ascii) : bool :=
  (Ascii.nat_of_ascii lo <=? Ascii.nat_of_ascii c)%nat
  && (Ascii.nat_of_ascii c <=? Ascii.nat_of_ascii hi)%nat.

Definition is_lower : Ascii.ascii → bool := byte_range "a"%char "z"%char.
Definition is_upper : Ascii.ascii → bool := byte_range "A"%char "Z"%char.
Definition is_digit : Ascii.ascii → bool := byte_range "0"%char "9"%char.
Definition is_byte (b c : Ascii.ascii) : bool := Ascii.eqb b c.

Definition not_byte (b c : Ascii.ascii) : bool := negb (is_byte b c).

(** [s] does not contain the byte [b]. *)
Definition free_of (b : Ascii.ascii) (s : string) : bool := all_bytes (not_byte b) s.

(** ** [Cut], [Split] and [Join] at a one-byte separator *)

(** [strings.Cut(s, sep)]: the text before the first separator, the text after
    it, and whether there was one. *)
Fixpoint Cut (sep : Ascii.ascii) (s : string) : string * string * bool :=
  match s with
  | EmptyString => ("", "", false)
  | String c s' =>
      if is_byte sep c then ("", s', true)
      else let '(before, after, found) := Cut sep s' in (String c before, after, found)
  end.

Lemma Cut_found sep s b a : Cut sep s = (b, a, true) → s = b +:+ String sep a ∧ free_of sep b = true.
Proof.
  revert b a. induction s as [|c s IH]; intros b a; cbn; [done|].
  unfold free_of, not_byte in *. destruct (is_byte sep c) eqn:Hc.
  - intros [= <- <-]. apply Ascii.eqb_eq in Hc as <-. done.
  - destruct (Cut sep s) as [[b' a'] f]. intros [= <- <- ->].
    destruct (IH b' a' eq_refl) as [-> Hf]. cbn. rewrite ?Hc. auto.
Qed.

Lemma Cut_not_found sep s b a : Cut sep s = (b, a, false) → b = s ∧ a = "" ∧ free_of sep s = true.
Proof.
  revert b a. induction s as [|c s IH]; intros b a; cbn.
  - by intros [= <- <-].
  - unfold free_of, not_byte in *. destruct (is_byte sep c) eqn:Hc; [done|].
    destruct (Cut sep s) as [[b' a'] f]. intros [= <- <- ->].
    destruct (IH b' a' eq_refl) as (-> & -> & Hf). cbn. rewrite ?Hc. auto.
Qed.

(** The text before the first separator is a prefix free of it, and what
    follows is empty or starts with the separator. *)
Lemma Cut_before sep s :
  ∃ rest, s = (Cut sep s).1.1 +:+ rest ∧ free_of sep (Cut sep s).1.1 = true
          ∧ (rest = "" ∨ ∃ r, rest = String sep r).
Proof.
  destruct (Cut sep s) as [[b a] [|]] eqn:H.
  - apply Cut_found in H as [-> ?]. exists (String sep a). eauto.
  - apply Cut_not_found in H as (-> & -> & ?). exists "". rewrite append_nil_r. auto.
Qed.

Lemma Cut_before_app sep b rest :
  free_of sep b = true → rest = "" ∨ (∃ r, rest = String sep r) →
  (Cut sep (b +:+ rest)).1.1 = b.
Proof.
  intros Hb Hr. induction b as [|c b IH]; cbn.
  - destruct Hr as [->|[r ->]]; [done|]. cbn. unfold is_byte. by rewrite Ascii.eqb_refl.
  - unfold free_of in Hb. cbn in Hb. apply andb_true_iff in Hb as [Hc Hb].
    unfold not_byte in Hc. apply negb_true_iff in Hc. rewrite Hc.
    specialize (IH Hb). destruct (Cut sep (b +:+ rest)) as [[b' a'] f]. cbn in *. by subst.
Qed.

(** [strings.Split(s, sep)] (and [strings.SplitSeq], which yields the same
    components lazily): never empty, one component more than separators. *)
Fixpoint Split (sep : Ascii.ascii) (s : string) : list string :=
  match s with
  | EmptyString => [""]
  | String c s' =>
      if is_byte sep c then "" :: Split sep s'
      else match Split sep s' with
           | [] => [String c ""]
           | h :: t => String c h :: t
           end
  end.

Fixpoint Join (sep : Ascii.ascii) (l : list string) : string :=
  match l with
  | [] => ""
  | [s] => s
  | s :: l => s +:+ String sep (Join sep l)
  end.

Lemma Split_not_nil sep s : Split sep s ≠ [].
Proof. destruct s as [|c s]; cbn; [done|]. destruct (is_byte sep c); [done|]. by destruct (Split sep s). Qed.

Lemma Split_free sep s : Forall (λ x, free_of sep x = true) (Split sep s).
Proof.
  induction s as [|c s IH]; cbn; [by repeat constructor|].
  destruct (is_byte sep c) eqn:Hc; [by constructor|].
  destruct (Split sep s) as [|h t]; [constructor; [|constructor]|inversion IH; subst; constructor; [|done]];
    unfold free_of, not_byte in *; cbn; by rewrite Hc.
Qed.

Lemma Join_cons_head sep c h t : Join sep (String c h :: t) = String c (Join sep (h :: t)).
Proof. by destruct t. Qed.

Lemma Join_Split sep s : Join sep (Split sep s) = s.
Proof.
  induction s as [|c s IH]; [done|]. cbn [Split].
  destruct (is_byte sep c) eqn:Hc.
  - apply Ascii.eqb_eq in Hc as <-. pose proof (Split_not_nil sep s).
    destruct (Split sep s) as [|h t]; [done|]. cbn [Join]. cbn. cbn in IH. by rewrite IH.
  - pose proof (Split_not_nil sep s). destruct (Split sep s) as [|h t]; [done|].
    by rewrite Join_cons_head, IH.
Qed.

Lemma Split_free_id sep s : free_of sep s = true → Split sep s = [s].
Proof.
  unfold free_of. induction s as [|c s IH]; [done|]. cbn.
  rewrite andb_true_iff. unfold not_byte at 1. rewrite negb_true_iff.
  intros [-> H]. by rewrite IH.
Qed.

Lemma Split_app sep a s : free_of sep a = true → Split sep (a +:+ String sep s) = a :: Split sep s.
Proof.
  unfold free_of. induction a as [|c a IH]; cbn.
  - unfold is_byte. by rewrite Ascii.eqb_refl.
  - rewrite andb_true_iff. unfold not_byte at 1. rewrite negb_true_iff.
    intros [-> H]. by rewrite IH.
Qed.

Lemma Split_Join sep l :
  l ≠ [] → Forall (λ x, free_of sep x = true) l → Split sep (Join sep l) = l.
Proof.
  intros Hl H. induction H as [|x l Hx H IH]; [done|].
  destruct l as [|y l]; [by apply Split_free_id|].
  change (Join sep (x :: y :: l)) with (x +:+ String sep (Join sep (y :: l))).
  rewrite Split_app by done. by rewrite IH.
Qed.

(** ** [time.Duration.String()] *)

(** The [prec] low decimal digits of [v], without trailing zeros ([drop]). *)
Fixpoint frac_digits (prec : nat) (v : Z) (drop : bool) : string :=
  match prec with
  | O => ""
  | S prec =>
      let d := (v mod 10)%Z in
      let drop := drop && (d =? 0)%Z in
      frac_digits prec (v / 10)%Z drop +:+ (if drop then "" else pretty d)
  end.

Definition fmtFrac (v : Z) (prec : nat) : string :=
  let digits := frac_digits prec v true in
  if (digits =? "")%string then "" else "." +:+ digits.

(** The micro sign, U+00B5 in UTF-8. *)
Definition micro : string := String (ascii_of_nat 194) (String (ascii_of_nat 181) "").

Definition Duration_String (d : Z) : string :=
  let u := Z.abs d in
  let sign := if (d <? 0)%Z then "-" else "" in
  let small (unit : string) (prec : nat) :=
    sign +:+ pretty (u / 10 ^ Z.of_nat prec)%Z +:+ fmtFrac u prec +:+ unit in
  if (u =? 0)%Z then "0s"
  else if (u <? 1000)%Z then small "ns" 0
  else if (u <? 1000000)%Z then small (micro +:+ "s") 3
  else if (u <? 1000000000)%Z then small "ms" 6
  else
    let secs := (u / 1000000000)%Z in
    let mins := (secs / 60)%Z in
    let hours := (mins / 60)%Z in
    sign
    +:+ (if (0 <? hours)%Z then pretty hours +:+ "h" else "")
    +:+ (if (0 <? mins)%Z then pretty (mins mod 60)%Z +:+ "m" else "")
    +:+ pretty (secs mod 60)%Z +:+ fmtFrac u 9 +:+ "s".

Example Duration_String_second : Duration_String 1500000000 = "1.5s".
Proof. vm_compute. reflexivity. Qed.
Example Duration_String_hour : Duration_String (-3661000000001) = "-1h1m1.000000001s".
Proof. vm_compute. reflexivity. Qed.
Example Duration_String_zero : Duration_String 0 = "0s" ∧ Duration_String 12 = "12ns"
  ∧ Duration_String 2300000 = "2.3ms".
Proof. vm_compute. auto. Qed.

(** ** Decimal numbers *)

Definition number_byte (c : Ascii.ascii) : bool := is_digit c || is_byte "-"%char c.

Lemma pretty_N_char_number x : number_byte (pretty_N_char x) = true.
Proof. unfold pretty_N_char. by repeat case_match. Qed.

Lemma pretty_N_go_number x s : all_bytes number_byte s = true → all_bytes number_byte (pretty_N_go x s) = true.
Proof.
  revert s. induction (N.lt_wf_0 x) as [x _ IH]; intros s Hs.
  assert (x = 0 ∨ 0 < x)%N as [->|?] by lia; [done|].
  rewrite pretty_N_go_step by done. apply IH; [by apply N.div_lt|].
  cbn. by rewrite pretty_N_char_number.
Qed.

Lemma pretty_number (z : Z) : all_bytes number_byte (pretty z) = true.
Proof.
  destruct z as [|p|p]; [done| |].
  - change (all_bytes number_byte (pretty (Npos p)) = true). unfold pretty, pretty_N.
    case_decide; [done|]. by apply pretty_N_go_number.
  - change (all_bytes number_byte ("-" +:+ pretty (Npos p)) = true). cbn. unfold pretty, pretty_N.
    case_decide; [done|]. by apply pretty_N_go_number.
Qed.

Lemma pretty_free (b : Ascii.ascii) (z : Z) : number_byte b = false → free_of b (pretty z) = true.
Proof.
  intros Hb. eapply all_bytes_weaken; [|apply (pretty_number z)].
  intros c Hc. unfold not_byte, is_byte. destruct (Ascii.eqb_spec b c) as [->|]; [congruence|done].
Qed.

(** A string splits in one way at its last separator. *)
Lemma last_sep_inj (sep : Ascii.ascii) (a b s t : string) :
  free_of sep s = true → free_of sep t = true →
  a +:+ String sep s = b +:+ String sep t → a = b ∧ s = t.
Proof.
  intros Hs Ht.
  assert (∀ c u v, free_of sep (c +:+ String sep u) = true → v = u → False) as Hno.
  { intros c u v H _. unfold free_of in H. rewrite all_bytes_app in H. apply andb_true_iff in H as [_ H].
    cbn in H. unfold not_byte, is_byte in H. by rewrite Ascii.eqb_refl in H. }
  revert b. induction a as [|c a IH]; intros [|d b] H; cbn in H.
  - by injection H as ->.
  - injection H as -> ->. by destruct (Hno b t t).
  - injection H as -> <-. by destruct (Hno a s s).
  - injection H as -> H. by destruct (IH _ H) as [-> ->].
Qed.
