(* ===== verification/GoErrors.v ===== *)
(** * Go's [error] values and the program's sentinels

    Every sentinel the program declares with [errors.New] is a constructor of
    [sentinel]; the ones it takes from the standard library follow them. An
    [error] is a tree: [fmt.Errorf] with [%w] keeps the errors it wraps, and
    [errors.Is] looks for a sentinel anywhere in the tree. *)

From S2P Require Import Prelude GoStrings.

(** ** Sentinels *)

Inductive sentinel :=
(* internal/authn/spiffeid/errors.go *)
| ErrNotSPIFFE | ErrIDTooLong | ErrTrustDomainTooLong | ErrInvalidTrustDomain
| ErrInvalidPathComponent
(* internal/authn/x509svid/errors.go *)
| ErrNoCertificate | ErrNoTrustBundle | ErrLeafCertIsCA | ErrLeafCertHasKeyCertSign
| ErrLeafCertHasCRLSign | ErrLeafCertMissingDigitalSignature | ErrLeafSPIFFEMissingPath
| ErrCertHasNoURI | ErrCertHasMultipleURIs | ErrSigningCertIsNotCA
| ErrSigningCertMissingKeyCertSign | ErrSigningSPIFFEHasPath
| ErrSigningSPIFFEInDifferentTrustDomainThanLeaf | ErrNegativeSkew
(* internal/authn/errors.go *)
| ErrEmptyTrustBundle | ErrBundleNotCertificate | ErrBundleBlockHasHeaders
| ErrBundleUnexpectedData | ErrBundleBlockDropped | ErrBundleDuplicateCertificate
| ErrWrongTrustDomain | ErrUnexpectedIdentity | ErrInvalidAgentID | ErrMissingServerAuth
| ErrMissingClientAuth | ErrKeyNotECDSA | ErrKeyNotP256
(* internal/authz/role.go, internal/authz/authorizer.go *)
| ErrUnknownRole | ErrActionUnauthorized | ErrEmptyRoles
(* internal/worker/job.go *)
| ErrInvalidCount | ErrInvalidMeanInterval | ErrJobPanic
(* internal/registry/registry.go *)
| ErrNotAcceptingJobs
(* internal/server/errors.go *)
| ErrEmptyAddress | ErrShutdownGraceElapsed
(* internal/client/errors.go *)
| ErrInvalidArgument | ErrNotFound | ErrPermissionDenied | ErrUnauthenticated
| ErrUnavailable | ErrCanceled | ErrDeadlineExceeded | ErrRPC | ErrConfig | ErrUnknownStatus
(* cmd/fizzle/errors.go *)
| fizzle_errUsage
(* cmd/fizzled/errors.go *)
| fizzled_errUsage | fizzled_errConfig
(* the standard library *)
| flag_ErrHelp | io_EOF | context_Canceled | context_DeadlineExceeded | net_ErrClosed
(* google.golang.org/grpc *)
| grpc_ErrServerStopped.

#[export] Instance sentinel_eq_dec : EqDecision sentinel.
Proof. solve_decision. Defined.

Definition spiffeid_error_text (s : sentinel) : string :=
  match s with
  | ErrNotSPIFFE => "not spiffe scheme"
  | ErrIDTooLong => "spiffe id too long"
  | ErrTrustDomainTooLong => "trust domain too long"
  | ErrInvalidTrustDomain => "invalid trust domain"
  | ErrInvalidPathComponent => "invalid path component"
  | _ => ""
  end.

Definition x509svid_error_text (s : sentinel) : string :=
  match s with
  | ErrNoCertificate => "no certificate"
  | ErrNoTrustBundle => "no trust bundle"
  | ErrLeafCertIsCA => "leaf certificate is CA"
  | ErrLeafCertHasKeyCertSign => "leaf certificate has keyCertSign"
  | ErrLeafCertHasCRLSign => "leaf certificate has cRLSign"
  | ErrLeafCertMissingDigitalSignature => "leaf certificate is missing digitalSignature"
  | ErrLeafSPIFFEMissingPath => "leaf spiffe-ID is missing path components"
  | ErrCertHasNoURI => "certificate has no URI"
  | ErrCertHasMultipleURIs => "certificate has multiple URIs"
  | ErrSigningCertIsNotCA => "signing certificate is not CA"
  | ErrSigningCertMissingKeyCertSign => "signing certificate is missing keyCertSign"
  | ErrSigningSPIFFEHasPath => "signing certificate has path"
  | ErrSigningSPIFFEInDifferentTrustDomainThanLeaf =>
      "signing spiffe-ID is in a different trust-domain than the leaf spiffe-ID"
  | ErrNegativeSkew => "negative clock-skew tolerance"
  | _ => ""
  end.

Definition authn_error_text (s : sentinel) : string :=
  match s with
  | ErrEmptyTrustBundle => "empty trust bundle"
  | ErrBundleNotCertificate => "trust bundle block is not a certificate"
  | ErrBundleBlockHasHeaders => "trust bundle block has PEM headers"
  | ErrBundleUnexpectedData => "trust bundle carries data outside a PEM block"
  | ErrBundleBlockDropped => "trust bundle block could not be read"
  | ErrBundleDuplicateCertificate => "trust bundle carries a duplicate certificate"
  | ErrWrongTrustDomain => "wrong trust domain"
  | ErrUnexpectedIdentity => "unexpected identity"
  | ErrInvalidAgentID => "invalid agent id"
  | ErrMissingServerAuth => "certificate is missing server-auth EKU"
  | ErrMissingClientAuth => "certificate is missing client-auth EKU"
  | ErrKeyNotECDSA => "public key is not ECDSA"
  | ErrKeyNotP256 => "public key is not on the P-256 curve"
  | _ => ""
  end.

Definition worker_error_text (s : sentinel) : string :=
  match s with
  | ErrInvalidCount => "invalid count; expected positive count below the maximum"
  | ErrInvalidMeanInterval => "invalid mean interval; expected positive duration"
  | ErrJobPanic => "job panic"
  | _ => ""
  end.

Definition client_error_text (s : sentinel) : string :=
  match s with
  | ErrInvalidArgument => "invalid argument"
  | ErrNotFound => "not found"
  | ErrPermissionDenied => "permission denied"
  | ErrUnauthenticated => "unauthenticated"
  | ErrUnavailable => "unavailable"
  | ErrCanceled => "canceled"
  | ErrDeadlineExceeded => "deadline exceeded"
  | ErrRPC => "rpc failed"
  | ErrConfig => "invalid configuration"
  | ErrUnknownStatus => "unknown status"
  | _ => ""
  end.

(** The text each sentinel was created with. *)
Definition sentinel_text (s : sentinel) : string :=
  match s with
  | ErrUnknownRole => "unknown role"
  | ErrActionUnauthorized => "action unauthorized"
  | ErrEmptyRoles => "empty roles"
  | ErrNotAcceptingJobs => "not accepting jobs"
  | ErrEmptyAddress => "empty address"
  | ErrShutdownGraceElapsed => "shutdown grace elapsed"
  | fizzle_errUsage | fizzled_errUsage => "invalid usage"
  | fizzled_errConfig => "invalid configuration"
  | flag_ErrHelp => "flag: help requested"
  | io_EOF => "EOF"
  | context_Canceled => "context canceled"
  | context_DeadlineExceeded => "context deadline exceeded"
  | net_ErrClosed => "use of closed network connection"
  | grpc_ErrServerStopped => "grpc: the server has been stopped"
  | _ => spiffeid_error_text s +:+ x509svid_error_text s +:+ authn_error_text s
         +:+ worker_error_text s +:+ client_error_text s
  end.

(** ** gRPC status codes, by the names [client.errorFrom] enumerates *)

Inductive code :=
| OK | Canceled | Unknown | InvalidArgument | DeadlineExceeded | NotFound | AlreadyExists
| PermissionDenied | ResourceExhausted | FailedPrecondition | Aborted | OutOfRange
| Unimplemented | Internal | Unavailable | DataLoss | Unauthenticated.

#[export] Instance code_eq_dec : EqDecision code.
Proof. solve_decision. Defined.

(** ** Errors *)

(** [Sentinel] is a value created by [errors.New]; [StatusError] is what
    [status.Error] of gRPC returns; [Foreign] is an error that a call outside
    the program returned and that the program only prints and passes on;
    [Wrapped] is [fmt.Errorf] with its rendered text and its [%w] operands. *)
Inductive error :=
| Sentinel (s : sentinel)
| StatusError (c : code) (m : string)
| Foreign (text : string)
| Wrapped (text : string) (inner : list error).

(** [err.Error()]. gRPC renders a status error from its code and its message;
    only the message is kept here, and nothing in the program branches on it. *)
Definition Error (e : error) : string :=
  match e with
  | Sentinel s => sentinel_text s
  | StatusError _ m => m
  | Foreign t => t
  | Wrapped t _ => t
  end.

(** [errors.Is(err, target)] for a sentinel target. *)
Fixpoint Is (e : error) (target : sentinel) : bool :=
  match e with
  | Sentinel s => bool_decide (s = target)
  | StatusError _ _ | Foreign _ => false
  | Wrapped _ inner => existsb (λ e, Is e target) inner
  end.

(** [fmt.Errorf("<prefix>: %w", e)] *)
Definition errorf (prefix : string) (e : error) : error :=
  Wrapped (prefix +:+ ": " +:+ Error e) [e].

(** [fmt.Errorf("<prefix>: %w: %w", e1, e2)] *)
Definition errorf2 (prefix : string) (e1 e2 : error) : error :=
  Wrapped (prefix +:+ ": " +:+ Error e1 +:+ ": " +:+ Error e2) [e1; e2].

Lemma Is_sentinel s t : Is (Sentinel s) t = bool_decide (s = t).
Proof. done. Qed.

Lemma Is_errorf p e t : Is (errorf p e) t = Is e t.
Proof. cbn. by rewrite orb_false_r. Qed.

Lemma Is_errorf2 p e1 e2 t : Is (errorf2 p e1 e2) t = Is e1 t || Is e2 t.
Proof. cbn. by rewrite orb_false_r. Qed.

#[export] Hint Rewrite Is_errorf Is_errorf2 Is_sentinel : is_db.

(** Decide which sentinels a concrete error carries. *)
Ltac solve_is := autorewrite with is_db in *; cbn in *;
  repeat (rewrite bool_decide_eq_true in * || rewrite bool_decide_eq_false in * ); try done.

(** The value a panic carries: an [error], or anything else with its [%v]
    rendering. *)
Inductive panic_value := PanicWithError (e : error) | PanicWithOther (text : string).

(** ** Fallible results

    A Go function returning [(T, error)] returns [Ok v] or [Err e]; one that
    returns only [error] returns [option error], with [None] for [nil]. *)

Inductive result (A : Type) :=
| Ok (v : A)
| Err (e : error).
Arguments Ok {_} _.
Arguments Err {_} _.

#[export] Instance result_ret : MRet result := λ A v, Ok v.
#[export] Instance result_bind : MBind result := λ A B f m,
  match m with Ok v => f v | Err e => Err e end.
#[export] Instance result_fmap : FMap result := λ A B f m,
  match m with Ok v => Ok (f v) | Err e => Err e end.

(** [if err != nil { return zero, wrap(err) }] after a call. *)
Definition map_err {A} (f : error → error) (m : result A) : result A :=
  match m with Ok v => Ok v | Err e => Err (f e) end.

(** The same after a call that returns only an [error]. *)
Definition check (m : option error) (f : error → error) : result unit :=
  match m with None => Ok tt | Some e => Err (f e) end.

Definition is_ok {A} (m : result A) : bool := match m with Ok _ => true | Err _ => false end.

Section result_lemmas.
Context {A B : Type}.

Lemma bind_Ok (m : result A) (f : A → result B) b :
  m ≫= f = Ok b ↔ ∃ a, m = Ok a ∧ f a = Ok b.
Proof. destruct m; cbn; naive_solver. Qed.

Lemma bind_Err (m : result A) (f : A → result B) e :
  m ≫= f = Err e ↔ m = Err e ∨ ∃ a, m = Ok a ∧ f a = Err e.
Proof. destruct m; cbn; naive_solver. Qed.

Lemma map_err_Ok f (m : result A) a : map_err f m = Ok a ↔ m = Ok a.
Proof. destruct m; cbn; naive_solver. Qed.

Lemma map_err_Err f (m : result A) e : map_err f m = Err e ↔ ∃ e', m = Err e' ∧ e = f e'.
Proof. destruct m; cbn; naive_solver. Qed.
End result_lemmas.

Lemma check_Ok m f : check m f = Ok tt ↔ m = None.
Proof. destruct m; cbn; naive_solver. Qed.

Lemma check_Err m f e : check m f = Err e ↔ ∃ e', m = Some e' ∧ e = f e'.
Proof. destruct m; cbn; naive_solver. Qed.

(** Open every bind, map and check of an [Ok] hypothesis. *)
Ltac inv_ok := repeat
  match goal with
  | H : _ ≫= _ = Ok _ |- _ => apply bind_Ok in H as (? & ? & H)
  | H : map_err _ _ = Ok _ |- _ => apply map_err_Ok in H
  | H : check _ _ = Ok ?x |- _ => destruct x; apply check_Ok in H
  | H : Ok _ = Ok _ |- _ => injection H as H
  | H : Err _ = Ok _ |- _ => discriminate H
  end; simplify_eq/=.
