(* ===== verification/Conc.v ===== *)
(** * Goroutines that share a world

    A handler is a program of atomic actions on the shared world. An action is
    one critical section, one blocking operation, or one call out; between two
    actions anything else may run. [choice] is what an action cannot decide by
    itself: which arm of a [select] is taken, what a call out answers, what the
    clock reads, which of two goroutines moves. An action that is not enabled answers [None]: the
    goroutine waits. A panic unwinds as [Raise]. *)

From S2P Require Import Prelude GoStrings GoErrors.

Module conc.

Inductive choice :=
| Tau
| DoneArm
| Answer (e : option error)
| CallPanics (v : panic_value)
| ClockReads (now : Z)
| GoLeft (c : choice)
| GoRight (c : choice).

Section prog.
Context {W : Type}.

Inductive prog (A : Type) : Type :=
| Ret (a : A)
| Raise (v : panic_value)
| Act (f : choice → W → option (W * prog A)).
Arguments Ret {_} _.
Arguments Raise {_} _.
Arguments Act {_} _.

(** One step of a goroutine. *)
Definition prog_step {A} (c : choice) (p : prog A) (w : W) : option (W * prog A) :=
  match p with
  | Act f => f c w
  | _ => None
  end.

Definition settled {A} (p : prog A) : bool := match p with Act _ => false | _ => true end.

Section bind.
Context {A B : Type} (k : A → prog B).

Fixpoint prog_bind (p : prog A) : prog B :=
  match p with
  | Ret a => k a
  | Raise v => Raise v
  | Act f => Act (λ c w, match f c w with Some (w', p') => Some (w', prog_bind p') | None => None end)
  end.
End bind.

(** [defer func() { if v := recover(); v != nil { h v } }()] around [p]. *)
Section recover.
Context {A : Type} (h : panic_value → prog A).

Fixpoint prog_recover (p : prog A) : prog A :=
  match p with
  | Ret a => Ret a
  | Raise v => h v
  | Act f => Act (λ c w, match f c w with Some (w', p') => Some (w', prog_recover p') | None => None end)
  end.
End recover.

(** [defer d()] around [p], for a [d] that does not itself panic: it runs
    whether [p] returns or panics. *)
Section finally.
Context {A : Type} (d : prog unit).

Fixpoint prog_finally (p : prog A) : prog A :=
  match p with
  | Ret a => prog_bind (λ _, Ret a) d
  | Raise v => prog_bind (λ _, Raise v) d
  | Act f => Act (λ c w, match f c w with Some (w', p') => Some (w', prog_finally p') | None => None end)
  end.
End finally.

(** An atomic action that is always enabled. *)
Definition atomically {A} (f : W → W * A) : prog A :=
  Act (λ c w, match c with Tau => let '(w, a) := f w in Some (w, Ret a) | _ => None end).

(** An action that waits until [f] answers. *)
Definition await {A} (f : W → option A) : prog A :=
  Act (λ c w, match c with Tau => (a ← f w; Some (w, Ret a)) | _ => None end).

(** A call out that may answer with an error, or panic. *)
Definition call_out : prog (option error) :=
  Act (λ c w, match c with
              | Answer e => Some (w, Ret e)
              | CallPanics v => Some (w, Raise v)
              | _ => None
              end).

(** Two goroutines and the [WaitGroup] that waits for both: a panic in one of
    them is not recovered there. *)
Fixpoint par2 (p : prog unit) {struct p} : prog unit → prog unit :=
  fix par_right (q : prog unit) : prog unit :=
    match p, q with
    | Raise v, _ => Raise v
    | _, Raise v => Raise v
    | Ret tt, _ => q
    | Act _, Ret tt => p
    | Act f, Act g =>
        Act (λ c w,
          match c with
          | GoLeft c => match f c w with Some (w', p') => Some (w', par2 p' q) | None => None end
          | GoRight c => match g c w with Some (w', q') => Some (w', par_right q') | None => None end
          | _ => None
          end)
    end.

Definition par (ps : list (prog unit)) : prog unit := foldr par2 (Ret tt) ps.

(** The programs' induction principle: what an action leads to is smaller. *)
Lemma prog_induction {A} (P : prog A → Prop) :
  (∀ a, P (Ret a)) → (∀ v, P (Raise v)) →
  (∀ f, (∀ c w w' p', f c w = Some (w', p') → P p') → P (Act f)) →
  ∀ p, P p.
Proof.
  intros Hret Hraise Hact. fix IH 1. intros [a|v|f]; [apply Hret|apply Hraise|].
  apply Hact. intros c w w' p'. destruct (f c w) as [[w1 p1]|]; [|discriminate].
  intros H. injection H as _ <-. apply IH.
Qed.

(** ** Rely and guarantee

    [wp rely guar Q p w]: started in [w], and whatever the others do within
    [rely] between its actions, every action of [p] stays within [guar], and
    if [p] settles it does so with [Q]. *)

Section wp.
Context (rely guar : W → W → Prop).

Fixpoint wp {A} (Q : A + panic_value → W → Prop) (p : prog A) : W → Prop :=
  match p with
  | Ret a => Q (inl a)
  | Raise v => Q (inr v)
  | Act f => λ w, ∀ w1 c, rely w w1 →
      match f c w1 with
      | Some (w2, p') => guar w1 w2 ∧ wp Q p' w2
      | None => True
      end
  end.

(** A postcondition that speaks of normal returns, and excludes panics. *)
Definition returns {A} (Q : A → W → Prop) (o : A + panic_value) (w : W) : Prop :=
  match o with inl a => Q a w | inr _ => False end.

Definition stable (P : W → Prop) : Prop := ∀ w w', P w → rely w w' → P w'.

Lemma stable_returns {A} (P : W → Prop) (o : A + panic_value) :
  stable P → stable (returns (λ _, P) o).
Proof. intros HP w w'. destruct o; [apply HP|done]. Qed.

Lemma wp_act {A} (Q : A + panic_value → W → Prop) f w :
  (∀ w1 c w2 p', rely w w1 → f c w1 = Some (w2, p') → guar w1 w2 ∧ wp Q p' w2) →
  wp Q (Act f) w.
Proof.
  intros H w1 c Hr. specialize (H w1 c). destruct (f c w1) as [[w2 p']|]; [|done]. by apply H.
Qed.

Lemma wp_act_inv {A} (Q : A + panic_value → W → Prop) f w w1 c w2 p' :
  wp Q (Act f) w → rely w w1 → f c w1 = Some (w2, p') → guar w1 w2 ∧ wp Q p' w2.
Proof. intros H Hr E. specialize (H w1 c Hr). by rewrite E in H. Qed.

Lemma wp_step {A} (Q : A + panic_value → W → Prop) c p w w1 w2 p' :
  wp Q p w → rely w w1 → prog_step c p w1 = Some (w2, p') → guar w1 w2 ∧ wp Q p' w2.
Proof. destruct p as [a|v|f]; [done..|]. intros H Hr E. exact (wp_act_inv _ _ _ _ _ _ _ H Hr E). Qed.

Lemma wp_mono {A} (Q Q' : A + panic_value → W → Prop) p w :
  (∀ o w, Q o w → Q' o w) → wp Q p w → wp Q' p w.
Proof.
  intros HQ. revert w. induction p as [a|v|f IH] using prog_induction; intros w; [apply HQ..|].
  intros H. apply wp_act. intros w1 c w2 p' Hr E.
  destruct (wp_act_inv _ _ _ _ _ _ _ H Hr E) as [Hg Hw]. eauto.
Qed.

Lemma wp_rely `{!Transitive rely} {A} (Q : A + panic_value → W → Prop) p w w' :
  (∀ o, stable (Q o)) → wp Q p w → rely w w' → wp Q p w'.
Proof.
  intros HQ. destruct p as [a|v|f]; intros H Hr; [by eapply HQ..|].
  apply wp_act. intros w1 c w2 p' Hr1 E. eapply wp_act_inv; [done| |done]. by etrans.
Qed.

Lemma wp_bind {A B} (Q : B + panic_value → W → Prop) (k : A → prog B) p w :
  wp (λ o, match o with inl a => wp Q (k a) | inr v => Q (inr v) end) p w →
  wp Q (prog_bind k p) w.
Proof.
  revert w. induction p as [a|v|f IH] using prog_induction; intros w H; [exact H..|].
  apply wp_act. cbn. intros w1 c w2 p' Hr E. destruct (f c w1) as [[w3 p3]|] eqn:Ef; [|done].
  injection E as <- <-. destruct (wp_act_inv _ _ _ _ _ _ _ H Hr Ef) as [Hg Hw]. eauto.
Qed.

Lemma wp_recover {A} (Q : A + panic_value → W → Prop) h p w :
  wp (λ o, match o with inl a => Q (inl a) | inr v => wp Q (h v) end) p w →
  wp Q (prog_recover h p) w.
Proof.
  revert w. induction p as [a|v|f IH] using prog_induction; intros w H; [exact H..|].
  apply wp_act. cbn. intros w1 c w2 p' Hr E. destruct (f c w1) as [[w3 p3]|] eqn:Ef; [|done].
  injection E as <- <-. destruct (wp_act_inv _ _ _ _ _ _ _ H Hr Ef) as [Hg Hw]. eauto.
Qed.

Lemma wp_finally {A} (Q : A + panic_value → W → Prop) d p w :
  wp (λ o w, wp (λ o', match o' with inl _ => Q o | inr v => Q (inr v) end) d w) p w →
  wp Q (prog_finally d p) w.
Proof.
  revert w. induction p as [a|v|f IH] using prog_induction; intros w H.
  - apply wp_bind. eapply wp_mono; [|exact H]. by intros [].
  - apply wp_bind. eapply wp_mono; [|exact H]. by intros [].
  - apply wp_act. cbn. intros w1 c w2 p' Hr E. destruct (f c w1) as [[w3 p3]|] eqn:Ef; [|done].
    injection E as <- <-. destruct (wp_act_inv _ _ _ _ _ _ _ H Hr Ef) as [Hg Hw]. eauto.
Qed.

Lemma wp_atomically {A} (Q : A + panic_value → W → Prop) (f : W → W * A) w :
  (∀ w1 w2 a, rely w w1 → f w1 = (w2, a) → guar w1 w2 ∧ Q (inl a) w2) →
  wp Q (atomically f) w.
Proof.
  intros H. apply wp_act. intros w1 [] w2 p' Hr E; try done.
  destruct (f w1) as [w3 a] eqn:Ef. injection E as <- <-. by apply H.
Qed.

Lemma wp_await {A} (Q : A + panic_value → W → Prop) (f : W → option A) w :
  (∀ w1 a, rely w w1 → f w1 = Some a → guar w1 w1 ∧ Q (inl a) w1) →
  wp Q (await f) w.
Proof.
  intros H. apply wp_act. intros w1 [] w2 p' Hr E; try done.
  destruct (f w1) as [a|] eqn:Ef; [|done]. cbn in E. injection E as <- <-. by apply H.
Qed.

Lemma wp_call_out (Q : option error + panic_value → W → Prop) w :
  (∀ w1, rely w w1 → guar w1 w1 ∧ ∀ o, Q o w1) → wp Q call_out w.
Proof.
  intros H. apply wp_act. intros w1 [] w2 p' Hr E; try done.
  - injection E as <- <-. destruct (H w1 Hr). split; [done|]. cbn. auto.
  - injection E as <- <-. destruct (H w1 Hr). split; [done|]. cbn. auto.
Qed.

Context `{!Transitive rely}.
Context (guar_rely : ∀ w w', guar w w' → rely w w').

(** A fact the others keep true can be carried along a program. *)
Lemma wp_frame {A} (P : W → Prop) (Q : A + panic_value → W → Prop) q w :
  stable P → P w → wp Q q w → wp (λ o w, P w ∧ Q o w) q w.
Proof.
  intros HP. revert w. induction q as [a|v|g IH] using prog_induction; intros w HPw Hq; [done..|].
  apply wp_act. intros w1 c w2 p' Hr E.
  destruct (wp_act_inv _ _ _ _ _ _ _ Hq Hr E) as [Hg Hw]. split; [done|].
  eapply IH; [done| |done]. eapply HP; [eapply HP; done|]. by apply guar_rely.
Qed.

Lemma wp_par2 (P Q : W → Prop) p q w :
  stable P → stable Q →
  wp (returns (λ _, P)) p w → wp (returns (λ _, Q)) q w →
  wp (returns (λ _ w, P w ∧ Q w)) (par2 p q) w.
Proof.
  intros HP HQ. revert q w. induction p as [[]|v|f IHp] using prog_induction; intros q w Hp Hq.
  - assert (par2 (Ret tt) q = q) as -> by by destruct q as [[]| |].
    refine (wp_mono _ _ _ _ _ (wp_frame P _ _ _ HP Hp Hq)). intros [[]|] ?; cbn; tauto.
  - done.
  - revert w Hp Hq. induction q as [[]|v|g IHq] using prog_induction; intros w Hp Hq.
    + refine (wp_mono _ _ _ _ _ (wp_frame Q _ _ _ HQ Hq Hp)). intros [[]|] ?; cbn; tauto.
    + done.
    + apply wp_act. intros w1 c w2 p' Hr E.
      destruct c as [| | | | |c|c]; try done.
      * destruct (f c w1) as [[w3 p3]|] eqn:Ef; [|done]. injection E as <- <-.
        destruct (wp_act_inv _ _ _ _ _ _ _ Hp Hr Ef) as [Hg Hw]. split; [done|].
        apply (IHp _ _ _ _ Ef); [exact Hw|]. eapply (wp_rely _ _ w); [by intros; apply stable_returns|done|].
        etrans; [done|]. by apply guar_rely.
      * destruct (g c w1) as [[w3 p3]|] eqn:Eg; [|done]. injection E as <- <-.
        destruct (wp_act_inv _ _ _ _ _ _ _ Hq Hr Eg) as [Hg Hw]. split; [done|].
        apply (IHq _ _ _ _ Eg); [|exact Hw]. eapply (wp_rely _ _ w); [by intros; apply stable_returns|done|].
        etrans; [done|]. by apply guar_rely.
Qed.

Lemma wp_par (Ps : list (W → Prop)) ps w :
  Forall stable Ps → Forall2 (λ P p, wp (returns (λ _, P)) p w) Ps ps →
  wp (returns (λ _ w, Forall (λ P : W → Prop, P w) Ps)) (par ps) w.
Proof.
  intros HP. induction 1 as [|P p Ps ps Hp Hps IH]; [by constructor|].
  inversion_clear HP as [|? ? HP1 HP2]. cbn [par foldr].
  eapply wp_mono; [|apply (wp_par2 P (λ w, Forall (λ P : W → Prop, P w) Ps)); [done| |done|by apply IH]].
  - intros [[]|] ?; [|done]. cbn. intros [? ?]. by constructor.
  - clear - HP2. intros w w' H Hr. induction H; inversion_clear HP2; constructor; auto.
    by eapply H1.
Qed.
End wp.

(** A fact that the others and the program itself keep true is known at every
    action. *)
Lemma wp_carry (rely guar : W → W → Prop) {A} (P : W → Prop) (Q : A + panic_value → W → Prop) q w :
  stable guar P → stable rely P → P w → wp rely guar Q q w →
  wp rely (λ w w', P w ∧ guar w w') (λ o w, P w ∧ Q o w) q w.
Proof.
  intros HG HP. revert w. induction q as [a|v|g IH] using prog_induction; intros w HPw Hq; [done..|].
  apply wp_act. intros w1 c w2 p' Hr E. destruct (wp_act_inv _ _ _ _ _ _ _ _ _ Hq Hr E) as [Hg Hw].
  assert (P w1) by by eapply HP. split; [done|]. eapply IH; [done| |done]. by eapply HG.
Qed.

(** Fewer interferences, a weaker promise. *)
Lemma wp_weaken (rely rely' guar guar' : W → W → Prop) {A} (Q : A + panic_value → W → Prop) p w :
  (∀ w w', rely' w w' → rely w w') → (∀ w w', guar w w' → guar' w w') →
  wp rely guar Q p w → wp rely' guar' Q p w.
Proof.
  intros HR HG. revert w. induction p as [a|v|f IH] using prog_induction; intros w H; [exact H..|].
  apply wp_act. intros w1 c w2 p' Hr E.
  destruct (wp_act_inv _ _ _ _ _ _ _ _ _ H (HR _ _ Hr) E) as [Hg Hw]. eauto.
Qed.

(** The rule of consequence, with a fact carried along. *)
Lemma wp_conseq (P : W → Prop) (rely rely' guar guar' : W → W → Prop) {A}
    (Q Q' : A + panic_value → W → Prop) p w :
  wp rely guar Q p w → P w → stable guar P → stable rely P →
  (∀ w w', rely' w w' → rely w w') →
  (∀ w w', P w → guar w w' → guar' w w') →
  (∀ o w, P w → Q o w → Q' o w) →
  wp rely' guar' Q' p w.
Proof.
  intros Hp HP HG HR Hrr Hgg HQ.
  eapply wp_mono; [|eapply wp_weaken; [exact Hrr| |eapply (wp_carry rely guar P); [done..|exact Hp]]].
  - intros o w' [? ?]. by apply HQ.
  - intros w1 w2 [? ?]. by apply Hgg.
Qed.

(** ** Running alone

    A goroutine that is not interfered with, given the choices it meets. *)

Fixpoint prog_run {A} (cs : list choice) (p : prog A) (w : W) : option (W * prog A) :=
  match cs with
  | [] => Some (w, p)
  | c :: cs => '(w, p) ← prog_step c p w; prog_run cs p w
  end.

(** What a program that has settled settled as. *)
Definition outcome {A} (p : prog A) : option (A + panic_value) :=
  match p with Ret a => Some (inl a) | Raise v => Some (inr v) | Act _ => None end.

Lemma wp_run {A} (guar : W → W → Prop) (Q : A + panic_value → W → Prop) cs p w w' p' o :
  wp eq guar Q p w → prog_run cs p w = Some (w', p') → outcome p' = Some o → Q o w'.
Proof.
  revert p w. induction cs as [|c cs IH]; intros p w Hw Hr Ho; cbn in Hr.
  - injection Hr as <- <-. destruct p as [a|v|f]; cbn in Ho; [injection Ho as <-..|done]; exact Hw.
  - destruct (prog_step c p w) as [[w1 p1]|] eqn:E; [|done]. cbn in Hr.
    destruct (wp_step _ _ _ _ _ _ _ _ _ Hw eq_refl E) as [_ Hw1]. by eapply IH.
Qed.

(** Every program settles only as one of its runs does. *)
Lemma wp_runs {A} (p : prog A) w :
  wp eq (λ _ _, True) (λ o w', ∃ cs p', prog_run cs p w = Some (w', p') ∧ outcome p' = Some o) p w.
Proof.
  revert w. induction p as [a|v|f IH] using prog_induction; intros w; [by exists [], (Ret a)|by exists [], (Raise v)|].
  apply wp_act. intros w1 c w2 p' <- E. split; [done|]. eapply wp_mono; [|by eapply IH].
  intros o w3 (cs & p3 & Hr & Ho). exists (c :: cs), p3. cbn. by rewrite E.
Qed.
End prog.

Arguments prog W A : clear implicits.
Arguments Ret {_ _} _.
Arguments Raise {_ _} _.
Arguments Act {_ _} _.

#[export] Instance prog_ret {W} : MRet (prog W) := λ A, Ret.
#[export] Instance prog_mbind {W} : MBind (prog W) := λ A B k p, prog_bind k p.

End conc.
