(* ===== verification/Trace.v ===== *)
(** * What a goroutine's choices say

    A goroutine meets choices as it runs. [traced T p cs] says that, whatever
    the shared world does meanwhile, [p] settles only in an outcome that [T]
    allows after the choices it has met, those of [cs] first: an outcome is tied
    to what caused it. [blind I p] says that what [p] does next is decided by
    its choices alone, as long as the world satisfies [I]: it cannot tell two
    such worlds apart. *)

From S2P Require Import Prelude GoStrings GoErrors Conc.

Module trace.
Import conc.

Section traced.
Context {W : Type}.

Fixpoint traced {A} (T : A + panic_value → list choice → Prop) (p : prog W A) (cs : list choice) : Prop :=
  match p with
  | Ret a => T (inl a) cs
  | Raise v => T (inr v) cs
  | Act f => ∀ w c, match f c w with Some (_, p') => traced T p' (cs ++ [c]) | None => True end
  end.

Lemma traced_act {A} (T : A + panic_value → list choice → Prop) f cs :
  (∀ w c w' p', f c w = Some (w', p') → traced T p' (cs ++ [c])) → traced T (Act f) cs.
Proof. intros H w c. specialize (H w c). destruct (f c w) as [[w' p']|]; [|done]. by eapply H. Qed.

Lemma traced_step {A} (T : A + panic_value → list choice → Prop) c p cs w w' p' :
  traced T p cs → prog_step c p w = Some (w', p') → traced T p' (cs ++ [c]).
Proof. destruct p as [a|v|f]; [done..|]. intros H E. specialize (H w c). cbn in E. by rewrite E in H. Qed.

Lemma traced_outcome {A} (T : A + panic_value → list choice → Prop) p cs o :
  traced T p cs → outcome p = Some o → T o cs.
Proof. by destruct p; cbn; intros ? [= <-]. Qed.

(** What is allowed may be weakened, knowing that choices are only added. *)
Lemma traced_mono {A} (T T' : A + panic_value → list choice → Prop) p cs :
  (∀ o cs', cs `prefix_of` cs' → T o cs' → T' o cs') → traced T p cs → traced T' p cs.
Proof.
  revert cs. induction p as [a|v|f IH] using prog_induction; intros cs HT; [by apply HT..|].
  intros H. apply traced_act. intros w c w' p' E. eapply IH; [exact E| |by eapply (traced_step T c (Act f))].
  intros o cs' Hp. apply HT. etrans; [by apply prefix_app_r|exact Hp].
Qed.

Lemma traced_bind {A B} (T : B + panic_value → list choice → Prop) (k : A → prog W B) p cs :
  traced (λ o cs, match o with inl a => traced T (k a) cs | inr v => T (inr v) cs end) p cs →
  traced T (prog_bind k p) cs.
Proof.
  revert cs. induction p as [a|v|f IH] using prog_induction; intros cs H; [exact H..|].
  apply traced_act. intros w c w' p' E. destruct (f c w) as [[w1 p1]|] eqn:Ef; [|done].
  injection E as <- <-. eapply IH; [exact Ef|]. by eapply (traced_step _ c (Act f)).
Qed.

Lemma traced_recover {A} (T : A + panic_value → list choice → Prop) h p cs :
  traced (λ o cs, match o with inl a => T (inl a) cs | inr v => traced T (h v) cs end) p cs →
  traced T (prog_recover h p) cs.
Proof.
  revert cs. induction p as [a|v|f IH] using prog_induction; intros cs H; [exact H..|].
  apply traced_act. intros w c w' p' E. destruct (f c w) as [[w1 p1]|] eqn:Ef; [|done].
  injection E as <- <-. eapply IH; [exact Ef|]. by eapply (traced_step _ c (Act f)).
Qed.

Lemma traced_finally {A} (T : A + panic_value → list choice → Prop) d p cs :
  traced (λ o cs, traced (λ o' cs, match o' with inl _ => T o cs | inr v => T (inr v) cs end) d cs) p cs →
  traced T (prog_finally d p) cs.
Proof.
  revert cs. induction p as [a|v|f IH] using prog_induction; intros cs H.
  1,2: apply traced_bind; eapply traced_mono; [|exact H]; by intros [].
  apply traced_act. intros w c w' p' E. destruct (f c w) as [[w1 p1]|] eqn:Ef; [|done].
  injection E as <- <-. eapply IH; [exact Ef|]. by eapply (traced_step _ c (Act f)).
Qed.

Lemma traced_atomically {A} (T : A + panic_value → list choice → Prop) (f : W → W * A) cs :
  (∀ w w' a, f w = (w', a) → T (inl a) (cs ++ [Tau])) → traced T (atomically f) cs.
Proof.
  intros H. apply traced_act. intros w [] w' p' E; try done. destruct (f w) eqn:Ef. injection E as <- <-.
  by eapply H.
Qed.

Lemma traced_await {A} (T : A + panic_value → list choice → Prop) (f : W → option A) cs :
  (∀ w a, f w = Some a → T (inl a) (cs ++ [Tau])) → traced T (await f) cs.
Proof.
  intros H. apply traced_act. intros w [] w' p' E; try done. destruct (f w) eqn:Ef; [|done]. cbn in E.
  injection E as <- <-. by eapply H.
Qed.

(** Only a call out panics. *)
Definition called_out {A} (T : A → list choice → Prop) (o : A + panic_value) (cs : list choice) : Prop :=
  match o with inl a => T a cs | inr v => CallPanics v ∈ cs end.

End traced.

(** ** Goroutines that cannot tell two worlds apart *)

Section blind.
Context {W : Type} (I : W → Prop).

(** Every step of [p] leads to the same from any two worlds of [I], or is
    possible in neither; [Q] holds of how [p] settles. *)
Fixpoint blind {A} (Q : A + panic_value → Prop) (p : prog W A) : Prop :=
  match p with
  | Ret a => Q (inl a)
  | Raise v => Q (inr v)
  | Act f =>
      (∀ c w1 w2, I w1 → I w2 → snd <$> f c w1 = snd <$> f c w2) ∧
      ∀ c w, I w → match f c w with Some (_, p') => blind Q p' | None => True end
  end.

Lemma blind_act {A} (Q : A + panic_value → Prop) f :
  (∀ c w1 w2, I w1 → I w2 → snd <$> f c w1 = snd <$> f c w2) →
  (∀ c w w' p', I w → f c w = Some (w', p') → blind Q p') → blind Q (Act f).
Proof.
  intros H1 H2. split; [exact H1|]. intros c w Hw. destruct (f c w) as [[w' p']|] eqn:E; [|done]. by eapply H2.
Qed.

Lemma blind_step {A} (Q : A + panic_value → Prop) c p w w' p' :
  blind Q p → I w → prog_step c p w = Some (w', p') → blind Q p'.
Proof. destruct p as [a|v|f]; [done..|]. intros [_ H] Hw E. specialize (H c w Hw). cbn in E. by rewrite E in H. Qed.

Lemma blind_mono {A} (Q Q' : A + panic_value → Prop) (p : prog W A) :
  (∀ o, Q o → Q' o) → blind Q p → blind Q' p.
Proof.
  intros HQ. induction p as [a|v|f IH] using prog_induction; [apply HQ..|]. intros Hp.
  apply blind_act; [apply Hp|]. intros c w w' p' Hw E. eapply IH; [exact E|]. by eapply (blind_step _ c (Act f)).
Qed.

Lemma blind_bind {A B} (Q : A + panic_value → Prop) (Q' : B + panic_value → Prop) (k : A → prog W B) p :
  blind Q p → (∀ v, Q (inr v) → Q' (inr v)) → (∀ a, Q (inl a) → blind Q' (k a)) → blind Q' (prog_bind k p).
Proof.
  intros Hp Hv Hk. induction p as [a|v|f IH] using prog_induction; [by apply Hk|by apply Hv|].
  apply blind_act.
  - intros c w1 w2 H1 H2. pose proof (proj1 Hp c w1 w2 H1 H2) as H.
    destruct (f c w1) as [[? ?]|], (f c w2) as [[? ?]|]; cbn in *; congruence.
  - intros c w w' p' Hw E. destruct (f c w) as [[w1 p1]|] eqn:Ef; [|done]. injection E as <- <-.
    eapply IH; [exact Ef|]. by eapply (blind_step _ c (Act f)).
Qed.

Lemma blind_recover {A} (Q Q' : A + panic_value → Prop) h (p : prog W A) :
  blind Q p → (∀ a, Q (inl a) → Q' (inl a)) → (∀ v, Q (inr v) → blind Q' (h v)) → blind Q' (prog_recover h p).
Proof.
  intros Hp Ha Hh. induction p as [a|v|f IH] using prog_induction; [by apply Ha|by apply Hh|].
  apply blind_act.
  - intros c w1 w2 H1 H2. pose proof (proj1 Hp c w1 w2 H1 H2) as H.
    destruct (f c w1) as [[? ?]|], (f c w2) as [[? ?]|]; cbn in *; congruence.
  - intros c w w' p' Hw E. destruct (f c w) as [[w1 p1]|] eqn:Ef; [|done]. injection E as <- <-.
    eapply IH; [exact Ef|]. by eapply (blind_step _ c (Act f)).
Qed.

(** An action whose answer is the same in every world of [I]. *)
Lemma blind_atomically {A} (Q : A + panic_value → Prop) (f : W → W * A) a :
  (∀ w, I w → (f w).2 = a) → Q (inl a) → blind Q (atomically f).
Proof.
  intros Hf HQ. apply blind_act.
  - intros [] w1 w2 H1 H2; try done. pose proof (Hf w1 H1). pose proof (Hf w2 H2).
    destruct (f w1), (f w2). cbn in *. congruence.
  - intros [] w w' p' Hw E; try done. pose proof (Hf w Hw). destruct (f w). cbn in *. injection E as _ <-.
    cbn. congruence.
Qed.

(** [p] becomes [p'] in the steps [cs], each from a world of [I]. *)
Inductive steps {A} : list choice → prog W A → prog W A → Prop :=
| steps_nil p : steps [] p p
| steps_cons c cs p w w' p1 p' : I w → prog_step c p w = Some (w', p1) → steps cs p1 p' → steps (c :: cs) p p'.

(** Its choices decide what a blind goroutine has become. *)
Lemma blind_steps {A} (Q : A + panic_value → Prop) cs (p p1 p2 : prog W A) :
  blind Q p → steps cs p p1 → steps cs p p2 → p1 = p2.
Proof.
  intros Hp H. revert Hp p2. induction H as [p|c cs p w w' p1 p' Hw Es _ IH]; intros Hp p2 H2;
    inversion H2 as [|? ? ? w2 w2' q ? Hw2 Es2 Hs2]; [done|]. subst.
  assert (q = p1) as ->; [|by eapply IH; [by eapply blind_step|]].
  destruct p as [a|v|f]; [done..|]. pose proof (proj1 Hp c w w2 Hw Hw2) as H. cbn in Es, Es2.
  rewrite Es, Es2 in H. by injection H.
Qed.

(** As does what it settled as. *)
Lemma blind_settles {A} (Q : A + panic_value → Prop) cs (p p1 : prog W A) o :
  blind Q p → steps cs p p1 → outcome p1 = Some o → Q o.
Proof.
  intros Hp H. revert Hp. induction H as [p|c cs p w w' p1 p' Hw Es _ IH]; intros Hp Ho.
  - by destruct p; cbn in Ho; simplify_eq.
  - apply IH; [by eapply blind_step|done].
Qed.

End blind.

(** ** Taking a run apart *)

Section runs.
Context {W : Type}.

Lemma run_settled {A} cs (p p' : prog W A) w w' :
  prog_run cs p w = Some (w', p') → settled p = true → cs = [] ∧ w' = w ∧ p' = p.
Proof. destruct cs as [|c cs]; cbn; [by intros [= -> ->]|]. by destruct p. Qed.

(** A run of a sequence that has settled: the first part has settled, and the
    second has run from there, unless the first part panicked. *)
Lemma run_bind {A B} cs (k : A → prog W B) p w w' q o :
  prog_run cs (prog_bind k p) w = Some (w', q) → outcome q = Some o →
  (∃ cs1 cs2 w1 a, cs = cs1 ++ cs2 ∧ prog_run cs1 p w = Some (w1, Ret a) ∧ prog_run cs2 (k a) w1 = Some (w', q)) ∨
  (∃ v, prog_run cs p w = Some (w', Raise v) ∧ q = Raise v).
Proof.
  revert cs w. induction p as [a|v|f IH] using prog_induction; intros cs w Hr Ho.
  - left. by exists [], cs, w, a.
  - right. exists v. by destruct (run_settled _ _ _ _ _ Hr eq_refl) as (-> & -> & ->).
  - destruct cs as [|c cs]; cbn in Hr; [by injection Hr as <- <-|].
    destruct (f c w) as [[w1 p1]|] eqn:E; [|done]. cbn in Hr.
    destruct (IH _ _ _ _ E _ _ Hr Ho) as [(cs1 & cs2 & w2 & a & -> & H1 & H2)|(v & H1 & ->)].
    + left. exists (c :: cs1), cs2, w2, a. cbn. by rewrite E.
    + right. exists v. cbn. by rewrite E.
Qed.

(** A run under a recover: without a panic it is the program's; after one, the
    deferred function has run. *)
Lemma run_recover {A} cs (h : panic_value → prog W A) p w w' q o :
  prog_run cs (prog_recover h p) w = Some (w', q) → outcome q = Some o →
  (∃ a, prog_run cs p w = Some (w', Ret a) ∧ q = Ret a) ∨
  (∃ cs1 cs2 w1 v, cs = cs1 ++ cs2 ∧ prog_run cs1 p w = Some (w1, Raise v) ∧ prog_run cs2 (h v) w1 = Some (w', q)).
Proof.
  revert cs w. induction p as [a|v|f IH] using prog_induction; intros cs w Hr Ho.
  - left. exists a. by destruct (run_settled _ _ _ _ _ Hr eq_refl) as (-> & -> & ->).
  - right. by exists [], cs, w, v.
  - destruct cs as [|c cs]; cbn in Hr; [by injection Hr as <- <-|].
    destruct (f c w) as [[w1 p1]|] eqn:E; [|done]. cbn in Hr.
    destruct (IH _ _ _ _ E _ _ Hr Ho) as [(a & H1 & ->)|(cs1 & cs2 & w2 & v & -> & H1 & H2)].
    + left. exists a. cbn. by rewrite E.
    + right. exists (c :: cs1), cs2, w2, v. cbn. by rewrite E.
Qed.

End runs.

End trace.
