(* ===== verification/Progress.v ===== *)
(** * Goroutines that are not stuck

    [live]: every action a goroutine comes to is enabled, once what it waits for
    is there. The rules follow the logic of [Conc], which supplies the facts that
    hold between two actions. [inevitable]: whatever the order of the steps, a
    state with a given property is reached. *)

From S2P Require Import Prelude GoStrings GoErrors Conc.

Module progress.
Import conc.

(** A program keeps a promise that promises nothing. *)
Lemma wp_top {W} (rely : W → W → Prop) {A} (p : prog W A) w : wp rely (λ _ _, True) (λ _ _, True) p w.
Proof.
  revert w. induction p as [a|v|f IH] using prog_induction; intros w; [done..|].
  apply wp_act. intros w1 c w2 p' _ E. split; [done|]. by eapply IH.
Qed.

Section live.
Context {W : Type} (rely guar : W → W → Prop).

(** Started in a world, and whatever the others do within [rely] between its
    actions, [p] has a possible action whenever [ready] holds and it has not
    settled. *)
Fixpoint live {A} (ready : W → Prop) (p : prog W A) : W → Prop :=
  match p with
  | Act f => λ w, ∀ w1, rely w w1 →
      (ready w1 → ∃ c, is_Some (f c w1)) ∧
      ∀ c, match f c w1 with Some (w2, p') => live ready p' w2 | None => True end
  | _ => λ _, True
  end.

Context (ready : W → Prop).

Lemma live_act {A} f w :
  (∀ w1, rely w w1 → ready w1 → ∃ c, is_Some (f c w1)) →
  (∀ w1 c w2 p', rely w w1 → f c w1 = Some (w2, p') → live ready p' w2) →
  live (A := A) ready (Act f) w.
Proof.
  intros He Hn w1 Hr. split; [by apply He|]. intros c.
  destruct (f c w1) as [[w2 p']|] eqn:E; [by eapply Hn|done].
Qed.

Lemma live_enabled {A} f w w1 : live (A := A) ready (Act f) w → rely w w1 → ready w1 → ∃ c, is_Some (f c w1).
Proof. intros H Hr. by apply H. Qed.

Lemma live_step {A} (p : prog W A) c w w1 w2 p' :
  live ready p w → rely w w1 → prog_step c p w1 = Some (w2, p') → live ready p' w2.
Proof.
  destruct p as [a|v|f]; [done..|]. intros H Hr E. destruct (H w1 Hr) as [_ Hn].
  specialize (Hn c). cbn in E. by rewrite E in Hn.
Qed.

(** An unsettled goroutine with what it waits for can act. *)
Lemma live_moves `{!Reflexive rely} {A} (p : prog W A) w :
  live ready p w → ready w → settled p = false → ∃ c, is_Some (prog_step c p w).
Proof. destruct p as [a|v|f]; [done..|]. intros H Hw _. by apply H. Qed.

Lemma live_rely `{!Transitive rely} {A} (p : prog W A) w w' : live ready p w → rely w w' → live ready p w'.
Proof.
  destruct p as [a|v|f]; [done..|]. intros H Hr w1 Hr1. apply H. by etrans.
Qed.

(** The continuation is live wherever the first part ends. *)
Lemma live_bind {A B} (k : A → prog W B) p w :
  wp rely guar (λ o w, match o with inl a => live ready (k a) w | inr _ => True end) p w →
  live ready p w → live ready (prog_bind k p) w.
Proof.
  revert w. induction p as [a|v|f IH] using prog_induction; intros w Hw Hl; [exact Hw|done|].
  cbn [prog_bind]. apply live_act.
  - intros w1 Hr Hready. destruct (live_enabled _ _ _ Hl Hr Hready) as [c [[w2 p'] Hc]].
    exists c. rewrite Hc. by eexists.
  - intros w1 c w2 p' Hr E. destruct (f c w1) as [[w3 p3]|] eqn:Ef; [|done]. injection E as <- <-.
    destruct (wp_act_inv _ _ _ _ _ _ _ _ _ Hw Hr Ef) as [_ Hw3].
    eapply IH; [done|done|]. by eapply (live_step (Act f)).
Qed.

Lemma live_bind_any {A B} (k : A → prog W B) p w :
  (∀ a w, live ready (k a) w) → live ready p w → live ready (prog_bind k p) w.
Proof.
  revert w. induction p as [a|v|f IH] using prog_induction; intros w Hk Hl; [apply Hk|done|].
  cbn [prog_bind]. apply live_act.
  - intros w1 Hr Hready. destruct (live_enabled _ _ _ Hl Hr Hready) as [c [[w2 p'] Hc]].
    exists c. rewrite Hc. by eexists.
  - intros w1 c w2 p' Hr E. destruct (f c w1) as [[w3 p3]|] eqn:Ef; [|done]. injection E as <- <-.
    eapply IH; [done|done|]. by eapply (live_step (Act f)).
Qed.

Lemma live_recover {A} h (p : prog W A) w :
  wp rely guar (λ o w, match o with inl _ => True | inr v => live ready (h v) w end) p w →
  live ready p w → live ready (prog_recover h p) w.
Proof.
  revert w. induction p as [a|v|f IH] using prog_induction; intros w Hw Hl; [done|exact Hw|].
  cbn [prog_recover]. apply live_act.
  - intros w1 Hr Hready. destruct (live_enabled _ _ _ Hl Hr Hready) as [c [[w2 p'] Hc]].
    exists c. rewrite Hc. by eexists.
  - intros w1 c w2 p' Hr E. destruct (f c w1) as [[w3 p3]|] eqn:Ef; [|done]. injection E as <- <-.
    destruct (wp_act_inv _ _ _ _ _ _ _ _ _ Hw Hr Ef) as [_ Hw3].
    eapply IH; [done|done|]. by eapply (live_step (Act f)).
Qed.

Lemma live_finally {A} d (p : prog W A) w :
  wp rely guar (λ _ w, wp rely guar (λ _ _, True) d w ∧ live ready d w) p w →
  live ready p w → live ready (prog_finally d p) w.
Proof.
  revert w. induction p as [a|v|f IH] using prog_induction; intros w Hw Hl.
  1,2: destruct Hw as [Hw Hd]; apply live_bind; [|done]; eapply wp_mono; [|exact Hw]; by intros [].
  cbn [prog_finally]. apply live_act.
  - intros w1 Hr Hready. destruct (live_enabled _ _ _ Hl Hr Hready) as [c [[w2 p'] Hc]].
    exists c. rewrite Hc. by eexists.
  - intros w1 c w2 p' Hr E. destruct (f c w1) as [[w3 p3]|] eqn:Ef; [|done]. injection E as <- <-.
    destruct (wp_act_inv _ _ _ _ _ _ _ _ _ Hw Hr Ef) as [_ Hw3].
    eapply IH; [done|done|]. by eapply (live_step (Act f)).
Qed.

Lemma live_atomically {A} (f : W → W * A) w : live ready (atomically f) w.
Proof.
  apply live_act.
  - intros w1 _ _. exists Tau. destruct (f w1). by eexists.
  - intros w1 c w2 p' _ E. destruct c; try done. destruct (f w1). by injection E as <- <-.
Qed.

(** Waiting is live when what is waited for is part of [ready]. *)
Lemma live_await {A} (f : W → option A) w :
  (∀ w1, rely w w1 → ready w1 → is_Some (f w1)) → live ready (await f) w.
Proof.
  intros H. apply live_act.
  - intros w1 Hr Hw. destruct (H w1 Hr Hw) as [a Ha]. exists Tau. rewrite Ha. by eexists.
  - intros w1 c w2 p' _ E. destruct c; try done. destruct (f w1); [|done]. by injection E as <- <-.
Qed.

Lemma live_atomically_bind {A B} (f : W → W * A) (k : A → prog W B) w :
  (∀ w1 w2 a, rely w w1 → f w1 = (w2, a) → live ready (k a) w2) →
  live ready (prog_bind k (atomically f)) w.
Proof.
  intros H. apply live_act.
  - intros w1 _ _. exists Tau. destruct (f w1). by eexists.
  - intros w1 c w2 p' Hr E. destruct c; try done. destruct (f w1) eqn:Ef. injection E as <- <-. by eapply H.
Qed.

Lemma live_await_bind {A B} (f : W → option A) (k : A → prog W B) w :
  (∀ w1, rely w w1 → ready w1 → is_Some (f w1)) →
  (∀ w1 a, rely w w1 → f w1 = Some a → live ready (k a) w1) →
  live ready (prog_bind k (await f)) w.
Proof.
  intros He H. apply live_act.
  - intros w1 Hr Hw. destruct (He w1 Hr Hw) as [a Ha]. exists Tau. rewrite Ha. by eexists.
  - intros w1 c w2 p' Hr E. destruct c; try done. destruct (f w1) eqn:Ef; [|done]. injection E as <- <-. by apply H.
Qed.

(** Two goroutines and the [WaitGroup] that waits for both can act as long as
    one of them can. *)
Lemma live_par2 `{!Transitive rely} p q w :
  (∀ w w', guar w w' → rely w w') →
  wp rely guar (λ _ _, True) p w → live ready p w →
  wp rely guar (λ _ _, True) q w → live ready q w → live ready (par2 p q) w.
Proof.
  intros Hgr. revert q w. induction p as [[]|v|f IHp] using prog_induction; intros q w Hp Lp Hq Lq.
  - by destruct q as [[]| |].
  - by destruct q as [[]| |].
  - revert w Hp Lp Hq Lq. induction q as [[]|v|g IHq] using prog_induction; intros w Hp Lp Hq Lq; [exact Lp|done|].
    apply live_act.
    + intros w1 Hr Hw. destruct (live_enabled _ _ _ Lp Hr Hw) as [c [[w2 p'] Hc]].
      exists (GoLeft c). rewrite Hc. by eexists.
    + intros w1 c w2 p' Hr E.
      destruct c as [| | | | |c|c]; try done.
      * destruct (f c w1) as [[w3 p3]|] eqn:Ef; [|done]. injection E as <- <-.
        destruct (wp_act_inv _ _ _ _ _ _ _ _ _ Hp Hr Ef) as [Hg Hw]. assert (rely w w3) by (etrans; [done|by apply Hgr]).
        apply (IHp _ _ _ _ Ef); [done|exact (live_step (Act f) _ _ _ _ _ Lp Hr Ef)| |by eapply live_rely].
        by eapply wp_rely.
      * destruct (g c w1) as [[w3 p3]|] eqn:Eg; [|done]. injection E as <- <-.
        destruct (wp_act_inv _ _ _ _ _ _ _ _ _ Hq Hr Eg) as [Hg Hw]. assert (rely w w3) by (etrans; [done|by apply Hgr]).
        apply (IHq _ _ _ _ Eg); [by eapply wp_rely|by eapply live_rely|done|exact (live_step (Act g) _ _ _ _ _ Lq Hr Eg)].
Qed.

Lemma live_par `{!Transitive rely} ps w :
  (∀ w w', guar w w' → rely w w') →
  Forall (λ p, wp rely guar (returns (λ _ _, True)) p w ∧ live ready p w) ps →
  live ready (par ps) w.
Proof.
  intros Hgr. induction 1 as [|p ps [Hp Lp] Hps IH]; [done|]. cbn [par foldr].
  assert (∀ q : prog W unit, wp rely guar (returns (λ _ _, True)) q w → wp rely guar (λ _ _, True) q w) as Hmono.
  { intros q. by apply wp_mono. }
  apply live_par2; [done|by apply Hmono|done| |done]. eapply wp_mono; [|apply (wp_par _ _ Hgr ((λ _ _, True) <$> ps))].
  - done.
  - apply Forall_fmap, Forall_forall. by intros.
  - apply Forall2_fmap_l, Forall_Forall2_diag. eapply Forall_impl; [exact Hps|]. by intros q [? _].
Qed.
End live.

(** A program gets smaller with every step. *)
Definition prog_lt {W A} (p' p : prog W A) : Prop := ∃ c w w', prog_step c p w = Some (w', p').

Lemma prog_lt_wf {W A} (p : prog W A) : Acc prog_lt p.
Proof.
  induction p as [a|v|f IH] using prog_induction; constructor; intros p' (c & w & w' & H); [done..|]. by eapply IH.
Qed.

(** What is well-founded is irreflexive. *)
Lemma acc_irrefl {S} (R : S → S → Prop) s : Acc R s → ¬ R s s.
Proof. induction 1 as [s _ IH]. intros H. by apply (IH s). Qed.

(** ** Inevitability *)

Section inevitable.
Context {S : Type} (step : S → S → Prop) (P : S → Prop).

(** Every run of steps that cannot be prolonged passes through [P], and every
    run long enough has done so. *)
Inductive inevitable (s : S) : Prop :=
| Now (HP : P s)
| Later (HE : ∃ s', step s s') (HN : ∀ s', step s s' → inevitable s').

(** Each step keeps the invariant and comes closer, and there is one until [P]
    holds. *)
Lemma inevitable_wf (Inv : S → Prop) (closer : S → S → Prop) s :
  (∀ s, Inv s → P s ∨ (∃ s', step s s') ∧ ∀ s', step s s' → Inv s' ∧ closer s' s) →
  Acc closer s → Inv s → inevitable s.
Proof.
  intros H Hacc. induction Hacc as [s _ IH]. intros Hi.
  destruct (H s Hi) as [HP|[He Hn]]; [by apply Now|]. apply Later; [done|].
  intros s' Hs. destruct (Hn _ Hs). by apply IH.
Qed.

(** No run avoids [P] for ever. *)
Lemma inevitable_meets s (run : nat → S) :
  inevitable s → run 0 = s → (∀ n, step (run n) (run (n + 1))) → ∃ n, P (run n).
Proof.
  intros H. revert run. induction H as [s HP|s _ _ IH]; intros run H0 Hrun; [exists 0; by rewrite H0|].
  destruct (IH (run 1) ltac:(rewrite <-H0; apply (Hrun 0)) (λ n, run (n + 1)) eq_refl) as [n Hn].
  - intros n. apply Hrun.
  - by exists (n + 1).
Qed.
End inevitable.

(** ** Many goroutines *)

Section maps.
Context {V : Type} (R : V → V → Prop).

(** One value of a map becomes smaller. *)
Definition map_lt (m' m : gmap nat V) : Prop :=
  ∃ k v v', m !! k = Some v ∧ m' = <[k := v']> m ∧ R v' v.

Lemma map_lt_insert k v m : Acc R v → Acc map_lt m → m !! k = None → Acc map_lt (<[k := v]> m).
Proof.
  intros Hv. revert m. induction Hv as [v _ IHv]. intros m Hm. induction Hm as [m Hacc IHm]. intros Hk.
  constructor. intros m' (k' & u & u' & Hu & -> & Hlt). destruct (decide (k' = k)) as [->|Hne].
  - rewrite lookup_insert_eq in Hu. injection Hu as <-. rewrite insert_insert_eq.
    apply IHv; [done|by constructor|done].
  - rewrite lookup_insert_ne in Hu by done. rewrite insert_insert_ne by done. apply IHm.
    + by exists k', u, u'.
    + by rewrite lookup_insert_ne.
Qed.

Lemma map_lt_wf : (∀ v, Acc R v) → ∀ m, Acc map_lt m.
Proof.
  intros HR. refine (map_ind _ _ _).
  - constructor. intros m' (k & v & v' & Hk & _). by rewrite lookup_empty in Hk.
  - intros k v m Hk Hm. by apply map_lt_insert.
Qed.
End maps.

End progress.
