(* ===== verification/SpiffeID.v ===== *)
(** * SPIFFE IDs: [internal/authn/spiffeid/id.go]

    [Parse] and the accessors of an [ID], with the grammar of the standard as a
    specification ([spiffe_uri]) that [Parse] decides. *)

From S2P Require Import Prelude GoStrings GoErrors.

Module spiffeid.

(** [type ID struct]: comparable, so equality of IDs is equality of fields. *)
Record ID := mkID { uri : string; trustDomain : string; path : string }.

#[export] Instance ID_eq_dec : EqDecision ID.
Proof. solve_decision. Defined.

Definition zeroID : ID := mkID "" "" "".

Definition uriScheme : string := "spiffe://".
Definition uriSchemeLength : nat := len uriScheme.
Definition maxIDLength : nat := 2048.
Definition maxTrustDomainLength : nat := 255.

Definition slash : ascii := "/"%char.

(** [^[a-z0-9._-]+$] *)
Definition trustDomainByte (c : ascii) : bool :=
  is_lower c || is_digit c || is_byte "."%char c || is_byte "_"%char c || is_byte "-"%char c.

Definition validTrustDomainPattern : string → bool := match_class_plus trustDomainByte.

(** [^[a-zA-Z0-9._-]+$] *)
Definition pathComponentByte (c : ascii) : bool :=
  is_lower c || is_upper c || is_digit c || is_byte "."%char c || is_byte "_"%char c
  || is_byte "-"%char c.

Definition validPathComponentPattern : string → bool := match_class_plus pathComponentByte.

Definition validateTrustDomain (trustDomain : string) : option error :=
  if (maxTrustDomainLength <? len trustDomain)%nat then
    Some (errorf ("validate trust-domain (" +:+ pretty (len trustDomain) +:+ " bytes)")
            (Sentinel ErrTrustDomainTooLong))
  else if negb (validTrustDomainPattern trustDomain) then
    Some (errorf ("validate trust-domain [" +:+ trustDomain +:+ "]") (Sentinel ErrInvalidTrustDomain))
  else None.

(** The test of one component in [validatePath]'s loop. *)
Definition badComponent (component : string) : bool :=
  negb (validPathComponentPattern component) || (component =? ".")%string
  || (component =? "..")%string.

(** The loop of [validatePath]: the first bad component is reported. *)
Fixpoint validateComponents (components : list string) : option error :=
  match components with
  | [] => None
  | component :: rest =>
      if badComponent component then
        Some (errorf ("validate path-component [" +:+ component +:+ "]")
                (Sentinel ErrInvalidPathComponent))
      else validateComponents rest
  end.

Definition validatePath (path : string) : option error :=
  if (path =? "")%string then None
  else validateComponents (Split slash (slice_from 1 path)).

Definition parse_wrap : error → error := errorf "parse spiffeid".

Definition Parse (uri : string) : result ID :=
  if negb (HasPrefix uri uriScheme) then Err (parse_wrap (Sentinel ErrNotSPIFFE))
  else if (maxIDLength <? len uri)%nat then Err (parse_wrap (Sentinel ErrIDTooLong))
  else
    let '(trustDomain, _, _) := Cut slash (slice_from uriSchemeLength uri) in
    let path := slice_from (uriSchemeLength + len trustDomain) uri in
    _ ← check (validateTrustDomain trustDomain) parse_wrap;
    _ ← check (validatePath path) parse_wrap;
    Ok (mkID uri trustDomain path).

Definition ID_TrustDomain (i : ID) : string := trustDomain i.
Definition ID_Path (i : ID) : string := path i.
Definition ID_String (i : ID) : string := uri i.

Definition ID_PathComponents (i : ID) : list string :=
  if (path i =? "")%string then [] else Split slash (slice_from 1 (path i)).

(** ** The standard's grammar, as a specification *)

Definition component_ok (c : string) : Prop :=
  validPathComponentPattern c = true ∧ c ≠ "." ∧ c ≠ "..".

(** The path text of a list of components, with the leading separators. *)
Definition path_text (components : list string) : string :=
  match components with [] => "" | _ => String slash (Join slash components) end.

(** [u] is the SPIFFE ID of trust domain [td] and path components [cs]. *)
Record spiffe_uri (u td : string) (cs : list string) : Prop := {
  su_text : u = uriScheme +:+ td +:+ path_text cs;
  su_len : len u ≤ maxIDLength;
  su_td_len : len td ≤ maxTrustDomainLength;
  su_td : validTrustDomainPattern td = true;
  su_cs : Forall component_ok cs;
}.

(** ** Lemmas *)

Lemma badComponent_spec c : badComponent c = false ↔ component_ok c.
Proof.
  unfold badComponent, component_ok.
  rewrite !orb_false_iff, negb_false_iff, !String.eqb_neq. naive_solver.
Qed.

Lemma validateComponents_None cs : validateComponents cs = None ↔ Forall component_ok cs.
Proof.
  induction cs as [|c cs IH]; cbn; [split; auto|].
  destruct (badComponent c) eqn:Hc; rewrite Forall_cons.
  - split; [done|]. intros [H%badComponent_spec ?]. congruence.
  - apply badComponent_spec in Hc. naive_solver.
Qed.

Lemma validateComponents_Some cs e :
  validateComponents cs = Some e →
  ∃ pre c post, cs = pre ++ c :: post ∧ Forall component_ok pre ∧ ¬ component_ok c ∧
    e = errorf ("validate path-component [" +:+ c +:+ "]") (Sentinel ErrInvalidPathComponent).
Proof.
  induction cs as [|c cs IH]; cbn; [done|].
  destruct (badComponent c) eqn:Hc.
  - intros [= <-]. exists [], c, cs. split_and!; [done|constructor| |done].
    intros H%badComponent_spec. congruence.
  - intros (pre & d & post & -> & ? & ? & ?)%IH. exists (c :: pre), d, post.
    split_and!; [done| |done|done]. constructor; [by apply badComponent_spec|done].
Qed.

Lemma trustDomainByte_not_slash c : trustDomainByte c = true → not_byte slash c = true.
Proof. destruct c as [[] [] [] [] [] [] [] []]; vm_compute; congruence. Qed.

Lemma pathComponentByte_not_slash c : pathComponentByte c = true → not_byte slash c = true.
Proof. destruct c as [[] [] [] [] [] [] [] []]; vm_compute; congruence. Qed.

Lemma trustDomain_free td : validTrustDomainPattern td = true → free_of slash td = true.
Proof.
  intros [_ H]%match_class_plus_spec. revert H. apply all_bytes_weaken, trustDomainByte_not_slash.
Qed.

Lemma component_free c : component_ok c → free_of slash c = true.
Proof.
  intros [[_ H]%match_class_plus_spec _]. revert H.
  apply all_bytes_weaken, pathComponentByte_not_slash.
Qed.

Lemma component_not_empty c : component_ok c → c ≠ "".
Proof. by intros [[? _]%match_class_plus_spec _]. Qed.

#[export] Hint Resolve trustDomain_free component_free component_not_empty : fizz.

Lemma components_free cs : Forall component_ok cs → Forall (λ c, free_of slash c = true) cs.
Proof. intros H. eapply Forall_impl; [exact H|]. eauto with fizz. Qed.

(** A path is what its components say it is: [validatePath] on the text that
    follows a trust domain accepts exactly the joined valid components. *)
Lemma validatePath_None p :
  p = "" ∨ (∃ r, p = String slash r) →
  validatePath p = None ↔ ∃ cs, p = path_text cs ∧ Forall component_ok cs.
Proof.
  unfold validatePath. intros [->|[r ->]]; cbn -[Split].
  - split; [intros _; by exists []|done].
  - rewrite validateComponents_None. split.
    + intros H. exists (Split slash r). split; [|done].
      pose proof (Split_not_nil slash r). unfold path_text.
      destruct (Split slash r) eqn:E; [done|]. by rewrite <-E, Join_Split.
    + intros ([|c cs] & Hp & Hcs); [done|]. injection Hp as Hp.
      change (r = Join slash (c :: cs)) in Hp. rewrite Hp.
      by rewrite Split_Join by auto using components_free.
Qed.

Lemma validateTrustDomain_None td :
  validateTrustDomain td = None ↔
  len td ≤ maxTrustDomainLength ∧ validTrustDomainPattern td = true.
Proof.
  unfold validateTrustDomain. destruct (Nat.ltb_spec maxTrustDomainLength (len td)).
  { split; [done|]. lia. }
  destruct (validTrustDomainPattern td); cbn; naive_solver.
Qed.

(** The shape of any URI with the scheme: the trust domain [Cut] finds, and the
    rest of the URI, which is empty or starts with the separator. *)
Lemma uri_split u :
  HasPrefix u uriScheme = true →
  let td := (Cut slash (slice_from uriSchemeLength u)).1.1 in
  let p := slice_from (uriSchemeLength + len td) u in
  u = uriScheme +:+ td +:+ p ∧ (p = "" ∨ ∃ r, p = String slash r) ∧ free_of slash td = true.
Proof.
  intros [r ->]%HasPrefix_spec. cbv zeta. unfold uriSchemeLength at 1.
  rewrite slice_from_app. unfold uriSchemeLength. rewrite slice_from_app, slice_from_app_plus.
  destruct (Cut_before slash r) as (rest & Hr & Hf & Hs).
  set (td := (Cut slash r).1.1) in *. rewrite Hr, slice_from_app. auto.
Qed.

(** The trust domain and the path [Parse] cuts out of a URI. *)
Definition cut_trustDomain (u : string) : string := (Cut slash (slice_from uriSchemeLength u)).1.1.
Definition cut_path (u : string) : string :=
  slice_from (uriSchemeLength + len (cut_trustDomain u)) u.

Lemma Parse_unfold u :
  HasPrefix u uriScheme = true → len u ≤ maxIDLength →
  Parse u = (_ ← check (validateTrustDomain (cut_trustDomain u)) parse_wrap;
             _ ← check (validatePath (cut_path u)) parse_wrap;
             Ok (mkID u (cut_trustDomain u) (cut_path u))).
Proof.
  intros Hp Hl. unfold Parse, cut_path, cut_trustDomain. rewrite Hp. cbn [negb].
  destruct (Nat.ltb_spec maxIDLength (len u)); [lia|].
  by destruct (Cut slash (slice_from uriSchemeLength u)) as [[td a] f].
Qed.

Lemma path_text_shape cs : path_text cs = "" ∨ ∃ r, path_text cs = String slash r.
Proof. destruct cs; cbn; eauto. Qed.

Lemma cut_of_text td cs :
  free_of slash td = true →
  cut_trustDomain (uriScheme +:+ td +:+ path_text cs) = td ∧
  cut_path (uriScheme +:+ td +:+ path_text cs) = path_text cs.
Proof.
  intros Hf. unfold cut_path.
  assert (cut_trustDomain (uriScheme +:+ td +:+ path_text cs) = td) as ->.
  { unfold cut_trustDomain, uriSchemeLength. rewrite slice_from_app.
    by apply Cut_before_app; [|apply path_text_shape]. }
  unfold uriSchemeLength. by rewrite slice_from_app_plus, slice_from_app.
Qed.

Lemma components_of_text u td cs :
  Forall component_ok cs → ID_PathComponents (mkID u td (path_text cs)) = cs.
Proof.
  unfold ID_PathComponents. intros H. destruct cs as [|c cs]; [done|].
  change (Split slash (Join slash (c :: cs)) = c :: cs).
  by apply Split_Join; [|apply components_free].
Qed.

Lemma Parse_total u :
  (∃ td cs, spiffe_uri u td cs ∧ Parse u = Ok (mkID u td (path_text cs))) ∨
  (HasPrefix u uriScheme = false ∧ Parse u = Err (parse_wrap (Sentinel ErrNotSPIFFE))) ∨
  (HasPrefix u uriScheme = true ∧ maxIDLength < len u ∧
     Parse u = Err (parse_wrap (Sentinel ErrIDTooLong))) ∨
  (HasPrefix u uriScheme = true ∧ len u ≤ maxIDLength ∧
     ∃ e, validateTrustDomain (cut_trustDomain u) = Some e ∧ Parse u = Err (parse_wrap e)) ∨
  (HasPrefix u uriScheme = true ∧ len u ≤ maxIDLength ∧
     validateTrustDomain (cut_trustDomain u) = None ∧
     ∃ e, validatePath (cut_path u) = Some e ∧ Parse u = Err (parse_wrap e)).
Proof.
  destruct (HasPrefix u uriScheme) eqn:Hp; [|right; left; split; [done|]; by unfold Parse; rewrite Hp].
  destruct (decide (len u ≤ maxIDLength)) as [Hl|Hl].
  2:{ do 2 right. left. split_and!; [done|lia|]. unfold Parse. rewrite Hp. cbn [negb].
      destruct (Nat.ltb_spec maxIDLength (len u)); [done|lia]. }
  rewrite Parse_unfold by done. destruct (uri_split u Hp) as (Hu & Hs & _).
  fold (cut_trustDomain u) in Hu, Hs. fold (cut_path u) in Hu, Hs.
  destruct (validateTrustDomain (cut_trustDomain u)) eqn:Htd; [do 3 right; left; eauto 10|].
  destruct (validatePath (cut_path u)) eqn:Hpath; [do 4 right; eauto 10|].
  left. apply validateTrustDomain_None in Htd as [??].
  apply (validatePath_None _ Hs) in Hpath as (cs & Hcs & ?).
  exists (cut_trustDomain u), cs. rewrite <-Hcs. split; [|done].
  constructor; rewrite <-?Hcs; done.
Qed.

Lemma Parse_complete u td cs : spiffe_uri u td cs → Parse u = Ok (mkID u td (path_text cs)).
Proof.
  intros [Hu Hl Htl Ht Hcs]. rewrite Parse_unfold; [|subst u; apply HasPrefix_app|done].
  destruct (cut_of_text td cs) as [H1 H2]; [by apply trustDomain_free|].
  rewrite <-Hu in H1, H2. rewrite H1, H2.
  rewrite (proj2 (validateTrustDomain_None td)) by done.
  rewrite (proj2 (validatePath_None _ (path_text_shape cs))) by eauto. done.
Qed.

(** The grammar is unambiguous: a URI has one reading. *)
Lemma spiffe_uri_unique u td cs td' cs' :
  spiffe_uri u td cs → spiffe_uri u td' cs' → td = td' ∧ cs = cs'.
Proof.
  intros H H'. pose proof (Parse_complete _ _ _ H) as E. rewrite (Parse_complete _ _ _ H') in E.
  injection E as <- Hp. split; [done|].
  rewrite <-(components_of_text u td' cs) by apply H. rewrite <-Hp. apply components_of_text, H'.
Qed.

Lemma Parse_String u i : Parse u = Ok i → ID_String i = u.
Proof.
  intros H. destruct (Parse_total u) as [(td & cs & _ & E)|Hno]; [by rewrite H in E; injection E as ->|].
  destruct Hno as [[? E]|[(? & ? & E)|[(? & ? & ? & ? & E)|(? & ? & ? & ? & ? & E)]]]; congruence.
Qed.

(** What [Parse] accepts, for the components that call it. *)
Lemma Parse_Ok (u : string) (i : ID) :
  Parse u = Ok i ↔
  ∃ td cs, spiffe_uri u td cs ∧ i = mkID u td (path_text cs) ∧ ID_PathComponents i = cs.
Proof.
  split.
  - intros H. destruct (Parse_total u) as [(td & cs & Hs & Ht)|Hno].
    + rewrite Ht in H. injection H as <-. exists td, cs.
      split_and!; [done|done|]. apply components_of_text, Hs.
    + destruct Hno as [[? E]|[(? & ? & E)|[(? & ? & ? & ? & E)|(? & ? & ? & ? & ? & E)]]]; congruence.
  - intros (td & cs & Hs & -> & _). by apply Parse_complete.
Qed.

(** ** Properties *)

(** C36: [Parse] accepts exactly the SPIFFE IDs of the standard's grammar, and
    the ID it returns carries the URI itself, its trust domain and its path;
    splitting the path gives back the components of the grammar. *)
Theorem Parse_spec (u : string) (i : ID) :
  (Parse u = Ok i ↔
   ∃ td cs, spiffe_uri u td cs ∧ i = mkID u td (path_text cs) ∧ ID_PathComponents i = cs) ∧
  (Parse u = Ok i → Parse (ID_String i) = Ok i).
Proof.
  split; [apply Parse_Ok|]. intros H. by rewrite (Parse_String _ _ H).
Qed.

(** A rejected URI is reported by the first rule it breaks, in the order
    scheme, total length, trust-domain length, trust-domain characters, path
    components, and by that rule's sentinel. *)
Theorem Parse_error_order (u : string) (e : error) (HE : Parse u = Err e) :
  let td := cut_trustDomain u in
  if negb (HasPrefix u uriScheme) then Is e ErrNotSPIFFE = true
  else if (maxIDLength <? len u)%nat then Is e ErrIDTooLong = true
  else if (maxTrustDomainLength <? len td)%nat then Is e ErrTrustDomainTooLong = true
  else if negb (validTrustDomainPattern td) then Is e ErrInvalidTrustDomain = true
  else Is e ErrInvalidPathComponent = true ∧
       ∃ pre c post, Split slash (slice_from 1 (cut_path u)) = pre ++ c :: post ∧
                     Forall component_ok pre ∧ ¬ component_ok c.
Proof.
  cbv zeta. destruct (HasPrefix u uriScheme) eqn:Hp; cbn [negb].
  2:{ unfold Parse in HE. rewrite Hp in HE. by injection HE as <-. }
  destruct (Nat.ltb_spec maxIDLength (len u)) as [Hl|Hl].
  { unfold Parse in HE. rewrite Hp in HE. cbn [negb] in HE.
    destruct (Nat.ltb_spec maxIDLength (len u)); [by injection HE as <-|lia]. }
  rewrite Parse_unfold in HE by done. unfold validateTrustDomain in HE.
  destruct (maxTrustDomainLength <? len (cut_trustDomain u))%nat; [by injection HE as <-|].
  destruct (validTrustDomainPattern (cut_trustDomain u)); [cbn [negb] in *|by injection HE as <-].
  unfold validatePath in HE. destruct (cut_path u =? "")%string; [done|].
  destruct (validateComponents _) eqn:Hc; [|done]. injection HE as <-.
  apply validateComponents_Some in Hc as (pre & c & post & ? & ? & ? & ->). eauto 10.
Qed.

Lemma Parse_error_order_witness :
  ∃ e, Parse "spiffe://fizzled.internal/client//smith" = Err e ∧ Is e ErrInvalidPathComponent = true.
Proof.
  eexists. split; [vm_compute; reflexivity|].
  exact (proj1 (Parse_error_order "spiffe://fizzled.internal/client//smith" _ eq_refl)).
Defined.

End spiffeid.
