(* ===== verification/X509.v ===== *)
(** * The part of [crypto/x509] and [time] the program reads

    A parsed certificate carries the fields the program inspects. Its public
    key is seen through the one type assertion the program makes. A URI SAN is
    given by its [String()] rendering, the only thing read from it. An instant
    is a number of nanoseconds counted from Go's zero time, a duration a
    number of nanoseconds. A pool keeps one copy of a certificate added twice. *)

From S2P Require Import Prelude GoStrings GoErrors.

Module x509.

Inductive Curve := P224 | P256 | P384 | P521.

#[export] Instance Curve_eq_dec : EqDecision Curve.
Proof. solve_decision. Defined.

(** [any], seen through the type assertion to a pointer to [ecdsa.PublicKey]. *)
Inductive PublicKey := ECDSAPublicKey (curve : Curve) | OtherPublicKey.

#[export] Instance PublicKey_eq_dec : EqDecision PublicKey.
Proof. solve_decision. Defined.

Record Certificate := mkCertificate {
  Raw : string;
  SerialNumber : Z;
  NotBefore : Z;
  NotAfter : Z;
  IsCA : bool;
  KeyUsage : Z;
  ExtKeyUsage : list Z;
  PublicKeyOf : PublicKey;
  URIs : list string;
}.

#[export] Instance Certificate_eq_dec : EqDecision Certificate.
Proof. solve_decision. Defined.

(** [x509.KeyUsage] is a bit mask in the order of the RFC's bits. *)
Definition KeyUsageDigitalSignature : Z := 1.
Definition KeyUsageCertSign : Z := 32.
Definition KeyUsageCRLSign : Z := 64.

(** [certificate.KeyUsage & usage != 0] *)
Definition has_usage (c : Certificate) (usage : Z) : bool := negb (Z.land (KeyUsage c) usage =? 0)%Z.

Definition ExtKeyUsageAny : Z := 0.
Definition ExtKeyUsageServerAuth : Z := 1.
Definition ExtKeyUsageClientAuth : Z := 2.

Definition CertPool := list Certificate.

Definition NewCertPool : CertPool := [].

Definition AddCert (pool : CertPool) (c : Certificate) : CertPool :=
  if existsb (λ d, (Raw d =? Raw c)%string) pool then pool else pool ++ [c].

Record VerifyOptions := mkVerifyOptions {
  DNSName : string;
  Roots : option CertPool;
  Intermediates : CertPool;
  CurrentTime : Z;
  KeyUsages : list Z;
  MaxConstraintComparisions : Z;
  CertificatePolicies : list string;
}.

(** [big.Int.Text(16)], which is also what the verb [%x] prints. *)
Definition hex_digit (n : N) : ascii :=
  if (n <? 10)%N then ascii_of_N (48 + n) else ascii_of_N (87 + n).

Fixpoint hex_digits (fuel : nat) (n : N) (acc : string) : string :=
  match fuel with
  | O => acc
  | S fuel =>
      let acc := String (hex_digit (n mod 16)%N) acc in
      if (n / 16 =? 0)%N then acc else hex_digits fuel (n / 16)%N acc
  end.

Definition hex_text (z : Z) : string :=
  let n := Z.abs_N z in
  (if (z <? 0)%Z then "-" else "") +:+ hex_digits (S (N.to_nat (N.size n))) n "".

Lemma AddCert_In pool c d : In d (AddCert pool c) → In d pool ∨ d = c.
Proof. unfold AddCert. destruct existsb; [auto|]. rewrite in_app_iff. cbn. naive_solver. Qed.

(** A pool built from a list holds only certificates of that list, and one copy
    of every encoding in it. *)
Definition pool_of (l : list Certificate) : CertPool := fold_left AddCert l NewCertPool.

Lemma fold_AddCert_In l pool d : In d (fold_left AddCert l pool) → In d pool ∨ In d l.
Proof.
  revert pool. induction l as [|c l IH]; intros pool; cbn; [auto|].
  intros [H|H]%IH; [|auto]. apply AddCert_In in H as [H| ->]; auto.
Qed.

Lemma pool_of_In l d : In d (pool_of l) → In d l.
Proof. intros [[]|H]%fold_AddCert_In. done. Qed.

End x509.
