(* ===== verification/X509SVID.v ===== *)
(** * X.509-SVID verification: [internal/authn/x509svid]

    [Verify] runs the standard library's chain verification at a clock clamped
    to the leaf's validity window, then the structural rules of the X509-SVID
    standard over the chain the peer presented. The chain verification itself,
    [x509.Certificate.Verify], is a parameter: nothing is assumed of it. *)

From S2P Require Import Prelude GoStrings GoErrors X509 SpiffeID.

Module x509svid.
Import x509.

(** [type Verifier struct]; the pool is [None] in a Verifier that was not built
    by [NewVerifier]. *)
Record Verifier := mkVerifier { bundle : option CertPool; skew : Z }.

(** [type Leaf struct] *)
Record Leaf := mkLeaf { leaf_spiffeID : spiffeid.ID; leaf_certificate : Certificate }.

Definition Leaf_ID (l : Leaf) : spiffeid.ID := leaf_spiffeID l.
Definition Leaf_Certificate (l : Leaf) : Certificate := leaf_certificate l.

(** [slices.Index(certificates, nil)] *)
Fixpoint index_nil (l : list (option Certificate)) : option nat :=
  match l with
  | [] => None
  | None :: _ => Some 0
  | Some _ :: l => S <$> index_nil l
  end.

(** The certificates of a slice that holds no nil. *)
Definition non_nil (l : list (option Certificate)) : list Certificate := omap id l.

Definition NewVerifier (roots : list (option Certificate)) (skew : Z) : result Verifier :=
  if (skew <? 0)%Z then Err (errorf "new verifier" (Sentinel ErrNegativeSkew))
  else match index_nil roots with
       | Some index =>
           Err (errorf ("new verifier: root [" +:+ pretty index +:+ "]") (Sentinel ErrNoCertificate))
       | None => Ok (mkVerifier (Some (pool_of (non_nil roots))) skew)
       end.

Definition clampToValidity (now notBefore notAfter skew : Z) : Z :=
  if (now <? notBefore)%Z && negb (now <? notBefore - skew)%Z then notBefore
  else if (now >? notAfter)%Z && negb (now >? notAfter + skew)%Z then notAfter
  else now.

Definition validateLeafCertificate (leafCertificate : Certificate) : option error :=
  let fail s := Some (errorf "validate leaf-certificate" (Sentinel s)) in
  if IsCA leafCertificate then fail ErrLeafCertIsCA
  else if has_usage leafCertificate KeyUsageCertSign then fail ErrLeafCertHasKeyCertSign
  else if has_usage leafCertificate KeyUsageCRLSign then fail ErrLeafCertHasCRLSign
  else if negb (has_usage leafCertificate KeyUsageDigitalSignature)
       then fail ErrLeafCertMissingDigitalSignature
  else None.

Definition newSPIFFEID (certificate : Certificate) : result spiffeid.ID :=
  match URIs certificate with
  | [] => Err (errorf "spiffe id from certificate" (Sentinel ErrCertHasNoURI))
  | [u] => map_err (errorf "spiffe id from certificate") (spiffeid.Parse u)
  | _ :: _ :: _ => Err (errorf "spiffe id from certificate" (Sentinel ErrCertHasMultipleURIs))
  end.

Definition leafSPIFFEID (leafCertificate : Certificate) : result spiffeid.ID :=
  spiffeID ← map_err (errorf "validate leaf-spiffeid") (newSPIFFEID leafCertificate);
  if (spiffeid.ID_Path spiffeID =? "")%string
  then Err (errorf "validate leaf-spiffeid" (Sentinel ErrLeafSPIFFEMissingPath))
  else Ok spiffeID.

Definition ValidateSigningCertificate (certificate : option Certificate)
    : result (spiffeid.ID * bool) :=
  let wrap := errorf "validate signing-certificate" in
  match certificate with
  | None => Err (wrap (Sentinel ErrNoCertificate))
  | Some c =>
      if negb (IsCA c) then Err (wrap (Sentinel ErrSigningCertIsNotCA))
      else if negb (has_usage c KeyUsageCertSign)
           then Err (wrap (Sentinel ErrSigningCertMissingKeyCertSign))
      else match URIs c with
           | [] => Ok (spiffeid.zeroID, false)
           | _ =>
               spiffeID ← map_err wrap (newSPIFFEID c);
               if negb (spiffeid.ID_Path spiffeID =? "")%string
               then Err (wrap (Sentinel ErrSigningSPIFFEHasPath))
               else Ok (spiffeID, true)
           end
  end.

Definition validateSigningCertificateForLeaf (signingCertificate : Certificate)
    (leaf : spiffeid.ID) : option error :=
  match ValidateSigningCertificate (Some signingCertificate) with
  | Err e => Some e
  | Ok (signingID, hasID) =>
      if hasID && negb (spiffeid.ID_TrustDomain leaf =? spiffeid.ID_TrustDomain signingID)%string
      then Some (errorf "validate signing-certificate"
                   (Sentinel ErrSigningSPIFFEInDifferentTrustDomainThanLeaf))
      else None
  end.

(** The loop of [validateChain] over [certificates[1:]]. *)
Fixpoint validateSigners (signers : list Certificate) (leafID : spiffeid.ID) : option error :=
  match signers with
  | [] => None
  | c :: rest =>
      match validateSigningCertificateForLeaf c leafID with
      | Some e => Some e
      | None => validateSigners rest leafID
      end
  end.

(** [validateChain(certificates)], for [certificates = leaf :: signers]. *)
Definition validateChain (leafCertificate : Certificate) (signers : list Certificate)
    : result Leaf :=
  _ ← check (validateLeafCertificate leafCertificate) id;
  leafID ← leafSPIFFEID leafCertificate;
  _ ← check (validateSigners signers leafID) id;
  Ok (mkLeaf leafID leafCertificate).

Section verify.
(** [x509.Certificate.Verify], and the reading of the clock. *)
Variable Certificate_Verify : Certificate → VerifyOptions → option error.
Variable now : Z.

Definition verifyOptions (pool : CertPool) (skew : Z) (leaf : Certificate)
    (intermediates : list Certificate) : VerifyOptions := {|
  DNSName := "";
  Roots := Some pool;
  Intermediates := pool_of intermediates;
  CurrentTime := clampToValidity now (NotBefore leaf) (NotAfter leaf) skew;
  KeyUsages := [ExtKeyUsageAny];
  MaxConstraintComparisions := 0;
  CertificatePolicies := [];
|}.

Definition verifyChain (v : Verifier) (leaf : Certificate) (intermediates : list Certificate)
    : option error :=
  match bundle v with
  | None => Some (errorf "verify chain" (Sentinel ErrNoTrustBundle))
  | Some pool =>
      match Certificate_Verify leaf (verifyOptions pool (skew v) leaf intermediates) with
      | Some e => Some (errorf ("verify chain [serial " +:+ hex_text (SerialNumber leaf) +:+ "]") e)
      | None => None
      end
  end.

Definition Verify (v : Verifier) (certificates : list (option Certificate)) : result Leaf :=
  match certificates with
  | [] => Err (errorf "verify" (Sentinel ErrNoCertificate))
  | _ =>
      match index_nil certificates with
      | Some index =>
          Err (errorf ("verify: nil certificate [" +:+ pretty index +:+ "]")
                 (Sentinel ErrNoCertificate))
      | None =>
          match non_nil certificates with
          | [] => Err (errorf "verify" (Sentinel ErrNoCertificate)) (* unreachable *)
          | leaf :: rest =>
              _ ← check (verifyChain v leaf rest) (errorf "verify");
              map_err (errorf "verify") (validateChain leaf rest)
          end
      end
  end.
End verify.

(** ** What the standard requires, as a specification *)

Record leaf_standard (c : Certificate) (i : spiffeid.ID) : Prop := {
  ls_not_ca : IsCA c = false;
  ls_no_cert_sign : has_usage c KeyUsageCertSign = false;
  ls_no_crl_sign : has_usage c KeyUsageCRLSign = false;
  ls_digital_signature : has_usage c KeyUsageDigitalSignature = true;
  ls_uri : ∃ u, URIs c = [u] ∧ spiffeid.Parse u = Ok i;
  ls_path : spiffeid.ID_Path i ≠ "";
}.

Record signing_standard (c : Certificate) (td : string) : Prop := {
  ss_ca : IsCA c = true;
  ss_cert_sign : has_usage c KeyUsageCertSign = true;
  ss_uri : URIs c = [] ∨
    ∃ u i, URIs c = [u] ∧ spiffeid.Parse u = Ok i ∧ spiffeid.ID_Path i = ""
           ∧ spiffeid.ID_TrustDomain i = td;
}.

(** ** Lemmas *)

Lemma index_nil_None l : index_nil l = None ↔ ∃ cs, l = map Some cs.
Proof.
  induction l as [|[c|] l IH]; cbn.
  - split; [by exists []|done].
  - destruct (index_nil l) eqn:E; cbn.
    + split; [done|]. intros ([|d cs] & H); [done|]. injection H as -> H.
      assert (Some n = None) by (apply IH; eauto). done.
    + split; [|done]. intros _. destruct (proj1 IH eq_refl) as [cs ->]. by exists (c :: cs).
  - split; [done|]. by intros ([|d cs] & H).
Qed.

Lemma index_nil_map cs : index_nil (map Some cs) = None.
Proof. apply index_nil_None. eauto. Qed.

Lemma non_nil_map cs : non_nil (map Some cs) = cs.
Proof. unfold non_nil. induction cs as [|c cs IH]; [done|]. cbn. by rewrite IH. Qed.

Lemma validateLeafCertificate_None c :
  validateLeafCertificate c = None ↔
  IsCA c = false ∧ has_usage c KeyUsageCertSign = false ∧ has_usage c KeyUsageCRLSign = false
  ∧ has_usage c KeyUsageDigitalSignature = true.
Proof.
  unfold validateLeafCertificate.
  destruct (IsCA c), (has_usage c KeyUsageCertSign), (has_usage c KeyUsageCRLSign),
    (has_usage c KeyUsageDigitalSignature); cbn; split; naive_solver.
Qed.

Lemma newSPIFFEID_Ok c i :
  newSPIFFEID c = Ok i ↔ ∃ u, URIs c = [u] ∧ spiffeid.Parse u = Ok i.
Proof.
  unfold newSPIFFEID. destruct (URIs c) as [|u [|]]; [naive_solver| |naive_solver].
  rewrite map_err_Ok. naive_solver.
Qed.

Lemma leafSPIFFEID_Ok c i :
  leafSPIFFEID c = Ok i ↔
  (∃ u, URIs c = [u] ∧ spiffeid.Parse u = Ok i) ∧ spiffeid.ID_Path i ≠ "".
Proof.
  unfold leafSPIFFEID. rewrite bind_Ok. setoid_rewrite map_err_Ok.
  setoid_rewrite newSPIFFEID_Ok. split.
  - intros (j & Hj & H). destruct (spiffeid.ID_Path j =? "")%string eqn:E; [done|].
    injection H as ->. by apply String.eqb_neq in E.
  - intros [Hu Hp]. exists i. split; [done|]. apply String.eqb_neq in Hp. by rewrite Hp.
Qed.

Lemma ValidateSigningCertificate_Ok c i b :
  ValidateSigningCertificate (Some c) = Ok (i, b) ↔
  IsCA c = true ∧ has_usage c KeyUsageCertSign = true ∧
  ((URIs c = [] ∧ i = spiffeid.zeroID ∧ b = false) ∨
   (∃ u, URIs c = [u] ∧ spiffeid.Parse u = Ok i ∧ spiffeid.ID_Path i = "" ∧ b = true)).
Proof.
  cbn. destruct (IsCA c); cbn; [|naive_solver].
  destruct (has_usage c KeyUsageCertSign); cbn; [|naive_solver].
  destruct (URIs c) as [|u us] eqn:Hu; [naive_solver|].
  rewrite bind_Ok. setoid_rewrite map_err_Ok. setoid_rewrite newSPIFFEID_Ok. rewrite Hu. split.
  - intros (j & (u' & Hj & Hpj) & H).
    destruct (spiffeid.ID_Path j =? "")%string eqn:E; [|done]. cbn in H.
    apply String.eqb_eq in E. simplify_eq. eauto 10.
  - intros (_ & _ & [(? & _)|(u' & Hu' & Hp & He & ->)]); [done|].
    exists i. split; [eauto|]. by rewrite He.
Qed.

Lemma validateSigningCertificateForLeaf_None c leaf :
  validateSigningCertificateForLeaf c leaf = None ↔ signing_standard c (spiffeid.ID_TrustDomain leaf).
Proof.
  unfold validateSigningCertificateForLeaf.
  destruct (ValidateSigningCertificate (Some c)) as [[i b]|e] eqn:E.
  - apply ValidateSigningCertificate_Ok in E as (Hca & Hks & Hu).
    destruct Hu as [(Hu & -> & ->)|(u & Hu & Hp & Hpath & ->)]; cbn.
    { split; [|done]. intros _. constructor; auto. }
    destruct (String.eqb_spec (spiffeid.ID_TrustDomain leaf) (spiffeid.ID_TrustDomain i)) as [Heq|Hne].
    + split; [|done]. intros _. constructor; eauto 10.
    + split; [done|]. intros [_ _ [?|(u' & i' & ? & ? & ? & ?)]]; congruence.
  - split; [done|]. intros [Hca Hks Hu].
    assert (∃ i b, ValidateSigningCertificate (Some c) = Ok (i, b)) as (i & b & H).
    { setoid_rewrite ValidateSigningCertificate_Ok.
      destruct Hu as [?|(u & i & ? & ? & ? & ?)]; eauto 12. }
    congruence.
Qed.

Lemma validateSigners_None cs leaf :
  validateSigners cs leaf = None ↔
  Forall (λ c, signing_standard c (spiffeid.ID_TrustDomain leaf)) cs.
Proof.
  induction cs as [|c cs IH]; cbn; [by split; auto|].
  rewrite Forall_cons, <-validateSigningCertificateForLeaf_None, <-IH.
  destruct (validateSigningCertificateForLeaf c leaf); naive_solver.
Qed.

Lemma validateChain_Ok c signers l :
  validateChain c signers = Ok l ↔
  leaf_certificate l = c ∧ leaf_standard c (leaf_spiffeID l) ∧
  Forall (λ s, signing_standard s (spiffeid.ID_TrustDomain (leaf_spiffeID l))) signers.
Proof.
  unfold validateChain. split.
  - intros H. inv_ok. apply validateLeafCertificate_None in H0 as (?&?&?&?).
    match goal with H : leafSPIFFEID _ = _ |- _ => apply leafSPIFFEID_Ok in H as [??] end.
    match goal with H : validateSigners _ _ = _ |- _ => apply validateSigners_None in H end.
    split_and!; [done|by constructor|done].
  - destruct l as [i c']. cbn. intros (-> & [? ? ? ? Hu ?] & Hs).
    rewrite (proj2 (validateLeafCertificate_None c)) by done. cbn.
    rewrite (proj2 (leafSPIFFEID_Ok c i)) by done. cbn.
    by rewrite (proj2 (validateSigners_None signers i)).
Qed.

(** ** Properties *)

(** The clamped instant differs from the clock by at most the skew, lies in
    the certificate's validity window exactly when the clock lies in that
    window widened by the skew on both sides, and is the clock itself inside
    the window: the tolerance never rejects what the plain check accepts. *)
Theorem clampToValidity_spec (now notBefore notAfter skew : Z)
  (Hwindow : (notBefore <= notAfter)%Z) (Hskew : (0 <= skew)%Z) :
  let t := clampToValidity now notBefore notAfter skew in
  (Z.abs (t - now) <= skew)%Z ∧
  ((notBefore <= t <= notAfter)%Z ↔ (notBefore - skew <= now <= notAfter + skew)%Z) ∧
  ((notBefore <= now <= notAfter)%Z → t = now).
Proof.
  unfold clampToValidity. cbv zeta.
  destruct (Z.ltb_spec now notBefore), (Z.ltb_spec now (notBefore - skew));
    rewrite ?Z.gtb_ltb; cbn;
    destruct (Z.ltb_spec notAfter now), (Z.ltb_spec (notAfter + skew) now); cbn; lia.
Qed.

Lemma clampToValidity_spec_witness :
  clampToValidity 90 100 200 20 = 100%Z ∧ (Z.abs (100 - 90) <= 20)%Z.
Proof. split; [done|]. exact (proj1 (clampToValidity_spec 90 100 200 20 ltac:(lia) ltac:(lia))). Defined.

(** What [Verify] accepts, for the components that call it. *)
Lemma Verify_Ok (Certificate_Verify : Certificate → VerifyOptions → option error) (now : Z)
    (v : Verifier) (certificates : list (option Certificate)) (l : Leaf) :
  Verify Certificate_Verify now v certificates = Ok l ↔
  ∃ signers pool,
    certificates = map Some (leaf_certificate l :: signers) ∧
    bundle v = Some pool ∧
    Certificate_Verify (leaf_certificate l)
      (verifyOptions now pool (skew v) (leaf_certificate l) signers) = None ∧
    leaf_standard (leaf_certificate l) (leaf_spiffeID l) ∧
    Forall (λ s, signing_standard s (spiffeid.ID_TrustDomain (leaf_spiffeID l))) signers.
Proof.
  split.
  - unfold Verify. destruct certificates as [|c0 cs0] eqn:Hc; [done|].
    rewrite <-Hc. destruct (index_nil certificates) eqn:Hi; [done|].
    apply index_nil_None in Hi as [cs ->]. rewrite non_nil_map.
    destruct cs as [|c cs]; [done|]. intros H. inv_ok. apply validateChain_Ok in H as (<- & ? & ?).
    unfold verifyChain in H0. destruct (bundle v) as [pool|] eqn:Hb; [|done].
    destruct (Certificate_Verify _ _) eqn:Hv; [done|]. eauto 10.
  - intros (signers & pool & -> & Hb & Hv & Hl & Hs). unfold Verify.
    rewrite index_nil_map, non_nil_map. cbn [map].
    unfold verifyChain. rewrite Hb, Hv. cbn.
    rewrite (proj2 (validateChain_Ok _ signers l)) by done. done.
Qed.

(** C23: [Verify] accepts a presented chain exactly when it is non-empty and
    free of nil, the Verifier has a bundle the standard library anchors the
    leaf to at the clamped clock, the leaf meets the X509-SVID rules, and every
    further certificate presented meets the signing rules in the leaf's trust
    domain; the leaf it returns is the first certificate with its SPIFFE ID. A
    chain that is empty or holds a nil is reported as missing a certificate. *)
Theorem Verify_spec (Certificate_Verify : Certificate → VerifyOptions → option error) (now : Z)
    (v : Verifier) (certificates : list (option Certificate)) :
  (∀ l, Verify Certificate_Verify now v certificates = Ok l ↔
   ∃ signers pool,
     certificates = map Some (leaf_certificate l :: signers) ∧
     bundle v = Some pool ∧
     Certificate_Verify (leaf_certificate l)
       (verifyOptions now pool (skew v) (leaf_certificate l) signers) = None ∧
     leaf_standard (leaf_certificate l) (leaf_spiffeID l) ∧
     Forall (λ s, signing_standard s (spiffeid.ID_TrustDomain (leaf_spiffeID l))) signers) ∧
  (certificates = [] ∨ None ∈ certificates →
   ∃ e, Verify Certificate_Verify now v certificates = Err e ∧ Is e ErrNoCertificate = true).
Proof.
  split; [intros l; apply Verify_Ok|]. intros H. unfold Verify.
  destruct certificates as [|c cs] eqn:E; [by eexists|]. rewrite <-E in *.
  destruct H as [H|H]; [by subst|].
  destruct (index_nil certificates) eqn:Hi; [by eexists|].
  apply index_nil_None in Hi as [ds ->]. apply list_elem_of_In, in_map_iff in H as (? & ? & _). done.
Qed.

End x509svid.
