(* ===== verification/Identity.v ===== *)
(** * Agent identifiers and the two identities of the trust domain:
    [internal/authn/agentid.go] and [internal/authn/identity.go]

    An agent is named by the last component of its client SVID; the server is
    named by a path of its own. [leafPolicy] is the issuance policy both sides
    of a connection are held to. *)

From S2P Require Import Prelude GoStrings GoErrors X509 SpiffeID.

Module authn.
Import x509.

(** ** Agent identifiers *)

(** [type AgentID string] *)
Definition AgentID := string.

Definition maxAgentIDLength : nat := 64.

(** [^[a-zA-Z0-9_-]+$] *)
Definition agentIDByte (c : ascii) : bool :=
  is_lower c || is_upper c || is_digit c || is_byte "_"%char c || is_byte "-"%char c.

Definition validAgentIDPattern : string → bool := match_class_plus agentIDByte.

Definition AgentID_Validate (a : AgentID) : option error :=
  if (a =? "")%string then Some (errorf "validate: empty string" (Sentinel ErrInvalidAgentID))
  else if (maxAgentIDLength <? len a)%nat then
    Some (errorf ("validate: longer than " +:+ pretty maxAgentIDLength +:+ " bytes")
            (Sentinel ErrInvalidAgentID))
  else if negb (validAgentIDPattern a) then
    Some (errorf "validate: contains a character that is not allowed" (Sentinel ErrInvalidAgentID))
  else None.

Definition NewAgentID (input : string) : result AgentID :=
  _ ← check (AgentID_Validate input) (errorf "new agent id");
  Ok input.

(** ** Identities *)

(** [const TrustDomain], of [authenticator.go]. *)
Definition TrustDomain : string := "fizzled.internal".

Definition pathServer : string := "server".
Definition pathClient : string := "client".
Definition pathAgent : string := "agent".

Definition leafPolicy (certificate : Certificate) : option error :=
  let fail s := Some (errorf "leaf policy" (Sentinel s)) in
  if negb (existsb (Z.eqb ExtKeyUsageServerAuth) (ExtKeyUsage certificate)) then fail ErrMissingServerAuth
  else if negb (existsb (Z.eqb ExtKeyUsageClientAuth) (ExtKeyUsage certificate))
       then fail ErrMissingClientAuth
  else match PublicKeyOf certificate with
       | OtherPublicKey => fail ErrKeyNotECDSA
       | ECDSAPublicKey curve =>
           if bool_decide (curve ≠ P256) then fail ErrKeyNotP256 else None
       end.

Definition clientAgentID (spiffeID : spiffeid.ID) : result AgentID :=
  let prefix := "client agent id [" +:+ spiffeid.ID_String spiffeID +:+ "]" in
  if negb (spiffeid.ID_TrustDomain spiffeID =? TrustDomain)%string
  then Err (errorf prefix (Sentinel ErrWrongTrustDomain))
  else match spiffeid.ID_PathComponents spiffeID with
       | [c0; c1; c2] =>
           if negb (c0 =? pathClient)%string || negb (c1 =? pathAgent)%string
           then Err (errorf prefix (Sentinel ErrUnexpectedIdentity))
           else map_err (errorf prefix) (NewAgentID c2)
       | _ => Err (errorf prefix (Sentinel ErrUnexpectedIdentity))
       end.

Definition serverIdentity (spiffeID : spiffeid.ID) : option error :=
  let prefix := "server identity [" +:+ spiffeid.ID_String spiffeID +:+ "]" in
  if negb (spiffeid.ID_TrustDomain spiffeID =? TrustDomain)%string
  then Some (errorf prefix (Sentinel ErrWrongTrustDomain))
  else match spiffeid.ID_PathComponents spiffeID with
       | [c0] => if negb (c0 =? pathServer)%string
                 then Some (errorf prefix (Sentinel ErrUnexpectedIdentity)) else None
       | _ => Some (errorf prefix (Sentinel ErrUnexpectedIdentity))
       end.

(** ** Specifications *)

(** A well-formed agent identifier: one to 64 bytes of the permitted class. *)
Record valid_agent (a : AgentID) : Prop := {
  va_not_empty : a ≠ "";
  va_len : len a ≤ maxAgentIDLength;
  va_bytes : all_bytes agentIDByte a = true;
}.

(** The issuance policy of the deployment. *)
Record leaf_policy (c : Certificate) : Prop := {
  lp_server_auth : In ExtKeyUsageServerAuth (ExtKeyUsage c);
  lp_client_auth : In ExtKeyUsageClientAuth (ExtKeyUsage c);
  lp_key : PublicKeyOf c = ECDSAPublicKey P256;
}.

Definition client_uri (a : AgentID) : string := "spiffe://fizzled.internal/client/agent/" +:+ a.
Definition server_uri : string := "spiffe://fizzled.internal/server".

(** ** Lemmas *)

Lemma AgentID_Validate_None a : AgentID_Validate a = None ↔ valid_agent a.
Proof.
  unfold AgentID_Validate, validAgentIDPattern. split.
  - destruct (String.eqb_spec a "") as [|Hne]; [done|].
    destruct (Nat.ltb_spec maxAgentIDLength (len a)); [done|].
    destruct (match_class_plus agentIDByte a) eqn:Hm; [|done]. intros _.
    apply match_class_plus_spec in Hm as [? ?]. by constructor.
  - intros [Hne Hl Hb]. apply String.eqb_neq in Hne as Hn. rewrite Hn.
    destruct (Nat.ltb_spec maxAgentIDLength (len a)); [lia|].
    by rewrite (proj2 (match_class_plus_spec agentIDByte a)).
Qed.

Lemma AgentID_Validate_Some a e :
  AgentID_Validate a = Some e → Is e ErrInvalidAgentID = true ∧ ¬ valid_agent a.
Proof.
  intros H. split.
  - revert H. unfold AgentID_Validate. destruct (_ =? _)%string; [by intros [= <-]|].
    destruct (_ <? _)%nat; [by intros [= <-]|]. destruct (negb _); [|done]. by intros [= <-].
  - intros Hv%AgentID_Validate_None. congruence.
Qed.

Lemma NewAgentID_Ok s a : NewAgentID s = Ok a ↔ a = s ∧ valid_agent s.
Proof.
  unfold NewAgentID. rewrite bind_Ok. split.
  - intros ([] & H & [= ->]). apply check_Ok in H. by apply AgentID_Validate_None in H.
  - intros [-> H]. exists tt. split; [|done]. by apply check_Ok, AgentID_Validate_None.
Qed.

Lemma leafPolicy_None c : leafPolicy c = None ↔ leaf_policy c.
Proof.
  unfold leafPolicy. split.
  - destruct (existsb _ _) eqn:Hs; [cbn|done].
    destruct (existsb (Z.eqb ExtKeyUsageClientAuth) _) eqn:Hc; [cbn|done].
    apply existsb_exists in Hs as (? & ? & Hs%Z.eqb_eq), Hc as (? & ? & Hc%Z.eqb_eq). subst.
    destruct (PublicKeyOf c) as [k|] eqn:Hk; [|done]. case_bool_decide as Hd; [done|].
    intros _. constructor; [done..|]. destruct (decide (k = P256)) as [->|]; [done|tauto].
  - intros [Hs Hc Hk]. rewrite Hk.
    assert (∀ u, In u (ExtKeyUsage c) → existsb (Z.eqb u) (ExtKeyUsage c) = true) as He.
    { intros u ?. apply existsb_exists. exists u. split; [done|]. apply Z.eqb_refl. }
    by rewrite !He by done.
Qed.

Lemma agentIDByte_pathComponentByte c : agentIDByte c = true → spiffeid.pathComponentByte c = true.
Proof. destruct c as [[] [] [] [] [] [] [] []]; vm_compute; congruence. Qed.

(** An agent identifier is a valid path component: the charset excludes the
    separator and the dot. *)
Lemma valid_agent_component a : valid_agent a → spiffeid.component_ok a.
Proof.
  intros [Hne Hl Hb]. split.
  - apply match_class_plus_spec. split; [done|].
    eapply all_bytes_weaken; [|exact Hb]. apply agentIDByte_pathComponentByte.
  - by split; intros ->.
Qed.

Lemma valid_agent_free a : valid_agent a → free_of spiffeid.slash a = true.
Proof. intros H. by apply spiffeid.component_free, valid_agent_component. Qed.

#[export] Hint Resolve valid_agent_component valid_agent_free : fizz.

Lemma clientAgentID_shape i a :
  clientAgentID i = Ok a ↔
  spiffeid.ID_TrustDomain i = TrustDomain ∧
  spiffeid.ID_PathComponents i = [pathClient; pathAgent; a] ∧ valid_agent a.
Proof.
  unfold clientAgentID. destruct (String.eqb_spec (spiffeid.ID_TrustDomain i) TrustDomain) as [Ht|Ht];
    [cbn [negb]|cbn [negb]; naive_solver].
  destruct (spiffeid.ID_PathComponents i) as [|c0 [|c1 [|c2 [|]]]]; try naive_solver.
  destruct (String.eqb_spec c0 pathClient) as [->|?], (String.eqb_spec c1 pathAgent) as [->|?];
    cbn; try naive_solver.
  rewrite map_err_Ok, NewAgentID_Ok. naive_solver.
Qed.

Lemma serverIdentity_shape i :
  serverIdentity i = None ↔
  spiffeid.ID_TrustDomain i = TrustDomain ∧ spiffeid.ID_PathComponents i = [pathServer].
Proof.
  unfold serverIdentity. destruct (String.eqb_spec (spiffeid.ID_TrustDomain i) TrustDomain) as [Ht|Ht];
    [cbn [negb]|cbn [negb]; naive_solver].
  destruct (spiffeid.ID_PathComponents i) as [|c0 [|c1 cs]]; try naive_solver.
  destruct (String.eqb_spec c0 pathServer) as [->|?]; cbn; naive_solver.
Qed.

Lemma len_client_uri a : len (client_uri a) = 39 + len a.
Proof. unfold client_uri, len. rewrite length_append. done. Qed.

Lemma client_uri_grammar a :
  valid_agent a → spiffeid.spiffe_uri (client_uri a) TrustDomain [pathClient; pathAgent; a].
Proof.
  intros Ha. pose proof (va_len _ Ha) as Hl. unfold maxAgentIDLength in Hl. constructor.
  - done.
  - rewrite len_client_uri. unfold spiffeid.maxIDLength. lia.
  - vm_compute. lia.
  - done.
  - repeat constructor; try done; by apply valid_agent_component.
Qed.

Lemma server_uri_grammar : spiffeid.spiffe_uri server_uri TrustDomain [pathServer].
Proof. constructor; [done|vm_compute; lia..|done|by repeat constructor]. Qed.

(** ** Properties *)

(** The identity of a client, for the components that resolve it. *)
Lemma clientAgentID_uri (u : string) (i : spiffeid.ID) (a : AgentID)
  (HP : spiffeid.Parse u = Ok i) :
  clientAgentID i = Ok a ↔ u = client_uri a ∧ valid_agent a.
Proof.
  rewrite clientAgentID_shape. apply spiffeid.Parse_Ok in HP as (td & cs & Hu & -> & Hcs).
  rewrite Hcs. cbn. split.
  - intros (-> & -> & Hv). split; [|done]. apply Hu.
  - intros [-> Hv].
    destruct (spiffeid.spiffe_uri_unique _ _ _ _ _ Hu (client_uri_grammar a Hv)) as [-> ->].
    done.
Qed.

(** On parsed SPIFFE IDs [clientAgentID] accepts exactly the client URI
    of a well-formed agent identifier, and returns that identifier: two
    SVIDs are the same agent's only when they carry the same URI. *)
Theorem clientAgentID_spec (u : string) (i : spiffeid.ID) (a : AgentID)
  (HP : spiffeid.Parse u = Ok i) :
  (clientAgentID i = Ok a ↔ u = client_uri a ∧ valid_agent a) ∧
  (∀ u' i', spiffeid.Parse u' = Ok i' → clientAgentID i = Ok a → clientAgentID i' = Ok a → u' = u).
Proof.
  split; [by apply clientAgentID_uri|]. intros u' i' HP' H H'.
  apply (clientAgentID_uri _ _ _ HP) in H as [-> _]. by apply (clientAgentID_uri _ _ _ HP') in H' as [-> _].
Qed.

Lemma clientAgentID_spec_witness :
  ∃ i, spiffeid.Parse "spiffe://fizzled.internal/client/agent/smith" = Ok i ∧
       clientAgentID i = Ok "smith".
Proof.
  eexists. split; [vm_compute; reflexivity|].
  apply (proj2 (proj1 (clientAgentID_spec "spiffe://fizzled.internal/client/agent/smith" _ "smith" eq_refl))).
  split; [done|]. constructor; [done|vm_compute; lia|done].
Defined.

(** On parsed SPIFFE IDs [serverIdentity] accepts the one server URI
    and nothing else, and no identity is both the server's and an agent's: a
    server SVID presented by a client is refused as an unexpected identity. *)
Theorem serverIdentity_spec (u : string) (i : spiffeid.ID) (HP : spiffeid.Parse u = Ok i) :
  (serverIdentity i = None ↔ u = server_uri) ∧
  (serverIdentity i = None → ∃ e, clientAgentID i = Err e ∧ Is e ErrUnexpectedIdentity = true).
Proof.
  rewrite serverIdentity_shape. split.
  - apply spiffeid.Parse_Ok in HP as (td & cs & Hu & -> & Hcs). rewrite Hcs. cbn. split.
    + intros [-> ->]. apply Hu.
    + intros ->. by destruct (spiffeid.spiffe_uri_unique _ _ _ _ _ Hu server_uri_grammar) as [-> ->].
  - intros [Ht Hc]. unfold clientAgentID. rewrite Ht, Hc. cbn. by eexists.
Qed.

Lemma serverIdentity_spec_witness :
  ∃ i, spiffeid.Parse "spiffe://fizzled.internal/server" = Ok i ∧ serverIdentity i = None.
Proof.
  eexists. split; [vm_compute; reflexivity|].
  exact (proj2 (proj1 (serverIdentity_spec "spiffe://fizzled.internal/server" _ eq_refl)) eq_refl).
Defined.

End authn.
