(* ===== verification/TrustBundle.v ===== *)
(** * The trust bundle: [internal/authn/trustbundle.go]

    The bundle file is read as a sequence of PEM blocks and nothing else.
    Decoding one PEM block and parsing one certificate are parameters; the only
    thing assumed of [pem.Decode] is what it documents, that the rest it returns
    is a proper suffix of its input, which is what makes the loop end. *)

From S2P Require Import Prelude GoStrings GoErrors X509 SpiffeID X509SVID Identity.

(** ** [bytes.TrimSpace] and [bytes.Count] *)

Module bytes.

Definition byte (n : nat) : ascii := ascii_of_nat n.

Definition ascii_space (c : ascii) : bool :=
  is_byte (byte 9) c || is_byte (byte 10) c || is_byte (byte 11) c || is_byte (byte 12) c
  || is_byte (byte 13) c || is_byte " "%char c.

(** The spaces of Unicode outside ASCII, in UTF-8: two bytes, or three. *)
Definition space2 (b1 b2 : ascii) : bool :=
  is_byte (byte 194) b1 && (is_byte (byte 133) b2 || is_byte (byte 160) b2).

Definition space3 (b1 b2 b3 : ascii) : bool :=
  (is_byte (byte 225) b1 && is_byte (byte 154) b2 && is_byte (byte 128) b3)
  || (is_byte (byte 226) b1 && is_byte (byte 128) b2 &&
      (byte_range (byte 128) (byte 138) b3 || is_byte (byte 168) b3 || is_byte (byte 169) b3
       || is_byte (byte 175) b3))
  || (is_byte (byte 226) b1 && is_byte (byte 129) b2 && is_byte (byte 159) b3)
  || (is_byte (byte 227) b1 && is_byte (byte 128) b2 && is_byte (byte 128) b3).

(** Drop the leading spaces of a text; [rev] says that its bytes are reversed. *)
Fixpoint trim_front (rev : bool) (s : string) : string :=
  match s with
  | String c (String d (String e s3 as s2) as s1) =>
      if ascii_space c then trim_front rev s1
      else if (if rev then space2 d c else space2 c d) then trim_front rev s2
      else if (if rev then space3 e d c else space3 c d e) then trim_front rev s3
      else s
  | String c (String d s2 as s1) =>
      if ascii_space c then trim_front rev s1
      else if (if rev then space2 d c else space2 c d) then trim_front rev s2
      else s
  | String c s1 => if ascii_space c then trim_front rev s1 else s
  | EmptyString => s
  end.

Fixpoint rev_onto (acc s : string) : string :=
  match s with
  | EmptyString => acc
  | String c s => rev_onto (String c acc) s
  end.

Definition reverse (s : string) : string := rev_onto "" s.

Definition TrimSpace (s : string) : string :=
  reverse (trim_front true (reverse (trim_front false s))).

(** [bytes.Count(s, sep)]: the occurrences of [sep] that do not overlap; [skip]
    is what is left of the last one. *)
Fixpoint count_from (skip : nat) (sep s : string) : nat :=
  match s with
  | EmptyString => 0
  | String _ s' =>
      match skip with
      | S skip => count_from skip sep s'
      | O => if HasPrefix s sep then S (count_from (len sep - 1) sep s') else count_from 0 sep s'
      end
  end.

Definition Count (s sep : string) : nat := count_from 0 sep s.

Lemma trim_front_step rev c d e s3 :
  trim_front rev (String c (String d (String e s3))) =
    if ascii_space c then trim_front rev (String d (String e s3))
    else if (if rev then space2 d c else space2 c d) then trim_front rev (String e s3)
    else if (if rev then space3 e d c else space3 c d e) then trim_front rev s3
    else String c (String d (String e s3)).
Proof. done. Qed.

Lemma trim_front_len rev s : len (trim_front rev s) ≤ len s.
Proof.
  assert (∀ n s, len s ≤ n → len (trim_front rev s) ≤ len s) as H; [|by eapply H].
  clear s. induction n as [|n IH]; intros s Hl; [destruct s; cbn in *; [done|lia]|].
  destruct s as [|c s1]; [done|]. pose proof (IH s1) as H1. cbn in Hl. unfold len in *.
  destruct s1 as [|d s2]; [cbn in *; destruct (ascii_space c); cbn in *; lia|].
  pose proof (IH s2) as H2. destruct s2 as [|e s3].
  - cbn in *. destruct (ascii_space c); [cbn in *; lia|].
    destruct (if rev then _ else _); cbn in *; lia.
  - pose proof (IH s3) as H3. rewrite trim_front_step. cbn [String.length] in *.
    destruct (ascii_space c); [lia|].
    destruct (if rev then space2 _ _ else _); [lia|].
    destruct (if rev then space3 _ _ _ else _); [lia|done].
Qed.

Lemma reverse_len s : len (reverse s) = len s.
Proof.
  unfold reverse. assert (∀ acc, len (rev_onto acc s) = len acc + len s) as H; [|apply H].
  induction s as [|c s IH]; intros acc; cbn; [by unfold len; rewrite Nat.add_0_r|].
  rewrite IH. unfold len. cbn. lia.
Qed.

Lemma TrimSpace_len s : len (TrimSpace s) ≤ len s.
Proof.
  unfold TrimSpace. rewrite reverse_len. etrans; [apply trim_front_len|].
  rewrite reverse_len. apply trim_front_len.
Qed.

End bytes.

(** ** The loader *)

Module trustbundle.
Import x509 x509svid authn bytes.

Definition certificatePEMType : string := "CERTIFICATE".
Definition pemBeginMarker : string := "-----BEGIN ".
Definition newline : string := String (byte 10) "".

(** [pem.Block] *)
Record Block := mkBlock { Type_ : string; Headers : list (string * string); Bytes : string }.

(** [type loadedBundle struct] *)
Record loadedBundle := mkLoadedBundle { roots : list Certificate; earliestExpiry : Z }.

(** [certificate.SerialNumber.Text(serialNumberBase)], of [authenticator.go] *)
Definition serialNumber (c : Certificate) : string := hex_text (SerialNumber c).

Definition beginMarkers (trimmed : string) : nat :=
  let count := Count trimmed (newline +:+ pemBeginMarker) in
  if HasPrefix trimmed pemBeginMarker then S count else count.

Section parse.
(** [pem.Decode] and [x509.ParseCertificate] *)
Context (Decode : string → option (Block * string)).
Context (ParseCertificate : string → result Certificate).

Definition bundleCertificate (block : Block) : result Certificate :=
  if negb (Type_ block =? certificatePEMType)%string then
    Err (errorf ("bundle certificate: pem block [" +:+ Type_ block +:+ "]") (Sentinel ErrBundleNotCertificate))
  else match Headers block with
  | _ :: _ =>
      Err (errorf ("bundle certificate: pem block [" +:+ Type_ block +:+ "]")
             (Sentinel ErrBundleBlockHasHeaders))
  | [] =>
      certificate ← map_err (errorf "bundle certificate") (ParseCertificate (Bytes block));
      '(spiffeID, hasSPIFFEID) ←
        map_err (errorf ("bundle certificate [serial " +:+ serialNumber certificate +:+ "]"))
          (ValidateSigningCertificate (Some certificate));
      if hasSPIFFEID && negb (spiffeid.ID_TrustDomain spiffeID =? TrustDomain)%string then
        Err (errorf ("bundle certificate uri [" +:+ spiffeid.ID_String spiffeID +:+ "]")
               (Sentinel ErrWrongTrustDomain))
      else Ok certificate
  end.

Definition decodeBlock (rest : string) (ordinal : nat) : result (Certificate * string) :=
  let wrap text := errorf ("decode block [" +:+ pretty ordinal +:+ "]" +:+ text) in
  if negb (HasPrefix rest pemBeginMarker) then Err (wrap " before" (Sentinel ErrBundleUnexpectedData))
  else match Decode rest with
       | None => Err (wrap " unreadable" (Sentinel ErrBundleBlockDropped))
       | Some (block, remainder) =>
           certificate ← map_err (wrap "") (bundleCertificate block);
           Ok (certificate, remainder)
       end.

(** The loop of [parseTrustBundle]: the certificates read, and the earliest
    expiry among them, the zero time before there is one. *)
Fixpoint read_blocks (fuel : nat) (rest : string) (roots : list Certificate) (seen : gset string)
    (earliest : Z) : option (result loadedBundle) :=
  match fuel with
  | O => None
  | S fuel =>
      if (rest =? "")%string then Some (Ok (mkLoadedBundle roots earliest))
      else match decodeBlock rest (length roots + 1) with
      | Err e => Some (Err (errorf "parse trust bundle" e))
      | Ok (certificate, remainder) =>
          if bool_decide (Raw certificate ∈ seen) then
            Some (Err (errorf ("parse trust bundle: block " +:+ pretty (length roots + 1) +:+ " [serial "
                               +:+ serialNumber certificate +:+ "]") (Sentinel ErrBundleDuplicateCertificate)))
          else
            let earliest := if (earliest =? 0)%Z || (NotAfter certificate <? earliest)%Z
                            then NotAfter certificate else earliest in
            read_blocks fuel (TrimSpace remainder) (roots ++ [certificate])
              ({[Raw certificate]} ∪ seen) earliest
      end
  end.

(** [parseTrustBundle]; [None] only when the fuel of the loop runs out. *)
Definition parseTrustBundle (raw : string) : option (result loadedBundle) :=
  let trimmed := TrimSpace raw in
  loaded ← read_blocks (S (len trimmed)) trimmed [] ∅ 0;
  Some match loaded with
  | Err e => Err e
  | Ok bundle =>
      match roots bundle with
      | [] => Err (errorf "parse trust bundle" (Sentinel ErrEmptyTrustBundle))
      | _ =>
          let markers := beginMarkers trimmed in
          if negb (length (roots bundle) =? markers)%nat then
            Err (errorf ("parse trust bundle: read " +:+ pretty (length (roots bundle)) +:+ " of "
                         +:+ pretty markers +:+ " blocks") (Sentinel ErrBundleBlockDropped))
          else Ok bundle
      end
  end.

(** [loadTrustBundle] *)
Definition loadTrustBundle (ReadFile : string → result string) (Clean : string → string) (path : string)
    : option (result loadedBundle) :=
  let wrap := errorf ("trust bundle [" +:+ path +:+ "]") in
  match ReadFile (Clean path) with
  | Err e => Some (Err (wrap e))
  | Ok raw => map_err wrap <$> parseTrustBundle raw
  end.

(** ** Specification *)

(** What a block of the bundle must be: a [CERTIFICATE] block without headers,
    holding a CA certificate of this trust domain. *)
Definition trusted_block (block : Block) (c : Certificate) : Prop :=
  Type_ block = certificatePEMType ∧ Headers block = [] ∧ ParseCertificate (Bytes block) = Ok c ∧
  signing_standard c TrustDomain.

(** The text is the blocks of [cs], with nothing but space between them. *)
Inductive bundle_text : string → list Certificate → Prop :=
| bundle_end : bundle_text "" []
| bundle_block rest block remainder c cs :
    rest ≠ "" → HasPrefix rest pemBeginMarker = true → Decode rest = Some (block, remainder) →
    trusted_block block c → bundle_text (TrimSpace remainder) cs → bundle_text rest (c :: cs).

(** The instant the loop ends with. *)
Definition earliest_of (e : Z) (cs : list Certificate) : Z :=
  fold_left (λ e c, if (e =? 0)%Z || (NotAfter c <? e)%Z then NotAfter c else e) cs e.

(** The lines of a text that open a PEM block: those that begin with its begin
    marker. *)
Definition opening_lines (text : string) : list string :=
  filter (λ line, HasPrefix line "-----BEGIN " = true) (Split (byte 10) text).

(** [pem.Decode] returns a block and the rest of the input after it. *)
Definition decode_shortens : Prop :=
  ∀ s block remainder, Decode s = Some (block, remainder) → len remainder < len s.

(** ** Lemmas *)

Lemma bundleCertificate_Ok block c : bundleCertificate block = Ok c ↔ trusted_block block c.
Proof.
  unfold bundleCertificate, trusted_block.
  destruct (String.eqb_spec (Type_ block) certificatePEMType) as [->|?]; cbn [negb]; [|naive_solver].
  destruct (Headers block); [|naive_solver]. rewrite bind_Ok. setoid_rewrite map_err_Ok. split.
  - intros (c' & Hp & H). apply bind_Ok in H as ([i b] & Hv & H). apply map_err_Ok in Hv.
    apply ValidateSigningCertificate_Ok in Hv as (Hca & Hks & Hu).
    destruct Hu as [(Hu & -> & ->)|(u & Hu & Hi & Hpath & ->)]; cbn in H.
    + simplify_eq. split_and!; try done. constructor; auto.
    + destruct (String.eqb_spec (spiffeid.ID_TrustDomain i) TrustDomain); cbn in H; [|done]. simplify_eq.
      split_and!; try done. constructor; eauto 10.
  - intros (_ & _ & Hp & [Hca Hks Hu]). exists c. split; [done|]. apply bind_Ok.
    destruct Hu as [Hu|(u & i & Hu & Hi & Hpath & Ht)].
    + exists (spiffeid.zeroID, false). split; [|done]. apply map_err_Ok, ValidateSigningCertificate_Ok. tauto.
    + exists (i, true). split; [apply map_err_Ok, ValidateSigningCertificate_Ok; eauto 12|].
      by rewrite Ht, String.eqb_refl.
Qed.

Lemma decodeBlock_Ok rest n c remainder :
  decodeBlock rest n = Ok (c, remainder) ↔
  HasPrefix rest pemBeginMarker = true ∧ ∃ block, Decode rest = Some (block, remainder) ∧ trusted_block block c.
Proof.
  unfold decodeBlock. destruct (HasPrefix rest pemBeginMarker); cbn [negb]; [|naive_solver].
  destruct (Decode rest) as [[block r]|]; [|naive_solver]. rewrite bind_Ok.
  setoid_rewrite map_err_Ok. setoid_rewrite bundleCertificate_Ok. naive_solver.
Qed.

Lemma read_blocks_total fuel rest rs seen e :
  decode_shortens → len rest < fuel → is_Some (read_blocks fuel rest rs seen e).
Proof.
  intros HD. revert rest rs seen e. induction fuel as [|fuel IH]; intros rest rs seen e Hl; [lia|].
  cbn [read_blocks]. destruct (String.eqb_spec rest ""); [done|].
  destruct (decodeBlock rest _) as [[c r]|] eqn:E; [|done]. case_bool_decide; [done|]. apply IH.
  apply decodeBlock_Ok in E as (_ & block & Hd & _). apply HD in Hd.
  pose proof (TrimSpace_len r). lia.
Qed.

Lemma read_blocks_Ok fuel rest rs seen e b :
  read_blocks fuel rest rs seen e = Some (Ok b) →
  ∃ cs, bundle_text rest cs ∧ roots b = rs ++ cs ∧ earliestExpiry b = earliest_of e cs ∧
        NoDup (Raw <$> cs) ∧ Forall (λ c, Raw c ∉ seen) cs.
Proof.
  revert rest rs seen e. induction fuel as [|fuel IH]; intros rest rs seen e H; [done|].
  cbn [read_blocks] in H. destruct (String.eqb_spec rest "") as [->|Hne].
  { simplify_eq. exists []. cbn. rewrite app_nil_r. split_and!; constructor. }
  destruct (decodeBlock rest _) as [[c r]|] eqn:E; [|done]. case_bool_decide as Hs; [done|].
  apply IH in H as (cs & Ht & Hr & He & Hn & Hf). apply decodeBlock_Ok in E as (Hp & block & Hd & Hb).
  exists (c :: cs). split_and!.
  - by eapply bundle_block.
  - by rewrite Hr, <-app_assoc.
  - done.
  - cbn. constructor; [|done]. intros (d & Hrd & Hin)%list_elem_of_fmap.
    rewrite Forall_forall in Hf. specialize (Hf _ Hin). set_solver.
  - constructor; [done|]. eapply Forall_impl; [exact Hf|]. intros d ?. set_solver.
Qed.

Lemma read_blocks_complete fuel rest rs seen e cs :
  decode_shortens → len rest < fuel → bundle_text rest cs → NoDup (Raw <$> cs) →
  Forall (λ c, Raw c ∉ seen) cs →
  read_blocks fuel rest rs seen e = Some (Ok (mkLoadedBundle (rs ++ cs) (earliest_of e cs))).
Proof.
  intros HD Hl Ht. revert fuel rs seen e Hl.
  induction Ht as [|rest block r c cs Hne Hp Hd Hb Ht IH]; intros [|fuel] rs seen e Hl Hn Hf; try lia;
    cbn [read_blocks].
  { by rewrite app_nil_r. }
  destruct (String.eqb_spec rest ""); [done|].
  rewrite (proj2 (decodeBlock_Ok rest (length rs + 1) c r)) by eauto.
  apply Forall_cons in Hf as [Hc Hf]. cbn in Hn. apply NoDup_cons in Hn as [Hnc Hn].
  rewrite bool_decide_false by done. rewrite IH; [by rewrite <-app_assoc| |done|].
  - apply HD in Hd. pose proof (TrimSpace_len r). lia.
  - apply Forall_forall. intros d Hin. rewrite Forall_forall in Hf. specialize (Hf _ Hin).
    assert (Raw d ≠ Raw c); [|set_solver]. intros Heq. apply Hnc. rewrite <-Heq. by apply list_elem_of_fmap_2.
Qed.

Lemma earliest_of_cons e c cs :
  earliest_of e (c :: cs) = earliest_of (if (e =? 0)%Z || (NotAfter c <? e)%Z then NotAfter c else e) cs.
Proof. done. Qed.

Lemma earliest_of_le e cs :
  Forall (λ c, NotAfter c ≠ 0%Z) cs → e ≠ 0%Z →
  (earliest_of e cs <= e)%Z ∧ Forall (λ c, (earliest_of e cs <= NotAfter c)%Z) cs ∧
  (earliest_of e cs = e ∨ ∃ c, c ∈ cs ∧ earliest_of e cs = NotAfter c).
Proof.
  revert e. induction cs as [|c cs IH]; intros e Hc He.
  { split_and!; [cbn; lia|constructor|by left]. }
  apply Forall_cons in Hc as [Hc Hcs]. rewrite earliest_of_cons.
  destruct (Z.eqb_spec e 0) as [|_]; [done|]. cbn [orb].
  destruct (Z.ltb_spec (NotAfter c) e).
  - destruct (IH (NotAfter c) Hcs Hc) as (H1 & H2 & H3). split_and!; [lia|by constructor|].
    right. destruct H3 as [?|(d & ? & ?)]; [exists c|exists d]; (split; [set_solver|done]).
  - destruct (IH e Hcs He) as (H1 & H2 & H3). split_and!; [lia|constructor; [lia|done]|].
    destruct H3 as [?|(d & ? & ?)]; [by left|]. right. exists d. split; [set_solver|done].
Qed.

(** The expiry reported is the first of those of the roots. *)
Lemma earliest_of_min cs :
  cs ≠ [] → Forall (λ c, NotAfter c ≠ 0%Z) cs →
  (∃ c, c ∈ cs ∧ earliest_of 0 cs = NotAfter c) ∧ Forall (λ c, (earliest_of 0 cs <= NotAfter c)%Z) cs.
Proof.
  intros Hne Hz. destruct cs as [|c cs]; [done|]. apply Forall_cons in Hz as [Hc Hz].
  rewrite earliest_of_cons. cbn [Z.eqb orb].
  destruct (earliest_of_le _ _ Hz Hc) as (H1 & H2 & H3). split; [|by constructor].
  destruct H3 as [?|(d & ? & ?)]; [exists c|exists d]; (split; [set_solver|done]).
Qed.

(** The first line of a text begins with what the text begins with. *)
Lemma first_line_prefix sep m s h t :
  free_of sep m = true → Split sep s = h :: t → HasPrefix h m = HasPrefix s m.
Proof.
  unfold HasPrefix. revert s h t. induction m as [|c m IH]; intros s h t Hf Hs; [by destruct h, s|].
  unfold free_of in Hf. cbn in Hf. apply andb_true_iff in Hf as [Hc Hf].
  destruct s as [|d s]; cbn [Split] in Hs; [by injection Hs as <- _|].
  destruct (is_byte sep d) eqn:Hd.
  - injection Hs as <- _. rewrite prefix_cons, bool_decide_eq_false_2; [done|]. intros ->.
    unfold not_byte in Hc. by rewrite Hd in Hc.
  - destruct (Split sep s) as [|h' t'] eqn:E; [by apply Split_not_nil in E|]. injection Hs as <- _.
    rewrite !prefix_cons. f_equal. by eapply IH.
Qed.

(** Occurrences of a newline and a marker are lines, but the first, that begin
    with the marker; the bytes of a marker that was found hold no newline. *)
Lemma count_lines sep m skip s :
  free_of sep m = true → (∃ u v, s = u +:+ v ∧ len u = skip ∧ free_of sep u = true) →
  count_from skip (String sep m) s = length (filter (λ line, HasPrefix line m = true) (tail (Split sep s))).
Proof.
  intros Hm. revert skip. induction s as [|c s IH]; intros skip Hskip; [by destruct skip|].
  cbn [count_from Split]. destruct skip as [|skip].
  - destruct (Split sep s) as [|h t] eqn:E; [by apply Split_not_nil in E|].
    unfold HasPrefix at 1. rewrite prefix_cons. unfold is_byte.
    destruct (Ascii.eqb_spec sep c) as [<-|Hne].
    + rewrite bool_decide_eq_true_2 by done. cbn [andb tail]. rewrite filter_cons.
      rewrite (first_line_prefix _ _ _ _ _ Hm E). fold (HasPrefix s m).
      destruct (HasPrefix s m) eqn:Hp.
      * rewrite decide_True by done. cbn [length]. f_equal. unfold len. cbn [String.length]. rewrite Nat.sub_1_r. cbn.
        rewrite IH; [done|]. apply HasPrefix_spec in Hp as [r ->]. by exists m, r.
      * rewrite decide_False by done. rewrite IH; [done|]. by exists "", s.
    + rewrite bool_decide_eq_false_2 by done. cbn [andb tail].
      rewrite IH; [done|]. by exists "", s.
  - destruct Hskip as (u & v & Hs & Hu & Hf).
    destruct u as [|c' u]; [done|]. cbn in Hs. injection Hs as <- ->.
    unfold free_of in Hf. cbn in Hf. apply andb_true_iff in Hf as [Hc Hf].
    unfold not_byte in Hc. apply negb_true_iff in Hc. rewrite Hc.
    destruct (Split sep (u +:+ v)) as [|h t] eqn:E; [by apply Split_not_nil in E|]. cbn [tail].
    rewrite IH; [done|]. exists u, v. cbn in Hu. unfold len in *. split_and!; [done|lia|done].
Qed.

(** What [beginMarkers] counts. *)
Lemma beginMarkers_lines text : beginMarkers text = length (opening_lines text).
Proof.
  unfold beginMarkers, opening_lines, Count. change (newline +:+ pemBeginMarker) with (String (byte 10) pemBeginMarker).
  rewrite (count_lines (byte 10) pemBeginMarker 0) by (done || by exists "", text).
  destruct (Split (byte 10) text) as [|h t] eqn:E; [by apply Split_not_nil in E|]. cbn [tail].
  rewrite filter_cons, <-(first_line_prefix (byte 10) pemBeginMarker _ _ _ eq_refl E). unfold pemBeginMarker.
  destruct (HasPrefix h _); [by rewrite decide_True|by rewrite decide_False].
Qed.

(** ** Properties *)

Lemma parseTrustBundle_verdict (raw : string) (HD : decode_shortens) :
  is_Some (parseTrustBundle raw) ∧
  ∀ b, parseTrustBundle raw = Some (Ok b) ↔
    bundle_text (TrimSpace raw) (roots b) ∧ roots b ≠ [] ∧ NoDup (Raw <$> roots b) ∧
    length (roots b) = beginMarkers (TrimSpace raw) ∧ earliestExpiry b = earliest_of 0 (roots b).
Proof.
  unfold parseTrustBundle.
  destruct (read_blocks_total (S (len (TrimSpace raw))) (TrimSpace raw) [] ∅ 0 HD) as [r Hr]; [lia|].
  rewrite Hr. cbn. split; [by eexists|]. intros b. split.
  - destruct r as [loaded|]; [|done]. intros [= H]. destruct (roots loaded) eqn:Er; [done|]. rewrite <-Er in *.
    destruct (Nat.eqb_spec (length (roots loaded)) (beginMarkers (TrimSpace raw))); [|done].
    cbn in H. injection H as ->. apply read_blocks_Ok in Hr as (cs & Ht & Hcs & He & Hn & _).
    cbn in Hcs. subst cs. split_and!; try done. by rewrite Er.
  - intros (Ht & Hne & Hn & Hl & He).
    rewrite (read_blocks_complete (S (len (TrimSpace raw))) _ [] ∅ 0 (roots b) HD) in Hr
      by (try done; try lia; apply Forall_forall; set_solver).
    injection Hr as <-. cbn [roots]. destruct b as [rs e]. cbn in *.
    destruct rs; [done|]. rewrite <-Hl, Nat.eqb_refl. cbn. by rewrite He.
Qed.

(** C35: [parseTrustBundle] always comes to a verdict, and accepts exactly a
    sequence of distinct [CERTIFICATE] blocks of CA certificates of this trust
    domain, at least one, with nothing but space around them, that are as many as
    the lines of the file that begin with "-----BEGIN ": a block that is behind
    something else on its line, be it a space, is refused with the rest. It
    returns all of them, in order, and the earliest of their expiries. *)
Theorem parseTrustBundle_spec (raw : string) (HD : decode_shortens) :
  is_Some (parseTrustBundle raw) ∧
  ∀ b, (parseTrustBundle raw = Some (Ok b) ↔
     bundle_text (TrimSpace raw) (roots b) ∧ roots b ≠ [] ∧ NoDup (Raw <$> roots b) ∧
     length (roots b) = length (opening_lines (TrimSpace raw)) ∧ earliestExpiry b = earliest_of 0 (roots b)) ∧
   (parseTrustBundle raw = Some (Ok b) → Forall (λ c, NotAfter c ≠ 0%Z) (roots b) →
     (∃ c, c ∈ roots b ∧ earliestExpiry b = NotAfter c) ∧
     Forall (λ c, (earliestExpiry b <= NotAfter c)%Z) (roots b)).
Proof.
  destruct (parseTrustBundle_verdict raw HD) as [Hs Hb]. rewrite <-beginMarkers_lines.
  split; [done|]. intros b. split; [apply Hb|].
  intros (_ & Hne & _ & _ & ->)%Hb. by apply earliest_of_min.
Qed.

End parse.

(** A toy PEM reader for the witnesses: every block ends at its first [;]. *)
Definition sample_Decode (s : string) : option (Block * string) :=
  match Cut ";"%char s with
  | (b, rest, true) => Some (mkBlock certificatePEMType [] (slice_from (len pemBeginMarker) b), rest)
  | _ => None
  end.

Definition sample_root (der : string) (expiry : Z) : Certificate := {|
  Raw := der; SerialNumber := 1; NotBefore := 1; NotAfter := expiry; IsCA := true;
  KeyUsage := KeyUsageCertSign; ExtKeyUsage := []; PublicKeyOf := ECDSAPublicKey P256;
  URIs := ["spiffe://fizzled.internal"];
|}.

Definition sample_ParseCertificate (der : string) : result Certificate :=
  Ok (sample_root der (if (der =? "one")%string then 20 else 10)).

Lemma sample_Decode_shortens : decode_shortens sample_Decode.
Proof.
  intros s block remainder. unfold sample_Decode.
  destruct (Cut ";"%char s) as [[b rest] [|]] eqn:E; [|done]. intros [= _ <-].
  apply Cut_found in E as [-> _]. unfold len. rewrite length_append. cbn. lia.
Qed.

Definition sample_bundle : string :=
  "-----BEGIN one;" +:+ newline +:+ "-----BEGIN two;" +:+ newline.

Definition sample_loaded : loadedBundle := mkLoadedBundle [sample_root "one" 20; sample_root "two" 10] 10.

Lemma sample_bundle_loads :
  parseTrustBundle sample_Decode sample_ParseCertificate sample_bundle = Some (Ok sample_loaded).
Proof. vm_compute. reflexivity. Qed.

Lemma parseTrustBundle_spec_witness :
  NoDup (Raw <$> roots sample_loaded) ∧
  length (roots sample_loaded) = length (opening_lines (TrimSpace sample_bundle)).
Proof.
  destruct (proj1 (proj1 (proj2 (parseTrustBundle_spec sample_Decode sample_ParseCertificate
    sample_bundle sample_Decode_shortens) sample_loaded)) sample_bundle_loads) as (_ & _ & Hn & Hl & _).
  split; [exact Hn|exact Hl].
Defined.

(** The same two blocks, the second indented by a space: both are read, and the
    bundle is refused as if one had been dropped. *)
Definition indented_bundle : string :=
  "-----BEGIN one;" +:+ newline +:+ " -----BEGIN two;" +:+ newline.

Example indented_bundle_refused :
  (∃ b, read_blocks sample_Decode sample_ParseCertificate (S (len (TrimSpace indented_bundle)))
          (TrimSpace indented_bundle) [] ∅ 0 = Some (Ok b) ∧ length (roots b) = 2) ∧
  ∃ e, parseTrustBundle sample_Decode sample_ParseCertificate indented_bundle = Some (Err e) ∧
       Is e ErrBundleBlockDropped = true ∧
       Error e = "parse trust bundle: read 2 of 1 blocks: trust bundle block could not be read".
Proof.
  split; eexists; (split; [vm_compute; reflexivity|]); [reflexivity|split; vm_compute; reflexivity].
Qed.

End trustbundle.
