(* ===== verification/CommandLine.v ===== *)
(** * Command lines: package [flag] and [strconv.Atoi] as the commands use them

    A flag set whose flags are all strings, parsed with [ContinueOnError] and
    with its own output discarded; and the conversion of a decimal count. *)

From S2P Require Import Prelude GoStrings GoErrors.

Module flag.

(** What an argument is to the parser. *)
Inductive argument := Positional | Terminator | Flag (name : string).

Definition classify (s : string) : argument :=
  match s with
  | String c1 (String c2 rest) =>
      if is_byte "-" c1 then
        if is_byte "-" c2 then match rest with "" => Terminator | _ => Flag rest end
        else Flag (String c2 rest)
      else Positional
  | _ => Positional
  end.

(** A name that cannot be one. *)
Definition bad_name (name : string) : bool :=
  match name with
  | "" => true
  | String c _ => is_byte "-" c || is_byte "=" c
  end.

(** [FlagSet.Parse]: the values set, the last one of each flag, and the
    arguments that remain. *)
Fixpoint Parse (formal : list string) (args : list string) (actual : gmap string string)
    : result (gmap string string * list string) :=
  match args with
  | [] => Ok (actual, [])
  | s :: rest =>
      match classify s with
      | Positional => Ok (actual, args)
      | Terminator => Ok (actual, rest)
      | Flag text =>
          if bad_name text then Err (Foreign ("bad flag syntax: " +:+ s))
          else
            let '(name, value, hasValue) := Cut "=" text in
            if negb (bool_decide (name ∈ formal)) then
              if (name =? "help")%string || (name =? "h")%string then Err (Sentinel flag_ErrHelp)
              else Err (Foreign ("flag provided but not defined: -" +:+ name))
            else if (hasValue : bool) then Parse formal rest (<[name := value]> actual)
            else
              match rest with
              | [] => Err (Foreign ("flag needs an argument: -" +:+ name))
              | value :: rest => Parse formal rest (<[name := value]> actual)
              end
      end
  end.

(** The canonical way to write flags and their values. *)
Definition written (kvs : list (string * string)) : list string := kvs ≫= λ kv, ["--" +:+ kv.1; kv.2].

(** A flag whose name is neither empty nor looks like something else. *)
Definition good_name (name : string) : Prop := bad_name name = false ∧ free_of "=" name = true.

Lemma Cut_none sep s : free_of sep s = true → Cut sep s = (s, "", false).
Proof.
  intros H. destruct (Cut sep s) as [[b a] [|]] eqn:E.
  - apply Cut_found in E as [-> _]. unfold free_of in H. rewrite all_bytes_app in H. cbn in H.
    unfold not_byte, is_byte in H. rewrite Ascii.eqb_refl in H. cbn in H. by rewrite andb_false_r in H.
  - by apply Cut_not_found in E as (-> & -> & _).
Qed.

Lemma classify_long name : bad_name name = false → classify ("--" +:+ name) = Flag name.
Proof. by destruct name. Qed.

(** What was written is what is set, and nothing after the terminator is read. *)
Lemma Parse_written formal kvs rest actual :
  Forall (λ kv, kv.1 ∈ formal ∧ good_name kv.1) kvs →
  Parse formal (written kvs ++ "--" :: rest) actual =
  Ok (fold_left (λ m kv, <[kv.1 := kv.2]> m) kvs actual, rest).
Proof.
  intros H. revert actual. induction H as [|[k v] kvs [Hk [Hb Hf]] _ IH]; intros actual; [done|].
  cbn [written mbind list_bind fst snd]. rewrite <-app_assoc. cbn [app]. cbn [fst] in *.
  cbn [Parse]. rewrite (classify_long _ Hb), Hb, (Cut_none _ _ Hf), bool_decide_eq_true_2 by done.
  cbn [negb]. apply IH.
Qed.

(** A flag set fails with a request for help, or with an error of its own. *)
Lemma Parse_Err formal args actual e :
  Parse formal args actual = Err e → e = Sentinel flag_ErrHelp ∨ ∃ text, e = Foreign text.
Proof.
  remember (length args) as n eqn:Hn. revert args actual Hn.
  induction n as [n IH] using lt_wf_ind. intros [|s rest] actual ->; [done|]. cbn [Parse].
  destruct (classify s) as [| |text]; [done|done|].
  destruct (bad_name text); [intros [= <-]; eauto|].
  destruct (Cut "=" text) as [[k v] has]. destruct (negb _).
  - destruct (_ || _); intros [= <-]; eauto.
  - destruct has; [eapply IH; [|done]; cbn; lia|].
    destruct rest as [|v' rest]; [intros [= <-]; eauto|eapply IH; [|done]; cbn; lia].
Qed.

End flag.

Module strconv.

Definition digit_value (c : Ascii.ascii) : Z := Z.of_nat (nat_of_ascii c - nat_of_ascii "0"%char).

Definition MaxUint64 : Z := (2 ^ 64 - 1)%Z.

(** The loop of [ParseUint] in base 10, which stops at the first byte that is
    no digit or that takes the number out of range. *)
Inductive scanned := Number (n : Z) | InvalidSyntax | OutOfRange.

Fixpoint scan (n : Z) (s : string) : scanned :=
  match s with
  | "" => Number n
  | String c s =>
      if negb (is_digit c) then InvalidSyntax
      else
        let n := (10 * n + digit_value c)%Z in
        if (n >? MaxUint64)%Z then OutOfRange else scan n s
  end.

Section Atoi.
(** The text of the [NumError] that [Atoi] returns: the input quoted, and the
    reason. *)
Context (NumError : string → string → string).

(** [strconv.Atoi] for a 64-bit [int]: an optional sign and decimal digits,
    without underscores. *)
Definition Atoi (s : string) : result Z :=
  let '(negative, digits) :=
    match s with
    | String c rest => if is_byte "-" c then (true, rest) else if is_byte "+" c then (false, rest) else (false, s)
    | "" => (false, s)
    end in
  match (if (digits =? "")%string then InvalidSyntax else scan 0 digits) with
  | InvalidSyntax => Err (Foreign (NumError s "invalid syntax"))
  | OutOfRange => Err (Foreign (NumError s "value out of range"))
  | Number n =>
      let n := if (negative : bool) then (- n)%Z else n in
      if (n <? MinInt64)%Z || (n >? MaxInt64)%Z then Err (Foreign (NumError s "value out of range")) else Ok n
  end.

(** ** The decimal text of a number is read back *)

Lemma digit_char d : (d < 10)%N →
  is_digit (pretty_N_char d) = true ∧ digit_value (pretty_N_char d) = Z.of_N d.
Proof.
  intros Hd. assert (d = 0 ∨ d = 1 ∨ d = 2 ∨ d = 3 ∨ d = 4 ∨ d = 5 ∨ d = 6 ∨ d = 7 ∨ d = 8 ∨ d = 9)%N as H by lia.
  repeat destruct H as [->|H]; [done..|]. by subst.
Qed.

Lemma scan_pretty_N_go x s : (0 < Z.of_N x <= MaxUint64)%Z → scan 0 (pretty_N_go x s) = scan (Z.of_N x) s.
Proof.
  revert s. induction (N.lt_wf_0 x) as [x _ IH]. intros s Hx.
  rewrite pretty_N_go_step by lia.
  assert (scan (Z.of_N (x `div` 10)) (String (pretty_N_char (x `mod` 10)) s) = scan (Z.of_N x) s) as Hstep.
  { destruct (digit_char (x `mod` 10)) as [Hd Hv]; [apply N.mod_lt; lia|]. cbn [scan]. rewrite Hd, Hv. cbn [negb].
    assert (10 * Z.of_N (x `div` 10) + Z.of_N (x `mod` 10) = Z.of_N x)%Z as ->
      by (pose proof (N.div_mod x 10 ltac:(lia)); lia).
    destruct (Z.gtb_spec (Z.of_N x) MaxUint64); [lia|done]. }
  destruct (decide (x `div` 10 = 0)%N) as [Hz|Hz].
  - rewrite Hz in *. by rewrite pretty_N_go_0.
  - rewrite IH; [done| |].
    + apply N.div_lt; lia.
    + remember (x `div` 10)%N as q eqn:Eq. assert (q <= x)%N by (subst q; apply N.Div0.div_le_upper_bound; lia). lia.
Qed.

Lemma pretty_N_scan x : (Z.of_N x <= MaxUint64)%Z → pretty x ≠ "" ∧ scan 0 (pretty x) = Number (Z.of_N x).
Proof.
  intros Hx. unfold pretty, pretty_N. case_decide as H; [by subst|].
  pose proof (scan_pretty_N_go x "" ltac:(lia)) as Hs. split; [|exact Hs].
  intros He. rewrite He in Hs. cbn in Hs. injection Hs as Hs. lia.
Qed.

Lemma Atoi_pretty (n : Z) : (MinInt64 <= n <= MaxInt64)%Z → Atoi (pretty n) = Ok n.
Proof.
  intros Hn. assert (∀ p, (Z.pos p <= MaxUint64)%Z →
    (pretty (Npos p) =? "")%string = false ∧ scan 0 (pretty (Npos p)) = Number (Z.pos p)) as Hscan.
  { intros p Hp. destruct (pretty_N_scan (Npos p) Hp) as [Hne Hs]. by split; [apply String.eqb_neq|]. }
  unfold MinInt64, MaxInt64, MaxUint64 in *. destruct n as [|p|p]; [done| |].
  - destruct (Hscan p ltac:(lia)) as [Hne Hs]. unfold Atoi. change (pretty (Z.pos p)) with (pretty (Npos p)).
    destruct (pretty (Npos p)) as [|c rest] eqn:E; [done|].
    assert (is_digit c = true) as Hc by (cbn in Hs; by destruct (is_digit c)).
    assert (is_byte "-" c = false ∧ is_byte "+" c = false) as [-> ->].
    { unfold is_byte. split; apply Ascii.eqb_neq; by intros <-. }
    cbv beta iota. rewrite Hne, Hs.
    destruct (Z.ltb_spec (Z.pos p) MinInt64), (Z.gtb_spec (Z.pos p) MaxInt64);
      unfold MinInt64, MaxInt64 in *; lia || done.
  - destruct (Hscan p ltac:(lia)) as [Hne Hs]. unfold Atoi.
    change (pretty (Z.neg p)) with (String "-" (pretty (Npos p))). cbn [is_byte Ascii.eqb Bool.eqb].
    cbv beta iota. rewrite Hne, Hs.
    destruct (Z.ltb_spec (- Z.pos p) MinInt64), (Z.gtb_spec (- Z.pos p) MaxInt64);
      unfold MinInt64, MaxInt64 in *; lia || done.
Qed.
End Atoi.

End strconv.
