(* ===== verification/Authz.v ===== *)
(** * Authorization: [internal/authz]

    Roles and what they grant, the decision, and the loading of the roles file.
    Reading the file and recognising JSON syntax are parameters; what
    [encoding/json] does with a document once it is recognised, for the two Go
    types the program decodes into, is written out ([Unmarshal_entries],
    [Unmarshal_string]). *)

From S2P Require Import Prelude GoStrings GoErrors SpiffeID X509 X509SVID Identity.

(** ** Documents *)

Module json.

(** A recognised document. Each member of an object keeps its text, which is
    what [json.RawMessage] holds. A value of any other kind is never looked
    into by the program. *)
Inductive value :=
| Null
| String_ (s : string)
| Object (members : list (string * (string * value)))
| OtherKind (kind : string).

(** [json.RawMessage]: the bytes, and the document they are. *)
Definition RawMessage : Type := string * value.

Definition type_error (kind into : string) : error :=
  Foreign ("json: cannot unmarshal " +:+ kind +:+ " into Go value of type " +:+ into).

Definition kind_of (v : value) : string :=
  match v with Null => "null" | String_ _ => "string" | Object _ => "object" | OtherKind k => k end.

(** [json.Unmarshal] into a [string] that holds [""]: a null leaves it alone. *)
Definition Unmarshal_string (v : value) : result string :=
  match v with
  | Null => Ok ""
  | String_ s => Ok s
  | _ => Err (type_error (kind_of v) "string")
  end.

(** [json.Unmarshal] into a nil map from strings to [json.RawMessage]: a null
    leaves it nil, a repeated member overwrites the one before. *)
Definition Unmarshal_entries (v : value) : result (gmap authn.AgentID RawMessage) :=
  match v with
  | Null => Ok ∅
  | Object ms => Ok (fold_left (λ m kv, <[kv.1 := kv.2]> m) ms ∅)
  | _ => Err (type_error (kind_of v) "map[authn.AgentID]json.RawMessage")
  end.

End json.

Module authz.
Import authn.

(** ** Actions and roles *)

(** [type Action string] *)
Definition Action := string.
Definition ActionStart : Action := "Start".
Definition ActionStop : Action := "Stop".
Definition ActionGetStatus : Action := "GetStatus".
Definition ActionStreamOutput : Action := "StreamOutput".

(** [type Role string] *)
Definition Role := string.
Definition RoleUser : Role := "USER".

(** [nil] is the empty list here: no role of the program grants nothing. *)
Definition actions (r : Role) : list Action :=
  if (r =? RoleUser)%string then [ActionStart; ActionStop; ActionGetStatus; ActionStreamOutput]
  else [].

Definition isKnown (r : Role) : bool := match actions r with [] => false | _ => true end.

Definition isAuthorizedTo (r : Role) (action : Action) : bool :=
  existsb (String.eqb action) (actions r).

(** [Role.UnmarshalJSON]: the role it stores through its receiver. *)
Definition UnmarshalJSON (data : json.RawMessage) : result Role :=
  input ← map_err (errorf "unmarshal role") (json.Unmarshal_string data.2);
  if negb (isKnown input)
  then Err (errorf ("unmarshal role [" +:+ data.1 +:+ "]") (Sentinel ErrUnknownRole))
  else Ok input.

(** ** The authorizer *)

Record Authorizer := mkAuthorizer { roles : gmap AgentID Role }.

Definition Authorize (a : Authorizer) (agent : AgentID) (action : Action) : option error :=
  let denied := Some (errorf ("authorize [agent " +:+ agent +:+ " action " +:+ action +:+ "]")
                        (Sentinel ErrActionUnauthorized)) in
  match roles a !! agent with
  | None => denied
  | Some role => if negb (isAuthorizedTo role action) then denied else None
  end.

(** [slices.Sorted] of the keys of a map: Go orders strings by their bytes. *)
Definition sorted_keys {A} (m : gmap AgentID A) : list AgentID :=
  merge_sort String.le (elements (dom m)).

Section load.
Context (ReadFile : string → result string) (Clean : string → string).
Context (parse : string → result json.value).

(** The body of the loop of [Load], with [roles] so far. *)
Definition load_entry (path : string) (entries : gmap AgentID json.RawMessage)
    (roles : gmap AgentID Role) (agentID : AgentID) : result (gmap AgentID Role) :=
  let wrap := errorf ("load [" +:+ path +:+ "] agent [" +:+ agentID +:+ "]") in
  let rawRole := default (("", json.Null) : json.RawMessage) (entries !! agentID) in
  _ ← check (AgentID_Validate agentID) wrap;
  role ← map_err wrap (UnmarshalJSON rawRole);
  Ok (<[agentID := role]> roles).

Fixpoint load_entries (path : string) (entries : gmap AgentID json.RawMessage)
    (ids : list AgentID) (roles : gmap AgentID Role) : result (gmap AgentID Role) :=
  match ids with
  | [] => Ok roles
  | agentID :: ids =>
      roles ← load_entry path entries roles agentID;
      load_entries path entries ids roles
  end.

Definition Load (path : string) : result Authorizer :=
  let wrap := errorf ("load [" +:+ path +:+ "]") in
  content ← map_err wrap (ReadFile (Clean path));
  document ← map_err wrap (parse content);
  entries ← map_err wrap (json.Unmarshal_entries document);
  if bool_decide (size entries = 0) then Err (wrap (Sentinel ErrEmptyRoles))
  else
    roles ← load_entries path entries (sorted_keys entries) ∅;
    Ok (mkAuthorizer roles).

End load.

(** ** Lemmas *)

Lemma actions_known r : isKnown r = true ↔ r = RoleUser.
Proof. unfold isKnown, actions. destruct (String.eqb_spec r RoleUser) as [->|]; [done|]. naive_solver. Qed.

Lemma isAuthorizedTo_spec r action : isAuthorizedTo r action = true ↔ action ∈ actions r.
Proof.
  unfold isAuthorizedTo. rewrite existsb_exists. setoid_rewrite String.eqb_eq.
  setoid_rewrite <-list_elem_of_In. naive_solver.
Qed.

Lemma UnmarshalJSON_Ok data r : UnmarshalJSON data = Ok r ↔ data.2 = json.String_ r ∧ r = RoleUser.
Proof.
  unfold UnmarshalJSON. destruct data as [text v]. cbn. split.
  - intros H. inv_ok. destruct (isKnown x) eqn:Hk; [|done]. cbn in H. simplify_eq.
    apply actions_known in Hk as ->. by destruct v; cbn in *; simplify_eq.
  - by intros [-> ->].
Qed.

(** An entry the loader accepts. *)
Definition good_entry (id : AgentID) (raw : json.RawMessage) : Prop :=
  valid_agent id ∧ raw.2 = json.String_ RoleUser.

Lemma load_entry_Ok path (entries : gmap AgentID json.RawMessage) rs id raw rs' :
  entries !! id = Some raw →
  load_entry path entries rs id = Ok rs' ↔ good_entry id raw ∧ rs' = <[id := RoleUser]> rs.
Proof.
  intros He. unfold load_entry, good_entry. rewrite He. cbn. split.
  - intros H. inv_ok. destruct (UnmarshalJSON raw) eqn:Hu; [|done]. cbn in *. simplify_eq.
    apply AgentID_Validate_None in H0. apply UnmarshalJSON_Ok in Hu as [? ->]. done.
  - intros [[Hv Hr] ->]. rewrite (proj2 (AgentID_Validate_None id) Hv). cbn.
    by rewrite (proj2 (UnmarshalJSON_Ok raw RoleUser)).
Qed.

(** What the loader reports on an entry it refuses. *)
Definition entry_error (path : string) (id : AgentID) (e : error) : Prop :=
  ∃ cause, e = errorf ("load [" +:+ path +:+ "] agent [" +:+ id +:+ "]") cause ∧
           (¬ valid_agent id → Is cause ErrInvalidAgentID = true).

Lemma load_entry_Err path (entries : gmap AgentID json.RawMessage) rs id raw e :
  entries !! id = Some raw → load_entry path entries rs id = Err e →
  ¬ good_entry id raw ∧ entry_error path id e.
Proof.
  intros He H. split.
  - intros Hg. by rewrite (proj2 (load_entry_Ok path entries rs id raw _ He) (conj Hg eq_refl)) in H.
  - unfold load_entry in H. rewrite He in H. cbn [default] in H. unfold entry_error.
    apply bind_Err in H as [(cause & Hv & ->)%check_Err|([] & Hv%check_Ok & H)].
    + exists cause. split; [done|]. by apply AgentID_Validate_Some in Hv as [? _].
    + apply bind_Err in H as [(cause & _ & ->)%map_err_Err|(? & _ & ?)]; [|done].
      exists cause. split; [done|]. by apply AgentID_Validate_None in Hv.
Qed.

Section entries.
Context (path : string) (entries : gmap AgentID json.RawMessage).

Lemma load_entries_Ok ids rs m :
  Forall (λ id, id ∈ dom entries) ids →
  load_entries path entries ids rs = Ok m →
  Forall (λ id, ∀ raw, entries !! id = Some raw → good_entry id raw) ids ∧
  ∀ id, m !! id = if decide (id ∈ ids) then Some RoleUser else rs !! id.
Proof.
  intros Hd. revert rs. induction Hd as [|id ids Hid Hd IH]; intros rs H; cbn in H.
  - injection H as ->. split; [done|]. intros id. by case_decide; [set_solver|].
  - apply bind_Ok in H as (rs' & He & H). apply elem_of_dom in Hid as [raw Hraw].
    apply (load_entry_Ok _ _ _ _ _ _ Hraw) in He as [Hg ->].
    apply IH in H as [HF Hm]. split.
    + constructor; [|done]. intros raw' ?. by simplify_eq.
    + intros id'. rewrite Hm. destruct (decide (id' = id)) as [->|Hne].
      * rewrite lookup_insert_eq. by repeat case_decide; set_solver.
      * rewrite lookup_insert_ne by done. by repeat case_decide; set_solver.
Qed.

Lemma load_entries_complete ids rs :
  Forall (λ id, ∃ raw, entries !! id = Some raw ∧ good_entry id raw) ids →
  ∃ m, load_entries path entries ids rs = Ok m.
Proof.
  intros HF. revert rs. induction HF as [|id ids (raw & Hraw & Hg) HF IH]; intros rs; cbn; [eauto|].
  rewrite (proj2 (load_entry_Ok path entries rs id raw _ Hraw) (conj Hg eq_refl)). apply IH.
Qed.

(** The walk stops at the first bad entry of its order. *)
Lemma load_entries_Err ids rs e :
  Forall (λ id, id ∈ dom entries) ids → load_entries path entries ids rs = Err e →
  ∃ pre id post raw, ids = pre ++ id :: post ∧ entries !! id = Some raw ∧ ¬ good_entry id raw ∧
    Forall (λ id, ∀ raw, entries !! id = Some raw → good_entry id raw) pre ∧ entry_error path id e.
Proof.
  intros Hd. revert rs. induction Hd as [|id ids Hid Hd IH]; intros rs H; cbn in H; [done|].
  apply elem_of_dom in Hid as [raw Hraw]. apply bind_Err in H as [H|(rs' & He & H)].
  - apply (load_entry_Err _ _ _ _ _ _ Hraw) in H as [? ?]. exists [], id, ids, raw. by split_and!.
  - apply (load_entry_Ok _ _ _ _ _ _ Hraw) in He as [Hg ->].
    destruct (IH _ H) as (pre & id' & post & raw' & -> & ? & ? & ? & ?).
    exists (id :: pre), id', post, raw'. split_and!; try done.
    constructor; [|done]. intros ? ?. by simplify_eq.
Qed.
End entries.

Lemma sorted_keys_elem {A} (m : gmap AgentID A) k : k ∈ sorted_keys m ↔ k ∈ dom m.
Proof. unfold sorted_keys. rewrite merge_sort_Permutation. set_solver. Qed.

Lemma sorted_keys_dom {A} (m : gmap AgentID A) : Forall (λ id, id ∈ dom m) (sorted_keys m).
Proof. apply Forall_forall. intros k. by rewrite sorted_keys_elem. Qed.

Lemma sorted_keys_sorted {A} (m : gmap AgentID A) : StronglySorted String.le (sorted_keys m).
Proof. apply StronglySorted_merge_sort; apply _. Qed.

(** ** Properties *)

Section loaded.
Context (ReadFile : string → result string) (Clean : string → string).
Context (parse : string → result json.value).
Abbreviation Load := (Load ReadFile Clean parse).

(** The file at [path] holds [entries], at least one. *)
Definition file_entries (path : string) (entries : gmap AgentID json.RawMessage) : Prop :=
  ∃ content document, ReadFile (Clean path) = Ok content ∧ parse content = Ok document ∧
    json.Unmarshal_entries document = Ok entries ∧ entries ≠ ∅.

Lemma Load_Ok (path : string) (a : Authorizer) :
  Load path = Ok a ↔
  ∃ entries, file_entries path entries ∧
    (∀ id raw, entries !! id = Some raw → valid_agent id ∧ (raw : json.RawMessage).2 = json.String_ RoleUser) ∧
    roles a = (λ _, RoleUser) <$> entries.
Proof.
  unfold authz.Load, file_entries. split.
  - intros H. apply bind_Ok in H as (content & Hc & H). apply map_err_Ok in Hc.
    apply bind_Ok in H as (document & Hp & H). apply map_err_Ok in Hp.
    apply bind_Ok in H as (entries & Hu & H). apply map_err_Ok in Hu.
    case_bool_decide as Hz; [done|]. apply bind_Ok in H as (rs & Hl & [= <-]).
    apply load_entries_Ok in Hl as [HF Hm]; [|apply sorted_keys_dom].
    exists entries. split; [|split].
    + exists content, document. split_and!; try done. intros E%map_size_empty_iff. done.
    + intros id raw He. rewrite Forall_forall in HF. apply (HF id); [|done].
      apply sorted_keys_elem. by eapply elem_of_dom_2.
    + cbn. apply map_eq. intros id. rewrite Hm, lookup_fmap, lookup_empty.
      case_decide as Hi; rewrite sorted_keys_elem in Hi.
      * by apply elem_of_dom in Hi as [raw ->].
      * by apply not_elem_of_dom in Hi as ->.
  - intros (entries & (content & document & -> & Hp & Hu & Hne) & Hg & Hr). cbn.
    rewrite Hp. cbn. rewrite Hu. cbn. case_bool_decide as Hz; [by apply map_size_empty_iff in Hz|].
    destruct (load_entries_complete path entries (sorted_keys entries) ∅) as [m Hm].
    { apply Forall_forall. intros id [raw Hraw]%sorted_keys_elem%elem_of_dom. exists raw.
      split; [done|]. by apply Hg. }
    rewrite Hm. cbn. apply load_entries_Ok in Hm as [_ Hm]; [|apply sorted_keys_dom].
    destruct a as [rs]. cbn in Hr. do 2 f_equal. subst rs. apply map_eq. intros id.
    rewrite Hm, lookup_fmap, lookup_empty. case_decide as Hi; rewrite sorted_keys_elem in Hi.
    + by apply elem_of_dom in Hi as [raw ->].
    + by apply not_elem_of_dom in Hi as ->.
Qed.

(** C33: [Load] succeeds exactly on a readable file that is a JSON object with
    at least one member, every key of which is a well-formed agent identifier
    and every value of which is the string of a known role; the authorizer then
    holds exactly those agents. *)
Theorem Load_spec (path : string) (a : Authorizer) :
  (Load path = Ok a ↔
   ∃ entries, file_entries path entries ∧
     (∀ id raw, entries !! id = Some raw → valid_agent id ∧ (raw : json.RawMessage).2 = json.String_ RoleUser) ∧
     roles a = (λ _, RoleUser) <$> entries) ∧
  (Load path = Ok a → roles a ≠ ∅).
Proof.
  split; [apply Load_Ok|]. intros (entries & (? & ? & _ & _ & _ & Hne) & _ & ->)%Load_Ok.
  by rewrite fmap_empty_iff.
Qed.

(** Of the entries a file gets wrong, [Load] reports the first in byte
    order, whatever order the map is walked in, and names it; a malformed
    identifier is reported as such before its role is looked at. *)
Theorem Load_reports_first_entry (path : string) (entries : gmap AgentID json.RawMessage) (e : error)
  (HF : file_entries path entries) (HE : Load path = Err e) :
  ∃ id raw, entries !! id = Some raw ∧ ¬ (valid_agent id ∧ raw.2 = json.String_ RoleUser) ∧
    (∀ id' raw', entries !! id' = Some raw' →
       ¬ (valid_agent id' ∧ raw'.2 = json.String_ RoleUser) → String.le id id') ∧
    ∃ cause, e = errorf ("load [" +:+ path +:+ "] agent [" +:+ id +:+ "]") cause ∧
             (¬ valid_agent id → Is cause ErrInvalidAgentID = true).
Proof.
  destruct HF as (content & document & Hc & Hp & Hu & Hne). unfold authz.Load in HE.
  rewrite Hc in HE. cbn in HE. rewrite Hp in HE. cbn in HE. rewrite Hu in HE. cbn in HE.
  case_bool_decide as Hz; [by apply map_size_empty_iff in Hz|].
  apply bind_Err in HE as [HE|(? & _ & ?)]; [|done].
  apply load_entries_Err in HE as (pre & id & post & raw & Hk & Hraw & Hb & Hpre & He);
    [|apply sorted_keys_dom].
  exists id, raw. split_and!; [done|done| |done].
  intros id' raw' Hraw' Hb'. pose proof (sorted_keys_sorted entries) as Hs.
  assert (id' ∈ sorted_keys entries) as Hin by (apply sorted_keys_elem; by eapply elem_of_dom_2).
  rewrite Hk in Hs, Hin. apply elem_of_app in Hin as [Hin|[->|Hin]%elem_of_cons].
  - rewrite Forall_forall in Hpre. destruct Hb'. by eapply Hpre.
  - reflexivity.
  - apply StronglySorted_app_1_r in Hs. apply StronglySorted_inv in Hs as [_ Hs].
    rewrite Forall_forall in Hs. by apply Hs.
Qed.

(** C34: deny by default: with a loaded authorizer exactly the agents of the
    file may act, and only by the four actions of the service; anything else is
    refused as unauthorized, and no malformed identifier is ever let in. *)
Theorem Authorize_default_deny (path : string) (a : Authorizer) (agent : AgentID) (action : Action)
  (HL : Load path = Ok a) :
  (Authorize a agent action = None ↔
   agent ∈ dom (roles a) ∧
   (action = ActionStart ∨ action = ActionStop ∨ action = ActionGetStatus ∨ action = ActionStreamOutput)) ∧
  (agent ∈ dom (roles a) → valid_agent agent) ∧
  (∀ e, Authorize a agent action = Some e → Is e ErrActionUnauthorized = true).
Proof.
  apply Load_Ok in HL as (entries & _ & Hg & Hr).
  assert (∀ r, roles a !! agent = Some r → r = RoleUser) as Hrole.
  { intros r. rewrite Hr, lookup_fmap. destruct (entries !! agent); cbn; congruence. }
  unfold Authorize. split_and!.
  - rewrite elem_of_dom. destruct (roles a !! agent) as [r|] eqn:E; [|by split; [|intros [[? ?] _]]].
    rewrite (Hrole r eq_refl). destruct (isAuthorizedTo RoleUser action) eqn:Ha; cbn.
    + apply isAuthorizedTo_spec in Ha. cbn in Ha. split; [|done]. intros _. split; [done|].
      repeat setoid_rewrite elem_of_cons in Ha. set_solver.
    + split; [done|]. intros [_ Hc]. assert (isAuthorizedTo RoleUser action = true); [|congruence].
      by destruct Hc as [->|[->|[->| ->]]].
  - rewrite Hr, dom_fmap, elem_of_dom. intros [raw Hraw]. by apply (Hg _ _ Hraw).
  - intros e. destruct (roles a !! agent); [destruct (negb _)|]; by intros [= <-].
Qed.

End loaded.

(** A concrete deployment: one file, with two agents, the second in error. *)
Definition sample_ReadFile (content path : string) : result string :=
  if (path =? "roles.json")%string then Ok content else Err (Foreign "open: no such file or directory").

Definition sample_parse (text : string) : result json.value :=
  if (text =? "both")%string then
    Ok (json.Object [("smith", ("'USER'", json.String_ "USER")); ("jones", ("null", json.Null))])
  else if (text =? "one")%string then
    Ok (json.Object [("smith", ("'USER'", json.String_ "USER"))])
  else Err (Foreign "unexpected end of JSON input").

Definition sample_Load (content : string) : string → result Authorizer :=
  Load (sample_ReadFile content) (λ p, p) sample_parse.

Lemma Load_reports_first_entry_witness :
  ∃ id raw, id = "jones" ∧ raw = ("null", json.Null) ∧ sample_Load "both" "roles.json" =
    Err (errorf "load [roles.json] agent [jones]" (errorf "unmarshal role [null]" (Sentinel ErrUnknownRole))).
Proof.
  destruct (Load_reports_first_entry (sample_ReadFile "both") (λ p, p) sample_parse "roles.json"
    (<["jones" := ("null", json.Null)]> {["smith" := ("'USER'", json.String_ "USER")]})
    (errorf "load [roles.json] agent [jones]" (errorf "unmarshal role [null]" (Sentinel ErrUnknownRole))))
    as (id & raw & Hraw & Hbad & _).
  - exists "both". eexists. by split_and!.
  - vm_compute. reflexivity.
  - exists id, raw. apply lookup_insert_Some in Hraw as [[<- <-]|[_ [<- <-]%lookup_singleton_Some]].
    + split_and!; [reflexivity..|]. vm_compute. reflexivity.
    + destruct Hbad. split; [|reflexivity]. constructor; [done|vm_compute; lia|done].
Defined.

Lemma Authorize_default_deny_witness :
  ∃ a, sample_Load "one" "roles.json" = Ok a ∧ Authorize a "smith" ActionStop = None.
Proof.
  eexists. split; [vm_compute; reflexivity|].
  refine (proj2 (proj1 (Authorize_default_deny (sample_ReadFile "one") (λ p, p) sample_parse "roles.json"
    _ "smith" ActionStop eq_refl)) _).
  split; [|tauto]. apply elem_of_dom. by eexists.
Defined.

End authz.
