(* ===== verification/Slog.v ===== *)
(** * Structured logging: [log/slog] as the program uses it, and
    [internal/logging/logging.go]

    A logger either discards everything or hands each record, with the
    attributes it was derived with, to a handler. Writing is an effect: each
    [LogAttrs] call is the list of records it hands on. *)

From S2P Require Import Prelude.

Module slog.

Inductive Level := LevelInfo | LevelWarn | LevelError.

#[export] Instance Level_eq_dec : EqDecision Level.
Proof. solve_decision. Defined.

(** [slog.String(key, value)]; every attribute the program writes is rendered
    as a string. *)
Definition Attr : Type := string * string.

Record LogRecord := mkRecord { level : Level; message : string; attributes : list Attr }.

Inductive Logger := DiscardHandler | Handler (attrs : list Attr).

Definition With (l : Logger) (attrs : list Attr) : Logger :=
  match l with
  | DiscardHandler => DiscardHandler
  | Handler pre => Handler (pre ++ attrs)
  end.

Definition LogAttrs (l : Logger) (lvl : Level) (msg : string) (attrs : list Attr) : list LogRecord :=
  match l with
  | DiscardHandler => []
  | Handler pre => [mkRecord lvl msg (pre ++ attrs)]
  end.

End slog.

Module logging.

(** [logging.OrDiscard]: a nil logger discards. *)
Definition OrDiscard (logger : option slog.Logger) : slog.Logger :=
  match logger with None => slog.DiscardHandler | Some l => l end.

End logging.
