(* ===== verification/Context.v ===== *)
(** * [context.Context] and the peer of a connection, as the program uses them

    A context carries the agent id the interceptor stored in it, the peer that
    gRPC stored in it, and the cancellation scope it ends with. A scope is the
    life of one RPC; [context.WithoutCancel] leaves a context without one. *)

From S2P Require Import Prelude GoStrings GoErrors X509 SpiffeID X509SVID Identity.

Module context.
Import authn.

(** [tls.ConnectionState]: the chain the peer presented, nil entries included. *)
Record ConnectionState := mkConnectionState { PeerCertificates : list (option x509.Certificate) }.

(** [credentials.AuthInfo], seen through the type assertion to
    [credentials.TLSInfo], with its [%v] rendering otherwise. *)
Inductive AuthInfo := TLSInfo (state : ConnectionState) | OtherAuthInfo (text : string).

Abbreviation scope := nat.

Record Context := mkContext {
  peer_of : option AuthInfo;
  agent_of : option AgentID;
  scope_of : option scope;
}.

(** [context.WithValue(ctx, agentIDKey{}, agentID)] *)
Definition WithValue (ctx : Context) (agentID : AgentID) : Context :=
  mkContext (peer_of ctx) (Some agentID) (scope_of ctx).

Definition WithoutCancel (ctx : Context) : Context :=
  mkContext (peer_of ctx) (agent_of ctx) None.

(** [peer.FromContext(ctx)] *)
Definition FromContext (ctx : Context) : option AuthInfo := peer_of ctx.

(** The scopes that have ended, with the error each ended with. *)
Definition scopes := gmap scope error.

(** [ctx.Err()] *)
Definition Context_Err (done : scopes) (ctx : Context) : option error :=
  s ← scope_of ctx; done !! s.

End context.
