(* ===== verification/Authenticator.v ===== *)
(** * The mTLS policy: [internal/authn/authenticator.go] and [tlsconfig.go]

    An [Authenticator] verifies a peer's chain, holds its leaf to the issuance
    policy, and resolves the identity it carries. The clock is read at each
    verification and is an argument of it. What the configurations leave to
    [crypto/tls] is the record of the fields the program sets. *)

From S2P Require Import Prelude GoStrings GoErrors X509 SpiffeID X509SVID Identity TrustBundle Slog.
From S2P Require Import Context.

Module authenticator.
Import x509 x509svid authn trustbundle context.

(** [2 * time.Minute] *)
Definition skew : Z := 120000000000.

(** [type peerSide string] *)
Definition peerSide := string.
Definition peerClient : peerSide := "client".
Definition peerServer : peerSide := "server".

(** [type Authenticator struct] *)
Record Authenticator := mkAuthenticator { verifier : Verifier; auth_logger : slog.Logger }.

(** [tls.Certificate]: the DER chain a key pair carries. *)
Record KeyPair := mkKeyPair { DERs : list string }.

Inductive ClientAuthType := NoClientCert | RequireAnyClientCert.

Definition VersionTLS12 : Z := 771.
Definition VersionTLS13 : Z := 772.
Definition TLS_ECDHE_ECDSA_WITH_AES_128_GCM_SHA256 : Z := 49195.
Definition TLS_ECDHE_ECDSA_WITH_AES_256_GCM_SHA384 : Z := 49196.

(** What a call made by [crypto/tls] does: its verdict and the audit lines it
    writes, or a run-time panic. *)
Inductive verdict := Verdict (e : option error) (recs : list slog.LogRecord) | Panicked.

(** The fields of [tls.Config] the program gives a value. *)
Record Config := mkConfig {
  Certificates : list KeyPair;
  MinVersion : Z;
  MaxVersion : Z;
  CipherSuites : list Z;
  ClientAuth : ClientAuthType;
  InsecureSkipVerify : bool;
  SessionTicketsDisabled : bool;
  RootCAs : option CertPool;
  ClientCAs : option CertPool;
  VerifyConnection : Z → ConnectionState → verdict;
}.

Definition baseTLSConfig (identity : KeyPair) (verify : Z → ConnectionState → verdict) : Config := {|
  Certificates := [identity];
  MinVersion := VersionTLS12;
  MaxVersion := VersionTLS13;
  CipherSuites := [TLS_ECDHE_ECDSA_WITH_AES_128_GCM_SHA256; TLS_ECDHE_ECDSA_WITH_AES_256_GCM_SHA384];
  ClientAuth := NoClientCert;
  InsecureSkipVerify := false;
  SessionTicketsDisabled := false;
  RootCAs := None;
  ClientCAs := None;
  VerifyConnection := verify;
|}.

Definition newClientTLSConfig (identity : KeyPair) (verify : Z → ConnectionState → verdict) : Config :=
  let config := baseTLSConfig identity verify in {|
  Certificates := Certificates config; MinVersion := MinVersion config; MaxVersion := MaxVersion config;
  CipherSuites := CipherSuites config; ClientAuth := ClientAuth config;
  InsecureSkipVerify := true;
  SessionTicketsDisabled := SessionTicketsDisabled config; RootCAs := RootCAs config;
  ClientCAs := ClientCAs config; VerifyConnection := VerifyConnection config;
|}.

Definition newServerTLSConfig (identity : KeyPair) (verify : Z → ConnectionState → verdict) : Config :=
  let config := baseTLSConfig identity verify in {|
  Certificates := Certificates config; MinVersion := MinVersion config; MaxVersion := MaxVersion config;
  CipherSuites := CipherSuites config;
  ClientAuth := RequireAnyClientCert;
  InsecureSkipVerify := InsecureSkipVerify config;
  SessionTicketsDisabled := true;
  RootCAs := RootCAs config; ClientCAs := ClientCAs config; VerifyConnection := VerifyConnection config;
|}.

(** ** Audit lines *)

Definition auditTrustBundle (Time_text : Z → string) (a : Authenticator) (path : string)
    (loaded : loadedBundle) : list slog.LogRecord :=
  slog.LogAttrs (auth_logger a) slog.LevelInfo "trust bundle loaded"
    [("path", path); ("roots", pretty (length (roots loaded))); ("expires", Time_text (earliestExpiry loaded))].

Definition auditAccept (a : Authenticator) (peer : peerSide) (leaf : Leaf) (extra : list slog.Attr)
    : list slog.LogRecord :=
  slog.LogAttrs (auth_logger a) slog.LevelInfo "peer authenticated"
    ([("peer", peer); ("spiffe_id", spiffeid.ID_String (Leaf_ID leaf));
      ("serial", serialNumber (Leaf_Certificate leaf))] ++ extra).

(** The serial number of a nil certificate is a run-time panic. *)
Definition auditReject (a : Authenticator) (peer : peerSide) (state : ConnectionState) (e : error)
    : option (list slog.LogRecord) :=
  let attributes := [("peer", peer); ("error", Error e)] in
  attributes ← match PeerCertificates state with
               | [] => Some attributes
               | Some c :: _ => Some (attributes ++ [("presented_serial", serialNumber c)])
               | None :: _ => None
               end;
  Some (slog.LogAttrs (auth_logger a) slog.LevelWarn "peer rejected" attributes).

(** ** Verification *)

Section verify.
Context (Certificate_Verify : Certificate → VerifyOptions → option error).

(** [Authenticator.leaf] *)
Definition verified_leaf (a : Authenticator) (now : Z) (certificates : list (option Certificate)) : result Leaf :=
  leaf ← map_err (errorf "leaf") (Verify Certificate_Verify now (verifier a) certificates);
  _ ← check (leafPolicy (Leaf_Certificate leaf)) (errorf "leaf");
  Ok leaf.

Definition clientSVID (a : Authenticator) (now : Z) (chain : list (option Certificate))
    : result (Leaf * AgentID) :=
  leaf ← map_err (errorf "client svid") (verified_leaf a now chain);
  agentID ← map_err (errorf "client svid") (clientAgentID (Leaf_ID leaf));
  Ok (leaf, agentID).

Definition serverSVID (a : Authenticator) (now : Z) (chain : list (option Certificate)) : result Leaf :=
  leaf ← map_err (errorf "server svid") (verified_leaf a now chain);
  _ ← check (serverIdentity (Leaf_ID leaf)) (errorf "server svid");
  Ok leaf.

Definition Authenticate (a : Authenticator) (now : Z) (state : ConnectionState) : result AgentID :=
  '(_, agentID) ← map_err (errorf "authenticate") (clientSVID a now (PeerCertificates state));
  Ok agentID.

Definition verifyClientPeer (a : Authenticator) (now : Z) (state : ConnectionState) : verdict :=
  match clientSVID a now (PeerCertificates state) with
  | Err e =>
      match auditReject a peerClient state e with
      | None => Panicked
      | Some recs => Verdict (Some (errorf "verify client peer" e)) recs
      end
  | Ok (leaf, agentID) => Verdict None (auditAccept a peerClient leaf [("agent_id", agentID)])
  end.

Definition verifyServerPeer (a : Authenticator) (now : Z) (state : ConnectionState) : verdict :=
  match serverSVID a now (PeerCertificates state) with
  | Err e =>
      match auditReject a peerServer state e with
      | None => Panicked
      | Some recs => Verdict (Some (errorf "verify server peer" e)) recs
      end
  | Ok leaf => Verdict None (auditAccept a peerServer leaf [])
  end.

(** ** Construction *)

Section files.
Context (ReadFile : string → result string) (Clean : string → string).
Context (Decode : string → option (Block * string)) (ParseCertificate : string → result Certificate).
Context (LoadX509KeyPair : string → string → result KeyPair) (Time_text : Z → string).

(** The loop of [loadIdentity]. *)
Fixpoint parse_chain (wrap : error → error) (ders : list string) : result (list (option Certificate)) :=
  match ders with
  | [] => Ok []
  | der :: ders =>
      certificate ← map_err wrap (ParseCertificate der);
      chain ← parse_chain wrap ders;
      Ok (Some certificate :: chain)
  end.

Definition loadIdentity (certPath keyPath : string) : result (KeyPair * list (option Certificate)) :=
  identity ← map_err (errorf ("load key-pair [" +:+ certPath +:+ "]"))
    (LoadX509KeyPair (Clean certPath) (Clean keyPath));
  chain ← parse_chain (errorf ("parse key-pair [" +:+ certPath +:+ "]")) (DERs identity);
  Ok (identity, chain).

(** [NewAuthenticator], with the audit line it writes; [None] as in
    [parseTrustBundle]. *)
Definition NewAuthenticator (caPath : string) (logger : option slog.Logger)
    : option (result (Authenticator * list slog.LogRecord)) :=
  loaded ← loadTrustBundle Decode ParseCertificate ReadFile Clean caPath;
  Some (
    bundle ← map_err (errorf "new authenticator") loaded;
    verifier ← map_err (errorf "new authenticator") (NewVerifier (map Some (roots bundle)) skew);
    let a := mkAuthenticator verifier (logging.OrDiscard logger) in
    Ok (a, auditTrustBundle Time_text a caPath bundle)).

Definition ClientConfig (a : Authenticator) (now : Z) (certPath keyPath : string) : result Config :=
  '(identity, chain) ← map_err (errorf "client config") (loadIdentity certPath keyPath);
  _ ← map_err (errorf "client config") (clientSVID a now chain);
  Ok (newClientTLSConfig identity (verifyServerPeer a)).

Definition ServerConfig (a : Authenticator) (now : Z) (certPath keyPath : string) : result Config :=
  '(identity, chain) ← map_err (errorf "server config") (loadIdentity certPath keyPath);
  _ ← map_err (errorf "server config") (serverSVID a now chain);
  Ok (newServerTLSConfig identity (verifyClientPeer a)).

End files.

(** ** Lemmas *)

(** A verified leaf carries one URI, which parses to its identity. *)
Lemma verified_leaf_Ok a now certs leaf :
  verified_leaf a now certs = Ok leaf ↔
  Verify Certificate_Verify now (verifier a) certs = Ok leaf ∧ leaf_policy (leaf_certificate leaf).
Proof.
  unfold verified_leaf. rewrite bind_Ok. setoid_rewrite map_err_Ok. split.
  - intros (l & Hv & H). apply bind_Ok in H as ([] & Hp%check_Ok & [= <-]).
    split; [done|]. by apply leafPolicy_None.
  - intros [Hv Hp]. exists leaf. split; [done|]. unfold Leaf_Certificate. by rewrite (proj2 (leafPolicy_None _) Hp).
Qed.

Lemma Verify_uri now v certs leaf :
  Verify Certificate_Verify now v certs = Ok leaf →
  ∃ u, URIs (leaf_certificate leaf) = [u] ∧ spiffeid.Parse u = Ok (leaf_spiffeID leaf).
Proof. intros (signers & pool & _ & _ & _ & Hl & _)%Verify_Ok. apply Hl. Qed.

Lemma clientSVID_Ok a now chain leaf agent :
  clientSVID a now chain = Ok (leaf, agent) ↔
  verified_leaf a now chain = Ok leaf ∧ URIs (leaf_certificate leaf) = [client_uri agent] ∧ valid_agent agent.
Proof.
  unfold clientSVID. rewrite bind_Ok. setoid_rewrite map_err_Ok. split.
  - intros (l & Hl & H). apply bind_Ok in H as (ag & Hc & [= -> ->]). apply map_err_Ok in Hc.
    split; [done|]. pose proof Hl as [Hv _]%verified_leaf_Ok. destruct (Verify_uri _ _ _ _ Hv) as (u & -> & Hu).
    by apply (clientAgentID_uri _ _ _ Hu) in Hc as [-> ?].
  - intros (Hl & Hu & Ha). exists leaf. split; [done|]. pose proof Hl as [Hv _]%verified_leaf_Ok.
    destruct (Verify_uri _ _ _ _ Hv) as (u & Hu' & Hp). rewrite Hu in Hu'. injection Hu' as <-.
    unfold Leaf_ID. by rewrite (proj2 (clientAgentID_uri _ _ agent Hp)).
Qed.

Lemma serverIdentity_uri u i :
  spiffeid.Parse u = Ok i → serverIdentity i = None ↔ u = server_uri.
Proof.
  rewrite serverIdentity_shape. intros (td & cs & Hu & -> & Hcs)%spiffeid.Parse_Ok. rewrite Hcs. cbn. split.
  - intros [-> ->]. apply Hu.
  - intros ->. by destruct (spiffeid.spiffe_uri_unique _ _ _ _ _ Hu server_uri_grammar) as [-> ->].
Qed.

Lemma serverSVID_Ok a now chain leaf :
  serverSVID a now chain = Ok leaf ↔
  verified_leaf a now chain = Ok leaf ∧ URIs (leaf_certificate leaf) = [server_uri].
Proof.
  unfold serverSVID. rewrite bind_Ok. setoid_rewrite map_err_Ok. split.
  - intros (l & Hl & H). apply bind_Ok in H as ([] & Hc%check_Ok & [= ->]).
    split; [done|]. pose proof Hl as [Hv _]%verified_leaf_Ok. destruct (Verify_uri _ _ _ _ Hv) as (u & -> & Hu).
    by apply (serverIdentity_uri _ _ Hu) in Hc as ->.
  - intros (Hl & Hu). exists leaf. split; [done|]. pose proof Hl as [Hv _]%verified_leaf_Ok.
    destruct (Verify_uri _ _ _ _ Hv) as (u & Hu' & Hp). rewrite Hu in Hu'. injection Hu' as <-.
    unfold Leaf_ID. by rewrite (proj2 (serverIdentity_uri _ _ Hp) eq_refl).
Qed.

Lemma Authenticate_agent a now state agent :
  Authenticate a now state = Ok agent ↔ ∃ leaf, clientSVID a now (PeerCertificates state) = Ok (leaf, agent).
Proof.
  unfold Authenticate. rewrite bind_Ok. setoid_rewrite map_err_Ok. split.
  - intros ([leaf ag] & H & [= ->]). eauto.
  - intros [leaf H]. exists (leaf, agent). done.
Qed.

(** ** Properties *)

(** C22: [Authenticate] names an agent exactly when the presented chain passes
    [x509svid] verification against the bundle now, its leaf meets the issuance
    policy, and the leaf's only URI is the client URI of that well-formed agent
    identifier; it names nobody else on the same chain. *)
Theorem Authenticate_spec (a : Authenticator) (now : Z) (state : ConnectionState) (agent : AgentID) :
  (Authenticate a now state = Ok agent ↔
   ∃ leaf, Verify Certificate_Verify now (verifier a) (PeerCertificates state) = Ok leaf ∧
     leaf_policy (leaf_certificate leaf) ∧
     URIs (leaf_certificate leaf) = [client_uri agent] ∧ valid_agent agent) ∧
  (PeerCertificates state = [] → ∃ e, Authenticate a now state = Err e ∧ Is e ErrNoCertificate = true).
Proof.
  split.
  - rewrite Authenticate_agent. setoid_rewrite clientSVID_Ok. setoid_rewrite verified_leaf_Ok. naive_solver.
  - intros H. unfold Authenticate, clientSVID, verified_leaf, Verify. rewrite H. by eexists.
Qed.

(** C24: the two sides of a connection are held to the same standard, and to
    different identities: the server's verdict on a peer is what [Authenticate]
    then answers on the same connection, and no chain is both a client's and the
    server's. *)
Theorem peers_verified_consistently (a : Authenticator) (now : Z) (state : ConnectionState) :
  ((∃ recs, verifyClientPeer a now state = Verdict None recs) ↔
   ∃ agent, Authenticate a now state = Ok agent) ∧
  ¬ ((∃ recs, verifyClientPeer a now state = Verdict None recs) ∧
     (∃ recs, verifyServerPeer a now state = Verdict None recs)).
Proof.
  assert ((∃ recs, verifyClientPeer a now state = Verdict None recs) ↔
          ∃ leaf agent, clientSVID a now (PeerCertificates state) = Ok (leaf, agent)) as Hc.
  { unfold verifyClientPeer. destruct (clientSVID _ _ _) as [[leaf agent]|e]; [naive_solver|].
    destruct (auditReject _ _ _ _); naive_solver. }
  assert ((∃ recs, verifyServerPeer a now state = Verdict None recs) ↔
          ∃ leaf, serverSVID a now (PeerCertificates state) = Ok leaf) as Hs.
  { unfold verifyServerPeer. destruct (serverSVID _ _ _); [naive_solver|].
    destruct (auditReject _ _ _ _); naive_solver. }
  rewrite Hc, Hs. setoid_rewrite Authenticate_agent. split; [naive_solver|].
  intros [(leaf & agent & (Hl & Hu & _)%clientSVID_Ok) (leaf' & (Hl' & Hu')%serverSVID_Ok)].
  rewrite Hl in Hl'. injection Hl' as <-. rewrite Hu in Hu'. by injection Hu'.
Qed.

(** C25: a configuration is built only from an SVID that the other side will
    accept: [ClientConfig] succeeds exactly when the chain it would present
    passes the server's own check, and [ServerConfig] likewise; Go's
    verification is switched off only together with the callback that replaces
    it, and the server requires a certificate and issues no session ticket. *)
Theorem configurations_self_checked (Clean : string → string) (ParseCertificate : string → result Certificate)
  (LoadX509KeyPair : string → string → result KeyPair) (a : Authenticator) (now : Z) (certPath keyPath : string)
  (identity : KeyPair) (chain : list (option Certificate))
  (HL : loadIdentity Clean ParseCertificate LoadX509KeyPair certPath keyPath = Ok (identity, chain)) :
  let state := mkConnectionState chain in
  let client := ClientConfig Clean ParseCertificate LoadX509KeyPair a now certPath keyPath in
  let server := ServerConfig Clean ParseCertificate LoadX509KeyPair a now certPath keyPath in
  ((∃ cfg, client = Ok cfg) ↔ ∃ recs, verifyClientPeer a now state = Verdict None recs) ∧
  ((∃ cfg, server = Ok cfg) ↔ ∃ recs, verifyServerPeer a now state = Verdict None recs) ∧
  (∀ cfg, client = Ok cfg → InsecureSkipVerify cfg = true ∧ VerifyConnection cfg = verifyServerPeer a) ∧
  (∀ cfg, server = Ok cfg → ClientAuth cfg = RequireAnyClientCert ∧ SessionTicketsDisabled cfg = true ∧
     ClientCAs cfg = None ∧ VerifyConnection cfg = verifyClientPeer a).
Proof.
  cbv zeta. unfold ClientConfig, ServerConfig, verifyClientPeer, verifyServerPeer. rewrite HL.
  cbn [map_err mbind result_bind PeerCertificates]. split_and!.
  - destruct (clientSVID a now chain) as [[leaf ag]|e]; cbn.
    + split; intros _; by eexists.
    + destruct chain as [|[c|] chain]; cbn; by split; intros [? ?].
  - destruct (serverSVID a now chain) as [leaf|e]; cbn.
    + split; intros _; by eexists.
    + destruct chain as [|[c|] chain]; cbn; by split; intros [? ?].
  - intros cfg. destruct (clientSVID a now chain) as [[leaf ag]|e]; cbn; [|done]. by intros [= <-].
  - intros cfg. destruct (serverSVID a now chain) as [leaf|e]; cbn; [|done]. by intros [= <-].
Qed.

End verify.

Definition sample_authenticator : Authenticator :=
  mkAuthenticator (mkVerifier (Some [sample_root "one" 20]) skew) slog.DiscardHandler.

Definition sample_leaf : Certificate := {|
  Raw := "leaf"; SerialNumber := 2; NotBefore := 1; NotAfter := 20; IsCA := false;
  KeyUsage := KeyUsageDigitalSignature; ExtKeyUsage := [ExtKeyUsageServerAuth; ExtKeyUsageClientAuth];
  PublicKeyOf := ECDSAPublicKey P256; URIs := ["spiffe://fizzled.internal/client/agent/smith"];
|}.

Definition sample_ClientConfig : result Config :=
  ClientConfig (λ _ _, None) (λ p, p) (λ _, Ok sample_leaf) (λ _ _, Ok (mkKeyPair ["leaf"]))
    sample_authenticator 10 "cert.pem" "key.pem".

Lemma configurations_self_checked_witness :
  ∃ cfg, sample_ClientConfig = Ok cfg ∧ InsecureSkipVerify cfg = true.
Proof.
  destruct sample_ClientConfig as [cfg|e] eqn:E.
  - exists cfg. split; [reflexivity|].
    refine (proj1 (proj1 (proj2 (proj2 (configurations_self_checked (λ _ _, None) (λ p, p) (λ _, Ok sample_leaf)
      (λ _ _, Ok (mkKeyPair ["leaf"])) sample_authenticator 10 "cert.pem" "key.pem" (mkKeyPair ["leaf"])
      [Some sample_leaf] _))) cfg E)).
    reflexivity.
  - exfalso. assert (is_ok sample_ClientConfig = true) as H by (vm_compute; reflexivity).
    rewrite E in H. discriminate H.
Defined.

(** ** The interface the RPC layer is built on

    What authenticates a peer promises that the identifiers it hands out are
    well formed; the interceptor is verified against this interface. *)

Class PeerAuthenticator (A : Type) := {
  authenticate_peer : A → Z → ConnectionState → result AgentID;
  authenticate_peer_valid : ∀ a now state agent,
    authenticate_peer a now state = Ok agent → valid_agent agent;
}.

#[export, refine] Instance Authenticator_peers
    (Certificate_Verify : Certificate → VerifyOptions → option error) : PeerAuthenticator Authenticator := {|
  authenticate_peer := Authenticate Certificate_Verify;
|}.
Proof. intros a now state agent (leaf & H)%Authenticate_agent. by apply clientSVID_Ok in H as (_ & _ & ?). Defined.

End authenticator.
