(* ===== verification/TestPKI.v ===== *)
(** * The fixtures the tests are written against: [internal/testpki]

    Certificates, keys and files are made by calls out of the package, each of
    which may fail; a failure ends the test ([testing.TB.Fatalf]) and what was
    written stays written. A helper is therefore a state-and-failure program
    over [TB]: how much of [rand.Reader] was read, how many temporary
    directories were made, and the files. The standard library behind it is
    the class [Library]. *)

From S2P Require Import Prelude GoStrings GoErrors SpiffeID X509 X509SVID Identity TrustBundle Authz.

Module testpki.
Import x509 x509svid authn trustbundle.

(** ** The test *)

Definition FileMode : Type := Z.
Abbreviation files_t := (gmap string (string * FileMode)).

Record TB := mkTB { tb_random : nat; tb_dirs : nat; tb_files : files_t }.

(** A call returns, or has failed the test with a message. *)
Inductive outcome (A : Type) :=
| Returns (a : A)
| Fatal (text : string).
Arguments Returns {_} _.
Arguments Fatal {_} _.

Definition M (A : Type) : Type := TB → outcome A * TB.

#[export] Instance M_ret : MRet M := λ A a tb, (Returns a, tb).
#[export] Instance M_bind : MBind M := λ A B f m tb,
  match m tb with
  | (Returns a, tb') => f a tb'
  | (Fatal text, tb') => (Fatal text, tb')
  end.

(** [tb.Fatalf(text, err)] after a call that failed. *)
Definition must {A} (text : string) (r : result A) : M A := λ tb,
  match r with
  | Ok a => (Returns a, tb)
  | Err e => (Fatal (text +:+ Error e), tb)
  end.

(** The same of a call that reads [rand.Reader]; each reads on from the last. *)
Definition must_random {A} (text : string) (f : nat → result A) : M A := λ tb,
  must text (f (tb_random tb)) (mkTB (S (tb_random tb)) (tb_dirs tb) (tb_files tb)).

(** ** Names, templates, keys *)

(** [pkix.AttributeTypeAndValue], [pkix.Extension]: never one with a content. *)
Definition ObjectIdentifier := list Z.
Definition Attribute : Type := ObjectIdentifier * string.
Definition Extension : Type := ObjectIdentifier * (bool * string).

(** [pkix.Name] *)
Record Name := mkName {
  Country : list string; Organization : list string; OrganizationalUnit : list string;
  Locality : list string; Province : list string; StreetAddress : list string;
  PostalCode : list string; Name_SerialNumber : string; CommonName : string;
  Names : list Attribute; ExtraNames : list Attribute;
}.

Definition newName : Name := {|
  Country := []; Organization := []; OrganizationalUnit := []; Locality := []; Province := [];
  StreetAddress := []; PostalCode := []; Name_SerialNumber := ""; CommonName := "";
  Names := []; ExtraNames := [];
|}.

(** The fields of [x509.Certificate] that no helper of the package sets. *)
Record OtherFields := mkOtherFields {
  o_Raw : string; o_RawTBSCertificate : string; o_RawSubjectPublicKeyInfo : string;
  o_RawSubject : string; o_RawIssuer : string; o_Signature : string;
  o_SignatureAlgorithm : Z; o_PublicKeyAlgorithm : Z; o_PublicKey : option PublicKey; o_Version : Z;
  o_Issuer : Name; o_Extensions : list Extension; o_ExtraExtensions : list Extension;
  o_UnhandledCriticalExtensions : list ObjectIdentifier; o_UnknownExtKeyUsage : list ObjectIdentifier;
  o_MaxPathLen : Z; o_MaxPathLenZero : bool; o_SubjectKeyId : string; o_AuthorityKeyId : string;
  o_OCSPServer : list string; o_IssuingCertificateURL : list string; o_DNSNames : list string;
  o_EmailAddresses : list string; o_IPAddresses : list string;
  o_PermittedDNSDomainsCritical : bool; o_PermittedDNSDomains : list string;
  o_ExcludedDNSDomains : list string; o_PermittedIPRanges : list string;
  o_ExcludedIPRanges : list string; o_PermittedEmailAddresses : list string;
  o_ExcludedEmailAddresses : list string; o_PermittedURIDomains : list string;
  o_ExcludedURIDomains : list string; o_CRLDistributionPoints : list string;
  o_PolicyIdentifiers : list ObjectIdentifier; o_Policies : list ObjectIdentifier;
  o_InhibitAnyPolicy : Z; o_InhibitAnyPolicyZero : bool; o_InhibitPolicyMapping : Z;
  o_InhibitPolicyMappingZero : bool; o_RequireExplicitPolicy : Z; o_RequireExplicitPolicyZero : bool;
  o_PolicyMappings : list (ObjectIdentifier * ObjectIdentifier);
}.

Definition UnknownSignatureAlgorithm : Z := 0.
Definition UnknownPublicKeyAlgorithm : Z := 0.

(** What [newTemplate] spells out, its serial number and the fields below apart. *)
Definition zeroFields : OtherFields := {|
  o_Raw := ""; o_RawTBSCertificate := ""; o_RawSubjectPublicKeyInfo := "";
  o_RawSubject := ""; o_RawIssuer := ""; o_Signature := "";
  o_SignatureAlgorithm := UnknownSignatureAlgorithm; o_PublicKeyAlgorithm := UnknownPublicKeyAlgorithm;
  o_PublicKey := None; o_Version := 0;
  o_Issuer := newName; o_Extensions := []; o_ExtraExtensions := [];
  o_UnhandledCriticalExtensions := []; o_UnknownExtKeyUsage := [];
  o_MaxPathLen := 0; o_MaxPathLenZero := false; o_SubjectKeyId := ""; o_AuthorityKeyId := "";
  o_OCSPServer := []; o_IssuingCertificateURL := []; o_DNSNames := [];
  o_EmailAddresses := []; o_IPAddresses := [];
  o_PermittedDNSDomainsCritical := false; o_PermittedDNSDomains := [];
  o_ExcludedDNSDomains := []; o_PermittedIPRanges := [];
  o_ExcludedIPRanges := []; o_PermittedEmailAddresses := [];
  o_ExcludedEmailAddresses := []; o_PermittedURIDomains := [];
  o_ExcludedURIDomains := []; o_CRLDistributionPoints := [];
  o_PolicyIdentifiers := []; o_Policies := [];
  o_InhibitAnyPolicy := 0; o_InhibitAnyPolicyZero := false; o_InhibitPolicyMapping := 0;
  o_InhibitPolicyMappingZero := false; o_RequireExplicitPolicy := 0; o_RequireExplicitPolicyZero := false;
  o_PolicyMappings := [];
|}.

(** An [x509.Certificate] that is a template of one to come: the fields the
    helpers set, and the rest. A URI is its [String()], as in [X509]. *)
Record Template := mkTemplate {
  t_SerialNumber : Z;
  t_Subject : Name;
  t_NotBefore : Z;
  t_NotAfter : Z;
  t_KeyUsage : Z;
  t_ExtKeyUsage : list Z;
  t_BasicConstraintsValid : bool;
  t_IsCA : bool;
  t_URIs : list string;
  t_others : OtherFields;
}.

(** The parent [CreateCertificate] is given: a parsed certificate, or, of a
    self-signed one, the template itself. *)
Inductive Issuer := Parsed (c : Certificate) | Itself (t : Template).

(** [crypto.PublicKey] and [crypto.Signer]: what kind of key it is, and its bytes. *)
Record SubjectKey := mkSubjectKey { key_kind : PublicKey; key_point : string }.
Record Signer := mkSigner { Public : SubjectKey; key_secret : string }.

(** ** The standard library *)

Class Library := {
  TempDir : nat → result string;
  filepath_Join : string → string → string;
  os_WriteFile : files_t → string → string → FileMode → option error * files_t;
  rand_Int : Z → nat → result Z;
  ecdsa_GenerateKey : Curve → nat → result Signer;
  rsa_GenerateKey : Z → nat → result Signer;
  url_Parse : string → result string;
  CreateCertificate : Template → Issuer → SubjectKey → Signer → nat → result string;
  ParseCertificate : string → result Certificate;
  MarshalPKCS8PrivateKey : Signer → result string;
  EncodeToMemory : Block → string;
  json_Marshal : gmap string string → result string;
}.

(** ** The helpers *)

Definition certificatePEMType : string := "CERTIFICATE".
Definition privateKeyPEMType : string := "PRIVATE KEY".

(** [0o600] *)
Definition keyFileMode : FileMode := 384%Z.
Definition rsaBits : Z := 2048.
Definition serialNumberBits : Z := 128.

(** [24 * time.Hour] and [time.Hour] *)
Definition authorityValidity : Z := 24 * 3600000000000.
Definition leafValidity : Z := 3600000000000.

(** [type Authority struct] *)
Record Authority := mkAuthority { Authority_Certificate : Certificate; Key : Signer }.

(** [type AuthorityOptions struct] *)
Record AuthorityOptions := mkAuthorityOptions {
  ao_URIs : list string; ao_IsCA : bool; ao_KeyUsage : Z; ao_NotBefore : Z; ao_NotAfter : Z;
}.

(** [NewAuthorityOptions], with its two readings of the clock. *)
Definition NewAuthorityOptions (now1 now2 : Z) : AuthorityOptions := {|
  ao_URIs := [];
  ao_IsCA := true;
  ao_KeyUsage := Z.lor KeyUsageCertSign KeyUsageCRLSign;
  ao_NotBefore := now1 + - authorityValidity;
  ao_NotAfter := now2 + authorityValidity;
|}.

(** [type LeafOptions struct] *)
Record LeafOptions := mkLeafOptions {
  lo_URIs : list string; lo_IsCA : bool; lo_KeyUsage : Z; lo_ExtKeyUsage : list Z;
  lo_Curve : Curve; lo_UseRSA : bool; lo_NotBefore : Z; lo_NotAfter : Z;
}.

(** [NewLeafOptions], with its two readings of the clock. *)
Definition NewLeafOptions (uris : list string) (now1 now2 : Z) : LeafOptions := {|
  lo_URIs := uris;
  lo_IsCA := false;
  lo_KeyUsage := KeyUsageDigitalSignature;
  lo_ExtKeyUsage := [ExtKeyUsageServerAuth; ExtKeyUsageClientAuth];
  lo_Curve := P256;
  lo_UseRSA := false;
  lo_NotBefore := now1 + - leafValidity;
  lo_NotAfter := now2 + leafValidity;
|}.

Section helpers.
Context `{Library}.

Definition ecdsaPrivateKey (curve : Curve) : M Signer :=
  must_random "testpki: ecdsa generate key: " (ecdsa_GenerateKey curve).

Definition rsaPrivateKey : M Signer :=
  must_random "testpki: rsa generate key: " (rsa_GenerateKey rsaBits).

Fixpoint parseURIs (raw : list string) : M (list string) :=
  match raw with
  | [] => mret []
  | each :: raw =>
      uri ← must ("testpki: parse uri [" +:+ each +:+ "]: ") (url_Parse each);
      uris ← parseURIs raw;
      mret (uri :: uris)
  end.

Definition randomSerialNumber : M Z :=
  must_random "testpki: random serial number: " (rand_Int (Z.shiftl 1 serialNumberBits)).

Definition newTemplate : M Template :=
  serial ← randomSerialNumber;
  mret {| t_SerialNumber := serial; t_Subject := newName; t_NotBefore := 0; t_NotAfter := 0;
          t_KeyUsage := 0; t_ExtKeyUsage := []; t_BasicConstraintsValid := false; t_IsCA := false;
          t_URIs := []; t_others := zeroFields |}.

Definition sign (template : Template) (parent : Issuer) (publicKey : SubjectKey) (signerKey : Signer)
    : M Certificate :=
  der ← must_random "testpki: create certificate: " (CreateCertificate template parent publicKey signerKey);
  must "testpki: parse certificate: " (ParseCertificate der).

Definition signAuthority (parent : option Authority) (opts : AuthorityOptions) : M Authority :=
  key ← ecdsaPrivateKey P256;
  template ← newTemplate;
  uris ← parseURIs (ao_URIs opts);
  let template := {|
    t_SerialNumber := t_SerialNumber template;
    t_Subject := let n := t_Subject template in
      mkName (Country n) (Organization n) (OrganizationalUnit n) (Locality n) (Province n)
        (StreetAddress n) (PostalCode n) (Name_SerialNumber n) "test authority" (Names n) (ExtraNames n);
    t_NotBefore := ao_NotBefore opts; t_NotAfter := ao_NotAfter opts;
    t_KeyUsage := ao_KeyUsage opts; t_ExtKeyUsage := t_ExtKeyUsage template;
    t_BasicConstraintsValid := true; t_IsCA := ao_IsCA opts;
    t_URIs := uris; t_others := t_others template |} in
  let '(signerCertificate, signerKey) :=
    match parent with
    | None => (Itself template, key)
    | Some parent => (Parsed (Authority_Certificate parent), Key parent)
    end in
  certificate ← sign template signerCertificate (Public key) signerKey;
  mret (mkAuthority certificate key).

Definition NewAuthority (opts : AuthorityOptions) : M Authority := signAuthority None opts.

Definition NewIntermediate (parent : Authority) (opts : AuthorityOptions) : M Authority :=
  signAuthority (Some parent) opts.

Definition NewLeaf (parent : Authority) (opts : LeafOptions) : M (Certificate * Signer) :=
  template ← newTemplate;
  uris ← parseURIs (lo_URIs opts);
  let template := {|
    t_SerialNumber := t_SerialNumber template; t_Subject := t_Subject template;
    t_NotBefore := lo_NotBefore opts; t_NotAfter := lo_NotAfter opts;
    t_KeyUsage := lo_KeyUsage opts; t_ExtKeyUsage := lo_ExtKeyUsage opts;
    t_BasicConstraintsValid := true; t_IsCA := lo_IsCA opts;
    t_URIs := uris; t_others := t_others template |} in
  key ← (if lo_UseRSA opts then rsaPrivateKey else ecdsaPrivateKey (lo_Curve opts));
  certificate ← sign template (Parsed (Authority_Certificate parent)) (Public key) (Key parent);
  mret (certificate, key).

Definition WriteFile (dir name data : string) : M string := λ tb,
  let path := filepath_Join dir name in
  let '(err, files) := os_WriteFile (tb_files tb) path data keyFileMode in
  let tb := mkTB (tb_random tb) (tb_dirs tb) files in
  match err with
  | Some e => (Fatal ("testpki: write file [" +:+ path +:+ "]: " +:+ Error e), tb)
  | None => (Returns path, tb)
  end.

Definition CertificatePEM (certificate : Certificate) : string :=
  EncodeToMemory (mkBlock certificatePEMType [] (Raw certificate)).

Definition WriteCertificate (dir name : string) (certificate : Certificate) : M string :=
  WriteFile dir name (CertificatePEM certificate).

Definition WriteKey (dir name : string) (key : Signer) : M string :=
  der ← must "testpki: marshal key: " (MarshalPKCS8PrivateKey key);
  WriteFile dir name (EncodeToMemory (mkBlock privateKeyPEMType [] der)).

(** [tb.TempDir()]: a directory of its own for each call. *)
Definition tempDir : M string := λ tb,
  must "TempDir: " (TempDir (tb_dirs tb)) (mkTB (tb_random tb) (S (tb_dirs tb)) (tb_files tb)).

Definition NewLeafFiles (parent : Authority) (opts : LeafOptions) : M (string * string) :=
  dir ← tempDir;
  '(certificate, key) ← NewLeaf parent opts;
  certPath ← WriteCertificate dir "certificate.crt" certificate;
  keyPath ← WriteKey dir "private-key.key" key;
  mret (certPath, keyPath).

(** [WriteRoles], of [roles.go]. *)
Definition granted (agents : list AgentID) : gmap string string :=
  fold_left (λ roles agent, <[agent := authz.RoleUser]> roles) agents ∅.

Definition WriteRoles (agents : list AgentID) : M string :=
  encoded ← must "marshal roles: " (json_Marshal (granted agents));
  dir ← tempDir;
  WriteFile dir "roles.json" encoded.

End helpers.

End testpki.
