(* ===== verification/TestPKISpec.v ===== *)
(** * What the helpers of [internal/testpki] return

    What the standard library documents of the calls of [TestPKI] is the class
    [Documented]; from it, what a certificate a helper returned is, and what the
    files hold that it wrote. *)

From S2P Require Import Prelude GoStrings GoErrors SpiffeID X509 X509SVID Identity TrustBundle Authz.
From S2P Require Import Slog Context Authenticator TestPKI.

Module testpki_spec.
Import x509 x509svid authn trustbundle authenticator testpki.

(** ** What the standard library documents *)

(** A certificate carries its validity in whole seconds. *)
Definition second : Z := 1000000000.
Definition whole_seconds (t : Z) : Z := (t / second * second)%Z.

(** A certificate that was created from [t] for [pub], parsed back. *)
Record parsed_as (t : Template) (pub : SubjectKey) (c : Certificate) : Prop := {
  pa_SerialNumber : SerialNumber c = t_SerialNumber t;
  pa_NotBefore : NotBefore c = whole_seconds (t_NotBefore t);
  pa_NotAfter : NotAfter c = whole_seconds (t_NotAfter t);
  pa_IsCA : IsCA c = t_BasicConstraintsValid t && t_IsCA t;
  pa_KeyUsage : KeyUsage c = t_KeyUsage t;
  pa_ExtKeyUsage : ExtKeyUsage c = t_ExtKeyUsage t;
  pa_PublicKey : PublicKeyOf c = key_kind pub;
  pa_URIs : URIs c = t_URIs t;
}.

(** A key usage is a set of nine bits. *)
Definition key_usage_bits (usage : Z) : Prop := (0 <= usage < 2 ^ 9)%Z.

Class Documented `{Library} : Prop := {
  doc_Int max n z : rand_Int max n = Ok z → (0 <= z < max)%Z;
  doc_ecdsa curve n key : ecdsa_GenerateKey curve n = Ok key → key_kind (Public key) = ECDSAPublicKey curve;
  doc_rsa bits n key : rsa_GenerateKey bits n = Ok key → key_kind (Public key) = OtherPublicKey;
  doc_url agent : valid_agent agent → url_Parse (client_uri agent) = Ok (client_uri agent);
  doc_url_server : url_Parse server_uri = Ok server_uri;
  doc_WriteFile files path data mode files' :
    os_WriteFile files path data mode = (None, files') → ∃ m, files' = <[path := (data, m)]> files;
  doc_Create t issuer pub key n der c :
    CreateCertificate t issuer pub key n = Ok der → ParseCertificate der = Ok c →
    key_usage_bits (t_KeyUsage t) → Raw c = der ∧ parsed_as t pub c;
}.

Section issued.
Context `{HD : Documented}.

(** [c] was created under [issuer], from a template with none of the fields the
    package leaves zero. *)
Definition created_under (issuer : Template → Issuer) (c : Certificate) : Prop :=
  ∃ t pub key n, t_others t = zeroFields ∧
    CreateCertificate t (issuer t) pub key n = Ok (Raw c) ∧ ParseCertificate (Raw c) = Ok c.

Definition self_issued : Certificate → Prop := created_under Itself.
Definition issued_under (c parent : Certificate) : Prop := created_under (λ _, Parsed parent) c.

(** [leaf] chains to [root] through the certificates of [mids]. *)
Fixpoint chain_to (root leaf : Certificate) (mids : list Certificate) : Prop :=
  match mids with
  | [] => issued_under leaf root
  | mid :: mids => issued_under leaf mid ∧ chain_to root mid mids
  end.

Definition valid_at (now : Z) (c : Certificate) : Prop := (NotBefore c <= now <= NotAfter c)%Z.

(** [Certificate.Verify] accepts a certificate that chains, through at most one
    intermediate it is given, to a root it is given, when all of them are valid
    at the time it is given and those that sign are authorities. *)
Definition anchors (Certificate_Verify : Certificate → VerifyOptions → option error) : Prop :=
  ∀ leaf mids root pool opts,
    Roots opts = Some pool → DNSName opts = "" → KeyUsages opts = [ExtKeyUsageAny] →
    In root pool → self_issued root → Forall (λ mid, In mid (Intermediates opts)) mids →
    length mids ≤ 1 → chain_to root leaf mids →
    Forall (valid_at (CurrentTime opts)) (leaf :: root :: mids) →
    Forall (λ c, IsCA c = true ∧ has_usage c KeyUsageCertSign = true) (root :: mids) →
    Certificate_Verify leaf opts = None.

(** ** Programs over a test *)

Lemma M_bind_Returns {A B} (m : M A) (f : A → M B) tb b tb' :
  (m ≫= f) tb = (Returns b, tb') ↔ ∃ a tb1, m tb = (Returns a, tb1) ∧ f a tb1 = (Returns b, tb').
Proof. unfold mbind, M_bind. destruct (m tb) as [[a|text] tb1]; naive_solver. Qed.

Lemma must_Returns {A} text (r : result A) tb a tb' :
  must text r tb = (Returns a, tb') ↔ r = Ok a ∧ tb' = tb.
Proof. unfold must. destruct r; naive_solver. Qed.

Lemma must_random_Returns {A} text (f : nat → result A) tb a tb' :
  must_random text f tb = (Returns a, tb') →
  f (tb_random tb) = Ok a ∧ tb_files tb' = tb_files tb.
Proof. unfold must_random. by intros [? ->]%must_Returns. Qed.

Lemma M_ret_Returns {A} (a b : A) tb tb' : (mret a : M A) tb = (Returns b, tb') ↔ b = a ∧ tb' = tb.
Proof. unfold mret, M_ret. naive_solver. Qed.

(** Open every call of a helper that returned. *)
Ltac inv_M := repeat
  match goal with
  | H : (_ ≫= _) _ = (Returns _, _) |- _ => apply M_bind_Returns in H as (? & ? & ? & H)
  | H : must _ _ _ = (Returns _, _) |- _ => apply must_Returns in H as [? ->]
  | H : must_random _ _ _ = (Returns _, _) |- _ => apply must_random_Returns in H as [? ?]
  | H : mret _ _ = (Returns _, _) |- _ => apply M_ret_Returns in H as [-> ->]
  end.

Lemma parseURIs_stateless raw tb uris tb' :
  parseURIs raw tb = (Returns uris, tb') → tb' = tb ∧ ∀ tb1, parseURIs raw tb1 = (Returns uris, tb1).
Proof.
  revert uris tb. induction raw as [|each raw IH]; intros uris tb Hp; cbn in Hp; [inv_M; done|].
  inv_M. match goal with Hp : parseURIs raw _ = _ |- _ => apply IH in Hp as [-> Hr] end. split; [done|]. intros tb1. cbn.
  apply M_bind_Returns. do 2 eexists. split; [by apply must_Returns|].
  apply M_bind_Returns. do 2 eexists. by split; [apply Hr|].
Qed.

Lemma newTemplate_Returns tb t tb' :
  newTemplate tb = (Returns t, tb') →
  (0 <= t_SerialNumber t < 2 ^ 128)%Z ∧ t_others t = zeroFields ∧ t_ExtKeyUsage t = [] ∧ tb_files tb' = tb_files tb.
Proof.
  intros Hn. unfold newTemplate, randomSerialNumber in Hn. inv_M.
  match goal with Hr : rand_Int _ _ = _ |- _ => apply doc_Int in Hr end. done.
Qed.

(** [sign] gives back what the template describes. *)
Lemma sign_Returns t issuer pub key tb c tb' :
  sign t issuer pub key tb = (Returns c, tb') → key_usage_bits (t_KeyUsage t) → t_others t = zeroFields →
  parsed_as t pub c ∧ tb_files tb' = tb_files tb ∧
  ∃ n, CreateCertificate t issuer pub key n = Ok (Raw c) ∧ ParseCertificate (Raw c) = Ok c.
Proof.
  intros Hs Hu Ho. unfold sign in Hs. inv_M.
  match goal with Hc : CreateCertificate _ _ _ _ _ = _, Hp : ParseCertificate _ = _ |- _ =>
    destruct (doc_Create _ _ _ _ _ _ _ Hc Hp Hu) as [<- ?] end.
  split_and!; eauto.
Qed.

(** What the certificate of an authority is. *)
Record authority_described (parent : option Authority) (opts : AuthorityOptions) (c : Certificate) : Prop := {
  ad_created : created_under (λ t, match parent with None => Itself t
                                   | Some p => Parsed (Authority_Certificate p) end) c;
  ad_NotBefore : NotBefore c = whole_seconds (ao_NotBefore opts);
  ad_NotAfter : NotAfter c = whole_seconds (ao_NotAfter opts);
  ad_IsCA : IsCA c = ao_IsCA opts;
  ad_KeyUsage : KeyUsage c = ao_KeyUsage opts;
  ad_URIs : ∀ tb, parseURIs (ao_URIs opts) tb = (Returns (URIs c), tb);
  ad_key : PublicKeyOf c = ECDSAPublicKey P256;
}.

Lemma signAuthority_Returns parent opts tb ca tb' :
  signAuthority parent opts tb = (Returns ca, tb') → key_usage_bits (ao_KeyUsage opts) →
  authority_described parent opts (Authority_Certificate ca).
Proof.
  intros Hs Hu. unfold signAuthority in Hs.
  apply M_bind_Returns in Hs as (key & tb1 & Hk & Hs). apply must_random_Returns in Hk as [Hk _].
  apply doc_ecdsa in Hk.
  apply M_bind_Returns in Hs as (t & tb2 & Ht & Hs). apply newTemplate_Returns in Ht as (_ & Ho & _ & _).
  apply M_bind_Returns in Hs as (uris & tb3 & Hp & Hs). apply parseURIs_stateless in Hp as [_ Hp].
  set (t' := mkTemplate _ _ _ _ _ _ _ _ _ _) in Hs.
  assert (∃ signerKey tb4, sign t' (match parent with None => Itself t' | Some p => Parsed (Authority_Certificate p) end)
            (Public key) signerKey tb3 = (Returns (Authority_Certificate ca), tb4)) as (signerKey & tb4 & Hc).
  { destruct parent; apply M_bind_Returns in Hs as (c & tb4 & Hc & Hs); apply M_ret_Returns in Hs as [-> _]; eauto. }
  apply sign_Returns in Hc as ([] & _ & n & Hn & Hpn); [|done|done]. cbn in *. constructor; try congruence.
  exists t', (Public key), signerKey, n. by split_and!.
Qed.

(** What the certificate of a leaf is. *)
Record leaf_described (issuer : Authority) (opts : LeafOptions) (c : Certificate) : Prop := {
  ld_issued : issued_under c (Authority_Certificate issuer);
  ld_SerialNumber : (0 <= SerialNumber c < 2 ^ 128)%Z;
  ld_NotBefore : NotBefore c = whole_seconds (lo_NotBefore opts);
  ld_NotAfter : NotAfter c = whole_seconds (lo_NotAfter opts);
  ld_IsCA : IsCA c = lo_IsCA opts;
  ld_KeyUsage : KeyUsage c = lo_KeyUsage opts;
  ld_ExtKeyUsage : ExtKeyUsage c = lo_ExtKeyUsage opts;
  ld_URIs : ∀ tb, parseURIs (lo_URIs opts) tb = (Returns (URIs c), tb);
  ld_key : PublicKeyOf c = if lo_UseRSA opts then OtherPublicKey else ECDSAPublicKey (lo_Curve opts);
}.

Lemma NewLeaf_Returns issuer opts tb c key tb' :
  NewLeaf issuer opts tb = (Returns (c, key), tb') → key_usage_bits (lo_KeyUsage opts) →
  leaf_described issuer opts c ∧ tb_files tb' = tb_files tb ∧
  ∃ t n, CreateCertificate t (Parsed (Authority_Certificate issuer)) (Public key) (Key issuer) n = Ok (Raw c).
Proof.
  intros Hs Hu. unfold NewLeaf in Hs.
  apply M_bind_Returns in Hs as (t & tb2 & Ht & Hs). apply newTemplate_Returns in Ht as (Hserial & Ho & _ & Hf).
  apply M_bind_Returns in Hs as (uris & tb3 & Hp & Hs). apply parseURIs_stateless in Hp as [-> Hp].
  apply M_bind_Returns in Hs as (k & tb4 & Hk & Hs).
  apply M_bind_Returns in Hs as (c' & tb5 & Hc & Hs). apply M_ret_Returns in Hs as [[= -> ->] ->].
  apply sign_Returns in Hc as ([] & Hf' & n & Hn & Hpn); [|done|done]. cbn in *.
  assert (key_kind (Public k) = (if lo_UseRSA opts then OtherPublicKey else ECDSAPublicKey (lo_Curve opts)) ∧
          tb_files tb4 = tb_files tb2) as [Hkind Hf4].
  { destruct (lo_UseRSA opts); apply must_random_Returns in Hk as [Hk ?]; split; try done;
      [by eapply doc_rsa|by eapply doc_ecdsa]. }
  split_and!; [|congruence|eauto]. constructor; cbn; try congruence.
  do 4 eexists; split_and!; [|exact Hn|exact Hpn]. exact Ho.
Qed.

(** ** Options *)

(** [now] is inside the validity a certificate is asked to have, by a second at
    its end for what the encoding drops. *)
Definition inside (now notBefore notAfter : Z) : Prop := (notBefore <= now ∧ now + second <= notAfter)%Z.

Lemma inside_valid now t1 t2 : inside now t1 t2 → (whole_seconds t1 <= now <= whole_seconds t2)%Z.
Proof.
  unfold inside, whole_seconds. intros [??].
  pose proof (Z.div_mod t1 second ltac:(done)). pose proof (Z.mod_pos_bound t1 second ltac:(done)).
  pose proof (Z.div_mod t2 second ltac:(done)). pose proof (Z.mod_pos_bound t2 second ltac:(done)). lia.
Qed.

(** An authority the tests make with [NewAuthority], or with [NewIntermediate]
    under it, of the options they start from; and the certificates a peer has to
    present with its leaf. *)
Inductive issuer_under (now : Z) (ca : Authority) : Authority → list Certificate → Prop :=
| issuer_root : issuer_under now ca ca []
| issuer_intermediate im now1 now2 tb tb' :
    NewIntermediate ca (NewAuthorityOptions now1 now2) tb = (Returns im, tb') →
    inside now (now1 - authorityValidity) (now2 + authorityValidity) →
    issuer_under now ca im [Authority_Certificate im].

(** The options that describe a leaf of the issuance policy, named by [uri]. *)
Record svid_options (uri : string) (opts : LeafOptions) : Prop := {
  so_uris : ∀ tb, parseURIs (lo_URIs opts) tb = (Returns [uri], tb);
  so_not_ca : lo_IsCA opts = false;
  so_usage : Z.testbit (lo_KeyUsage opts) 0 = true ∧ Z.testbit (lo_KeyUsage opts) 5 = false ∧
             Z.testbit (lo_KeyUsage opts) 6 = false;
  so_ext : In ExtKeyUsageServerAuth (lo_ExtKeyUsage opts) ∧ In ExtKeyUsageClientAuth (lo_ExtKeyUsage opts);
  so_key : lo_UseRSA opts = false ∧ lo_Curve opts = P256;
}.

Lemma NewLeafOptions_svid uri now1 now2 :
  url_Parse uri = Ok uri → svid_options uri (NewLeafOptions [uri] now1 now2).
Proof.
  intros Hu. constructor; cbn; auto. intros tb. apply M_bind_Returns. do 2 eexists.
  split; [by apply must_Returns|]. done.
Qed.

Lemma has_usage_bit c n : (0 <= n)%Z → has_usage c (2 ^ n) = Z.testbit (KeyUsage c) n.
Proof.
  intros Hn. unfold has_usage. destruct (Z.eqb_spec (Z.land (KeyUsage c) (2 ^ n)) 0) as [E|E]; cbn; symmetry.
  - apply (f_equal (λ z, Z.testbit z n)) in E. by rewrite Z.land_spec, Z.pow2_bits_true, Z.bits_0, andb_true_r in E.
  - apply not_false_is_true. intros Hb. apply E, Z.bits_inj_0. intros m. rewrite Z.land_spec.
    destruct (decide (m = n)) as [->|]; [by rewrite Hb|]. rewrite Z.pow2_bits_false by lia. apply andb_false_r.
Qed.

Lemma default_authority parent now1 now2 now tb ca tb' :
  signAuthority parent (NewAuthorityOptions now1 now2) tb = (Returns ca, tb') →
  inside now (now1 - authorityValidity) (now2 + authorityValidity) →
  valid_at now (Authority_Certificate ca) ∧ IsCA (Authority_Certificate ca) = true ∧
  has_usage (Authority_Certificate ca) KeyUsageCertSign = true ∧ URIs (Authority_Certificate ca) = [] ∧
  created_under (λ t, match parent with None => Itself t
                      | Some p => Parsed (Authority_Certificate p) end) (Authority_Certificate ca).
Proof.
  intros Hs Hin. apply signAuthority_Returns in Hs as [Hc Hnb Hna Hca Hku Hu _]; [|done]. split_and!; try done.
  - apply inside_valid in Hin. unfold valid_at. rewrite Hnb, Hna. exact Hin.
  - unfold has_usage. by rewrite Hku.
  - specialize (Hu (mkTB 0 0 ∅)). cbn in Hu. by injection Hu as <-.
Qed.

Lemma clamp_inside now notBefore notAfter skew :
  (notBefore <= now <= notAfter)%Z → clampToValidity now notBefore notAfter skew = now.
Proof.
  intros [??]. unfold clampToValidity. destruct (Z.ltb_spec now notBefore); [lia|]. rewrite !Z.gtb_ltb.
  by destruct (Z.ltb_spec notAfter now); [lia|].
Qed.
(** A leaf named by [uri] is one by the rules of the program when its options
    were. *)
Lemma described_svid issuer opts c uri i :
  leaf_described issuer opts c → spiffeid.Parse uri = Ok i → spiffeid.ID_Path i ≠ "" →
  svid_options uri opts ↔ (∃ i, leaf_standard c i) ∧ leaf_policy c ∧ URIs c = [uri].
Proof.
  intros [_ _ _ _ Hca Hku Heku Hu Hkey] Hp Hpath.
  pose proof (has_usage_bit c 0 ltac:(done)) as H0. pose proof (has_usage_bit c 5 ltac:(done)) as H5.
  pose proof (has_usage_bit c 6 ltac:(done)) as H6. rewrite Hku in H0, H5, H6.
  change (2 ^ 0)%Z with KeyUsageDigitalSignature in H0. change (2 ^ 5)%Z with KeyUsageCertSign in H5.
  change (2 ^ 6)%Z with KeyUsageCRLSign in H6. split.
  - intros [Huris Hna (Hb0 & Hb5 & Hb6) [He1 He2] [Hr Hc]].
    assert (URIs c = [uri]) as Huc.
    { specialize (Hu (mkTB 0 0 ∅)). rewrite Huris in Hu. by injection Hu. }
    split; [exists i; constructor; [congruence..|by exists uri|done]|].
    split; [|done]. constructor; [by rewrite Heku..|]. by rewrite Hkey, Hr, Hc.
  - intros ([i' [Hl1 Hl2 Hl3 Hl4 _ _]] & [Hp1 Hp2 Hp3] & Huc).
    constructor; [congruence|congruence|split_and!; congruence|by rewrite <-Heku|].
    rewrite Hkey in Hp3. destruct (lo_UseRSA opts); [done|]. by injection Hp3.
Qed.

(** ** Files *)

(** [ReadFile] reads what the test has written. *)
Definition reads (tb : TB) (ReadFile : string → result string) : Prop :=
  ∀ path data mode, tb_files tb !! path = Some (data, mode) → ReadFile path = Ok data.

Lemma WriteFile_files dir name data tb path tb' :
  WriteFile dir name data tb = (Returns path, tb') →
  path = filepath_Join dir name ∧ ∃ m, tb_files tb' = <[path := (data, m)]> (tb_files tb).
Proof.
  unfold WriteFile. destruct (os_WriteFile _ _ _ _) as [[e|] files] eqn:Hw; [done|]. intros [= <- <-].
  by apply doc_WriteFile in Hw.
Qed.

Lemma WriteFile_Returns dir name data tb path tb' ReadFile :
  WriteFile dir name data tb = (Returns path, tb') → reads tb' ReadFile →
  path = filepath_Join dir name ∧ ReadFile path = Ok data.
Proof.
  intros [-> [m Hf]]%WriteFile_files Hr. split; [done|]. eapply (Hr _ _ m). rewrite Hf. apply lookup_insert_eq.
Qed.

(** What [NewLeafFiles] wrote: the certificate and the key it was issued to. *)
Lemma NewLeafFiles_Returns issuer opts tb certPath keyPath tb' ReadFile :
  NewLeafFiles issuer opts tb = (Returns (certPath, keyPath), tb') → key_usage_bits (lo_KeyUsage opts) →
  reads tb' ReadFile → (∀ dir, filepath_Join dir "certificate.crt" ≠ filepath_Join dir "private-key.key") →
  ∃ c key der dir tb1 tb2, NewLeaf issuer opts tb1 = (Returns (c, key), tb2) ∧
    MarshalPKCS8PrivateKey key = Ok der ∧
    certPath = filepath_Join dir "certificate.crt" ∧ keyPath = filepath_Join dir "private-key.key" ∧
    ReadFile certPath = Ok (CertificatePEM c) ∧
    ReadFile keyPath = Ok (EncodeToMemory (mkBlock privateKeyPEMType [] der)).
Proof.
  intros Hn Hu Hr Hpaths. unfold NewLeafFiles in Hn.
  apply M_bind_Returns in Hn as (dir & tb1 & _ & Hn). apply M_bind_Returns in Hn as ([c key] & tb2 & Hl & Hn).
  apply M_bind_Returns in Hn as (p1 & tb3 & Hc & Hn). apply M_bind_Returns in Hn as (p2 & tb4 & Hk & Hn).
  apply M_ret_Returns in Hn as [[= -> ->] ->]. unfold WriteKey in Hk.
  apply M_bind_Returns in Hk as (der & tb5 & [Hd ->]%must_Returns & Hk).
  apply WriteFile_files in Hc as [-> [m1 Hc]]. apply WriteFile_files in Hk as [-> [m2 Hk]].
  exists c, key, der, dir, tb1, tb2. split_and!; try done.
  - apply (Hr _ _ m1). rewrite Hk, lookup_insert_ne by done. rewrite Hc. apply lookup_insert_eq.
  - apply (Hr _ _ m2). rewrite Hk. apply lookup_insert_eq.
Qed.

(** [tls.LoadX509KeyPair] reads a certificate and the key it was created for. *)
Definition key_pair_documented (ReadFile : string → result string)
    (LoadX509KeyPair : string → string → result KeyPair) : Prop :=
  ∀ certPath keyPath c t issuer key signer n der,
    ReadFile certPath = Ok (CertificatePEM c) →
    ReadFile keyPath = Ok (EncodeToMemory (mkBlock privateKeyPEMType [] der)) →
    MarshalPKCS8PrivateKey key = Ok der → CreateCertificate t issuer (Public key) signer n = Ok (Raw c) →
    LoadX509KeyPair certPath keyPath = Ok (mkKeyPair [Raw c]).

(** What [pem.EncodeToMemory] makes of the encoding of a certificate is one
    block, which [pem.Decode] reads back. *)
Record pem_documented (Decode : string → option (Block * string)) (der : string) : Prop := {
  pem_shortens : decode_shortens Decode;
  pem_decodes : let block := mkBlock certificatePEMType [] der in
    Decode (bytes.TrimSpace (EncodeToMemory block)) = Some (block, "");
  pem_begins : let text := bytes.TrimSpace (EncodeToMemory (mkBlock certificatePEMType [] der)) in
    text ≠ "" ∧ HasPrefix text pemBeginMarker = true ∧ beginMarkers text = 1;
}.

(** ** Roles *)

Definition ascii_text (s : string) : Prop := all_bytes (byte_range (ascii_of_nat 0) (ascii_of_nat 127)) s = true.

(** [json.Marshal] of a map of ASCII strings is an object with its members. *)
Definition json_documented (parse : string → result json.value) : Prop :=
  ∀ m text, json_Marshal m = Ok text → (map_Forall (λ k v, ascii_text k ∧ ascii_text v) m) →
  ∃ ms, parse text = Ok (json.Object ms) ∧
    ((λ kv, (kv.1, kv.2.2)) <$> ms) ≡ₚ ((λ kv, (kv.1, json.String_ kv.2)) <$> map_to_list m).

Lemma granted_lookup agents agent :
  granted agents !! agent = if decide (agent ∈ agents) then Some authz.RoleUser else None.
Proof.
  unfold granted. assert (∀ m : gmap string string, fold_left (λ roles agent, <[agent:=authz.RoleUser]> roles) agents m !! agent =
    if decide (agent ∈ agents) then Some authz.RoleUser else m !! agent) as Hf; [|by rewrite Hf, lookup_empty].
  induction agents as [|x agents IH]; intros m; cbn; [by rewrite decide_False by apply not_elem_of_nil|].
  rewrite IH. destruct (decide (agent = x)) as [->|Hne].
  - rewrite lookup_insert_eq. by repeat case_decide; set_solver.
  - rewrite lookup_insert_ne by done. by repeat case_decide; set_solver.
Qed.

Lemma members_lookup (ms : list (string * json.RawMessage)) k raw :
  NoDup ms.*1 →
  fold_left (λ m kv, <[kv.1:=kv.2]> m) ms (∅ : gmap string _) !! k = Some raw ↔ (k, raw) ∈ ms.
Proof.
  intros Hn. assert (∀ m : gmap string json.RawMessage,
    fold_left (λ m kv, <[kv.1 := kv.2]> m) ms m !! k = Some raw ↔
    ((k, raw) ∈ ms ∨ ((k ∉ ms.*1) ∧ m !! k = Some raw))) as Hf; [|rewrite Hf, lookup_empty; naive_solver].
  induction ms as [|[k' raw'] ms IH]; intros m; cbn; [set_solver|].
  apply NoDup_cons in Hn as [Hk' Hn]. rewrite (IH Hn). destruct (decide (k = k')) as [->|Hne].
  - rewrite lookup_insert_eq. split.
    + intros [?|[_ [= ->]]]; set_solver.
    + intros [[[= ->]|?]%elem_of_cons|[? _]]; [set_solver..|]. set_solver.
  - rewrite lookup_insert_ne by done. set_solver.
Qed.

(** The entries of the document [WriteRoles] encodes. *)
Lemma granted_entries parse agents text :
  json_documented parse → json_Marshal (granted agents) = Ok text → Forall ascii_text agents →
  ∃ document entries, parse text = Ok document ∧ json.Unmarshal_entries document = Ok entries ∧
    (∀ agent, agent ∈ dom entries ↔ agent ∈ agents) ∧
    (∀ agent raw, entries !! agent = Some raw → raw.2 = json.String_ authz.RoleUser).
Proof.
  intros Hj Ht Ha. destruct (Hj _ _ Ht) as (ms & Hp & Hms).
  { intros k v. rewrite granted_lookup. case_decide as Hk; [|done]. intros [= <-].
    split; [by eapply Forall_forall in Hk|done]. }
  exists (json.Object ms). eexists. split; [done|]. split; [done|].
  assert (NoDup ms.*1) as Hn.
  { apply (fmap_Permutation fst) in Hms. rewrite <-!list_fmap_compose in Hms. unfold compose in Hms. cbn in Hms.
    rewrite Hms. apply NoDup_fst_map_to_list. }
  assert (∀ k raw, (k, raw) ∈ ms → k ∈ agents ∧ raw.2 = json.String_ authz.RoleUser) as Hin.
  { intros k raw Hk. apply (list_elem_of_fmap_2 (λ kv, (kv.1, kv.2.2))) in Hk.
    rewrite Hms in Hk. apply list_elem_of_fmap_1 in Hk as ([k' v] & Heq & Hk). cbn in Heq. injection Heq as -> ->.
    apply elem_of_map_to_list in Hk. rewrite granted_lookup in Hk. case_decide; [|done]. by injection Hk as <-. }
  split.
  - intros agent. rewrite elem_of_dom. split.
    + intros [raw Hraw%members_lookup]; [|done]. by eapply Hin.
    + intros Hg. assert ((agent, json.String_ authz.RoleUser) ∈ ((λ kv, (kv.1, kv.2.2)) <$> ms)) as Hm.
      { rewrite Hms. apply (list_elem_of_fmap_2 (λ kv, (kv.1, json.String_ kv.2)) _ (agent, authz.RoleUser)).
        apply elem_of_map_to_list. rewrite granted_lookup. by rewrite decide_True. }
      apply list_elem_of_fmap_1 in Hm as ([k raw] & Heq & Hm). cbn in Heq. injection Heq as -> _.
      exists raw. by apply members_lookup.
  - intros agent raw Hraw%members_lookup; [|done]. by eapply Hin.
Qed.

End issued.
End testpki_spec.
