(* ===== verification/TestPKIProperties.v ===== *)
(** * What the program makes of what [internal/testpki] issues

    Which leaves the server authenticates, which of them a client or a server
    can be configured with, which bundles load, and which roles are read: the
    package is checked against the code it is a fixture of, on a concrete
    library at the end. *)

From S2P Require Import Prelude GoStrings GoErrors SpiffeID X509 X509SVID Identity TrustBundle Authz.
From S2P Require Import Slog Context Authenticator TestPKI TestPKISpec.

Module testpki_properties.
Import x509 x509svid authn trustbundle testpki testpki_spec context authenticator.

Section issued.
Context `{HD : Documented}.

(** A server or a client that trusts an authority of the default options, the
    certificates of its issuer that a peer presents, and a leaf. *)
Section authenticate.
Context (Certificate_Verify : Certificate → VerifyOptions → option error) (HV : anchors Certificate_Verify).
Context (a : Authenticator) (pool : CertPool) (now now1 now2 : Z) (ca : Authority) (tb0 tb1 : TB).
Context (HA : NewAuthority (NewAuthorityOptions now1 now2) tb0 = (Returns ca, tb1)).
Context (Hca : inside now (now1 - authorityValidity) (now2 + authorityValidity)).
Context (Hpool : bundle (verifier a) = Some pool ∧ In (Authority_Certificate ca) pool).
Context (opts : LeafOptions) (Hleaf : inside now (lo_NotBefore opts) (lo_NotAfter opts)).
Context (Hbits : key_usage_bits (lo_KeyUsage opts)).
Set Default Proof Using "All".

(** What an intermediate of the authority is. *)
Lemma intermediates_sign issuer mids :
  issuer_under now ca issuer mids →
  Forall (valid_at now) mids ∧ Forall (λ c, IsCA c = true ∧ has_usage c KeyUsageCertSign = true) mids ∧
  Forall (λ c, URIs c = []) mids ∧ length mids ≤ 1 ∧
  ∀ leaf, issued_under leaf (Authority_Certificate issuer) → chain_to (Authority_Certificate ca) leaf mids.
Proof.
  intros [|im u1 u2 tb tb' HN Hw]; [split_and!; cbn; auto with lia|].
  apply (default_authority _ _ _ now) in HN as (? & ? & ? & ? & ?); [|done]. by split_and!; cbn; auto.
Qed.

Lemma issued_verified issuer mids leaf l :
  issuer_under now ca issuer mids → leaf_described issuer opts leaf →
  verified_leaf Certificate_Verify a now (Some <$> leaf :: mids) = Ok l ↔
  leaf_certificate l = leaf ∧ leaf_standard leaf (leaf_spiffeID l) ∧ leaf_policy leaf.
Proof.
  intros HI HL. destruct Hpool as [Hb Hin]. pose proof HL as [Hi _ Hnb Hna _ _ _ _ _].
  apply intermediates_sign in HI as (Hmv & Hmca & Hmu & Hml & Hmc).
  apply (default_authority _ _ _ now) in HA as (Hcv & Hcca & Hcs & _ & Hself); [|done].
  assert (valid_at now leaf) as Hlv.
  { unfold valid_at. rewrite Hnb, Hna. by apply inside_valid. }
  rewrite verified_leaf_Ok, Verify_Ok. split.
  - intros [(signers & p & Hc & _ & _ & Hls & _) Hp]. injection Hc as Hc _. by rewrite Hc.
  - intros (Hc & Hls & Hp). rewrite Hc. split; [|done]. exists mids, pool. split_and!; try done.
    + apply (HV leaf mids (Authority_Certificate ca) pool); try done.
      * cbn. destruct mids as [|mid [|]]; cbn in *; [done|constructor; [by left|done]|lia].
      * by apply Hmc.
      * cbn. rewrite clamp_inside by done. constructor; [done|by constructor].
      * by constructor.
    + apply Forall_forall. intros c Hm. rewrite Forall_forall in Hmca, Hmu.
      destruct (Hmca c Hm). constructor; auto.
Qed.

(** The leaf is one named by [uri] exactly when its options were. *)
Lemma issued_named issuer mids leaf uri i :
  issuer_under now ca issuer mids → leaf_described issuer opts leaf →
  spiffeid.Parse uri = Ok i → spiffeid.ID_Path i ≠ "" →
  (∃ l, verified_leaf Certificate_Verify a now (Some <$> leaf :: mids) = Ok l ∧ URIs (leaf_certificate l) = [uri]) ↔
  svid_options uri opts.
Proof.
  intros HI HL Hp Hpath. rewrite (described_svid _ _ _ _ _ HL Hp Hpath).
  setoid_rewrite (issued_verified _ _ _ _ HI HL). split.
  - intros (l & (<- & Hs & Hlp) & Hu). eauto.
  - intros ([j Hs] & Hlp & Hu). by exists (mkLeaf j leaf).
Qed.

Lemma issued_client issuer mids leaf agent :
  issuer_under now ca issuer mids → leaf_described issuer opts leaf →
  (∃ l, clientSVID Certificate_Verify a now (Some <$> leaf :: mids) = Ok (l, agent)) ↔
  valid_agent agent ∧ svid_options (client_uri agent) opts.
Proof.
  intros HI HL. setoid_rewrite clientSVID_Ok. split.
  - intros (l & Hl & Hu & Ha). split; [done|]. pose proof (client_uri_grammar agent Ha) as Hg%spiffeid.Parse_complete.
    apply (issued_named _ _ _ _ _ HI HL Hg); [done|eauto].
  - intros [Ha Ho]. pose proof (client_uri_grammar agent Ha) as Hg%spiffeid.Parse_complete.
    apply (issued_named _ _ _ _ _ HI HL Hg) in Ho as (l & Hl & Hu); [eauto|done].
Qed.

Lemma issued_server issuer mids leaf :
  issuer_under now ca issuer mids → leaf_described issuer opts leaf →
  (∃ l, serverSVID Certificate_Verify a now (Some <$> leaf :: mids) = Ok l) ↔ svid_options server_uri opts.
Proof.
  intros HI HL. setoid_rewrite serverSVID_Ok. pose proof server_uri_grammar as Hg%spiffeid.Parse_complete.
  by apply (issued_named _ _ _ _ _ HI HL Hg).
Qed.

(** C40: a leaf the package issues, from an authority of its default options or
    from an intermediate of that authority, is authenticated by a server that
    trusts the authority, while both are valid, exactly when its options
    describe an agent's certificate by the issuance policy: an ECDSA P-256 key,
    both extended key usages, digitalSignature without the signing usages, not a
    CA, and the client URI of a well-formed agent as its only URI; and it is then
    authenticated as that agent. The options [NewLeafOptions] starts from do. *)
Theorem issued_leaf_authenticates (issuer : Authority) (mids : list Certificate) (leaf : Certificate) (key : Signer)
    (tb2 tb3 : TB) (agent : AgentID) (HI : issuer_under now ca issuer mids)
    (HL : NewLeaf issuer opts tb2 = (Returns (leaf, key), tb3)) :
  (Authenticate Certificate_Verify a now (mkConnectionState (Some <$> leaf :: mids)) = Ok agent ↔
   valid_agent agent ∧ svid_options (client_uri agent) opts) ∧
  (∀ t1 t2, valid_agent agent → svid_options (client_uri agent) (NewLeafOptions [client_uri agent] t1 t2)).
Proof.
  apply NewLeaf_Returns in HL as [HL _]; [|done]. rewrite Authenticate_agent.
  split; [by apply (issued_client issuer)|]. intros. by apply NewLeafOptions_svid, doc_url.
Qed.

(** The files [NewLeafFiles] writes are a key pair a client can be
    configured with exactly when the options describe an agent's certificate,
    and one a server can be configured with exactly when they describe the
    server's. The options [NewLeafOptions] starts from do. *)
Theorem leaf_files_configure (read : string → result string) (clean : string → string)
    (LoadX509KeyPair : string → string → result KeyPair) (certPath keyPath : string) (tb2 tb3 : TB)
    (HN : NewLeafFiles ca opts tb2 = (Returns (certPath, keyPath), tb3)) (HR : reads tb3 read)
    (HP : ∀ dir, filepath_Join dir "certificate.crt" ≠ filepath_Join dir "private-key.key")
    (HC : ∀ dir name, clean (filepath_Join dir name) = filepath_Join dir name)
    (HK : key_pair_documented read LoadX509KeyPair) :
  ((∃ cfg, ClientConfig Certificate_Verify clean ParseCertificate LoadX509KeyPair a now certPath keyPath = Ok cfg) ↔
   ∃ agent, valid_agent agent ∧ svid_options (client_uri agent) opts) ∧
  ((∃ cfg, ServerConfig Certificate_Verify clean ParseCertificate LoadX509KeyPair a now certPath keyPath = Ok cfg) ↔
   svid_options server_uri opts) ∧
  (∀ t1 t2, svid_options server_uri (NewLeafOptions [server_uri] t1 t2)).
Proof.
  apply (NewLeafFiles_Returns _ _ _ _ _ _ read) in HN
    as (leaf & key & der & dir & tb4 & tb5 & HL & Hd & -> & -> & Hc & Hk); [|done..].
  apply NewLeaf_Returns in HL as (HL & _ & t & n & Hn); [|done].
  assert (loadIdentity clean ParseCertificate LoadX509KeyPair (filepath_Join dir "certificate.crt")
    (filepath_Join dir "private-key.key") = Ok (mkKeyPair [Raw leaf], [Some leaf])) as HI.
  { unfold loadIdentity. rewrite !HC, (HK _ _ _ _ _ _ _ _ _ Hc Hk Hd Hn). cbn.
    destruct (ld_issued _ _ _ HL) as (? & ? & ? & ? & _ & _ & ->). done. }
  split_and!; [| |intros; by apply NewLeafOptions_svid, doc_url_server].
  - setoid_rewrite <-(issued_client ca [] leaf _ (issuer_root _ _) HL). unfold ClientConfig. rewrite HI. cbn.
    destruct (clientSVID _ _ _ _) as [[l agent]|e]; cbn.
    + split; intros _; eauto.
    + by split; [intros [? ?]|intros (? & ? & ?)].
  - rewrite <-(issued_server ca [] leaf (issuer_root _ _) HL). unfold ServerConfig. rewrite HI. cbn.
    destruct (serverSVID _ _ _ _) as [l|e]; cbn.
    + split; intros _; eauto.
    + by split; intros [? ?].
Qed.

End authenticate.

(** ** Files *)

(** A bundle the package writes of one of its authorities is a bundle the
    program loads: the authenticator made from it trusts that certificate and no
    other, and records that it read one root and when it expires. *)
Theorem written_authority_is_trusted (Decode : string → option (Block * string)) (Time_text : Z → string)
    (read : string → result string) (clean : string → string)
    (ca : Authority) (now1 now2 : Z) (dir name path : string) (logger : slog.Logger) (tb0 tb1 tb2 tb3 : TB)
    (HA : NewAuthority (NewAuthorityOptions now1 now2) tb0 = (Returns ca, tb1))
    (HW : WriteCertificate dir name (Authority_Certificate ca) tb2 = (Returns path, tb3))
    (HP : pem_documented Decode (Raw (Authority_Certificate ca))) (HR : reads tb3 read) (HC : clean (filepath_Join dir name) = filepath_Join dir name) :
  let root := Authority_Certificate ca in
  let a := mkAuthenticator (mkVerifier (Some [root]) skew) logger in
  NewAuthenticator read clean Decode ParseCertificate Time_text path (Some logger) =
  Some (Ok (a, auditTrustBundle Time_text a path (mkLoadedBundle [root] (NotAfter root)))).
Proof using HD.
  apply WriteFile_Returns with (ReadFile := read) in HW as [-> Hread]; [|done]. cbv zeta.
  apply signAuthority_Returns in HA as [(t & pub & k & n & _ & _ & Hparse) _ _ Hca Hku Hu _]; [|done].
  set (root := Authority_Certificate ca) in *. set (text := CertificatePEM root) in *.
  destruct (parseTrustBundle_verdict Decode ParseCertificate text) as [_ Hv]; [apply HP|].
  pose proof (pem_begins _ _ HP) as (Hne & Hb & Hm). pose proof (pem_decodes _ _ HP) as Hd.
  assert (parseTrustBundle Decode ParseCertificate text = Some (Ok (mkLoadedBundle [root] (NotAfter root)))) as Hl.
  { apply Hv. cbn [roots earliestExpiry]. split_and!; [|done|by apply NoDup_singleton|done|done].
    eapply bundle_block; [done|done|exact Hd| |constructor]. split_and!; try done.
    constructor; [by rewrite Hca|unfold has_usage; by rewrite Hku|left].
    specialize (Hu (mkTB 0 0 ∅)). cbn in Hu. by injection Hu as <-. }
  unfold NewAuthenticator, loadTrustBundle. rewrite HC, Hread, Hl. done.
Qed.
(** ** Roles *)

Section roles.
Context (parse : string → result json.value) (read : string → result string) (clean : string → string).
Context (agents : list AgentID) (path : string) (tb0 tb1 : TB).
Context (HW : WriteRoles agents tb0 = (Returns path, tb1)) (HA : Forall ascii_text agents).
Context (HJ : json_documented parse) (HR : reads tb1 read).
Context (HC : ∀ dir name, clean (filepath_Join dir name) = filepath_Join dir name).
Set Default Proof Using "All".

Lemma written_roles_read :
  ∃ text document entries, read (clean path) = Ok text ∧ parse text = Ok document ∧
    json.Unmarshal_entries document = Ok entries ∧ (∀ agent, agent ∈ dom entries ↔ agent ∈ agents) ∧
    (∀ agent raw, entries !! agent = Some raw → raw.2 = json.String_ authz.RoleUser).
Proof.
  unfold WriteRoles in HW. apply M_bind_Returns in HW as (text & tb2 & [Ht ->]%must_Returns & HW').
  apply M_bind_Returns in HW' as (dir & tb3 & _ & HW').
  apply WriteFile_Returns with (ReadFile := read) in HW' as [-> Hread]; [|done].
  destruct (granted_entries parse agents text HJ Ht HA) as (document & entries & ?).
  exists text, document, entries. by rewrite HC.
Qed.

Lemma written_roles_Ok a :
  authz.Load read clean parse path = Ok a ↔
  agents ≠ [] ∧ Forall valid_agent agents ∧ authz.roles a = granted agents.
Proof.
  destruct written_roles_read as (text & document & entries & Hread & Hp & Hu & Hdom & Huser).
  assert ((λ _, authz.RoleUser) <$> entries = granted agents) as Hroles.
  { apply map_eq. intros k. rewrite lookup_fmap, granted_lookup, <-(decide_ext _ _ _ _ (Hdom k)).
    destruct (entries !! k) eqn:E; cbn; case_decide as Hk; try done;
      [by destruct Hk; apply elem_of_dom|by apply elem_of_dom in Hk as [? ?]; simplify_eq]. }
  assert (entries = ∅ ↔ agents = []) as Hempty.
  { rewrite <-dom_empty_iff_L, elem_of_equiv_empty_L. setoid_rewrite Hdom. split.
    - apply elem_of_nil_inv.
    - by intros -> x ?%not_elem_of_nil. }
  rewrite authz.Load_Ok. split.
  - intros (entries' & (content & document' & Hc & Hp' & Hu' & Hne) & Hg & Hr).
    assert (entries' = entries) as -> by congruence.
    split_and!; [by rewrite <-Hempty| |congruence].
    apply Forall_forall. intros k [raw Hk]%Hdom%elem_of_dom. by apply (Hg _ _ Hk).
  - intros (Hne & Hv & Hr). exists entries. split_and!; [| |congruence].
    + exists text, document. split_and!; try done. by rewrite Hempty.
    + intros id raw Hraw. split; [|by eapply Huser].
      rewrite Forall_forall in Hv. apply Hv, Hdom. by eapply elem_of_dom_2.
Qed.

(** The roles file the package writes for a list of agents is loaded exactly
    when the list is not empty and every agent of it is well formed, and then
    grants USER to those agents: an agent may act, by one of the four actions of
    the service, exactly when the list names it. *)
Theorem written_roles_load :
  (∀ a, authz.Load read clean parse path = Ok a ↔
     agents ≠ [] ∧ Forall valid_agent agents ∧ authz.roles a = granted agents) ∧
  (∀ a agent action, authz.Load read clean parse path = Ok a →
     authz.Authorize a agent action = None ↔
     agent ∈ agents ∧ action ∈ [authz.ActionStart; authz.ActionStop; authz.ActionGetStatus; authz.ActionStreamOutput]).
Proof.
  split; [exact written_roles_Ok|]. intros a agent action (_ & _ & Hr)%written_roles_Ok.
  unfold authz.Authorize. rewrite Hr, granted_lookup. case_decide as Hin; [|naive_solver].
  change [authz.ActionStart; authz.ActionStop; authz.ActionGetStatus; authz.ActionStreamOutput]
    with (authz.actions authz.RoleUser). rewrite <-authz.isAuthorizedTo_spec.
  destruct (authz.isAuthorizedTo _ _); naive_solver.
Qed.
End roles.

End issued.
(** ** A concrete library

    It issues three certificates: an authority, an intermediate of it, and the
    leaf of agent [smith]. *)

Definition sample_now : Z := 100 * 3600000000000.

Definition sample_certificate (t : Template) (pub : SubjectKey) (der : string) : Certificate := {|
  Raw := der; SerialNumber := t_SerialNumber t; NotBefore := whole_seconds (t_NotBefore t);
  NotAfter := whole_seconds (t_NotAfter t); IsCA := t_BasicConstraintsValid t && t_IsCA t;
  KeyUsage := t_KeyUsage t; ExtKeyUsage := t_ExtKeyUsage t; PublicKeyOf := key_kind pub; URIs := t_URIs t;
|}.

Definition sample_authority (der : string) : Certificate := {|
  Raw := der; SerialNumber := 7; NotBefore := sample_now - authorityValidity;
  NotAfter := sample_now + authorityValidity; IsCA := true; KeyUsage := 96; ExtKeyUsage := [];
  PublicKeyOf := ECDSAPublicKey P256; URIs := [];
|}.

Definition sample_leaf : Certificate := {|
  Raw := "leaf"; SerialNumber := 7; NotBefore := sample_now - leafValidity;
  NotAfter := sample_now + leafValidity; IsCA := false; KeyUsage := 1; ExtKeyUsage := [1; 2]%Z;
  PublicKeyOf := ECDSAPublicKey P256; URIs := [client_uri "smith"];
|}.

Definition sample_parse_certificate (der : string) : result Certificate :=
  if (der =? "leaf")%string then Ok sample_leaf
  else if (der =? "root")%string || (der =? "mid")%string then Ok (sample_authority der)
  else Err (Foreign "x509: malformed certificate").

Definition sample_create (t : Template) (issuer : Issuer) (pub : SubjectKey) : result string :=
  let der := if t_IsCA t then match issuer with Itself _ => "root" | Parsed _ => "mid" end else "leaf" in
  match sample_parse_certificate der with
  | Ok c => if decide (sample_certificate t pub der = c) then Ok der else Err (Foreign "not a sample")
  | Err e => Err e
  end.

#[local] Instance sample_library : Library := {|
  TempDir n := Ok ("/tmp/" +:+ pretty n);
  filepath_Join dir name := dir +:+ "/" +:+ name;
  os_WriteFile files path data mode := (None, <[path := (data, mode)]> files);
  rand_Int max _ := if (7 <? max)%Z then Ok 7%Z else Err (Foreign "sample");
  ecdsa_GenerateKey curve n := Ok (mkSigner (mkSubjectKey (ECDSAPublicKey curve) (pretty n)) (pretty n));
  rsa_GenerateKey _ n := Ok (mkSigner (mkSubjectKey OtherPublicKey (pretty n)) (pretty n));
  url_Parse := Ok;
  CreateCertificate t issuer pub _ _ := sample_create t issuer pub;
  testpki.ParseCertificate := sample_parse_certificate;
  MarshalPKCS8PrivateKey key := Ok (key_secret key);
  EncodeToMemory block := pemBeginMarker +:+ Bytes block +:+ ";" +:+ newline;
  json_Marshal m := if decide (map_to_list m = [("smith", "USER")]) then Ok "one" else Err (Foreign "not a sample");
|}.

#[local] Instance sample_documented : Documented.
Proof.
  constructor; cbn.
  - intros max n z. destruct (Z.ltb_spec 7 max); [|done]. intros [= <-]. lia.
  - by intros curve n key [= <-].
  - by intros bits n key [= <-].
  - done.
  - done.
  - intros files path data mode files' [= <-]. by exists mode.
  - intros t issuer pub key n der c Hc Hp _. unfold sample_create in Hc.
    set (der' := if t_IsCA t then _ else _) in Hc. destruct (sample_parse_certificate der') as [c'|] eqn:E; [|done].
    case_decide as Hd; [|done]. injection Hc as <-. rewrite E in Hp. injection Hp as <-. rewrite <-Hd. done.
Qed.

(** A verifier that knows the authority and looks at the clock. *)
Definition sample_verify (leaf : Certificate) (opts : VerifyOptions) : option error :=
  let known := existsb (λ c, (Raw c =? "root")%string) (default [] (Roots opts)) in
  if known && (NotBefore leaf <=? CurrentTime opts)%Z && (CurrentTime opts <=? NotAfter leaf)%Z
  then None else Some (Foreign "x509: certificate signed by unknown authority").

Lemma sample_anchors : anchors sample_verify.
Proof.
  intros leaf mids root pool opts Hr _ _ Hin (t & pub & key & n & _ & Hc & Hp) _ _ _ Hv Hca.
  apply Forall_cons in Hv as [[H1 H2] _]. unfold sample_verify. rewrite Hr. cbn.
  assert (existsb (λ c, (Raw c =? "root")%string) pool = true) as ->; [|by reflect; rewrite !Zle_imp_le_bool].
  apply existsb_exists. exists root. split; [done|]. apply String.eqb_eq.
  apply Forall_cons in Hca as [[Hca _] _].
  cbn in Hc, Hp. unfold sample_create in Hc. destruct (t_IsCA t).
  - destruct (sample_parse_certificate "root"); [|done]. case_decide; [|done]. by injection Hc.
  - destruct (sample_parse_certificate "leaf"); [|done]. case_decide; [|done]. injection Hc as Hc.
    rewrite <-Hc in Hp. injection Hp as <-. done.
Qed.

Definition sample_tb : TB := mkTB 0 0 ∅.
Definition sample_authenticator : Authenticator :=
  mkAuthenticator (mkVerifier (Some [sample_authority "root"]) skew) slog.DiscardHandler.

(** The authority, the intermediate, and the leaf under it. *)
Definition sample_ca : Authority :=
  mkAuthority (sample_authority "root") (mkSigner (mkSubjectKey (ECDSAPublicKey P256) "0") "0").
Definition sample_mid : Authority :=
  mkAuthority (sample_authority "mid") (mkSigner (mkSubjectKey (ECDSAPublicKey P256) "0") "0").

Lemma valid_smith : valid_agent "smith".
Proof. by apply AgentID_Validate_None. Qed.

Lemma issued_leaf_authenticates_witness :
  Authenticate sample_verify sample_authenticator sample_now
    (mkConnectionState [Some sample_leaf; Some (sample_authority "mid")]) = Ok "smith".
Proof.
  refine (proj2 (proj1 (issued_leaf_authenticates sample_verify sample_anchors sample_authenticator
    [sample_authority "root"] sample_now sample_now sample_now sample_ca sample_tb (mkTB 3 0 ∅) _ _ _
    (NewLeafOptions [client_uri "smith"] sample_now sample_now) _ _ sample_mid [sample_authority "mid"] sample_leaf
    (mkSigner (mkSubjectKey (ECDSAPublicKey P256) "1") "1") sample_tb (mkTB 3 0 ∅) "smith" _ _)) _).
  - reflexivity.
  - done.
  - by split; [|left].
  - done.
  - done.
  - by apply (issuer_intermediate _ _ sample_mid sample_now sample_now sample_tb (mkTB 3 0 ∅)).
  - reflexivity.
  - split; [apply valid_smith|by apply NewLeafOptions_svid].
Defined.

(** What [os.ReadFile] finds after the test. *)
Definition sample_read (tb : TB) (path : string) : result string :=
  match tb_files tb !! path with
  | Some (data, _) => Ok data
  | None => Err (Foreign "open: no such file or directory")
  end.

Lemma sample_reads tb : reads tb (sample_read tb).
Proof. intros path data mode H. unfold sample_read. by rewrite H. Qed.

(** [smith]'s files, and what reads the pair. *)
Definition sample_leaf_tb : TB :=
  mkTB 3 1 (<["/tmp/0/private-key.key" := ("-----BEGIN 1;" +:+ newline, keyFileMode)]>
              {["/tmp/0/certificate.crt" := ("-----BEGIN leaf;" +:+ newline, keyFileMode)]}).

Definition sample_load (certPath keyPath : string) : result KeyPair :=
  text ← sample_read sample_leaf_tb certPath;
  _ ← sample_read sample_leaf_tb keyPath;
  match sample_Decode text with
  | Some (block, _) => Ok (mkKeyPair [Bytes block])
  | None => Err (Foreign "tls: failed to find any PEM data")
  end.

Lemma sample_create_encoding t issuer pub der :
  sample_create t issuer pub = Ok der → der = "leaf" ∨ der = "root" ∨ der = "mid".
Proof.
  unfold sample_create. destruct (sample_parse_certificate _); [|done]. case_decide; [|done]. intros [= <-].
  destruct (t_IsCA t); [|by left]. destruct issuer; [by right; right|by right; left].
Qed.

Lemma sample_pair : key_pair_documented (sample_read sample_leaf_tb) sample_load.
Proof.
  intros certPath keyPath c t issuer key signer n der Hc Hk _ Hn. unfold sample_load. rewrite Hc, Hk. cbn in Hn.
  apply sample_create_encoding in Hn. unfold CertificatePEM.
  destruct c as [raw ? ? ? ? ? ? ? ?]. cbn in Hn. by destruct Hn as [->|[->| ->]]; vm_compute.
Qed.

Lemma leaf_files_configure_witness :
  (∃ cfg, ClientConfig sample_verify (λ p, p) ParseCertificate sample_load sample_authenticator sample_now
     "/tmp/0/certificate.crt" "/tmp/0/private-key.key" = Ok cfg) ∧
  ¬ svid_options server_uri (NewLeafOptions [client_uri "smith"] sample_now sample_now).
Proof.
  destruct (leaf_files_configure sample_verify sample_anchors sample_authenticator [sample_authority "root"]
    sample_now sample_now sample_now sample_ca sample_tb (mkTB 3 0 ∅) eq_refl ltac:(done) ltac:(by split; [|left])
    (NewLeafOptions [client_uri "smith"] sample_now sample_now) ltac:(done) ltac:(done)
    (sample_read sample_leaf_tb) (λ p, p) sample_load "/tmp/0/certificate.crt" "/tmp/0/private-key.key"
    sample_tb sample_leaf_tb eq_refl (sample_reads _) ltac:(by intros dir [=]%(inj (String.append _)))
    (λ _ _, eq_refl) sample_pair) as [Hclient [_ _]].
  split.
  - apply Hclient. exists "smith". split; [apply valid_smith|by apply NewLeafOptions_svid].
  - intros [Hu _ _ _ _]. specialize (Hu sample_tb). discriminate Hu.
Defined.

Lemma sample_pem : pem_documented sample_Decode "root".
Proof. constructor; [exact sample_Decode_shortens|by vm_compute|by vm_compute]. Qed.

Definition sample_bundle_tb : TB :=
  mkTB 3 0 {["/tmp/ca.crt" := ("-----BEGIN root;" +:+ newline, keyFileMode)]}.

Lemma written_authority_is_trusted_witness :
  NewAuthenticator (sample_read sample_bundle_tb) (λ p, p) sample_Decode ParseCertificate pretty "/tmp/ca.crt"
    (Some slog.DiscardHandler) = Some (Ok (sample_authenticator, [])).
Proof.
  refine (written_authority_is_trusted sample_Decode pretty (sample_read sample_bundle_tb) (λ p, p) sample_ca
    sample_now sample_now "/tmp" "ca.crt" "/tmp/ca.crt" slog.DiscardHandler sample_tb (mkTB 3 0 ∅) (mkTB 3 0 ∅)
    sample_bundle_tb _ _ sample_pem (sample_reads _) _); reflexivity.
Defined.

Lemma sample_json : json_documented authz.sample_parse.
Proof.
  intros m text Hm _. cbn in Hm. case_decide as E; [|done]. injection Hm as <-.
  eexists. split; [reflexivity|]. by rewrite E.
Qed.

Definition sample_roles_tb : TB := mkTB 0 1 {["/tmp/0/roles.json" := ("one", keyFileMode)]}.

Lemma written_roles_load_witness :
  ∃ a, authz.Load (sample_read sample_roles_tb) (λ p, p) authz.sample_parse "/tmp/0/roles.json" = Ok a ∧
    authz.Authorize a "smith" authz.ActionStop = None ∧ authz.Authorize a "jones" authz.ActionStop ≠ None.
Proof.
  assert (WriteRoles ["smith"] sample_tb = (Returns "/tmp/0/roles.json", sample_roles_tb)) as HW
    by (vm_compute; reflexivity).
  assert (Forall ascii_text ["smith"]) as HA by (constructor; [vm_compute; reflexivity|constructor]).
  destruct (written_roles_load authz.sample_parse (sample_read sample_roles_tb) (λ p, p) ["smith"] "/tmp/0/roles.json"
    sample_tb sample_roles_tb HW HA sample_json (sample_reads _) (λ _ _, eq_refl)) as [Hload Hmay].
  assert (authz.Load (sample_read sample_roles_tb) (λ p, p) authz.sample_parse "/tmp/0/roles.json" =
    Ok (authz.mkAuthorizer (granted ["smith"]))) as HL.
  { apply Hload. split_and!; [done|by repeat constructor; try apply valid_smith|done]. }
  eexists. split; [exact HL|]. rewrite !(Hmay _ _ _ HL). split; [by split; [left|right; left]|].
  by intros [[=]%list_elem_of_singleton _].
Defined.

End testpki_properties.
