(* ===== verification/Job.v ===== *)
(** * The countdown job: [internal/worker]

    A [Job] is the struct one mutex guards; the methods that take the mutex are
    atomic functions on it. The goroutine [countdown] is a machine over program
    points ([pc]), one step per critical section, select arm or call out, and
    [job_step] is one step of a job with its goroutine. Channels are an explicit
    store, so that closing a closed channel is the run-time panic it is in Go. *)

From S2P Require Import Prelude GoStrings GoErrors Slog.

Module worker.

(** ** Statuses, ticks *)

(** [type Status string] *)
Definition Status := string.
Definition StatusRunning : Status := "RUNNING".
Definition StatusCompleted : Status := "COMPLETED".
Definition StatusStopped : Status := "STOPPED".
Definition StatusFailed : Status := "FAILED".

(** [type JobID string] *)
Definition JobID := string.

Record Progress := mkProgress { Elapsed : Z; Remaining : Z }.
Record Stopped := mkStopped { Cause : error }.
Record PanicError := mkPanicError { PanicErr : option error }.

(** [type Tick interface]: [isTick] is unexported, so these three types are all
    its implementations. *)
Inductive Tick :=
| TickProgress (p : Progress)
| TickStopped (s : Stopped)
| TickPanicError (f : PanicError).

Definition IsTerminal (t : Tick) : bool :=
  match t with
  | TickProgress p => (Remaining p =? 0)%Z
  | TickStopped _ | TickPanicError _ => true
  end.

(** [PanicError.Error] *)
Definition PanicError_Error (f : PanicError) : string :=
  match PanicErr f with
  | None => "job failure without an error"
  | Some e => "job failure: " +:+ Error e
  end.

(** [PanicError.Unwrap] *)
Definition PanicError_Unwrap (f : PanicError) : option error := PanicErr f.

(** ** Channels of type [chan struct{}] that are only ever closed *)

Abbreviation chan := nat.

(** The store maps a channel to whether it is closed. *)
Abbreviation chan_store := (list bool).

Definition make_chan (cs : chan_store) : chan_store * chan := (cs ++ [false], length cs).

Definition is_closed (cs : chan_store) (c : chan) : bool := default false (cs !! c).

(** [close(c)]; [None] is the run-time panic of closing a closed channel. *)
Definition close_chan (cs : chan_store) (c : chan) : option chan_store :=
  match cs !! c with
  | Some false => Some (<[c:=true]> cs)
  | _ => None
  end.

(** ** Jobs *)

(** [type Job struct], with the capacity of the [ticks] slice, the channel
    store, and the state of the job's context ([ctx.Err()]). *)
Record Job := mkJob {
  id : JobID;
  status : Status;
  ticks : list Tick;
  ticks_cap : nat;
  meanTickInterval : Z;
  ctx_err : option error;
  changed : chan;
  finished : chan;
  chans : chan_store;
  logger : slog.Logger;
}.

Definition with_status (s : Status) (j : Job) : Job :=
  mkJob (id j) s (ticks j) (ticks_cap j) (meanTickInterval j) (ctx_err j) (changed j)
    (finished j) (chans j) (logger j).
Definition with_ticks (ts : list Tick) (j : Job) : Job :=
  mkJob (id j) (status j) ts (ticks_cap j) (meanTickInterval j) (ctx_err j) (changed j)
    (finished j) (chans j) (logger j).
Definition with_ctx (e : option error) (j : Job) : Job :=
  mkJob (id j) (status j) (ticks j) (ticks_cap j) (meanTickInterval j) e (changed j)
    (finished j) (chans j) (logger j).
Definition with_changed (c : chan) (cs : chan_store) (j : Job) : Job :=
  mkJob (id j) (status j) (ticks j) (ticks_cap j) (meanTickInterval j) (ctx_err j) c
    (finished j) cs (logger j).

Definition close_of_closed : panic_value := PanicWithError (Foreign "close of closed channel").

Definition MaxCount : Z := 100.
Definition MeanTickInterval : Z := 1000000000.

(** [Job.ID] *)
Definition Job_ID (j : Job) : JobID := id j.

(** [Job.Status], one critical section. *)
Definition Job_Status (j : Job) : Status := status j.

(** [j.cancel()]: the context is cancelled once, and keeps its first cause. *)
Definition cancel_with (e : error) (j : Job) : Job :=
  match ctx_err j with None => with_ctx (Some e) j | Some _ => j end.

Definition cancel : Job → Job := cancel_with (Sentinel context_Canceled).

(** [<-j.finished] is ready. *)
Definition is_finished (j : Job) : bool := is_closed (chans j) (finished j).

(** [Job.reportProgress], one critical section, with the panic it may raise. *)
Definition reportProgress (tick : Progress) (j : Job) : Job * option panic_value :=
  if (status j =? StatusRunning)%string then
    let j := with_ticks (ticks j ++ [TickProgress tick]) j in
    match close_chan (chans j) (changed j) with
    | None => (j, Some close_of_closed)
    | Some cs =>
        let '(cs, c) := make_chan cs in
        (with_changed c cs j, None)
    end
  else (j, None).

(** [Job.setTerminal], one critical section: whether this call performed the
    transition, or the panic it raised. *)
Definition setTerminal (terminalStatus : Status) (lastTick : Tick) (j : Job)
    : Job * (bool + panic_value) :=
  if negb (status j =? StatusRunning)%string then (j, inl false)
  else
    let j := with_status terminalStatus j in
    let j := with_ticks (ticks j ++ [lastTick]) j in
    match close_chan (chans j) (changed j) with
    | None => (j, inr close_of_closed)
    | Some cs => (with_changed (changed j) cs j, inl true)
    end.

(** [Job.auditTransition]: the record it writes. *)
Definition auditTransition (terminalStatus : Status) (lastTick : Tick) (j : Job)
    : list slog.LogRecord :=
  let attributes := [("job_id", id j); ("status", terminalStatus)] in
  let level := if (terminalStatus =? StatusFailed)%string then slog.LevelError
               else slog.LevelInfo in
  let attributes :=
    match lastTick with
    | TickPanicError failure => attributes ++ [("error", PanicError_Error failure)]
    | _ => attributes
    end in
  slog.LogAttrs (logger j) level "job finished" attributes.

(** ** The goroutine *)

(** Where [countdown] is about to act. [recovering] marks the deferred call
    that handles a panic, [crashing] a panic that nothing will recover. *)
Inductive pc :=
| AtStart (count : Z)
| AtSelect (currentCount : Z)
| AtReport (tick : Progress) (currentCount : Z)
| AtFinish (terminalStatus : Status) (lastTick : Tick) (recovering : bool)
| AtAudit (terminalStatus : Status) (lastTick : Tick) (recovering : bool)
| AtCloseFinished (crashing : bool)
| AtCancel (crashing : bool)
| Exited
| Crashed.

(** The condition of the [for] loop: past it, the function returns. *)
Definition loop_head (currentCount : Z) : pc :=
  if (currentCount >=? 0)%Z then AtSelect currentCount else AtCloseFinished false.

(** The error the deferred call wraps a recovered value in. *)
Definition recovered_error (v : panic_value) : error :=
  match v with
  | PanicWithError e =>
      Wrapped (Error e +:+ ": " +:+ sentinel_text ErrJobPanic) [e; Sentinel ErrJobPanic]
  | PanicWithOther text =>
      Wrapped (text +:+ ": " +:+ sentinel_text ErrJobPanic) [Sentinel ErrJobPanic]
  end.

(** A panic in the body is recovered and turned into a failure; one raised
    while recovering unwinds the remaining deferred calls and ends the process. *)
Definition raise (recovering : bool) (v : panic_value) : pc :=
  if recovering then AtCloseFinished true
  else AtFinish StatusFailed (TickPanicError (mkPanicError (Some (recovered_error v)))) true.

(** What decides a step the goroutine cannot decide itself: the timer fires
    ([Timer], with [time.Since(startedAt)]), the context is done ([CtxDone]),
    or a call out panics ([Panic]). [Run] is every other step. *)
Inductive event :=
| Run
| Timer (elapsed : Z)
| CtxDone
| Panic (v : panic_value).

Definition after_report (j : Job) (p : option panic_value) (next : pc)
    : option (Job * pc * list slog.LogRecord) :=
  match p with
  | None => Some (j, next, [])
  | Some v => Some (j, raise false v, [])
  end.

(** One step of [countdown]; [None] when the event is not possible there. *)
Definition countdown_step (ev : event) (j : Job) (p : pc)
    : option (Job * pc * list slog.LogRecord) :=
  match p, ev with
  | AtStart count, Run =>
      let '(j, panicked) := reportProgress (mkProgress 0 count) j in
      after_report j panicked (loop_head (count - 1))
  | AtStart _, Panic v => Some (j, raise false v, [])
  | AtSelect currentCount, Timer elapsed =>
      let tick := mkProgress elapsed currentCount in
      if IsTerminal (TickProgress tick)
      then Some (j, AtFinish StatusCompleted (TickProgress tick) false, [])
      else Some (j, AtReport tick currentCount, [])
  | AtSelect currentCount, CtxDone =>
      match ctx_err j with
      | Some e => Some (j, AtFinish StatusStopped (TickStopped (mkStopped e)) false, [])
      | None => None
      end
  | AtSelect _, Panic v => Some (j, raise false v, [])
  | AtReport tick currentCount, Run =>
      let '(j, panicked) := reportProgress tick j in
      after_report j panicked (loop_head (currentCount - 1))
  | AtFinish terminalStatus lastTick recovering, Run =>
      match setTerminal terminalStatus lastTick j with
      | (j, inl true) => Some (j, AtAudit terminalStatus lastTick recovering, [])
      | (j, inl false) => Some (j, AtCloseFinished false, [])
      | (j, inr v) => Some (j, raise recovering v, [])
      end
  | AtAudit terminalStatus lastTick recovering, Run =>
      Some (j, AtCloseFinished false, auditTransition terminalStatus lastTick j)
  | AtAudit _ _ recovering, Panic v => Some (j, raise recovering v, [])
  | AtCloseFinished crashing, Run =>
      match close_chan (chans j) (finished j) with
      | Some cs => Some (with_changed (changed j) cs j, AtCancel crashing, [])
      | None => Some (j, AtCancel true, [])
      end
  | AtCancel crashing, Run =>
      Some (cancel j, if crashing then Crashed else Exited, [])
  | _, _ => None
  end.

(** [NewJob]: the job, and the goroutine it starts. [parent] is the state of the
    context the job is derived from. *)
Definition NewJob (parent : option error) (jobID : JobID) (count : Z) (meanTickInterval : Z)
    (logger : option slog.Logger) : result (Job * pc) :=
  if (count <=? 0)%Z || (count >? MaxCount)%Z then
    Err (errorf ("new-job [count " +:+ pretty count +:+ "]") (Sentinel ErrInvalidCount))
  else if (meanTickInterval <=? 0)%Z then
    Err (errorf ("new-job [mean interval " +:+ Duration_String meanTickInterval +:+ "]")
           (Sentinel ErrInvalidMeanInterval))
  else
    let '(cs, changed) := make_chan [] in
    let '(cs, finished) := make_chan cs in
    let job := {|
      id := jobID;
      status := StatusRunning;
      ticks := [];
      ticks_cap := Z.to_nat (count + 1);
      meanTickInterval := meanTickInterval;
      ctx_err := parent;
      changed := changed;
      finished := finished;
      chans := cs;
      logger := logging.OrDiscard logger;
    |} in
    Ok (job, AtStart count).

(** ** A job with its goroutine and the records it has written *)

Record cell := mkCell { c_job : Job; c_pc : pc; c_log : list slog.LogRecord }.

(** What can happen to a job: a step of its goroutine, a cancellation by anyone
    holding it, or the end of the context it was derived from. *)
Inductive action :=
| Go (ev : event)
| DoCancel
| ParentDone (cause : error).

Definition job_step (a : action) (c : cell) : option cell :=
  match a with
  | Go ev =>
      '(j, p, recs) ← countdown_step ev (c_job c) (c_pc c);
      Some (mkCell j p (c_log c ++ recs))
  | DoCancel => Some (mkCell (cancel (c_job c)) (c_pc c) (c_log c))
  | ParentDone e => Some (mkCell (cancel_with e (c_job c)) (c_pc c) (c_log c))
  end.

Fixpoint job_run (l : list action) (c : cell) : option cell :=
  match l with
  | [] => Some c
  | a :: l => c ← job_step a c; job_run l c
  end.

(** The job of a successful [NewJob], and what it can become. *)
Definition job_start (parent : option error) (jobID : JobID) (count mean : Z)
    (logger : option slog.Logger) (c : cell) : Prop :=
  ∃ j p, NewJob parent jobID count mean logger = Ok (j, p) ∧ c = mkCell j p [].

Definition job_steps (c c' : cell) : Prop := ∃ a, job_step a c = Some c'.

(** [Job.Stop] once [<-j.finished] is ready: the status it reports. It blocks
    until then. *)
Definition Stop_result (j : Job) : option Status :=
  if is_finished j then Some (Job_Status j) else None.

End worker.
