(* ===== verification/JobInvariant.v ===== *)
(** * What a countdown job guarantees: [internal/worker]

    The state machine of the design document is the abstract specification
    ([abs_step]): a running job emits its countdown one tick at a time and moves
    once into a terminal status together with the tick that reports it. Every
    step of the concrete job, whatever the goroutine, the timers, the callers of
    [Stop] and panics do, is a step of that machine or leaves it in place. *)

From S2P Require Import Prelude GoStrings GoErrors Slog Job.

Module worker_spec.
Import worker.

(** ** The abstract state machine *)

Record abs := mkAbs { a_status : Status; a_ticks : list Tick }.

Definition abs_of (j : Job) : abs := mkAbs (status j) (ticks j).

Inductive abs_step (count : Z) : abs → abs → Prop :=
| abs_emit ts elapsed :
    (Z.of_nat (length ts) < count)%Z → (ts = [] → elapsed = 0%Z) →
    abs_step count (mkAbs StatusRunning ts)
      (mkAbs StatusRunning
         (ts ++ [TickProgress (mkProgress elapsed (count - Z.of_nat (length ts)))]))
| abs_complete ts elapsed :
    Z.of_nat (length ts) = count →
    abs_step count (mkAbs StatusRunning ts)
      (mkAbs StatusCompleted (ts ++ [TickProgress (mkProgress elapsed 0)]))
| abs_stop ts cause :
    abs_step count (mkAbs StatusRunning ts)
      (mkAbs StatusStopped (ts ++ [TickStopped (mkStopped cause)]))
| abs_fail ts e :
    Is e ErrJobPanic = true →
    abs_step count (mkAbs StatusRunning ts)
      (mkAbs StatusFailed (ts ++ [TickPanicError (mkPanicError (Some e))])).

(** The progress ticks [count], [count - 1], ... in order, the first at 0s. *)
Definition counting (count : Z) (ts : list Tick) : Prop :=
  ∀ i t, ts !! i = Some t →
    ∃ e, t = TickProgress (mkProgress e (count - Z.of_nat i)) ∧ (i = 0 → e = 0%Z).

(** The terminal tick [t] reports the terminal status [s]. *)
Definition reports (s : Status) (t : Tick) : Prop :=
  (s = StatusCompleted ∧ ∃ e, t = TickProgress (mkProgress e 0)) ∨
  (s = StatusStopped ∧ ∃ e, t = TickStopped (mkStopped e)) ∨
  (s = StatusFailed ∧ ∃ e, t = TickPanicError (mkPanicError (Some e)) ∧ Is e ErrJobPanic = true).

(** A buffer of outputs that agrees with the status. *)
Definition well_ticked (count : Z) (a : abs) : Prop :=
  (a_status a = StatusRunning ∧ counting count (a_ticks a)
     ∧ (Z.of_nat (length (a_ticks a)) <= count)%Z) ∨
  (∃ ps t, a_ticks a = ps ++ [t] ∧ counting count ps ∧ (Z.of_nat (length ps) <= count)%Z
     ∧ reports (a_status a) t ∧ (a_status a = StatusCompleted → Z.of_nat (length ps) = count)).

Definition terminal (s : Status) : Prop :=
  s = StatusCompleted ∨ s = StatusStopped ∨ s = StatusFailed.

Lemma terminal_not_running s : terminal s → s ≠ StatusRunning.
Proof. by intros [->|[->| ->]]. Qed.

Lemma reports_terminal s t : reports s t → terminal s ∧ IsTerminal t = true.
Proof.
  unfold terminal. intros [(-> & e & ->)|[(-> & e & ->)|(-> & e & -> & ?)]]; auto.
Qed.

Lemma counting_snoc count ts e :
  counting count ts → (ts = [] → e = 0%Z) →
  counting count (ts ++ [TickProgress (mkProgress e (count - Z.of_nat (length ts)))]).
Proof.
  intros H He i t [Hi|[Hi Ht]]%lookup_app_Some; [by apply H|].
  apply list_lookup_singleton_Some in Ht as [Hi0 <-].
  assert (i = length ts) as -> by lia. exists e. split; [done|].
  intros H0. apply He. by apply nil_length_inv.
Qed.

(** No tick of a countdown still above zero is terminal. *)
Lemma counting_not_terminal count ts t :
  counting count ts → (Z.of_nat (length ts) <= count)%Z → t ∈ ts → IsTerminal t = false.
Proof.
  intros H Hl [i Hi]%list_elem_of_lookup. pose proof (lookup_lt_Some _ _ _ Hi).
  destruct (H i t Hi) as (e & -> & _). cbn. apply Z.eqb_neq. lia.
Qed.

Lemma counting_nil count : counting count [].
Proof. intros i t H. by rewrite lookup_nil in H. Qed.

Lemma abs_step_well_ticked count a a' :
  abs_step count a a' → well_ticked count a → well_ticked count a'.
Proof.
  intros Hs Ha. assert (counting count (a_ticks a) ∧ (Z.of_nat (length (a_ticks a)) <= count)%Z) as [Hc Hl].
  { destruct Ha as [(_ & ? & ?)|(ps & t & Ht & _ & _ & Hr & _)]; [done|].
    apply reports_terminal in Hr as [Hr _]. apply terminal_not_running in Hr. by destruct Hs. }
  destruct Hs; cbn in *.
  - left. cbn. split_and!; [done|by apply counting_snoc|]. rewrite length_app. cbn. lia.
  - right. eexists ts, _. split_and!; [done|done|lia|left; eauto|done].
  - right. eexists ts, _. split_and!; [done|done|lia|right; left; eauto|done].
  - right. eexists ts, _. split_and!; [done|done|lia|right; right; eauto|done].
Qed.

(** A terminal status and its buffer never change again. *)
Lemma abs_step_terminal count a a' : abs_step count a a' → a_status a = StatusRunning.
Proof. by destruct 1. Qed.

(** ** The invariant of the concrete job *)

(** The channel [changed] is open exactly while the job runs, [finished] is
    closed exactly from the point where the goroutine closed it. *)
Definition past_finished (p : pc) : bool :=
  match p with AtCancel _ | Exited | Crashed => true | _ => false end.

Record chan_inv (j : Job) (p : pc) : Prop := {
  ci_changed : chans j !! changed j = Some (negb (status j =? StatusRunning)%string);
  ci_finished : chans j !! finished j = Some (past_finished p);
  ci_distinct : changed j ≠ finished j;
}.

Definition running_with (count : Z) (j : Job) (n : Z) : Prop :=
  status j = StatusRunning ∧ Z.of_nat (length (ticks j)) = n.

Definition pc_inv (count : Z) (j : Job) (p : pc) : Prop :=
  match p with
  | AtStart c => c = count ∧ running_with count j 0
  | AtSelect c => (0 <= c < count)%Z ∧ running_with count j (count - c)
  | AtReport t c => (0 < c < count)%Z ∧ Remaining t = c ∧ running_with count j (count - c)
  | AtFinish st t false =>
      status j = StatusRunning ∧ reports st t ∧
      (st = StatusCompleted → Z.of_nat (length (ticks j)) = count)
  | AtFinish st t true => st = StatusFailed ∧ reports st t
  | AtAudit st t _ => status j = st ∧ reports st t ∧ last (ticks j) = Some t
  | AtCloseFinished _ | AtCancel _ | Exited | Crashed => terminal (status j)
  end.

Record job_inv (count : Z) (c : cell) : Prop := {
  ji_count : (0 < count <= MaxCount)%Z;
  ji_ticks : well_ticked count (abs_of (c_job c));
  ji_cap : ticks_cap (c_job c) = Z.to_nat (count + 1);
  ji_chans : chan_inv (c_job c) (c_pc c);
  ji_pc : pc_inv count (c_job c) (c_pc c);
}.

(** ** The critical sections under the invariant *)

Lemma lookup_after_close (cs : chan_store) (c d : chan) b :
  cs !! d = Some b → c ≠ d → (<[c:=true]> cs ++ [false]) !! d = Some b.
Proof.
  intros Hd Hne. rewrite lookup_app_l.
  - by rewrite list_lookup_insert_ne.
  - rewrite length_insert. by eapply lookup_lt_Some.
Qed.

Lemma reportProgress_running t j :
  status j = StatusRunning → chans j !! changed j = Some false →
  reportProgress t j =
    (with_changed (length (chans j)) (<[changed j:=true]> (chans j) ++ [false])
       (with_ticks (ticks j ++ [TickProgress t]) j), None).
Proof.
  intros Hs Hc. unfold reportProgress, close_chan. rewrite Hs. cbn. rewrite Hc. cbn.
  by rewrite length_insert.
Qed.

Lemma setTerminal_running st t j :
  status j = StatusRunning → chans j !! changed j = Some false →
  setTerminal st t j =
    (with_changed (changed j) (<[changed j:=true]> (chans j))
       (with_ticks (ticks j ++ [t]) (with_status st j)), inl true).
Proof.
  intros Hs Hc. unfold setTerminal, close_chan. rewrite Hs. cbn. by rewrite Hc.
Qed.

Lemma setTerminal_terminal st t j :
  status j ≠ StatusRunning → setTerminal st t j = (j, inl false).
Proof. intros H%String.eqb_neq. unfold setTerminal. by rewrite H. Qed.

Lemma cancel_with_fields e j :
  status (cancel_with e j) = status j ∧ ticks (cancel_with e j) = ticks j ∧
  chans (cancel_with e j) = chans j ∧ changed (cancel_with e j) = changed j ∧
  finished (cancel_with e j) = finished j ∧ ticks_cap (cancel_with e j) = ticks_cap j ∧
  id (cancel_with e j) = id j ∧ logger (cancel_with e j) = logger j.
Proof. unfold cancel_with. by destruct (ctx_err j). Qed.

(** A step is simulated: the abstract machine moves with it or stays. *)
Definition simulated (count : Z) (c c' : cell) : Prop :=
  abs_of (c_job c') = abs_of (c_job c) ∨ abs_step count (abs_of (c_job c)) (abs_of (c_job c')).

Lemma simulated_well_ticked count c c' :
  simulated count c c' → well_ticked count (abs_of (c_job c)) → well_ticked count (abs_of (c_job c')).
Proof. intros [-> |H]; [done|]. by apply abs_step_well_ticked. Qed.

Lemma running_changed j p : chan_inv j p → status j = StatusRunning → chans j !! changed j = Some false.
Proof. intros [-> _ _] ->. done. Qed.

(** The two places that report progress: [current] is the count the tick
    carries, and the loop continues below it. *)
Lemma report_step count j p t current :
  chan_inv j p → past_finished p = false → running_with count j (count - current) →
  (0 < current <= count)%Z → Remaining t = current → (ticks j = [] → Elapsed t = 0%Z) →
  ∃ j', reportProgress t j = (j', None) ∧
    abs_step count (abs_of j) (abs_of j') ∧
    ticks_cap j' = ticks_cap j ∧
    chan_inv j' (loop_head (current - 1)) ∧ pc_inv count j' (loop_head (current - 1)).
Proof.
  intros Hch Hp [Hs Hl] Hc Hr He.
  pose proof (running_changed _ _ Hch Hs) as Hopen. destruct Hch as [_ Hfin Hne]. rewrite Hp in Hfin.
  eexists. split; [by apply reportProgress_running|]. split_and!.
  - destruct t as [e r]. cbn in Hr, He. subst r. unfold abs_of. cbn. rewrite Hs.
    pose proof (abs_emit count (ticks j) e ltac:(lia) He) as HA.
    by replace (count - Z.of_nat (length (ticks j)))%Z with current in HA by lia.
  - done.
  - unfold loop_head. destruct (Z.geb_spec (current - 1) 0); [|lia].
    constructor; cbn.
    + rewrite Hs. cbn. rewrite lookup_app_r by (rewrite length_insert; lia).
      rewrite length_insert, Nat.sub_diag. done.
    + by apply lookup_after_close.
    + apply lookup_lt_Some in Hfin. lia.
  - unfold loop_head. destruct (Z.geb_spec (current - 1) 0); [|lia].
    cbn. unfold running_with. cbn. rewrite length_app. cbn. split_and!; [lia|lia|done|lia].
Qed.

(** The winning [setTerminal]. *)
Lemma finish_step count j p st t r :
  chan_inv j p → past_finished p = false → status j = StatusRunning → reports st t →
  (st = StatusCompleted → Z.of_nat (length (ticks j)) = count) →
  ∃ j', setTerminal st t j = (j', inl true) ∧
    abs_step count (abs_of j) (abs_of j') ∧
    ticks_cap j' = ticks_cap j ∧ chan_inv j' (AtAudit st t r) ∧ pc_inv count j' (AtAudit st t r).
Proof.
  intros Hch Hp Hs Hr Hcount.
  pose proof (running_changed _ _ Hch Hs) as Hopen. destruct Hch as [_ Hfin Hne]. rewrite Hp in Hfin.
  eexists. split; [by apply setTerminal_running|]. split_and!.
  - unfold abs_of. cbn. rewrite Hs.
    destruct Hr as [(-> & e & ->)|[(-> & e & ->)|(-> & e & -> & ?)]].
    + apply abs_complete. auto.
    + apply abs_stop.
    + by apply abs_fail.
  - done.
  - constructor; cbn.
    + rewrite list_lookup_insert_eq by (by eapply lookup_lt_Some).
      destruct (String.eqb_spec st StatusRunning) as [Hst|]; [|done].
      exfalso. by eapply terminal_not_running; [eapply (reports_terminal st t)|].
    + by rewrite list_lookup_insert_ne.
    + done.
  - cbn. split_and!; [done|done|apply last_snoc].
Qed.

Lemma raise_inv count j p v :
  chan_inv j p → past_finished p = false → chan_inv j (raise false v) ∧ pc_inv count j (raise false v).
Proof.
  intros [Hc Hf Hd] Hp. rewrite Hp in Hf. split; [by constructor|]. cbn. split; [done|].
  right. right. split; [done|]. eexists. split; [done|]. by destruct v; cbn; rewrite ?orb_true_r.
Qed.

Lemma chan_inv_pc j p p' :
  chan_inv j p → past_finished p' = past_finished p → chan_inv j p'.
Proof. intros [Hc Hf Hd] Hp. constructor; [done|by rewrite Hp|done]. Qed.

(** One step of the goroutine: the invariant is kept and the step simulated. *)
Definition step_ok (count : Z) (j : Job) (j' : Job) (p' : pc) : Prop :=
  (abs_of j' = abs_of j ∨ abs_step count (abs_of j) (abs_of j')) ∧
  ticks_cap j' = ticks_cap j ∧ chan_inv j' p' ∧ pc_inv count j' p'.

Lemma stay_ok count j p p' :
  chan_inv j p → past_finished p' = past_finished p → pc_inv count j p' → step_ok count j j p'.
Proof. intros ? ? ?. split_and!; [by left|done|by eapply chan_inv_pc|done]. Qed.

Lemma start_ok count j c ev j' p' recs :
  (0 < count)%Z → chan_inv j (AtStart c) → pc_inv count j (AtStart c) →
  countdown_step ev j (AtStart c) = Some (j', p', recs) → step_ok count j j' p'.
Proof.
  intros Hcount Hch [-> [Hs Hl]] H. destruct ev; cbn in H; try done.
  - destruct (report_step count j (AtStart count) (mkProgress 0 count) count)
      as (j1 & E & ? & ? & ? & ?); try done; [split; [done|lia]|].
    rewrite E in H. cbn in H. simplify_eq. split_and!; auto.
  - simplify_eq. destruct (raise_inv count j' (AtStart count) v); try done.
    split_and!; auto.
Qed.

Lemma select_ok count j c ev j' p' recs :
  chan_inv j (AtSelect c) → pc_inv count j (AtSelect c) →
  countdown_step ev j (AtSelect c) = Some (j', p', recs) → step_ok count j j' p'.
Proof.
  intros Hch (Hc & Hs & Hl) H. destruct ev; cbn in H; try done.
  - destruct (Z.eqb_spec c 0) as [->|]; simplify_eq; apply (stay_ok count j' _ _ Hch); try done.
    + cbn. split_and!; [done|left; eauto|lia].
    + cbn. unfold running_with. split_and!; try done; lia.
  - destruct (ctx_err j) as [e|]; simplify_eq. apply (stay_ok count j' _ _ Hch); [done|].
    cbn. split_and!; [done|right; left; eauto|done].
  - simplify_eq. destruct (raise_inv count j' _ v Hch); [done|]. split_and!; auto.
Qed.

Lemma reporting_ok count j t c ev j' p' recs :
  chan_inv j (AtReport t c) → pc_inv count j (AtReport t c) →
  countdown_step ev j (AtReport t c) = Some (j', p', recs) → step_ok count j j' p'.
Proof.
  intros Hch (Hc & Hr & Hrun) H. destruct ev; cbn in H; try done.
  destruct (report_step count j _ t c Hch) as (j1 & E & ? & ? & ? & ?); try done; [lia| |].
  { intros Hn. destruct Hrun as [_ Hl]. rewrite Hn in Hl. cbn in Hl. lia. }
  rewrite E in H. cbn in H. simplify_eq. split_and!; auto.
Qed.

Lemma finish_ok count j st t r ev j' p' recs :
  well_ticked count (abs_of j) →
  chan_inv j (AtFinish st t r) → pc_inv count j (AtFinish st t r) →
  countdown_step ev j (AtFinish st t r) = Some (j', p', recs) → step_ok count j j' p'.
Proof.
  intros Hw Hch Hpc H. destruct ev; cbn in H; try done.
  assert (reports st t ∧ (st = StatusCompleted → Z.of_nat (length (ticks j)) = count)) as [Hr Hn].
  { destruct r; cbn in Hpc; [|naive_solver]. destruct Hpc as [-> ?]. done. }
  destruct (decide (status j = StatusRunning)) as [Hs|Hs].
  - destruct (finish_step count j _ st t r Hch) as (j1 & E & ? & ? & ? & ?); try done.
    rewrite E in H. simplify_eq. split_and!; auto.
  - rewrite (setTerminal_terminal _ _ _ Hs) in H. simplify_eq.
    apply (stay_ok count j' _ _ Hch); [done|]. cbn.
    destruct Hw as [(? & _)|(ps & t' & _ & _ & _ & Hrep & _)]; [done|].
    by apply reports_terminal in Hrep as [? _].
Qed.

Lemma audit_ok count j st t r ev j' p' recs :
  chan_inv j (AtAudit st t r) → pc_inv count j (AtAudit st t r) →
  countdown_step ev j (AtAudit st t r) = Some (j', p', recs) → step_ok count j j' p'.
Proof.
  intros Hch (Hst & Hr & Hlast) H. apply reports_terminal in Hr as [Hr _]. rewrite <-Hst in Hr.
  destruct ev; cbn in H; try done; simplify_eq.
  - by apply (stay_ok count j' _ _ Hch).
  - destruct r.
    + by apply (stay_ok count j' _ _ Hch).
    + destruct (raise_inv count j' _ v Hch); [done|]. split_and!; auto.
Qed.

Lemma closing_ok count j b ev j' p' recs :
  chan_inv j (AtCloseFinished b) → pc_inv count j (AtCloseFinished b) →
  countdown_step ev j (AtCloseFinished b) = Some (j', p', recs) → step_ok count j j' p'.
Proof.
  intros [Hc Hf Hd] Hpc H. destruct ev; cbn in H; try done.
  unfold close_chan in H. cbn in Hf. rewrite Hf in H. simplify_eq.
  split_and!; [by left|done| |done]. constructor; cbn.
  - by rewrite list_lookup_insert_ne.
  - rewrite list_lookup_insert_eq; [done|]. by eapply lookup_lt_Some.
  - done.
Qed.

Lemma cancel_ok count e j p :
  chan_inv j p → pc_inv count j p →
  abs_of (cancel_with e j) = abs_of j ∧ ticks_cap (cancel_with e j) = ticks_cap j ∧
  chan_inv (cancel_with e j) p ∧ pc_inv count (cancel_with e j) p.
Proof.
  intros [Hc Hf Hd] Hpc. unfold abs_of.
  destruct (cancel_with_fields e j) as (Hs & Ht & Hch & Hchd & Hfin & Hcap & _ & _).
  rewrite Hs, Ht, Hcap. split_and!; [done|done| |].
  - constructor; by rewrite ?Hch, ?Hchd, ?Hfin, ?Hs.
  - unfold pc_inv, running_with in *. by rewrite Hs, Ht.
Qed.

Lemma exiting_ok count j b ev j' p' recs :
  chan_inv j (AtCancel b) → pc_inv count j (AtCancel b) →
  countdown_step ev j (AtCancel b) = Some (j', p', recs) → step_ok count j j' p'.
Proof.
  intros Hch Hpc H. destruct ev; cbn in H; try done. simplify_eq.
  destruct (cancel_ok count (Sentinel context_Canceled) j _ Hch Hpc) as (? & ? & Hch' & ?).
  split_and!; [by left|done| |by destruct b].
  eapply chan_inv_pc; [exact Hch'|]. by destruct b.
Qed.

Lemma countdown_step_ok count ev j p j' p' recs :
  (0 < count)%Z → well_ticked count (abs_of j) → chan_inv j p → pc_inv count j p →
  countdown_step ev j p = Some (j', p', recs) → step_ok count j j' p'.
Proof.
  intros Hcount Hw Hch Hpc H. destruct p.
  - by eapply start_ok.
  - by eapply select_ok.
  - by eapply reporting_ok.
  - by eapply finish_ok.
  - by eapply audit_ok.
  - by eapply closing_ok.
  - by eapply exiting_ok.
  - by destruct ev.
  - by destruct ev.
Qed.

Lemma job_step_ok count a c c' :
  job_inv count c → job_step a c = Some c' → job_inv count c' ∧ simulated count c c'.
Proof.
  intros [Hcount Hw Hcap Hch Hpc] H. destruct c as [j p log].
  assert (step_ok count j (c_job c') (c_pc c')) as (Hsim & Hcap' & Hch' & Hpc').
  { destruct a as [ev| |e]; cbn in H.
    - destruct (countdown_step ev j p) as [[[j' p'] recs]|] eqn:E; [|done].
      injection H as <-. eapply countdown_step_ok; [| | | |exact E]; cbn in *; try done; lia.
    - injection H as <-. destruct (cancel_ok count (Sentinel context_Canceled) j p Hch Hpc)
        as (? & ? & ? & ?). split_and!; auto.
    - injection H as <-. destruct (cancel_ok count e j p Hch Hpc) as (? & ? & ? & ?).
      split_and!; auto. }
  assert (simulated count (mkCell j p log) c') as Hs by done.
  split; [|done]. constructor; cbn in *; [done| |congruence|done|done].
  by eapply (simulated_well_ticked count (mkCell j p log)).
Qed.

Lemma NewJob_Ok parent jobID count mean lg j p :
  NewJob parent jobID count mean lg = Ok (j, p) →
  (0 < count <= MaxCount)%Z ∧ (0 < mean)%Z ∧ p = AtStart count ∧
  j = mkJob jobID StatusRunning [] (Z.to_nat (count + 1)) mean parent 0 1 [false; false]
        (logging.OrDiscard lg).
Proof.
  unfold NewJob. intros H. destruct (_ || _) eqn:E1; [done|]. destruct (mean <=? 0)%Z eqn:E2; [done|].
  reflect. injection H as <- <-. split_and!; try done; lia.
Qed.

Lemma job_start_inv parent jobID count mean lg c :
  job_start parent jobID count mean lg c → job_inv count c.
Proof.
  intros (j & p & H & ->). apply NewJob_Ok in H as (Hc & Hm & -> & ->).
  constructor; cbn; try done.
  left. cbn. split_and!; [done|apply counting_nil|lia].
Qed.

Lemma job_run_ok count l c c' :
  job_inv count c → job_run l c = Some c' →
  job_inv count c' ∧ rtc (abs_step count) (abs_of (c_job c)) (abs_of (c_job c')).
Proof.
  revert c. induction l as [|a l IH]; intros c Hi H; cbn in H.
  - injection H as ->. split; [done|]. constructor.
  - destruct (job_step a c) as [c1|] eqn:E; [|done]. cbn in H.
    destruct (job_step_ok _ _ _ _ Hi E) as [Hi1 Hsim].
    destruct (IH c1 Hi1 H) as [Hi' Hr]. split; [done|].
    destruct Hsim as [<-|Hstep]; [done|]. by eapply rtc_l.
Qed.

(** ** The audit record *)

(** The record of the transition a job made, and nothing before it. *)
Definition transition_record (j : Job) : list slog.LogRecord :=
  match last (ticks j) with
  | Some t => auditTransition (status j) t j
  | None => []
  end.

(** No call to the logger panics while it writes the transition of [c]'s job. *)
Definition audit_panics (a : action) (c : cell) : bool :=
  match a, c_pc c with Go (Panic _), AtAudit _ _ _ => true | _, _ => false end.

Fixpoint logger_returns (l : list action) (c : cell) : bool :=
  match l with
  | [] => true
  | a :: l =>
      negb (audit_panics a c) &&
      match job_step a c with Some c' => logger_returns l c' | None => true end
  end.

(** [quiet]: the logger has not panicked so far. *)
Definition log_inv (quiet : bool) (c : cell) : Prop :=
  match c_pc c with
  | AtFinish _ _ true => c_log c = [] ∧ (quiet = true → status (c_job c) = StatusRunning)
  | AtCloseFinished _ | AtCancel _ | Exited | Crashed =>
      c_log c = transition_record (c_job c) ∨ (quiet = false ∧ c_log c = [])
  | _ => c_log c = []
  end.

Lemma transition_record_eq j j' :
  status j' = status j → ticks j' = ticks j → id j' = id j → logger j' = logger j →
  transition_record j' = transition_record j.
Proof.
  intros Hs Ht Hi Hl. unfold transition_record, auditTransition. by rewrite Hs, Ht, Hi, Hl.
Qed.

Lemma transition_record_cancel e j : transition_record (cancel_with e j) = transition_record j.
Proof. destruct (cancel_with_fields e j) as (?&?&?&?&?&?&?&?). by apply transition_record_eq. Qed.

Lemma log_inv_cancel quiet e j p log :
  log_inv quiet (mkCell j p log) → log_inv quiet (mkCell (cancel_with e j) p log).
Proof.
  unfold log_inv. cbn. rewrite transition_record_cancel.
  by destruct (cancel_with_fields e j) as (-> & _).
Qed.

Lemma log_inv_loop_head quiet j p log c :
  log = [] → p = loop_head c → (0 <= c)%Z → log_inv quiet (mkCell j p log).
Proof.
  intros -> -> Hc. unfold loop_head. destruct (Z.geb_spec c 0); [done|lia].
Qed.

Lemma log_inv_step quiet count a c c' :
  job_inv count c → log_inv quiet c → (quiet = true → audit_panics a c = false) →
  job_step a c = Some c' → log_inv quiet c'.
Proof.
  intros [Hcount Hw _ Hch Hpc] Hlog Hq H. destruct c as [j p log]. cbn in *.
  destruct a as [ev| |e].
  2:{ cbn in H. injection H as <-. by apply log_inv_cancel. }
  2:{ cbn in H. injection H as <-. by apply log_inv_cancel. }
  cbn in H. destruct (countdown_step ev j p) as [[[j' p'] recs]|] eqn:E; [|done].
  injection H as <-. destruct p; cbn in Hpc, Hlog.
  - destruct Hpc as [-> Hrun]. destruct ev; cbn in E; try done.
    + destruct (report_step count j _ (mkProgress 0 count) count Hch) as (j1 & E1 & _);
        try done. { destruct Hrun; split; [done|lia]. } { lia. }
      rewrite E1 in E. cbn in E. simplify_eq. eapply log_inv_loop_head; [done|reflexivity|lia].
    + simplify_eq. cbn. by destruct Hrun.
  - destruct Hpc as [Hc Hrun]. destruct ev; cbn in E; try done.
    + destruct (_ =? _)%Z in E; by simplify_eq.
    + destruct (ctx_err j); by simplify_eq.
    + simplify_eq. cbn. destruct Hrun. done.
  - destruct Hpc as (Hc & Hr & Hrun). destruct ev; cbn in E; try done.
    destruct (report_step count j _ tick currentCount Hch) as (j1 & E1 & _); try done; [lia| |].
    { intros Hn. destruct Hrun as [_ Hl]. rewrite Hn in Hl. cbn in Hl. lia. }
    rewrite E1 in E. cbn in E. simplify_eq. eapply log_inv_loop_head; [done|reflexivity|lia].
  - destruct ev; cbn in E; try done.
    destruct (decide (status j = StatusRunning)) as [Hs|Hs].
    + rewrite (setTerminal_running _ _ _ Hs (running_changed _ _ Hch Hs)) in E. simplify_eq.
      cbn. destruct recovering; [destruct Hlog as [-> _]|rewrite Hlog]; done.
    + rewrite (setTerminal_terminal _ _ _ Hs) in E. simplify_eq. unfold log_inv. cbn.
      destruct recovering; [|destruct Hpc as [? _]; done]. destruct Hlog as [-> Hl].
      right. split; [|done]. destruct quiet; [|done]. by destruct (Hs (Hl eq_refl)).
  - destruct Hpc as (Hst & Hr & Hlast). destruct ev; cbn in E; try done; simplify_eq.
    + left. unfold transition_record. cbn. by rewrite Hlast.
    + cbn in Hq. destruct quiet; [by discriminate Hq|]. by destruct recovering; cbn; [right|].
  - destruct ev; cbn in E; try done. unfold close_chan in E.
    destruct Hch as [_ Hf _]. cbn in Hf. rewrite Hf in E. simplify_eq.
    unfold log_inv in *. cbn in *. rewrite app_nil_r.
    by rewrite (transition_record_eq j) by done.
  - destruct ev; cbn in E; try done. simplify_eq. unfold log_inv in *. cbn in *.
    unfold cancel. rewrite app_nil_r, transition_record_cancel. by destruct crashing.
  - by destruct ev.
  - by destruct ev.
Qed.

Lemma log_inv_run quiet count l c c' :
  job_inv count c → log_inv quiet c → (quiet = true → logger_returns l c = true) →
  job_run l c = Some c' → log_inv quiet c'.
Proof.
  revert c. induction l as [|a l IH]; intros c Hi Hl Hq H; cbn in *; [by simplify_eq|].
  destruct (job_step a c) as [c1|] eqn:E; [|done]. cbn in H.
  destruct (job_step_ok _ _ _ _ Hi E) as [Hi1 _]. apply (IH c1); [done| | |done].
  - apply (log_inv_step quiet count a c c1); [done|done| |done].
    intros Hq'. specialize (Hq Hq'). by reflect.
  - intros Hq'. specialize (Hq Hq'). by reflect.
Qed.

(** ** Termination *)

(** The number of steps the goroutine has left, at most. *)
Definition fuel_left (p : pc) : nat :=
  match p with
  | AtStart count => 8 + 2 * Z.to_nat count
  | AtSelect currentCount => 7 + 2 * Z.to_nat currentCount
  | AtReport _ currentCount => 6 + 2 * Z.to_nat currentCount
  | AtFinish _ _ false => 6
  | AtAudit _ _ false => 5
  | AtFinish _ _ true => 4
  | AtAudit _ _ true => 3
  | AtCloseFinished _ => 2
  | AtCancel _ => 1
  | Exited | Crashed => 0
  end.

(** Away from the [select] the goroutine can always go on. *)
Lemma run_enabled c :
  (c_pc c = Exited ∨ c_pc c = Crashed) ∨ (∃ n, c_pc c = AtSelect n) ∨ is_Some (job_step (Go Run) c).
Proof.
  destruct c as [j p log]. destruct p; cbn; eauto; right; right.
  - destruct (reportProgress _ j) as [? []]; cbn; eauto.
  - destruct (reportProgress _ j) as [? []]; cbn; eauto.
  - destruct (setTerminal _ _ j) as [? [[]|]]; cbn; eauto.
  - destruct (close_chan _ _); cbn; eauto.
Qed.

Lemma timer_enabled elapsed c n : c_pc c = AtSelect n → is_Some (job_step (Go (Timer elapsed)) c).
Proof. destruct c as [j p log]. cbn. intros ->. cbn. destruct (_ =? _)%Z; cbn; eauto. Qed.

Lemma ctx_done_enabled c n :
  c_pc c = AtSelect n → is_Some (ctx_err (c_job c)) → is_Some (job_step (Go CtxDone) c).
Proof. destruct c as [j p log]. cbn. intros -> [e He]. cbn. rewrite He. cbn. eauto. Qed.

(** A goroutine that has not ended has a step. *)
Lemma countdown_enabled c :
  (c_pc c = Exited ∨ c_pc c = Crashed) ∨ ∃ ev, is_Some (job_step (Go ev) c).
Proof.
  destruct (run_enabled c) as [?|[[n Hn]|?]]; [by left|right|right; by exists Run].
  exists (Timer 0). by eapply timer_enabled.
Qed.

Lemma fuel_left_loop_head c : (0 < c)%Z → fuel_left (loop_head (c - 1)) < 6 + 2 * Z.to_nat c.
Proof. intros Hc. unfold loop_head. destruct (Z.geb_spec (c - 1) 0); cbn -[Nat.mul]; lia. Qed.

Lemma after_report_fuel count j t c p j' p' recs :
  chan_inv j p → status j = StatusRunning → (0 < c <= count)%Z →
  (let '(j1, panicked) := reportProgress t j in after_report j1 panicked (loop_head (c - 1)))
    = Some (j', p', recs) → fuel_left p' < 6 + 2 * Z.to_nat c.
Proof.
  intros Hch Hs Hc. rewrite (reportProgress_running _ _ Hs (running_changed _ _ Hch Hs)). cbn.
  intros [= _ <- _]. apply fuel_left_loop_head. lia.
Qed.

Lemma countdown_step_fuel count c ev c' :
  job_inv count c → job_step (Go ev) c = Some c' → fuel_left (c_pc c') < fuel_left (c_pc c).
Proof.
  intros [Hcount Hw _ Hch Hpc] H. destruct c as [j p log]. cbn in *.
  destruct (countdown_step ev j p) as [[[j' p'] recs]|] eqn:E; [|done]. injection H as <-. cbn.
  destruct p; cbn in Hpc.
  - destruct Hpc as [-> [Hs _]]. destruct ev; cbn [countdown_step] in E; try done.
    + eapply after_report_fuel in E; try done; cbn; lia.
    + simplify_eq. cbn. lia.
  - destruct ev; cbn in E; try done.
    + destruct (_ =? _)%Z in E; simplify_eq; cbn; lia.
    + destruct (ctx_err j); simplify_eq. cbn. lia.
    + simplify_eq. cbn. lia.
  - destruct Hpc as (? & ? & Hs & _). destruct ev; cbn [countdown_step] in E; try done.
    eapply (after_report_fuel count) in E; try done; cbn; lia.
  - destruct ev; cbn in E; try done.
    destruct (decide (status j = StatusRunning)) as [Hs|Hs].
    + rewrite (setTerminal_running _ _ _ Hs (running_changed _ _ Hch Hs)) in E. simplify_eq.
      destruct recovering; cbn; lia.
    + rewrite (setTerminal_terminal _ _ _ Hs) in E. simplify_eq. destruct recovering; cbn; lia.
  - destruct ev; cbn in E; try done; simplify_eq; destruct recovering; cbn; lia.
  - destruct ev; cbn in E; try done. destruct close_chan; simplify_eq; cbn; lia.
  - destruct ev; cbn in E; try done. simplify_eq. destruct crashing; cbn; lia.
  - by destruct ev.
  - by destruct ev.
Qed.

Definition is_go (a : action) : bool := match a with Go _ => true | _ => false end.

Lemma job_run_fuel count l c c' :
  job_inv count c → job_run l c = Some c' →
  length (List.filter is_go l) + fuel_left (c_pc c') ≤ fuel_left (c_pc c).
Proof.
  revert c. induction l as [|a l IH]; intros c Hi H; cbn in *; [by simplify_eq|].
  destruct (job_step a c) as [c1|] eqn:E; [|done]. cbn in H.
  destruct (job_step_ok _ _ _ _ Hi E) as [Hi1 _]. specialize (IH c1 Hi1 H).
  destruct a as [ev| |e]; cbn.
  - apply (countdown_step_fuel count) in E; [lia|done].
  - cbn in E. simplify_eq. done.
  - cbn in E. simplify_eq. done.
Qed.

(** ** What never changes, and where a stop comes from *)

Definition same_job (j j' : Job) : Prop :=
  id j' = id j ∧ logger j' = logger j ∧ ticks_cap j' = ticks_cap j ∧
  meanTickInterval j' = meanTickInterval j ∧ finished j' = finished j.

Lemma same_job_refl j : same_job j j.
Proof. done. Qed.

Lemma same_job_trans j1 j2 j3 : same_job j1 j2 → same_job j2 j3 → same_job j1 j3.
Proof. unfold same_job. intuition congruence. Qed.

Lemma reportProgress_same t j : same_job j (reportProgress t j).1.
Proof. unfold reportProgress. destruct (_ =? _)%string; [|done]. cbn. by destruct close_chan. Qed.

Lemma setTerminal_same st t j : same_job j (setTerminal st t j).1.
Proof. unfold setTerminal. destruct (negb _); [done|]. cbn. by destruct close_chan. Qed.

Lemma cancel_with_same e j : same_job j (cancel_with e j).
Proof. unfold cancel_with. by destruct (ctx_err j). Qed.

Lemma reportProgress_ctx t j : ctx_err (reportProgress t j).1 = ctx_err j.
Proof. unfold reportProgress. destruct (_ =? _)%string; [|done]. cbn. by destruct close_chan. Qed.

Lemma setTerminal_ctx st t j : ctx_err (setTerminal st t j).1 = ctx_err j.
Proof. unfold setTerminal. destruct (negb _); [done|]. cbn. by destruct close_chan. Qed.

Lemma countdown_step_const ev j p j' p' recs :
  countdown_step ev j p = Some (j', p', recs) →
  same_job j j' ∧ (∀ e, ctx_err j = Some e → ctx_err j' = Some e).
Proof.
  intros H. destruct p, ev; cbn in H; simplify_eq; try (split; [apply same_job_refl|done]).
  - pose proof (reportProgress_same (mkProgress 0 count) j) as Hs.
    pose proof (reportProgress_ctx (mkProgress 0 count) j) as Hc.
    destruct (reportProgress (mkProgress 0 count) j) as [j1 [v|]]; cbn in *; simplify_eq;
      split; [done|congruence|done|congruence].
  - destruct (_ =? _)%Z in H; simplify_eq; split; done || apply same_job_refl.
  - destruct (ctx_err j) eqn:?; simplify_eq. split; [apply same_job_refl|congruence].
  - pose proof (reportProgress_same tick j) as Hs. pose proof (reportProgress_ctx tick j) as Hc.
    destruct (reportProgress tick j) as [j1 [v|]]; cbn in *; simplify_eq;
      split; [done|congruence|done|congruence].
  - pose proof (setTerminal_same terminalStatus lastTick j) as Hs.
    pose proof (setTerminal_ctx terminalStatus lastTick j) as Hc.
    destruct (setTerminal terminalStatus lastTick j) as [j1 [[]|v]]; cbn in *; simplify_eq;
      split; try done; congruence.
  - destruct (close_chan _ _); simplify_eq; split; done || apply same_job_refl.
  - split; [apply cancel_with_same|]. intros e He. unfold cancel, cancel_with. by rewrite He.
Qed.

Lemma job_step_const a c c' :
  job_step a c = Some c' →
  same_job (c_job c) (c_job c') ∧ (∀ e, ctx_err (c_job c) = Some e → ctx_err (c_job c') = Some e).
Proof.
  destruct c as [j p log]. destruct a as [ev| |e]; cbn; intros H.
  - destruct (countdown_step ev j p) as [[[j' p'] recs]|] eqn:E; [|done]. cbn in H. simplify_eq.
    by eapply countdown_step_const.
  - simplify_eq. split; [apply cancel_with_same|]. intros e He. unfold cancel, cancel_with. by rewrite He.
  - simplify_eq. split; [apply cancel_with_same|]. intros e' He. unfold cancel_with. by rewrite He.
Qed.

Lemma job_run_const l c c' :
  job_run l c = Some c' →
  same_job (c_job c) (c_job c') ∧ (∀ e, ctx_err (c_job c) = Some e → ctx_err (c_job c') = Some e).
Proof.
  revert c. induction l as [|a l IH]; intros c H; cbn in H; [by simplify_eq|].
  destruct (job_step a c) as [c1|] eqn:E; [|done]. apply job_step_const in E as [??].
  apply IH in H as [??]. split; [by eapply same_job_trans|auto].
Qed.

(** The tick the goroutine is about to append. *)
Definition pending (p : pc) : option Tick :=
  match p with
  | AtStart count => Some (TickProgress (mkProgress 0 count))
  | AtReport tick _ => Some (TickProgress tick)
  | AtFinish _ lastTick _ => Some lastTick
  | _ => None
  end.

(** Where a tick comes from: the event that led to it. *)
Definition comes_from (ev : event) (j : Job) (t : Tick) : Prop :=
  match ev with
  | Timer elapsed => ∃ c, t = TickProgress (mkProgress elapsed c)
  | CtxDone => ∃ e, ctx_err j = Some e ∧ t = TickStopped (mkStopped e)
  | Run | Panic _ => ∃ f, t = TickPanicError f
  end.

Definition appends (ts ts' : list Tick) (t : option Tick) : Prop :=
  ts' = ts ∨ ∃ t', t = Some t' ∧ ts' = ts ++ [t'].

Lemma reportProgress_appends t j :
  appends (ticks j) (ticks (reportProgress t j).1) (Some (TickProgress t)).
Proof.
  unfold reportProgress. destruct (_ =? _)%string; [|by left]. right. eexists. split; [done|].
  cbn. by destruct close_chan.
Qed.

Lemma setTerminal_appends st t j : appends (ticks j) (ticks (setTerminal st t j).1) (Some t).
Proof.
  unfold setTerminal. destruct (negb _); [by left|]. right. eexists. split; [done|].
  cbn. by destruct close_chan.
Qed.

Lemma loop_head_pending c : pending (loop_head c) = None.
Proof. unfold loop_head. by destruct (_ >=? _)%Z. Qed.

Lemma countdown_step_ticks ev j p j' p' recs :
  countdown_step ev j p = Some (j', p', recs) →
  appends (ticks j) (ticks j') (pending p) ∧ (∀ t, pending p' = Some t → comes_from ev j t).
Proof.
  intros H. destruct p, ev; cbn in H; try done.
  - pose proof (reportProgress_appends (mkProgress 0 count) j) as Ha.
    destruct (reportProgress _ j) as [j1 [v|]]; cbn in Ha, H; simplify_eq; (split; [done|]);
      intros t Ht; rewrite ?loop_head_pending in Ht; cbn in Ht; simplify_eq; cbn; eauto.
  - simplify_eq. split; [by left|]. intros t [= <-]. cbn. eauto.
  - destruct (_ =? _)%Z; simplify_eq; (split; [by left|]); intros t [= <-]; cbn; eauto.
  - destruct (ctx_err j) as [e|] eqn:?; simplify_eq. split; [by left|]. intros t [= <-]. cbn. eauto.
  - simplify_eq. split; [by left|]. intros t [= <-]. cbn. eauto.
  - pose proof (reportProgress_appends tick j) as Ha.
    destruct (reportProgress _ j) as [j1 [v|]]; cbn in Ha, H; simplify_eq; (split; [done|]);
      intros t Ht; rewrite ?loop_head_pending in Ht; cbn in Ht; simplify_eq; cbn; eauto.
  - pose proof (setTerminal_appends terminalStatus lastTick j) as Ha.
    destruct (setTerminal _ _ j) as [j1 [[]|v]]; cbn in Ha, H; simplify_eq; (split; [done|]);
      intros t Ht; [done..|]. destruct recovering; [done|]. injection Ht as <-. cbn. eauto.
  - simplify_eq. split; [by left|done].
  - simplify_eq. split; [by left|]. intros t Ht. destruct recovering; [done|].
    injection Ht as <-. cbn. eauto.
  - destruct (close_chan _ _); simplify_eq; (split; [by left|done]).
  - simplify_eq. split; [|by destruct crashing]. left. unfold cancel.
    by destruct (cancel_with_fields (Sentinel context_Canceled) j) as (_ & -> & _).
Qed.

(** The goroutine appends nothing but the tick it carries; a cancellation
    appends none and leaves the goroutine where it is. *)
Lemma job_step_ticks a c c' :
  job_step a c = Some c' →
  match a with
  | Go ev => appends (ticks (c_job c)) (ticks (c_job c')) (pending (c_pc c)) ∧
             (∀ t, pending (c_pc c') = Some t → comes_from ev (c_job c) t)
  | DoCancel | ParentDone _ => ticks (c_job c') = ticks (c_job c) ∧ c_pc c' = c_pc c
  end.
Proof.
  destruct c as [j p log]. destruct a as [ev| |e]; cbn; intros H.
  - destruct (countdown_step ev j p) as [[[j' p'] recs]|] eqn:E; [|done]. cbn in H. simplify_eq.
    by eapply countdown_step_ticks.
  - simplify_eq. by destruct (cancel_with_fields (Sentinel context_Canceled) j) as (_ & ? & _).
  - simplify_eq. by destruct (cancel_with_fields e j) as (_ & ? & _).
Qed.

(** A stopped tick, appended or about to be, carries the context's own error. *)
Definition stop_inv (c : cell) : Prop :=
  ∀ s, TickStopped s ∈ ticks (c_job c) ∨ pending (c_pc c) = Some (TickStopped s) →
       ctx_err (c_job c) = Some (Cause s).

Lemma stop_inv_step a c c' : stop_inv c → job_step a c = Some c' → stop_inv c'.
Proof.
  intros Hs H s Hin. pose proof (proj2 (job_step_const _ _ _ H)) as Hctx.
  apply job_step_ticks in H. destruct a as [ev| |e].
  - destruct H as [Ha Hp]. destruct Hin as [Hin|Hin].
    + apply Hctx, Hs. destruct Ha as [Ha|(t & Ht & Ha)]; rewrite Ha in Hin; [by left|].
      apply elem_of_app in Hin as [?|Hin%list_elem_of_singleton]; [by left|right; congruence].
    + apply Hp in Hin. destruct ev; cbn in Hin; destruct Hin as [? Hin]; try done.
      destruct Hin as [He [= ->]]. by apply Hctx.
  - destruct H as [Ht Hp]. apply Hctx, Hs. by rewrite <-Ht, <-Hp.
  - destruct H as [Ht Hp]. apply Hctx, Hs. by rewrite <-Ht, <-Hp.
Qed.

Lemma stop_inv_run l c c' : stop_inv c → job_run l c = Some c' → stop_inv c'.
Proof.
  revert c. induction l as [|a l IH]; intros c Hs H; cbn in H; [by simplify_eq|].
  destruct (job_step a c) as [c1|] eqn:E; [|done]. apply (IH c1); [by eapply stop_inv_step|done].
Qed.

(** ** Running to the end *)

(** The ticks of a countdown from [current], with the elapsed time of each. *)
Fixpoint countdown_ticks (current : Z) (elapsed : list Z) : list Tick :=
  match elapsed with
  | [] => []
  | e :: elapsed => TickProgress (mkProgress e current) :: countdown_ticks (current - 1) elapsed
  end.

(** The goroutine's steps when every timer fires and nobody interferes. *)
Fixpoint natural_run (elapsed : list Z) : list action :=
  match elapsed with
  | [] => []
  | e :: elapsed =>
      Go (Timer e) ::
      match elapsed with
      | [] => [Go Run; Go Run; Go Run; Go Run]
      | _ => Go Run :: natural_run elapsed
      end
  end.

Lemma job_run_app l1 l2 c : job_run (l1 ++ l2) c = (c' ← job_run l1 c; job_run l2 c').
Proof.
  revert c. induction l1 as [|a l1 IH]; intros c; [done|]. cbn.
  destruct (job_step a c); [apply IH|done].
Qed.

(** From a finish that will win, four steps to the exit. *)
Lemma finishing_run count j st t log :
  job_inv count (mkCell j (AtFinish st t false) log) →
  ∃ c, job_run [Go Run; Go Run; Go Run; Go Run] (mkCell j (AtFinish st t false) log) = Some c ∧
       c_pc c = Exited ∧ status (c_job c) = st ∧ ticks (c_job c) = ticks j ++ [t].
Proof.
  intros [_ _ _ Hch (Hs & Hr & _)]. cbn in Hch.
  pose proof (running_changed _ _ Hch Hs) as Hopen. destruct Hch as [_ Hf Hd]. cbn in Hf.
  cbn [job_run job_step mbind option_bind countdown_step c_job c_pc c_log].
  rewrite (setTerminal_running _ _ _ Hs Hopen).
  cbn [mbind option_bind countdown_step c_job c_pc c_log].
  unfold close_chan. cbn -[cancel]. rewrite list_lookup_insert_ne by done. rewrite Hf.
  eexists. split; [reflexivity|]. cbn -[cancel]. unfold cancel.
  by destruct (cancel_with_fields (Sentinel context_Canceled)
    (with_changed (changed j) (<[finished j:=true]> (<[changed j:=true]> (chans j)))
       (with_changed (changed j) (<[changed j:=true]> (chans j))
          (with_ticks (ticks j ++ [t]) (with_status st j))))) as (-> & -> & _).
Qed.

Lemma natural_run_completes count elapsed current c :
  job_inv count c → c_pc c = AtSelect current → Z.of_nat (length elapsed) = (current + 1)%Z →
  ∃ c', job_run (natural_run elapsed) c = Some c' ∧ c_pc c' = Exited ∧
        status (c_job c') = StatusCompleted ∧
        ticks (c_job c') = ticks (c_job c) ++ countdown_ticks current elapsed.
Proof.
  revert current c. induction elapsed as [|e elapsed IH]; intros current [j p log] Hi Hp Hlen;
    cbn in Hp; subst p; [destruct Hi as [_ _ _ _ Hpc]; cbn in *; lia|].
  pose proof Hi as [_ _ _ Hch (Hc & Hrun)]. cbn in Hch, Hrun, Hlen.
  destruct elapsed as [|e' elapsed].
  - assert (current = 0%Z) as -> by (cbn in Hlen; lia).
    assert (job_step (Go (Timer e)) (mkCell j (AtSelect 0) log) =
      Some (mkCell j (AtFinish StatusCompleted (TickProgress (mkProgress e 0)) false) log)) as E.
    { cbn. by rewrite app_nil_r. }
    destruct (finishing_run count j StatusCompleted (TickProgress (mkProgress e 0)) log)
      as (c' & HR & ? & ? & ?); [by eapply job_step_ok|].
    exists c'. split; [|done]. change (natural_run [e]) with (Go (Timer e) :: [Go Run; Go Run; Go Run; Go Run]).
    cbn [job_run]. rewrite E. exact HR.
  - assert (current ≠ 0%Z) as Hne by (cbn in Hlen; lia).
    assert (job_step (Go (Timer e)) (mkCell j (AtSelect current) log) =
      Some (mkCell j (AtReport (mkProgress e current) current) log)) as E.
    { cbn. apply Z.eqb_neq in Hne. rewrite Hne. cbn. by rewrite app_nil_r. }
    destruct (report_step count j (AtSelect current) (mkProgress e current) current Hch)
      as (j1 & E1 & _ & _ & _ & _); try done; [lia| |].
    { intros Hn. destruct Hrun as [_ Hl]. rewrite Hn in Hl. cbn in Hl. lia. }
    assert (ticks j1 = ticks j ++ [TickProgress (mkProgress e current)]) as Ht1.
    { rewrite (reportProgress_running _ _ (proj1 Hrun) (running_changed _ _ Hch (proj1 Hrun))) in E1.
      by injection E1 as <-. }
    assert (job_step (Go Run) (mkCell j (AtReport (mkProgress e current) current) log) =
      Some (mkCell j1 (AtSelect (current - 1)) log)) as E2.
    { cbn. rewrite E1. cbn. unfold loop_head. rewrite app_nil_r.
      by destruct (Z.geb_spec (current - 1) 0); [|lia]. }
    destruct (job_step_ok _ _ _ _ Hi E) as [Hi1 _]. destruct (job_step_ok _ _ _ _ Hi1 E2) as [Hi2 _].
    destruct (IH (current - 1)%Z _ Hi2 eq_refl) as (c' & HR & ? & ? & Ht'); [cbn in *; lia|].
    exists c'. split_and!; [|done|done|].
    + change (natural_run (e :: e' :: elapsed))
        with (Go (Timer e) :: Go Run :: natural_run (e' :: elapsed)).
      cbn [job_run]. rewrite E. cbn [mbind option_bind]. rewrite E2. exact HR.
    + rewrite Ht'. cbn [c_job]. rewrite Ht1. by rewrite <-app_assoc.
Qed.

(** The steps a goroutine takes once its context is done. *)
Definition cancelled_event (p : pc) : event :=
  match p with AtSelect _ => CtxDone | _ => Run end.

Definition cancelled_left (p : pc) : nat :=
  match p with
  | AtStart _ | AtReport _ _ => 6
  | AtSelect _ => 5
  | AtFinish _ _ _ => 4
  | AtAudit _ _ _ => 3
  | AtCloseFinished _ => 2
  | AtCancel _ => 1
  | Exited | Crashed => 0
  end.

Lemma cancelled_step count c :
  job_inv count c → is_Some (ctx_err (c_job c)) → cancelled_left (c_pc c) ≠ 0 →
  ∃ c', job_step (Go (cancelled_event (c_pc c))) c = Some c' ∧
        cancelled_left (c_pc c') < cancelled_left (c_pc c).
Proof.
  intros [_ Hw _ Hch Hpc] [e He] Hn. destruct c as [j p log]. cbn in *. destruct p; cbn in Hpc, Hn; try done;
    cbn [countdown_step cancelled_event].
  - destruct Hpc as [-> [Hs _]].
    rewrite (reportProgress_running _ _ Hs (running_changed _ _ Hch Hs)). cbn.
    eexists. split; [done|]. unfold loop_head. cbn. destruct (_ >=? _)%Z; cbn; lia.
  - rewrite He. cbn. eexists. split; [done|]. cbn. lia.
  - destruct Hpc as (_ & _ & Hs & _).
    rewrite (reportProgress_running _ _ Hs (running_changed _ _ Hch Hs)). cbn.
    eexists. split; [done|]. unfold loop_head. cbn. destruct (_ >=? _)%Z; cbn; lia.
  - destruct (decide (status j = StatusRunning)) as [Hs|Hs].
    + rewrite (setTerminal_running _ _ _ Hs (running_changed _ _ Hch Hs)). cbn. eauto.
    + rewrite (setTerminal_terminal _ _ _ Hs). cbn. eexists. split; [done|]. cbn. lia.
  - eexists. split; [done|]. cbn. lia.
  - unfold close_chan. destruct Hch as [_ Hf _]. cbn in Hf. rewrite Hf. cbn. eauto.
  - eexists. split; [done|]. cbn. destruct crashing; cbn; lia.
Qed.

Lemma cancelled_run count n c :
  job_inv count c → is_Some (ctx_err (c_job c)) → cancelled_left (c_pc c) ≤ n →
  ∃ l c', length l ≤ n ∧ Forall (λ a, a = Go Run ∨ a = Go CtxDone) l ∧
          job_run l c = Some c' ∧ cancelled_left (c_pc c') = 0.
Proof.
  revert c. induction n as [|n IH]; intros c Hi Hc Hn.
  - exists [], c. split_and!; [done|constructor|done|lia].
  - destruct (decide (cancelled_left (c_pc c) = 0)) as [H0|H0].
    { exists [], c. split_and!; [cbn; lia|constructor|done|done]. }
    destruct (cancelled_step count c Hi Hc H0) as (c1 & E & Hlt).
    destruct (job_step_ok _ _ _ _ Hi E) as [Hi1 _].
    assert (is_Some (ctx_err (c_job c1))) as Hc1.
    { destruct Hc as [e He]. exists e. by apply (job_step_const _ _ _ E). }
    destruct (IH c1 Hi1 Hc1) as (l & c' & Hl & Hf & HR & H'); [lia|].
    exists (Go (cancelled_event (c_pc c)) :: l), c'. split_and!; [cbn; lia| |cbn [job_run]; by rewrite E|done].
    constructor; [|done]. destruct (c_pc c); cbn; auto.
Qed.

(** Once the goroutine has closed [finished], the status is terminal, and it
    and the buffer never change again. *)
Lemma finished_terminal count c :
  job_inv count c → is_finished (c_job c) = true → terminal (status (c_job c)) ∧ past_finished (c_pc c) = true.
Proof.
  intros [_ _ _ Hch Hpc] Hf. unfold is_finished, is_closed in Hf.
  destruct Hch as [_ Hfin _]. rewrite Hfin in Hf. cbn in Hf. split; [|done].
  by destruct (c_pc c) as [| | |? ? []| | | | |].
Qed.

Lemma terminal_frozen count c c' :
  terminal (status (c_job c)) → rtc (abs_step count) (abs_of (c_job c)) (abs_of (c_job c')) →
  abs_of (c_job c') = abs_of (c_job c).
Proof.
  intros Ht%terminal_not_running H.
  apply rtc_inv in H as [->|(a & Hstep & _)]; [done|]. by apply abs_step_terminal in Hstep.
Qed.

Lemma past_finished_step a c c' :
  job_step a c = Some c' → past_finished (c_pc c) = true → past_finished (c_pc c') = true.
Proof.
  destruct c as [j p log]. cbn. intros H Hp. destruct a as [ev| |e]; cbn in H; [|by simplify_eq..].
  destruct p; try discriminate Hp; destruct ev; cbn in H; simplify_eq. by destruct crashing.
Qed.

Lemma past_finished_run l c c' :
  job_run l c = Some c' → past_finished (c_pc c) = true → past_finished (c_pc c') = true.
Proof.
  revert c. induction l as [|a l IH]; intros c H Hp; cbn in H; [by simplify_eq|].
  destruct (job_step a c) as [c1|] eqn:E; [|done].
  eapply (IH c1); [done|]. by eapply past_finished_step.
Qed.

Lemma cell_finished_closed count c :
  job_inv count c → is_finished (c_job c) = past_finished (c_pc c).
Proof. intros [_ _ _ [_ Hf _] _]. unfold is_finished, is_closed. by rewrite Hf. Qed.

End worker_spec.
