(* ===== verification/JobProperties.v ===== *)
(** * The properties of a countdown job: [internal/worker]

    Each theorem is about every run of a job [NewJob] accepted, under any
    sequence of goroutine steps, cancellations and panics. *)

From S2P Require Import Prelude GoStrings GoErrors Slog Job JobInvariant.

Module worker_properties.
Import worker worker_spec.

(** ** A sample job, for the concrete instances *)

Definition sample_logger : slog.Logger := slog.Handler [("agent_id", "smith")].

Definition sample_cell (count : Z) : cell :=
  mkCell (mkJob "smith/0" StatusRunning [] (Z.to_nat (count + 1)) MeanTickInterval None 0 1
            [false; false] sample_logger) (AtStart count) [].

Lemma sample_start :
  job_start None "smith/0" 2 MeanTickInterval (Some sample_logger) (sample_cell 2).
Proof. eexists _, _. split; reflexivity. Qed.

(** A run of the sample job that [Stop] interrupts after its first tick. *)
Definition stopped_run : list action :=
  [Go Run; Go (Timer 7); Go Run; DoCancel; Go CtxDone; Go Run; Go Run; Go Run; Go Run].

(** A run in which the logger is never reached: a panic ends the countdown. *)
Definition failed_run : list action :=
  [Go Run; Go (Panic (PanicWithOther "boom")); Go Run; Go Run; Go Run; Go Run].

Definition stopped_cell : cell :=
  Eval vm_compute in default (sample_cell 2) (job_run stopped_run (sample_cell 2)).

Definition failed_cell : cell :=
  Eval vm_compute in default (sample_cell 2) (job_run failed_run (sample_cell 2)).

Lemma stopped_run_ok : job_run stopped_run (sample_cell 2) = Some stopped_cell.
Proof. vm_compute. reflexivity. Qed.

Lemma failed_run_ok : job_run failed_run (sample_cell 2) = Some failed_cell.
Proof. vm_compute. reflexivity. Qed.

(** ** The state machine *)

Section runs.
Context (parent : option error) (jobID : JobID) (count mean : Z) (lg : option slog.Logger).
Context (c0 c : cell) (l : list action).

Lemma run_inv : job_start parent jobID count mean lg c0 → job_run l c0 = Some c → job_inv count c.
Proof. intros HS HR. eapply job_run_ok; [by eapply job_start_inv|done]. Qed.

Lemma start_same :
  job_start parent jobID count mean lg c0 →
  id (c_job c0) = jobID ∧ logger (c_job c0) = logging.OrDiscard lg ∧ c_log c0 = [] ∧
  c_pc c0 = AtStart count ∧ ticks (c_job c0) = [] ∧ (0 < count <= MaxCount)%Z.
Proof. intros (j & p & H & ->). apply NewJob_Ok in H as (? & ? & -> & ->). done. Qed.

Lemma run_log quiet :
  job_start parent jobID count mean lg c0 → job_run l c0 = Some c →
  (quiet = true → logger_returns l c0 = true) → log_inv quiet c.
Proof.
  intros HS HR HQ. eapply log_inv_run; [by eapply job_start_inv| |exact HQ|exact HR].
  destruct (start_same HS) as (_ & _ & Hl & Hp & _). unfold log_inv. by rewrite Hp.
Qed.

(** C26: refinement of the design's job state machine: whatever its
    goroutine, its timers, the callers that cancel it and panics do, a job only
    ever emits the next progress tick of its countdown, or moves once from
    RUNNING to COMPLETED, STOPPED or FAILED together with the matching tick. *)
Theorem job_refines_state_machine
  (HS : job_start parent jobID count mean lg c0) (HR : job_run l c0 = Some c) :
  rtc (abs_step count) (mkAbs StatusRunning []) (abs_of (c_job c)).
Proof.
  pose proof (job_start_inv _ _ _ _ _ _ HS) as Hi. destruct (job_run_ok _ _ _ _ Hi HR) as [_ H].
  destruct HS as (j & p & HN & ->). by apply NewJob_Ok in HN as (_ & _ & _ & ->).
Qed.

(** C27: the output buffer always agrees with the status: a running job
    has only non-terminal ticks; an ended one has exactly one terminal tick, the
    last, and it reports the status; the ticks before it are the countdown from
    [count]; and the buffer never outgrows the capacity it was made with, so a
    reader's slice of it is never moved. *)
Theorem buffer_matches_status
  (HS : job_start parent jobID count mean lg c0) (HR : job_run l c0 = Some c) :
  let j := c_job c in
  length (ticks j) ≤ ticks_cap j ∧
  ((status j = StatusRunning ∧ counting count (ticks j) ∧
      Forall (λ t, IsTerminal t = false) (ticks j)) ∨
   (terminal (status j) ∧ ∃ ps t, ticks j = ps ++ [t] ∧ counting count ps ∧
      Forall (λ t, IsTerminal t = false) ps ∧ IsTerminal t = true ∧ reports (status j) t)).
Proof.
  cbv zeta. destruct (run_inv HS HR) as [Hcount Hw -> _ _].
  destruct Hw as [(Hs & Hc & Hl)|(ps & t & Ht & Hc & Hl & Hr & _)]; cbn in *.
  - split; [lia|]. left. split_and!; [done|done|]. apply Forall_forall. intros t Ht.
    by eapply counting_not_terminal.
  - rewrite Ht, length_app. cbn. split; [lia|]. right. destruct (reports_terminal _ _ Hr).
    split; [done|]. exists ps, t. split_and!; try done. apply Forall_forall. intros t' Ht'.
    by eapply counting_not_terminal.
Qed.

(** C28: no channel of a job is ever closed twice: the critical sections
    never raise the run-time panic, on any tick or status, wherever the
    goroutine is, and neither does the deferred close of [finished]. *)
Theorem channels_never_reclosed
  (HS : job_start parent jobID count mean lg c0) (HR : job_run l c0 = Some c) :
  (∀ t, (reportProgress t (c_job c)).2 = None) ∧
  (∀ st t v, (setTerminal st t (c_job c)).2 ≠ inr v) ∧
  (∀ crashing, c_pc c = AtCloseFinished crashing →
     close_chan (chans (c_job c)) (finished (c_job c)) ≠ None).
Proof.
  destruct (run_inv HS HR) as [_ _ _ Hch _]. split_and!.
  - intros t. destruct (decide (status (c_job c) = StatusRunning)) as [Hs|Hs].
    + by rewrite (reportProgress_running _ _ Hs (running_changed _ _ Hch Hs)).
    + apply String.eqb_neq in Hs. unfold reportProgress. by rewrite Hs.
  - intros st t v. destruct (decide (status (c_job c) = StatusRunning)) as [Hs|Hs].
    + by rewrite (setTerminal_running _ _ _ Hs (running_changed _ _ Hch Hs)).
    + by rewrite (setTerminal_terminal _ _ _ Hs).
  - intros b Hp. destruct Hch as [_ Hf _]. rewrite Hp in Hf. unfold close_chan. by rewrite Hf.
Qed.

(** The transition out of RUNNING is audited once: nothing is
    recorded while the job runs, never more than the one record of the status
    it ended in, and exactly that record once the goroutine has exited, unless
    the logger itself panicked while writing it. *)
Theorem transition_audited_once
  (HS : job_start parent jobID count mean lg c0) (HR : job_run l c0 = Some c) :
  (status (c_job c) = StatusRunning → c_log c = []) ∧
  (c_log c = [] ∨ c_log c = transition_record (c_job c)) ∧
  (c_pc c = Exited → logger_returns l c0 = true →
   ∀ attrs, lg = Some (slog.Handler attrs) →
   ∃ t, last (ticks (c_job c)) = Some t ∧ c_log c = [slog.mkRecord
     (if (status (c_job c) =? StatusFailed)%string then slog.LevelError else slog.LevelInfo)
     "job finished"
     (attrs ++ [("job_id", jobID); ("status", status (c_job c))]
            ++ match t with TickPanicError f => [("error", PanicError_Error f)] | _ => [] end)]).
Proof.
  pose proof (run_log false HS HR ltac:(done)) as Hlog. destruct (run_inv HS HR) as [_ Hw _ _ Hpc].
  split_and!.
  - intros Hs. unfold log_inv in Hlog. unfold pc_inv in Hpc.
    destruct (c_pc c) as [| | |? ? []| | | | |]; try done; try (by destruct Hlog);
      by apply terminal_not_running in Hpc.
  - unfold log_inv in Hlog. destruct (c_pc c) as [| | |? ? []| | | | |]; naive_solver.
  - intros He HQ attrs Hlg. pose proof (run_log true HS HR (λ _, HQ)) as Hq.
    unfold log_inv in Hq. rewrite He in Hpc, Hq. cbn in Hpc. destruct Hq as [Hq|[? _]]; [|done].
    destruct Hw as [(Hs & _)|(ps & t & Ht & _)]; [by apply terminal_not_running in Hpc|].
    cbn in Ht. exists t. rewrite Ht, last_snoc. split; [done|]. rewrite Hq.
    unfold transition_record. rewrite Ht, last_snoc. unfold auditTransition.
    destruct (job_run_const _ _ _ HR) as [(Hid & Hl & _) _].
    destruct (start_same HS) as (Hid0 & Hl0 & _). rewrite Hid, Hl, Hid0, Hl0, Hlg. cbn.
    by destruct t; rewrite ?app_nil_r.
Qed.

(** The goroutine terminates: whatever happens, it takes at most
    [8 + 2 * count] steps (208 for the largest count), and until it has exited
    or crashed it is never stuck: its next step needs at most the timer, and
    not even that once the context is done. *)
Theorem countdown_terminates
  (HS : job_start parent jobID count mean lg c0) (HR : job_run l c0 = Some c) :
  length (List.filter is_go l) ≤ 8 + 2 * Z.to_nat count ∧ 8 + 2 * Z.to_nat count ≤ 208 ∧
  (c_pc c = Exited ∨ c_pc c = Crashed ∨ is_Some (job_step (Go Run) c) ∨
   ((∀ elapsed, is_Some (job_step (Go (Timer elapsed)) c)) ∧
    (is_Some (ctx_err (c_job c)) → is_Some (job_step (Go CtxDone) c)))).
Proof.
  pose proof (job_start_inv _ _ _ _ _ _ HS) as Hi. apply (job_run_fuel count) in HR; [|done].
  destruct (start_same HS) as (_ & _ & _ & Hp & _ & Hc). rewrite Hp in HR.
  unfold MaxCount in Hc. split_and!; [cbn in HR |- *; lia|lia|].
  destruct (run_enabled c) as [[?|?]|[[n Hn]|?]]; [by left|by right; left| |by do 2 right; left].
  do 3 right. split; [intros e; by eapply timer_enabled|by eapply ctx_done_enabled].
Qed.

(** C32: a countdown nobody disturbs runs to completion: when every timer
    fires, after [count] ticks the goroutine has exited, the job is COMPLETED,
    and its buffer is the whole countdown from [count] at 0s down to zero, with
    the elapsed times observed; that is what [Stop] then reports. *)
Theorem undisturbed_countdown_completes (elapsed : list Z)
  (HS : job_start parent jobID count mean lg c0) (HL : Z.of_nat (length elapsed) = count) :
  ∃ c', job_run (Go Run :: natural_run elapsed) c0 = Some c' ∧ c_pc c' = Exited ∧
        ticks (c_job c') = TickProgress (mkProgress 0 count) :: countdown_ticks (count - 1) elapsed ∧
        Stop_result (c_job c') = Some StatusCompleted.
Proof.
  pose proof (job_start_inv _ _ _ _ _ _ HS) as Hi. destruct HS as (j & p & HN & ->).
  apply NewJob_Ok in HN as (Hc & _ & -> & ->).
  set (cs := mkCell _ _ _) in *.
  destruct (job_step (Go Run) cs) as [c1|] eqn:E; [|done].
  destruct (job_step_ok _ _ _ _ Hi E) as [Hi1 _].
  assert (c_pc c1 = AtSelect (count - 1) ∧ ticks (c_job c1) = [TickProgress (mkProgress 0 count)])
    as [Hp Ht].
  { cbn in E. injection E as <-. unfold loop_head. cbn. destruct (Z.geb_spec (count - 1) 0); [done|lia]. }
  destruct (natural_run_completes count elapsed _ c1 Hi1 Hp) as (c' & HR & Hexit & Hs & Ht'); [lia|].
  exists c'. cbn [job_run]. rewrite E. split_and!; [exact HR|done|by rewrite Ht', Ht|].
  destruct (job_run_ok _ _ _ _ Hi1 HR) as [Hi' _]. unfold Stop_result, Job_Status.
  by rewrite (cell_finished_closed count c' Hi'), Hexit, Hs.
Qed.

(** [Stop] returns: from any point of a job's life, once its context
    is cancelled the goroutine needs at most six more steps, none of them
    waiting for a timer, to close [finished]; [Stop] then answers with a
    terminal status. *)
Theorem stop_returns
  (HS : job_start parent jobID count mean lg c0) (HR : job_run l c0 = Some c) :
  ∃ l' c', length l' ≤ 6 ∧ Forall (λ a, a = Go Run ∨ a = Go CtxDone) l' ∧
           job_run (DoCancel :: l') c = Some c' ∧
           ∃ s, Stop_result (c_job c') = Some s ∧ terminal s.
Proof.
  pose proof (run_inv HS HR) as Hi.
  assert (job_step DoCancel c = Some (mkCell (cancel (c_job c)) (c_pc c) (c_log c))) as E by done.
  destruct (job_step_ok _ _ _ _ Hi E) as [Hi1 _].
  destruct (cancelled_run count 6 _ Hi1) as (l' & c' & Hl & Hf & HR' & H0).
  - cbn. unfold cancel, cancel_with. destruct (ctx_err (c_job c)) eqn:He; cbn; rewrite ?He; eauto.
  - destruct (c_pc c); cbn; lia.
  - exists l', c'. split_and!; [done|done|cbn [job_run]; by rewrite E|].
    destruct (job_run_ok _ _ _ _ Hi1 HR') as [Hi' _].
    assert (is_finished (c_job c') = true) as Hfin.
    { rewrite (cell_finished_closed count c' Hi'). by destruct (c_pc c'). }
    unfold Stop_result, Job_Status. rewrite Hfin. eexists. split; [done|].
    by eapply (finished_terminal count c').
Qed.

(** What [Stop] answers is final: it is a terminal status, never
    RUNNING, every later or concurrent call answers the same, and it is STOPPED
    only when the context was done, whose error the last tick carries. *)
Theorem stop_answer_final (s : Status)
  (HS : job_start parent jobID count mean lg c0) (HR : job_run l c0 = Some c)
  (HA : Stop_result (c_job c) = Some s) :
  terminal s ∧ s ≠ StatusRunning ∧
  (∀ l' c', job_run l' c = Some c' →
     Stop_result (c_job c') = Some s ∧ ticks (c_job c') = ticks (c_job c)) ∧
  (s = StatusStopped → ∃ e, ctx_err (c_job c) = Some e ∧
     last (ticks (c_job c)) = Some (TickStopped (mkStopped e))).
Proof.
  pose proof (run_inv HS HR) as Hi. unfold Stop_result in HA.
  destruct (is_finished (c_job c)) eqn:Hf; [|done]. injection HA as <-. unfold Job_Status.
  destruct (finished_terminal _ _ Hi Hf) as [Ht Hpast].
  split_and!; [done|by apply terminal_not_running| |].
  - intros l' c' HR'. destruct (job_run_ok _ _ _ _ Hi HR') as [Hi' Hr].
    pose proof (terminal_frozen _ _ _ Ht Hr) as Hfr. injection Hfr as Hs Hts.
    split; [|done]. unfold Stop_result, Job_Status.
    rewrite (cell_finished_closed _ _ Hi'), Hs.
    assert (past_finished (c_pc c') = true) as ->; [|done].
    by eapply past_finished_run.
  - intros Hs. destruct (ji_ticks _ _ Hi) as [(Hs' & _)|(ps & t & Hts & _ & _ & Hr & _)];
      cbn in *; [by rewrite Hs in Hs'|].
    destruct Hr as [(Hs' & _)|[(_ & e & ->)|(Hs' & _)]]; [by rewrite Hs in Hs'| |by rewrite Hs in Hs'].
    exists e. rewrite Hts, last_snoc. split; [|done].
    assert (stop_inv c) as Hstop.
    { apply (stop_inv_run l c0); [|done].
      destruct (start_same HS) as (_ & _ & _ & Hp & Hnil & _). intros s'. rewrite Hp, Hnil.
      intros [H|[=]]. by apply not_elem_of_nil in H. }
    apply (Hstop (mkStopped e)). left. rewrite Hts. apply elem_of_app. right.
    by apply list_elem_of_singleton.
Qed.
End runs.

(** [NewJob] accepts exactly the counts from 1 to 100 with a positive
    mean interval; a bad count is reported as such, before a bad interval; and
    the job it starts is RUNNING with an empty buffer under the given id. *)
Theorem NewJob_spec (parent : option error) (jobID : JobID) (count mean : Z)
    (lg : option slog.Logger) :
  match NewJob parent jobID count mean lg with
  | Ok (j, p) => (1 <= count <= MaxCount)%Z ∧ (0 < mean)%Z ∧ p = AtStart count ∧
      id j = jobID ∧ status j = StatusRunning ∧ ticks j = [] ∧ is_finished j = false ∧
      ctx_err j = parent
  | Err e => if bool_decide (1 <= count <= MaxCount)%Z
             then (mean <= 0)%Z ∧ Is e ErrInvalidMeanInterval = true
             else Is e ErrInvalidCount = true
  end.
Proof.
  destruct (NewJob parent jobID count mean lg) as [[j p]|e] eqn:E.
  - apply NewJob_Ok in E as (? & ? & -> & ->). split_and!; try done; lia.
  - unfold NewJob in E. destruct (_ || _) eqn:E1; reflect.
    + rewrite bool_decide_eq_false_2; [by injection E as <-|].
      destruct E1; reflect; lia.
    + rewrite bool_decide_eq_true_2 by lia.
      destruct (mean <=? 0)%Z eqn:E2; [|done]. reflect. by injection E as <-.
Qed.

Lemma undisturbed_countdown_completes_witness :
  ∃ c', job_run (Go Run :: natural_run [3; 5]%Z) (sample_cell 2) = Some c' ∧
        Stop_result (c_job c') = Some StatusCompleted.
Proof.
  destruct (undisturbed_countdown_completes _ _ 2 _ _ _ [3; 5]%Z sample_start eq_refl)
    as (c' & H & _ & _ & Hs).
  exists c'. split; [exact H|exact Hs].
Defined.

Lemma stop_returns_witness :
  ∃ l' c', length l' ≤ 6 ∧ job_run (DoCancel :: l') stopped_cell = Some c'.
Proof.
  destruct (stop_returns _ _ _ _ _ _ _ _ sample_start stopped_run_ok) as (l' & c' & H & _ & HR & _).
  exists l', c'. split; [exact H|exact HR].
Defined.

Lemma stop_answer_final_witness :
  Stop_result (c_job stopped_cell) = Some StatusStopped ∧
  ∃ e, ctx_err (c_job stopped_cell) = Some e.
Proof.
  split; [reflexivity|].
  destruct (proj2 (proj2 (proj2 (stop_answer_final _ _ _ _ _ _ _ _ StatusStopped
    sample_start stopped_run_ok eq_refl))) eq_refl) as (e & He & _).
  exists e. exact He.
Defined.

Lemma job_refines_state_machine_witness :
  status (c_job stopped_cell) = StatusStopped ∧
  rtc (abs_step 2) (mkAbs StatusRunning []) (abs_of (c_job stopped_cell)).
Proof.
  split; [reflexivity|].
  exact (job_refines_state_machine _ _ _ _ _ _ _ _ sample_start stopped_run_ok).
Defined.

Lemma buffer_matches_status_witness :
  status (c_job failed_cell) = StatusFailed ∧
  length (ticks (c_job failed_cell)) ≤ ticks_cap (c_job failed_cell).
Proof.
  split; [reflexivity|].
  exact (proj1 (buffer_matches_status _ _ _ _ _ _ _ _ sample_start failed_run_ok)).
Defined.

Lemma channels_never_reclosed_witness :
  (reportProgress (mkProgress 7 1) (c_job stopped_cell)).2 = None.
Proof.
  exact (proj1 (channels_never_reclosed _ _ _ _ _ _ _ _ sample_start stopped_run_ok) _).
Defined.

Lemma transition_audited_once_witness :
  ∃ t, last (ticks (c_job failed_cell)) = Some t ∧ length (c_log failed_cell) = 1.
Proof.
  destruct (proj2 (proj2 (transition_audited_once _ _ _ _ _ _ _ _ sample_start failed_run_ok))
              eq_refl eq_refl _ eq_refl) as (t & Ht & Hl).
  exists t. split; [exact Ht|]. rewrite Hl. reflexivity.
Defined.

Lemma countdown_terminates_witness :
  length (List.filter is_go stopped_run) ≤ 12.
Proof.
  exact (proj1 (countdown_terminates _ _ _ _ _ _ _ _ sample_start stopped_run_ok)).
Defined.

End worker_properties.
