(* ===== verification/TickInterval.v ===== *)
(** * The interval before a tick: [internal/worker]

    Before each tick [countdown] draws an exponentially distributed float64,
    clips it at 9.21034, multiplies it by the job's mean interval and converts
    the product to a [time.Duration]. The arithmetic is IEEE 754 binary64 (the
    standard library's specification of it, [SpecFloat]), so the products are
    rounded as the processor rounds them; the sample is an argument. *)

From Stdlib Require Import SpecFloat.
From S2P Require Import Prelude Job.

Module worker_interval.
Import worker.
Local Open Scope Z_scope.

(** ** float64 *)

Abbreviation float64 := spec_float.

Definition prec : Z := 53.
Definition emax : Z := 1024.

Definition is_float64 (x : float64) : bool := valid_binary prec emax x.

(** [float64(n)] *)
Definition float64_of_int (n : Z) : float64 := binary_normalize prec emax n 0 false.

(** [x * y] *)
Definition float64_mul : float64 → float64 → float64 := SFmul prec emax.

(** The built-in [min] of two floats: NaN when one is, and [-0.0] below [0.0]. *)
Definition go_min (x y : float64) : float64 :=
  match SFcompare x y with
  | None => S754_nan
  | Some Lt => x
  | Some Gt => y
  | Some Eq => match x with S754_zero false => y | _ => x end
  end.

Definition MaxInt64 : Z := 2 ^ 63 - 1.

(** [time.Duration(x)]: the fraction is discarded; [None] where the value does
    not fit, which leaves the result to the implementation. *)
Definition to_Duration (x : float64) : option Z :=
  let fits d := if (- MaxInt64 - 1 <=? d) && (d <=? MaxInt64) then Some d else None in
  match x with
  | S754_zero _ => Some 0
  | S754_finite s m e => let d := Z.shiftl (Zpos m) e in fits (if s then - d else d)
  | S754_infinity _ | S754_nan => None
  end.

(** ** The interval *)

(** The constant [9.21034], rounded to a float64. *)
Definition clippedAt : float64 := SFdiv prec emax (float64_of_int 921034) (float64_of_int 100000).

(** [time.Duration(min(rand.ExpFloat64(), clippedAt) * float64(j.meanTickInterval))],
    for the [sample] that [rand.ExpFloat64] returned. *)
Definition tickInterval (meanTickInterval : Z) (sample : float64) : option Z :=
  to_Duration (float64_mul (go_min sample clippedAt) (float64_of_int meanTickInterval)).

(** What [rand.ExpFloat64] returns: a float64 that is not negative. *)
Definition is_sample (x : float64) : bool := is_float64 x && SFleb (S754_zero false) x.

Definition clip_mantissa : positive := 5184960473994447.

Example clippedAt_is : clippedAt = S754_finite false clip_mantissa (-49).
Proof. vm_compute. reflexivity. Qed.

(** It is the float64 nearest to 9.21034: within half a unit in the last place. *)
Example clippedAt_nearest :
  2 * Z.abs (Zpos clip_mantissa * 100000 - 921034 * 2 ^ 49) <= 100000.
Proof. vm_compute. discriminate. Qed.

(** ** Digits and shifts *)

Lemma digits_bounds m : 2 ^ (Zpos (digits2_pos m) - 1) <= Zpos m < 2 ^ Zpos (digits2_pos m).
Proof.
  induction m as [m IH|m IH|]; cbn [digits2_pos]; [| |lia];
    rewrite Pos2Z.inj_succ; replace (Z.succ (Zpos (digits2_pos m)) - 1)
      with (Z.succ (Zpos (digits2_pos m) - 1)) by lia;
    rewrite !Z.pow_succ_r by lia; lia.
Qed.

(** A number below [2 ^ n] has at most [n] digits, one from it on has more. *)
Lemma digits_le m n : 0 <= n → Zpos m < 2 ^ n → Zpos (digits2_pos m) <= n.
Proof.
  intros Hn H. destruct (digits_bounds m) as [Hl _]. apply Z.nlt_ge. intros Hlt.
  pose proof (Z.pow_le_mono_r 2 n (Zpos (digits2_pos m) - 1) ltac:(lia) ltac:(lia)). lia.
Qed.

Lemma digits_xO m n : Zpos (digits2_pos (Pos.iter xO m n)) = Zpos (digits2_pos m) + Zpos n.
Proof.
  induction n as [|n IH] using Pos.peano_ind; cbn [Pos.iter digits2_pos]; [lia|].
  rewrite Pos.iter_succ. cbn [digits2_pos]. lia.
Qed.

Lemma iter_xO m n : Zpos (Pos.iter xO m n) = Zpos m * 2 ^ Zpos n.
Proof.
  induction n as [|n IH] using Pos.peano_ind; cbn [Pos.iter]; [lia|].
  rewrite Pos.iter_succ, Pos2Z.inj_xO, IH, Pos2Z.inj_succ, Z.pow_succ_r by lia. lia.
Qed.

(** [shr_1] halves the mantissa, whatever it remembers of the bits lost. *)
Lemma shr_1_half r : 0 <= shr_m r → shr_m (shr_1 r) = shr_m r / 2.
Proof.
  destruct r as [m b s]. cbn. intros Hm.
  destruct m as [|[p|p|]|p]; cbn; try reflexivity; [| |lia].
  - rewrite Pos2Z.inj_xI, Z.add_comm, Z.mul_comm, Z.div_add by lia. reflexivity.
  - rewrite Pos2Z.inj_xO, Z.mul_comm, Z.div_mul by lia. reflexivity.
Qed.

Lemma shr_1_nonneg r : 0 <= shr_m r → 0 <= shr_m (shr_1 r).
Proof. intros H. rewrite shr_1_half by done. by apply Z.div_pos. Qed.

Lemma div_pow_nonneg m p : 0 <= m → 0 <= m / 2 ^ Zpos p.
Proof. intros H. apply Z.div_pos; lia. Qed.

Lemma pow_xI p : 2 ^ Zpos p~1 = 2 * (2 ^ Zpos p * 2 ^ Zpos p).
Proof. rewrite Pos2Z.inj_xI, <-Z.pow_add_r, <-Z.pow_succ_r by lia. f_equal. lia. Qed.

Lemma iter_shr p r : 0 <= shr_m r → shr_m (SpecFloat.iter_pos shr_1 p r) = shr_m r / 2 ^ Zpos p.
Proof.
  revert r. induction p as [p IH|p IH|]; intros r Hr; cbn [SpecFloat.iter_pos].
  - assert (0 <= shr_m (shr_1 r)) by by apply shr_1_nonneg.
    rewrite !IH, shr_1_half by (rewrite ?IH by done; by try apply div_pow_nonneg).
    rewrite !Z.div_div by lia. f_equal. by rewrite pow_xI.
  - rewrite !IH by (rewrite ?IH by done; by try apply div_pow_nonneg).
    rewrite Z.div_div by lia. f_equal. rewrite Pos2Z.inj_xO, <-Z.pow_add_r by lia. f_equal. lia.
  - by rewrite shr_1_half.
Qed.

Lemma shr_mantissa r e n : 0 <= shr_m r → shr_m (shr r e n).1 = shr_m r / 2 ^ Z.max 0 n.
Proof.
  intros Hr. unfold shr. destruct n; cbn [fst]; [|by rewrite iter_shr|];
    by rewrite Z.max_l, Z.div_1_r by lia.
Qed.

Lemma shr_exponent r e n : (shr r e n).2 = e + Z.max 0 n.
Proof. unfold shr. destruct n; cbn [snd]; lia. Qed.

Lemma shr_record_of_loc_m m l : shr_m (shr_record_of_loc m l) = m.
Proof. by destruct l as [|[]]. Qed.

Lemma round_nearest_even_le m l : m <= round_nearest_even m l <= m + 1.
Proof. unfold round_nearest_even. destruct l as [|[]]; try destruct (Z.even m); lia. Qed.

(** ** Rounding *)

Lemma shr_fexp_spec m e l (n := Z.max 0 (fexp prec emax (Zdigits2 m + e) - e)) :
  0 <= m → shr_m (shr_fexp prec emax m e l).1 = m / 2 ^ n ∧ (shr_fexp prec emax m e l).2 = e + n.
Proof.
  intros Hm. unfold shr_fexp. rewrite shr_exponent, shr_mantissa, shr_record_of_loc_m; [done|].
  by rewrite shr_record_of_loc_m.
Qed.

(** [m * 2 ^ e] rounded to [q * 2 ^ (e + k1)], and [q] shifted by [k2] more
    when the rounding gave it one more digit than a mantissa has. *)
Lemma round_spec m e (k1 := Z.max 0 (fexp prec emax (Zpos (digits2_pos m) + e) - e)) :
  ∃ q, Zpos m / 2 ^ k1 <= q <= Zpos m / 2 ^ k1 + 1 ∧ (k1 = 0 → q = Zpos m) ∧
    let k2 := Z.max 0 (fexp prec emax (Zdigits2 q + (e + k1)) - (e + k1)) in
    binary_round_aux prec emax false (Zpos m) e loc_Exact =
      match q / 2 ^ k2 with
      | Z0 => S754_zero false
      | Zpos p => if e + k1 + k2 <=? emax - prec then S754_finite false p (e + k1 + k2)
                  else S754_infinity false
      | Zneg _ => S754_nan
      end.
Proof.
  destruct (shr_fexp_spec (Zpos m) e loc_Exact) as [Hm He]; [done|].
  unfold binary_round_aux. cbn [Zdigits2] in Hm, He. fold k1 in Hm, He.
  assert (k1 = 0 → shr_fexp prec emax (Zpos m) e loc_Exact = (Build_shr_record (Zpos m) false false, e))
    as H0.
  { intros H. unfold shr_fexp, shr. cbn [Zdigits2]. unfold k1 in H.
    destruct (_ - _) eqn:E; [done|lia|done]. }
  destruct (shr_fexp prec emax (Zpos m) e loc_Exact) as [r1 e1]. cbn [fst snd] in Hm, He. subst e1.
  set (q := round_nearest_even (shr_m r1) (loc_of_shr_record r1)).
  pose proof (round_nearest_even_le (shr_m r1) (loc_of_shr_record r1)) as Hq. fold q in Hq.
  assert (0 <= Zpos m / 2 ^ k1) by (apply Z.div_pos; lia).
  destruct (shr_fexp_spec q (e + k1) loc_Exact) as [Hm2 He2]; [lia|].
  destruct (shr_fexp prec emax q (e + k1) loc_Exact) as [r2 e2]. cbn [fst snd] in Hm2, He2.
  exists q. rewrite Hm2, He2. split_and!; [lia|lia| |done].
  intros H1. specialize (H0 H1). injection H0 as -> _. done.
Qed.

(** A mantissa of 53 digits is exact. *)
Lemma round_exact m e :
  Zpos (digits2_pos m) = prec → -1074 <= e <= 0 →
  binary_round_aux prec emax false (Zpos m) e loc_Exact = S754_finite false m e.
Proof.
  intros Hd He. destruct (round_spec m e) as (q & _ & Hq & ->).
  assert (fexp prec emax (Zpos (digits2_pos m) + e) - e <= 0) as H0.
  { rewrite Hd. unfold fexp, emin, emax, prec. lia. }
  apply Z.max_l in H0. rewrite (Hq H0), H0, Z.add_0_r. cbn [Zdigits2].
  rewrite H0, Z.div_1_r, Z.add_0_r.
  by rewrite (proj2 (Z.leb_le _ _)) by (unfold emax, prec; lia).
Qed.

(** An integer below [2 ^ 53] is a float64. *)
Lemma float64_of_int_exact n :
  0 < n < 2 ^ prec →
  ∃ m e, float64_of_int n = S754_finite false m e ∧ e <= 0 ∧ Zpos m = n * 2 ^ (- e).
Proof.
  intros [Hn Hlt]. destruct n as [|n|]; [done| |lia]. unfold float64_of_int. cbn [binary_normalize].
  pose proof (digits_le n prec ltac:(done) Hlt) as Hd. unfold binary_round, shl_align.
  assert (fexp prec emax (Zpos (digits2_pos n) + 0) = Zpos (digits2_pos n) - prec) as ->.
  { unfold fexp, emin, emax, prec in *. lia. }
  destruct (Zpos (digits2_pos n) - prec - 0) as [|p|p] eqn:E; [|lia|].
  - exists n, 0. rewrite round_exact by lia. split_and!; [done|done|]. cbn. lia.
  - exists (Pos.iter xO n p), (Zpos (digits2_pos n) - prec).
    rewrite round_exact by (rewrite ?digits_xO; unfold prec in *; lia).
    split_and!; [done|unfold prec in *; lia|]. rewrite iter_xO. do 2 f_equal. lia.
Qed.

(** ** The product *)

(** Shifting [q / 2 ^ k2] back out: never above [q / 2 ^ k]. *)
Lemma shiftl_le q k k2 :
  0 <= q → 0 <= k → 0 <= k2 → 0 <= Z.shiftl (q / 2 ^ k2) (k2 - k) ∧
  Z.shiftl (q / 2 ^ k2) (k2 - k) * 2 ^ k <= q.
Proof.
  intros Hq Hk H2. assert (0 <= q / 2 ^ k2) by (apply Z.div_pos; lia).
  split; [by apply Z.shiftl_nonneg|]. destruct (Z.le_gt_cases k k2) as [Hle|Hlt].
  - rewrite Z.shiftl_mul_pow2, <-Z.mul_assoc, <-Z.pow_add_r by lia.
    replace (k2 - k + k) with k2 by lia. rewrite Z.mul_comm. apply Z.mul_div_le. lia.
  - replace (k2 - k) with (- (k - k2)) by lia. rewrite Z.shiftl_opp_r, Z.shiftr_div_pow2 by lia.
    rewrite Z.div_div, <-Z.pow_add_r by lia. replace (k2 + (k - k2)) with k by lia.
    rewrite Z.mul_comm. apply Z.mul_div_le. lia.
Qed.

(** The error of rounding to a multiple of [2 ^ k1], in a fixed-point scale of
    [k + k1] binary digits: half a unit at most. *)
Lemma scaled_bound d q m k k1 :
  0 < k → 0 <= k1 → 0 <= m → q <= m / 2 ^ k1 + 1 → d * 2 ^ k <= q →
  2 * d * 2 ^ (k + k1) <= 2 * m + 2 ^ (k + k1).
Proof.
  intros Hk Hk1 Hm Hq Hd. rewrite Z.pow_add_r by lia.
  assert (2 <= 2 ^ k) by (apply (Z.pow_le_mono_r 2 1 k); lia).
  assert (0 < 2 ^ k1) by lia. pose proof (Z.mul_div_le m (2 ^ k1) ltac:(lia)). nia.
Qed.

(** The rounded mantissa has at most one digit more than the precision. *)
Lemma rounded_digits m k1 q :
  Zpos (digits2_pos m) - prec <= k1 → 0 <= k1 → 0 <= q <= Zpos m / 2 ^ k1 + 1 →
  q <= 2 ^ prec ∧ Zdigits2 q <= prec + 1.
Proof.
  intros Hd Hk Hq. destruct (digits_bounds m) as [_ Hm].
  assert (Zpos m / 2 ^ k1 < 2 ^ prec).
  { apply Z.div_lt_upper_bound; [lia|]. rewrite <-Z.pow_add_r by (done || lia).
    eapply Z.lt_le_trans; [exact Hm|]. apply Z.pow_le_mono_r; lia. }
  split; [lia|]. destruct q as [|q|]; cbn [Zdigits2]; [done| |lia].
  apply digits_le; [done|]. rewrite Z.pow_add_r by done. lia.
Qed.

(** A product below [2 ^ 52] is converted to at most a half more than it is:
    [d * 2 ^ (-e) <= m + 2 ^ (-e) / 2]. *)
Lemma rounded_Duration m e :
  e < 0 → Zpos (digits2_pos m) + e <= 52 →
  ∃ d, to_Duration (binary_round_aux prec emax false (Zpos m) e loc_Exact) = Some d ∧ 0 <= d ∧
    2 * d * 2 ^ (- e) <= 2 * Zpos m + 2 ^ (- e).
Proof.
  intros He Hde. destruct (round_spec m e) as (q & Hq & _ & ->).
  set (f := fexp prec emax (Zpos (digits2_pos m) + e)) in *.
  assert (f < 0 ∧ Zpos (digits2_pos m) + e - prec <= f) as [Hf Hf'].
  { unfold f, fexp, emin, emax, prec. lia. }
  set (k1 := Z.max 0 (f - e)) in *. set (k := - (e + k1)).
  assert (0 < k ∧ - e = k + k1 ∧ 0 <= k1) as (Hk & -> & Hk1) by lia.
  assert (0 <= Zpos m / 2 ^ k1) as Hdiv by (apply Z.div_pos; lia).
  destruct (rounded_digits m k1 q) as [Hq53 Hdq]; [lia|done|lia|].
  set (f2 := fexp prec emax (Zdigits2 q + (e + k1))) in *.
  assert (f2 <= 0) as Hf2 by (unfold f2, fexp, emin, emax, prec in *; lia).
  set (k2 := Z.max 0 (f2 - (e + k1))) in *.
  destruct (shiftl_le q k k2) as [Hd0 Hd]; [lia..|].
  pose proof (scaled_bound _ q (Zpos m) k k1 Hk Hk1 ltac:(done) ltac:(lia) Hd) as Hbound.
  destruct (q / 2 ^ k2) as [|p|p] eqn:E.
  - exists 0. split_and!; [done|done|]. rewrite Z.shiftl_0_l in Hbound. exact Hbound.
  - rewrite (proj2 (Z.leb_le _ _)) by (unfold emax, prec; lia).
    replace (e + k1 + k2) with (k2 - k) by lia. eexists. split_and!; [|exact Hd0|exact Hbound].
    unfold to_Duration, MaxInt64. assert (0 < 2 ^ k) by lia. unfold prec in Hq53.
    rewrite (proj2 (Z.leb_le _ _)) by lia. rewrite (proj2 (Z.leb_le _ _)) by nia. done.
  - assert (0 <= q / 2 ^ k2) by (apply Z.div_pos; lia). lia.
Qed.

(** ** The bound *)

(** A sample, clipped: zero, or at most the clip, with a negative exponent. *)
Definition below_clip (x : float64) : Prop :=
  match x with
  | S754_zero _ => True
  | S754_finite false m e => e <= -49 ∧ Zpos m <= Zpos clip_mantissa * 2 ^ (-49 - e)
  | _ => False
  end.

Lemma canonical_digits m e : bounded prec emax m e = true → Zpos (digits2_pos m) <= prec.
Proof.
  unfold bounded, canonical_mantissa, fexp, emin, emax, prec.
  intros [H%Z.eqb_eq _]%andb_true_iff. lia.
Qed.

Lemma finite_below_clip m e :
  bounded prec emax m e = true →
  (e < -49 ∨ e = -49 ∧ (m <= clip_mantissa)%positive) → below_clip (S754_finite false m e).
Proof.
  intros Hb H. cbn [below_clip]. destruct H as [H|[-> H]].
  2: { clear Hb. change (2 ^ (-49 - -49)) with 1. rewrite Z.mul_1_r. split; [apply Z.le_refl|exact H]. }
  split; [lia|]. apply canonical_digits in Hb. destruct (digits_bounds m) as [_ Hm].
  assert (Zpos m <= 2 ^ prec).
  { eapply Z.le_trans; [apply Z.lt_le_incl, Hm|]. apply Z.pow_le_mono_r; lia. }
  pose proof (Z.pow_le_mono_r 2 1 (-49 - e) ltac:(lia) ltac:(lia)).
  unfold prec, clip_mantissa in *. lia.
Qed.

Lemma sample_clipped x : is_sample x = true → below_clip (go_min x clippedAt).
Proof.
  unfold is_sample. intros [Hv Hs]%andb_true_iff. rewrite clippedAt_is.
  assert (below_clip (S754_finite false clip_mantissa (-49))) as Hclip by (cbn; lia).
  destruct x as [s|[]| |[] m e]; try discriminate Hs; try exact Hclip; [by destruct s|].
  unfold go_min. cbn [SFcompare]. cbn in Hv. destruct (Z.compare_spec e (-49)) as [->|H|H].
  - destruct (Pos.compare_cont _ _ _) eqn:E; [| |exact Hclip];
      (apply finite_below_clip; [exact Hv|]); right; (split; [reflexivity|]).
    + apply Pos.compare_eq_iff in E as ->. apply Pos.le_refl.
    + apply Pos.compare_lt_iff in E. by apply Pos.lt_le_incl.
  - apply finite_below_clip; [exact Hv|]. left. exact H.
  - exact Hclip.
Qed.

(** Means up to [2 ^ 48] nanoseconds, about 78 hours. *)
Definition MaxMean : Z := 2 ^ 48.

Lemma product_bound mx ex my ey mean :
  ex <= -49 → ey <= 0 → 0 < mean → Zpos mx <= Zpos clip_mantissa * 2 ^ (-49 - ex) →
  Zpos my = mean * 2 ^ (- ey) →
  Zpos (mx * my) <= Zpos clip_mantissa * mean * 2 ^ (-49 - (ex + ey)).
Proof.
  intros He1 He2 Hm Hx Hy. replace (-49 - (ex + ey)) with (-49 - ex + - ey) by lia.
  rewrite Z.pow_add_r, Pos2Z.inj_mul, Hy by lia.
  assert (0 < 2 ^ (-49 - ex) ∧ 0 < 2 ^ (- ey)) by lia. nia.
Qed.

Lemma scaled_duration_bound d w mean :
  0 < w → 0 < mean <= MaxMean →
  2 * d * (2 ^ 49 * w) <= 2 * (Zpos clip_mantissa * mean * w) + 2 ^ 49 * w →
  100000 * d < 921034 * mean + 100000.
Proof.
  intros Hw Hmean H. assert (2 * d * 2 ^ 49 <= 2 * (Zpos clip_mantissa * mean) + 2 ^ 49) by nia.
  unfold clip_mantissa, MaxMean in *. lia.
Qed.

Lemma clipped_product x mean :
  below_clip x → 0 < mean <= MaxMean →
  ∃ d, to_Duration (float64_mul x (float64_of_int mean)) = Some d ∧ 0 <= d ∧
    100000 * d < 921034 * mean + 100000.
Proof.
  intros Hx Hmean.
  destruct (float64_of_int_exact mean) as (my & ey & -> & He & Hm).
  { unfold MaxMean, prec in *. lia. }
  destruct x as [s| | |[] mx ex]; try done; cbn in Hx |- *; [exists 0; split_and!; [done|lia|lia]|].
  destruct Hx as [Hex Hmx].
  pose proof (product_bound mx ex my ey mean Hex He ltac:(lia) Hmx Hm) as HM.
  set (w := 2 ^ (-49 - (ex + ey))) in *. assert (0 < w) as Hw by (unfold w; lia).
  destruct (rounded_Duration (mx * my) (ex + ey)) as (d & Hd & Hpos & Hle); [lia| |].
  - enough (Zpos (digits2_pos (mx * my)) <= 52 - (ex + ey)) by lia.
    apply digits_le; [lia|]. eapply Z.le_lt_trans; [exact HM|].
    replace (52 - (ex + ey)) with (101 + (-49 - (ex + ey))) by lia.
    rewrite Z.pow_add_r by lia. fold w. apply Z.mul_lt_mono_pos_r; [done|].
    unfold clip_mantissa, MaxMean in *. lia.
  - exists d. split_and!; [exact Hd|exact Hpos|]. apply (scaled_duration_bound d w mean Hw Hmean).
    replace (2 ^ 49 * w) with (2 ^ (- (ex + ey))); [lia|].
    unfold w. rewrite <-Z.pow_add_r by lia. f_equal. lia.
Qed.

Lemma tickInterval_bound mean sample :
  is_sample sample = true → 0 < mean <= MaxMean →
  ∃ d, tickInterval mean sample = Some d ∧ 0 <= d ∧ 100000 * d < 921034 * mean + 100000.
Proof. intros Hs Hm. apply clipped_product; [by apply sample_clipped|done]. Qed.

(** C31: the wait before a tick is clipped: whatever [rand.ExpFloat64] returns,
    rounding included, the product of the clipped sample and the job's mean
    interval (up to [2 ^ 48] ns) is a duration that fits an int64, is not
    negative, and is less than one nanosecond above 9.21034 times the mean; with
    the mean of one second every job has, it is at most 9.21034 seconds. *)
Theorem tick_interval_bounded (mean : Z) (sample : float64)
  (HS : is_sample sample = true) (HM : 0 < mean <= MaxMean) :
  ∃ d, tickInterval mean sample = Some d ∧ 0 <= d ∧ 100000 * d < 921034 * mean + 100000 ∧
    (mean = MeanTickInterval → d <= 9210340000).
Proof.
  destruct (tickInterval_bound mean sample HS HM) as (d & Hd & H0 & Hlt).
  exists d. split_and!; [done|done|done|]. unfold MeanTickInterval. lia.
Qed.

(** The largest sample there is, [+Inf], is clipped to 9.21034. *)
Lemma tick_interval_bounded_witness :
  ∃ d, tickInterval MeanTickInterval (S754_infinity false) = Some d ∧ d <= 9210340000.
Proof.
  destruct (tick_interval_bounded MeanTickInterval (S754_infinity false) eq_refl
              ltac:(by split; vm_compute)) as (d & Hd & _ & _ & Hle).
  exists d. split; [exact Hd|apply Hle; reflexivity].
Defined.

(** Concrete samples: [0.0], one half and twenty. *)
Definition half : float64 := SFdiv prec emax (float64_of_int 1) (float64_of_int 2).

Example interval_of_zero : tickInterval MeanTickInterval (S754_zero false) = Some 0.
Proof. vm_compute. reflexivity. Qed.
Example interval_of_half :
  tickInterval MeanTickInterval half = Some 500000000.
Proof. vm_compute. reflexivity. Qed.
Example interval_of_twenty :
  tickInterval MeanTickInterval (float64_of_int 20) = Some 9210340000.
Proof. vm_compute. reflexivity. Qed.

End worker_interval.
