(* ===== verification/TimedJob.v ===== *)
(** * The countdown against the clock: [internal/worker]

    [countdown] reads the clock when it starts ([startedAt]), arms a timer for
    each tick ([time.After(tickInterval)]) and stamps a tick with
    [time.Since(startedAt)]. [timed] is a job with its goroutine ([Job.v]), the
    clock and the timer: time passes, the goroutine acts, and a timer's arm of
    the [select] is taken only once its deadline is reached, with the elapsed
    time the clock shows. Forgetting the clock gives a run of [Job.v]. *)

From S2P Require Import Prelude GoStrings GoErrors Slog Job JobInvariant TickInterval.

Module timed_worker.
Import worker worker_spec worker_interval.
Local Open Scope Z_scope.

(** ** The job, the clock and the timer *)

(** [t_since] is when the goroutine took its last step, and [t_done] when the
    job's context was done: only the theorems read them. *)
Record timed := mkTimed {
  t_cell : cell;
  t_now : Z;
  t_startedAt : Z;
  t_deadline : Z;
  t_since : Z;
  t_done : option Z;
}.

Definition at_select (p : pc) : bool := match p with AtSelect _ => true | _ => false end.
Definition at_start (p : pc) : bool := match p with AtStart _ => true | _ => false end.
Definition ended (p : pc) : bool := match p with Exited | Crashed => true | _ => false end.

Inductive timed_event :=
| Pass (d : Z)
| Acts (a : action) (sample : float64).

(** The timer's arm is ready from the deadline on, and the tick it makes
    carries the time since [startedAt]. *)
Definition ready (a : action) (t : timed) : bool :=
  match a with
  | Go (Timer elapsed) => (t_deadline t <=? t_now t) && (elapsed =? t_now t - t_startedAt t)
  | _ => true
  end.

(** The step from [p] to [p'] enters the [select]. *)
Definition enters (p p' : pc) : bool := at_select p' && negb (at_select p).
Arguments enters : simpl never.

(** [t] after [a] led to [c], with the timer's [deadline]: the clock is read
    ([startedAt]) on the way into the [select] for the first time. What lies
    between two waits of the goroutine is one step, so the first report, this
    reading and the arming of the timer see one time; a delay between them is
    one before or after the step. *)
Definition moved (a : action) (c : cell) (deadline : Z) (t : timed) : timed := {|
  t_cell := c;
  t_now := t_now t;
  t_startedAt := if at_start (c_pc (t_cell t)) && enters (c_pc (t_cell t)) (c_pc c)
                 then t_now t else t_startedAt t;
  t_deadline := deadline;
  t_since := if is_go a then t_now t else t_since t;
  t_done := match t_done t, ctx_err (c_job c) with
            | None, Some _ => Some (t_now t)
            | done_at, _ => done_at
            end;
|}.

(** The timer after a step to [c]: armed on the way into the [select], for the
    interval [sample] gives. *)
Definition armed (sample : float64) (c : cell) (t : timed) : option Z :=
  if enters (c_pc (t_cell t)) (c_pc c) then
    interval ← tickInterval (meanTickInterval (c_job c)) sample;
    Some (t_now t + interval)
  else Some (t_deadline t).

Definition timed_step (e : timed_event) (t : timed) : option timed :=
  match e with
  | Pass d =>
      if 0 <=? d then
        Some (mkTimed (t_cell t) (t_now t + d) (t_startedAt t) (t_deadline t) (t_since t) (t_done t))
      else None
  | Acts a sample =>
      if ready a t && is_sample sample then
        c ← job_step a (t_cell t);
        deadline ← armed sample c t;
        Some (moved a c deadline t)
      else None
  end.

Fixpoint timed_run (l : list timed_event) (t : timed) : option timed :=
  match l with
  | [] => Some t
  | e :: l => t ← timed_step e t; timed_run l t
  end.

(** The job's own actions in a timed run. *)
Definition actions (l : list timed_event) : list action :=
  omap (λ e, match e with Acts a _ => Some a | Pass _ => None end) l.

(** A job a registry started at time [at_]. *)
Definition timed_start (c : cell) (at_ : Z) : timed :=
  mkTimed c at_ at_ at_ at_ (match ctx_err (c_job c) with Some _ => Some at_ | None => None end).

Lemma timed_step_acts a s t t' :
  timed_step (Acts a s) t = Some t' →
  ∃ c deadline, ready a t = true ∧ is_sample s = true ∧ job_step a (t_cell t) = Some c ∧
    armed s c t = Some deadline ∧ t' = moved a c deadline t.
Proof.
  cbn. intros H. destruct (ready a t && is_sample s) eqn:E; [|done].
  apply andb_true_iff in E as [Hr Hs]. destruct (job_step a (t_cell t)) as [c|]; [|done]. cbn in H.
  destruct (armed s c t) as [d|] eqn:Hd; [|done]. cbn in H. simplify_eq. eauto 10.
Qed.

Lemma timed_step_pass d t t' :
  timed_step (Pass d) t = Some t' →
  0 <= d ∧ t' = mkTimed (t_cell t) (t_now t + d) (t_startedAt t) (t_deadline t) (t_since t) (t_done t).
Proof. cbn. destruct (Z.leb_spec 0 d); [|done]. by intros [= <-]. Qed.

Lemma timed_run_job l t t' :
  timed_run l t = Some t' → job_run (actions l) (t_cell t) = Some (t_cell t').
Proof.
  revert t. induction l as [|e l IH]; intros t H; cbn in H; [by simplify_eq|].
  destruct (timed_step e t) as [t1|] eqn:E; [|done]. cbn in H. apply IH in H.
  destruct e as [d|a s].
  - apply timed_step_pass in E as [_ ->]. done.
  - apply timed_step_acts in E as (c & dl & _ & _ & E & _ & ->). cbn. by rewrite E.
Qed.

(** ** The elapsed times *)

(** The elapsed times of the progress ticks, in order. *)
Definition elapsed_of (ts : list Tick) : list Z :=
  omap (λ t, match t with TickProgress p => Some (Elapsed p) | _ => None end) ts.

(** The elapsed time of the tick about to be appended, or the clock's. *)
Definition latest (t : timed) : Z :=
  match pending (c_pc (t_cell t)) with
  | Some (TickProgress p) => Elapsed p
  | _ => t_now t - t_startedAt t
  end.

Record clock_inv (t : timed) : Prop := {
  ki_sorted : StronglySorted Z.le (elapsed_of (ticks (c_job (t_cell t))));
  ki_past : Forall (λ e, 0 <= e <= latest t) (elapsed_of (ticks (c_job (t_cell t))));
  ki_latest : 0 <= latest t <= t_now t - t_startedAt t;
}.

Lemma StronglySorted_snoc l x :
  StronglySorted Z.le l → Forall (λ e, 0 <= e <= x) l → StronglySorted Z.le (l ++ [x]).
Proof.
  induction 1 as [|y l Hl IH Hy]; intros HF; [by repeat constructor|].
  apply Forall_cons in HF as [Hx HF]. constructor; [by apply IH|].
  apply Forall_app. split; [done|]. constructor; [lia|done].
Qed.

(** The appended elapsed times, under the invariant. *)
Lemma elapsed_appends t ts' :
  clock_inv t → appends (ticks (c_job (t_cell t))) ts' (pending (c_pc (t_cell t))) →
  StronglySorted Z.le (elapsed_of ts') ∧ Forall (λ e, 0 <= e <= latest t) (elapsed_of ts').
Proof.
  intros [Hs Hp Hl] [->|(x & Hx & ->)]; [done|]. unfold elapsed_of in *. rewrite omap_app. cbn.
  unfold latest in *. rewrite Hx in *. destruct x as [p|q|f]; rewrite ?app_nil_r; [|done..].
  split; [by apply StronglySorted_snoc|]. apply Forall_app. split; [done|]. constructor; [lia|done].
Qed.

(** Past its own step the goroutine carries no tick older than the clock. *)
Lemma timer_not_at_start e c c' :
  job_step (Go (Timer e)) c = Some c' → at_start (c_pc c) = false.
Proof. destruct c as [j [] log]; by cbn. Qed.

Lemma go_latest ev s t t' :
  timed_step (Acts (Go ev) s) t = Some t' →
  latest t' = t_now t' - t_startedAt t' ∧
  (t_startedAt t' = t_startedAt t ∨
   t_startedAt t' = t_now t ∧ at_start (c_pc (t_cell t)) = true).
Proof.
  intros (c & dl & Hr & _ & Hj & _ & ->)%timed_step_acts. split.
  - pose proof (proj2 (job_step_ticks _ _ _ Hj)) as Hp. unfold latest, moved. cbn.
    destruct (pending (c_pc c)) as [x|]; [|done]. specialize (Hp x eq_refl).
    destruct ev as [|el| |v]; cbn in Hp; destruct Hp as [y Hp]; try (by subst x).
    + subst x. cbn in Hr |- *. rewrite (timer_not_at_start _ _ _ Hj). cbn. lia.
    + by destruct Hp as [_ ->].
  - unfold moved. cbn. destruct (at_start (c_pc (t_cell t))); cbn; [|by left].
    destruct (enters _ _); [by right|by left].
Qed.

(** Before its first step the job has no tick, and its clock starts at zero. *)
Lemma at_start_ticks count t ts' :
  job_inv count (t_cell t) → at_start (c_pc (t_cell t)) = true →
  appends (ticks (c_job (t_cell t))) ts' (pending (c_pc (t_cell t))) →
  elapsed_of ts' = [] ∨ elapsed_of ts' = [0].
Proof.
  intros [_ _ _ _ Hpc] Hs Ha. destruct (t_cell t) as [j p log]. cbn in *.
  destruct p; try done. cbn in Hpc, Ha. destruct Hpc as [-> [_ Hl]].
  assert (ticks j = []) as Hn by (destruct (ticks j); [done|cbn in Hl; lia]). rewrite Hn in Ha.
  destruct Ha as [->|(x & [= <-] & ->)]; [by left|by right].
Qed.

(** A cancellation leaves the goroutine and the clock as they are. *)
Lemma clock_inv_still c t t' :
  clock_inv t → ticks (c_job c) = ticks (c_job (t_cell t)) ∧ c_pc c = c_pc (t_cell t) →
  (∃ a dl, is_go a = false ∧ t' = moved a c dl t) → clock_inv t'.
Proof.
  intros [Hs Hp Hl] [Ht Hpc] (a & dl & _ & ->).
  assert (enters (c_pc (t_cell t)) (c_pc c) = false) as He.
  { unfold enters. rewrite Hpc. by destruct (at_select _). }
  assert (latest (moved a c dl t) = latest t) as Hlat.
  { unfold latest, moved. cbn. by rewrite He, Hpc, andb_false_r. }
  constructor; rewrite ?Hlat; cbn; rewrite ?Ht, ?He, ?andb_false_r; done.
Qed.

Lemma timed_step_inv count e t t' :
  job_inv count (t_cell t) → timed_step e t = Some t' → job_inv count (t_cell t').
Proof.
  intros Hi H. destruct e as [d|a s].
  - by apply timed_step_pass in H as [_ ->].
  - apply timed_step_acts in H as (c & dl & _ & _ & Hj & _ & ->). cbn. by eapply job_step_ok.
Qed.

Lemma clock_inv_step count e t t' :
  job_inv count (t_cell t) → clock_inv t → timed_step e t = Some t' → clock_inv t'.
Proof.
  intros Hi Hk H. destruct e as [d|a s].
  { apply timed_step_pass in H as [Hd ->]. destruct Hk as [Hs Hp Hl]. unfold latest in *. cbn in *.
    constructor; unfold latest; cbn; [done| |]; destruct (pending _) as [[]|]; try lia; try done;
      (eapply Forall_impl; [exact Hp|]; cbn; lia). }
  pose proof (timed_step_acts _ _ _ _ H) as (c & dl & _ & _ & Hj & _ & Ht).
  pose proof (job_step_ticks _ _ _ Hj) as Hticks. destruct a as [ev| |cause].
  - destruct Hticks as [Ha _]. destruct (go_latest _ _ _ _ H) as [Hlat Hst].
    destruct (elapsed_appends t _ Hk Ha) as [Hsort Hpast]. destruct Hk as [_ _ Hl].
    assert (t_now t' = t_now t ∧ t_cell t' = c) as [Hnow Hcell] by by subst t'.
    destruct Hst as [Hst|[Hst Hat]].
    + constructor; rewrite ?Hcell, ?Hlat, ?Hnow, ?Hst; [done| |lia].
      eapply Forall_impl; [exact Hpast|]. cbn. lia.
    + rewrite Hnow, Hst in Hlat.
      destruct (at_start_ticks _ _ _ Hi Hat Ha) as [He|He];
        constructor; rewrite ?Hcell, ?He, ?Hlat, ?Hnow, ?Hst; repeat constructor; lia.
  - apply (clock_inv_still c t t'); [done..|]. by eexists DoCancel, dl.
  - apply (clock_inv_still c t t'); [done..|]. by eexists (ParentDone cause), dl.
Qed.

Lemma clock_inv_run count l t t' :
  job_inv count (t_cell t) → clock_inv t → timed_run l t = Some t' → clock_inv t'.
Proof.
  revert t. induction l as [|e l IH]; intros t Hi Hk H; cbn in H; [by simplify_eq|].
  destruct (timed_step e t) as [t1|] eqn:E; [|done]. cbn in H.
  apply (IH t1); [by eapply timed_step_inv|by eapply clock_inv_step|done].
Qed.

(** The clock is never read before the start. *)
Lemma started_after l t t' :
  t_startedAt t <= t_now t → timed_run l t = Some t' →
  t_startedAt t <= t_startedAt t' <= t_now t' ∧ t_now t <= t_now t'.
Proof.
  revert t. induction l as [|e l IH]; intros t Ht H; cbn in H; [simplify_eq; lia|].
  destruct (timed_step e t) as [t1|] eqn:E; [|done]. cbn in H.
  assert (t_startedAt t <= t_startedAt t1 <= t_now t1 ∧ t_now t <= t_now t1) as [H1 H2].
  { destruct e as [d|a s].
    - apply timed_step_pass in E as [Hd ->]. cbn. lia.
    - apply timed_step_acts in E as (c & dl & _ & _ & _ & _ & ->). cbn. destruct (_ && _); lia. }
  specialize (IH t1 ltac:(lia) H). lia.
Qed.

Lemma timed_start_inv parent jobID count mean lg c at_ :
  job_start parent jobID count mean lg c →
  job_inv count (t_cell (timed_start c at_)) ∧ clock_inv (timed_start c at_) ∧
  meanTickInterval (c_job c) = mean ∧ c_pc c = AtStart count ∧ ticks (c_job c) = [] ∧
  ctx_err (c_job c) = parent.
Proof.
  intros HS. pose proof (job_start_inv _ _ _ _ _ _ HS) as Hi. split; [done|].
  destruct HS as (j & p & HN & ->). apply NewJob_Ok in HN as (_ & _ & -> & ->). cbn.
  split_and!; try done. constructor; unfold latest; cbn; [constructor|constructor|lia].
Qed.

(** ** On time *)

(** The longest interval there is: 9.21034 s ([tickInterval_bound]). *)
Definition MaxInterval : Z := 9210340000.

(** When the goroutine's next step is due, if it may be [late] behind: a timer
    at its deadline, a done context at once, any other step at once. *)
Definition due (late : Z) (t : timed) : Z :=
  match c_pc (t_cell t), t_done t with
  | AtSelect _, None => t_deadline t
  | AtSelect _, Some at_ => Z.min (t_deadline t) (Z.max (t_since t) at_)
  | _, _ => t_since t
  end + late.

(** A run in which no step of the goroutine is more than [late] behind: time
    does not pass beyond the point where its next step is due. *)
Fixpoint prompt (late : Z) (l : list timed_event) (t : timed) : bool :=
  match l with
  | [] => true
  | e :: l =>
      match e with
      | Pass d => ended (c_pc (t_cell t)) || (t_now t + d <=? due late t)
      | Acts _ _ => true
      end &&
      match timed_step e t with Some t' => prompt late l t' | None => true end
  end.

(** The timers the goroutine still has to arm. *)
Definition waits (p : pc) : Z :=
  match p with
  | AtStart count => count
  | AtSelect currentCount | AtReport _ currentCount => currentCount
  | _ => 0
  end.

(** When the goroutine ends, at the latest, if it arms no further timer. *)
Definition eta (late : Z) (t : timed) : Z :=
  if ended (c_pc (t_cell t)) then t_since t
  else due late t + (Z.of_nat (fuel_left (c_pc (t_cell t))) - 1) * late.

Lemma waits_nonneg count c : job_inv count c → 0 <= waits (c_pc c).
Proof. intros [Hc _ _ _ Hp]. destruct (c_pc c); cbn in *; lia. Qed.

Lemma waits_loop_head c : 0 < c → waits (loop_head (c - 1)) = c - 1.
Proof. intros H. unfold loop_head. destruct (Z.geb_spec (c - 1) 0); [done|lia]. Qed.

Lemma after_report_waits r c j' p' recs :
  0 < c → after_report r.1 r.2 (loop_head (c - 1)) = Some (j', p', recs) → waits p' < c.
Proof.
  intros Hc. destruct r as [j [v|]]; cbn; intros H; simplify_eq; [done|].
  rewrite waits_loop_head; lia.
Qed.

(** A step never adds to the timers left, and one into the [select] uses one up. *)
Lemma go_waits count ev c c' :
  job_inv count c → job_step (Go ev) c = Some c' →
  waits (c_pc c') <= waits (c_pc c) ∧ ended (c_pc c) = false ∧
  (at_select (c_pc c') = true → at_select (c_pc c) = false ∧ waits (c_pc c') < waits (c_pc c)).
Proof.
  intros Hi H. pose proof (waits_nonneg _ _ Hi) as H0. destruct Hi as [Hc _ _ _ Hpc].
  destruct c as [j p log]. cbn in H, Hpc, H0 |- *.
  destruct (countdown_step ev j p) as [[[j' p'] recs]|] eqn:E; [|done]. cbn in H. simplify_eq. cbn.
  destruct p, ev; cbn in E, Hpc, H0 |- *; simplify_eq; cbn; try (split_and!; lia || done).
  - destruct (reportProgress _ j) as [j1 v]. apply (after_report_waits (j1, v)) in E; [|lia].
    split_and!; [lia|done|]. split; [done|lia].
  - destruct (_ =? _); simplify_eq; cbn; split_and!; lia || done.
  - destruct (ctx_err j); simplify_eq; cbn; split_and!; lia || done.
  - destruct (reportProgress _ j) as [j1 v]. apply (after_report_waits (j1, v)) in E; [|lia].
    split_and!; [lia|done|]. split; [done|lia].
  - destruct (setTerminal _ _ j) as [? [[]|]]; simplify_eq; try destruct recovering; done.
  - by destruct recovering.
  - by destruct (close_chan _ _); simplify_eq.
  - by destruct crashing.
Qed.

Section on_time.
Context (late count started : Z) (Hlate : 0 <= late).

(** The steps left and the longest wait of each timer left, from [started]. *)
Definition latest_end : Z := started + (8 + 2 * count) * late + count * MaxInterval.

Record time_inv (t : timed) : Prop := {
  ti_job : job_inv count (t_cell t);
  ti_mean : meanTickInterval (c_job (t_cell t)) = MeanTickInterval;
  ti_fuel : Z.of_nat (fuel_left (c_pc (t_cell t))) <= 8 + 2 * count;
  ti_since : t_since t <= t_now t;
  ti_done : is_Some (t_done t) → is_Some (ctx_err (c_job (t_cell t)));
  ti_done_past : ∀ at_, t_done t = Some at_ → at_ <= t_now t;
  ti_due : ended (c_pc (t_cell t)) = false → t_now t <= due late t;
  ti_total : eta late t + waits (c_pc (t_cell t)) * MaxInterval <= latest_end;
  ti_cancelled : ∀ at_, t_done t = Some at_ → eta late t <= at_ + (8 + 2 * count) * late;
}.

Lemma time_inv_pass d t t' :
  time_inv t → (ended (c_pc (t_cell t)) || (t_now t + d <=? due late t)) = true →
  timed_step (Pass d) t = Some t' → time_inv t'.
Proof.
  intros [Hj Hm Hf Hs Hd Hp Hdue Ht Hc] Hpr [Hd0 ->]%timed_step_pass.
  constructor; cbn; try done; [lia| |].
  - intros at_ H. apply Hp in H. lia.
  - intros He. rewrite He in Hpr. cbn in Hpr. unfold due in *. cbn. lia.
Qed.

(** Unless a timer is waited for, the goroutine ends within its steps. *)
Lemma eta_now t :
  t_since t <= t_now t →
  (at_select (c_pc (t_cell t)) = false ∨ ∃ at_, t_done t = Some at_ ∧ at_ <= t_now t) →
  eta late t <= t_now t + Z.of_nat (fuel_left (c_pc (t_cell t))) * late.
Proof.
  intros Hs H. unfold eta. destruct (ended _) eqn:He; [lia|].
  enough (due late t <= t_now t + late) by lia. unfold due.
  destruct (c_pc (t_cell t)); try lia. destruct H as [[=]|(at_ & -> & Hat)]. lia.
Qed.

Lemma eta_select t :
  at_select (c_pc (t_cell t)) = true →
  eta late t <= t_deadline t + Z.of_nat (fuel_left (c_pc (t_cell t))) * late.
Proof.
  intros H. unfold eta. destruct (ended _) eqn:He; [by destruct (c_pc (t_cell t))|].
  enough (due late t <= t_deadline t + late) by lia. unfold due.
  destruct (c_pc (t_cell t)); try done. destruct (t_done t); lia.
Qed.

(** The context's end is noted when it happens, and once. *)
Lemma moved_done a c dl t :
  t_done (moved a c dl t) = t_done t ∨
  (t_done t = None ∧ t_done (moved a c dl t) = Some (t_now t) ∧ is_Some (ctx_err (c_job c))).
Proof. cbn. destruct (t_done t), (ctx_err (c_job c)) eqn:E; rewrite ?E; eauto. Qed.

Lemma moved_done_ctx a c dl t :
  job_step a (t_cell t) = Some c →
  (is_Some (t_done t) → is_Some (ctx_err (c_job (t_cell t)))) →
  is_Some (t_done (moved a c dl t)) → is_Some (ctx_err (c_job c)).
Proof.
  intros Hst Hd H. destruct (moved_done a c dl t) as [He|(_ & _ & ?)]; [|done].
  rewrite He in H. destruct (Hd H) as [e ?]. exists e. by apply (job_step_const _ _ _ Hst).
Qed.

(** A cancellation brings the next step forward, never back. *)
Lemma due_cancel t t' :
  c_pc (t_cell t') = c_pc (t_cell t) → t_deadline t' = t_deadline t → t_since t' = t_since t →
  t_since t <= t_now t →
  t_done t' = t_done t ∨ t_done t = None ∧ t_done t' = Some (t_now t) →
  due late t' <= due late t ∧ (t_now t <= due late t → t_now t <= due late t').
Proof.
  unfold due. intros -> -> -> Hs [->|[-> ->]]; [done|].
  destruct (c_pc (t_cell t)); lia.
Qed.

Lemma time_inv_cancel a s t t' :
  time_inv t → is_go a = false → timed_step (Acts a s) t = Some t' → time_inv t'.
Proof.
  intros [Hj Hm Hf Hs Hd Hp Hdue Ht Hc] Ha (c & dl & _ & _ & Hst & Harm & ->)%timed_step_acts.
  assert (c_pc c = c_pc (t_cell t)) as Hpc.
  { apply job_step_ticks in Hst. by destruct a; try done; destruct Hst. }
  unfold armed, enters in Harm. rewrite Hpc, andb_negb_r in Harm. injection Harm as <-.
  set (t' := moved a c (t_deadline t) t).
  assert (t_since t' = t_since t) as Hsince by (cbn; by rewrite Ha).
  destruct (due_cancel t t') as [Hdle Hdue']; try done.
  { destruct (moved_done a c (t_deadline t) t) as [?|(? & ? & _)]; eauto. }
  assert (eta late t' <= eta late t) as Heta.
  { unfold eta. change (t_cell t') with c. rewrite Hpc, Hsince. destruct (ended _); lia. }
  constructor; change (t_cell t') with c; change (t_now t') with (t_now t); rewrite ?Hpc, ?Hsince.
  - by apply (job_step_ok _ _ _ _ Hj Hst).
  - destruct (job_step_const _ _ _ Hst) as [(_ & _ & _ & -> & _) _]. done.
  - done.
  - done.
  - by apply (moved_done_ctx a c (t_deadline t) t).
  - intros at_ H. destruct (moved_done a c (t_deadline t) t) as [E|(_ & E & _)];
      fold t' in E; rewrite E in H; [by apply Hp|simplify_eq; lia].
  - intros He. auto.
  - lia.
  - intros at_ H. destruct (moved_done a c (t_deadline t) t) as [E|(_ & E & _)];
      fold t' in E; rewrite E in H; [specialize (Hc at_ H); lia|]. simplify_eq.
    pose proof (eta_now t') as Hn. change (t_cell t') with c in Hn.
    rewrite Hpc, Hsince in Hn. change (t_now t') with (t_now t) in Hn.
    specialize (Hn Hs ltac:(right; eexists; split; [exact E|lia])). nia.
Qed.

(** The timer armed on the way into the [select]. *)
Lemma armed_select ev s c dl t :
  time_inv t → is_sample s = true → job_step (Go ev) (t_cell t) = Some c →
  armed s c t = Some dl → at_select (c_pc c) = true → t_now t <= dl <= t_now t + MaxInterval.
Proof.
  intros Ht Hs Hst Harm Hsel.
  destruct (go_waits _ _ _ _ (ti_job _ Ht) Hst) as (_ & _ & Hen). destruct (Hen Hsel) as [Hp _].
  unfold armed, enters in Harm. rewrite Hsel, Hp in Harm. cbn in Harm.
  destruct (job_step_const _ _ _ Hst) as [(_ & _ & _ & Hm & _) _]. rewrite Hm, (ti_mean _ Ht) in Harm.
  destruct (tickInterval_bound MeanTickInterval s Hs) as (d & Hd & H0 & Hlt); [done|].
  rewrite Hd in Harm. cbn in Harm. simplify_eq. unfold MeanTickInterval, MaxInterval in *. lia.
Qed.

(** A step of the goroutine, taken before it was due. *)
Lemma time_inv_go ev s t t' :
  time_inv t → timed_step (Acts (Go ev) s) t = Some t' → time_inv t'.
Proof.
  intros Hi (c & dl & _ & Hsample & Hst & Harm & ->)%timed_step_acts.
  pose proof (armed_select _ _ _ _ _ Hi Hsample Hst Harm) as Hdl.
  destruct Hi as [Hj Hm Hf Hs Hd Hp Hdue Ht Hc].
  pose proof (countdown_step_fuel _ _ _ _ Hj Hst) as Hfuel.
  destruct (go_waits _ _ _ _ Hj Hst) as (Hw & Hend & Hsel). specialize (Hdue Hend).
  unfold eta in Ht, Hc. rewrite Hend in Ht, Hc.
  set (t' := moved (Go ev) c dl t). pose proof (moved_done (Go ev) c dl t) as Hdone. fold t' in Hdone.
  pose proof (eta_now t' (Z.le_refl _)) as Hnow. pose proof (eta_select t') as Hselect.
  change (t_cell t') with c in *. change (t_now t') with (t_now t) in *.
  change (t_deadline t') with dl in *.
  assert (∀ at_, t_done t' = Some at_ → at_ <= t_now t) as Hpast.
  { intros at_ H. destruct Hdone as [E|(_ & E & _)]; rewrite E in H; [by apply Hp|]. by simplify_eq. }
  constructor; try change (t_cell t') with c; try change (t_now t') with (t_now t).
  - by apply (job_step_ok _ _ _ _ Hj Hst).
  - destruct (job_step_const _ _ _ Hst) as [(_ & _ & _ & -> & _) _]. done.
  - lia.
  - cbn. lia.
  - by apply (moved_done_ctx (Go ev) c dl t).
  - exact Hpast.
  - intros He. unfold due. change (t_cell t') with c. change (t_since t') with (t_now t).
    destruct (c_pc c); try lia. specialize (Hdl eq_refl). destruct (t_done t'); cbn; lia.
  - destruct (at_select (c_pc c)) eqn:E.
    + specialize (Hselect eq_refl). specialize (Hdl eq_refl). destruct (Hsel eq_refl) as [_ Hlt].
      unfold MaxInterval in *. nia.
    + specialize (Hnow ltac:(by left)). unfold MaxInterval in *. nia.
  - intros at_ H. specialize (Hnow ltac:(right; eauto)).
    destruct Hdone as [E|(_ & E & _)]; rewrite E in H; [|simplify_eq; nia].
    specialize (Hc at_ H). nia.
Qed.

Lemma time_inv_run l t t' :
  time_inv t → prompt late l t = true → timed_run l t = Some t' → time_inv t'.
Proof.
  revert t. induction l as [|e l IH]; intros t Hi Hp H; cbn in H, Hp; [by simplify_eq|].
  destruct (timed_step e t) as [t1|] eqn:E; [|done]. cbn in H.
  apply andb_true_iff in Hp as [Hd Hp]. apply (IH t1); [|done|done].
  destruct e as [d|a s]; [by eapply time_inv_pass|]. destruct (is_go a) eqn:Ha.
  - destruct a; try done. by eapply time_inv_go.
  - by eapply time_inv_cancel.
Qed.

Lemma prompt_start parent jobID lg c :
  job_start parent jobID count MeanTickInterval lg c → time_inv (timed_start c started).
Proof.
  intros HS. destruct (timed_start_inv _ _ _ _ _ _ started HS) as (Hi & _ & Hm & Hp & _ & Hctx).
  pose proof (ji_count _ _ Hi) as Hc. constructor; unfold eta, due; cbn; rewrite ?Hp;
    cbn -[Nat.mul Z.mul]; try done.
  - lia.
  - by destruct (ctx_err (c_job c)).
  - intros at_. destruct (ctx_err (c_job c)); [|done]. by intros [= ->].
  - lia.
  - unfold latest_end. nia.
  - intros at_. destruct (ctx_err (c_job c)); [|done]. intros [= ->]. nia.
Qed.

(** When the goroutine ended, or now. *)
Definition end_or_now (t : timed) : Z := if ended (c_pc (t_cell t)) then t_since t else t_now t.

Lemma end_or_now_eta t : time_inv t → end_or_now t <= eta late t.
Proof.
  intros [_ _ _ _ _ _ Hdue _ _]. unfold end_or_now, eta. destruct (ended _) eqn:He; [lia|].
  specialize (Hdue eq_refl). assert (0 < fuel_left (c_pc (t_cell t)))%nat; [|nia].
  destruct (c_pc (t_cell t)) as [| | |? ? []|? ? []| | | |]; cbn in He |- *; try done; lia.
Qed.

(** The goroutine's next step: when it is possible, and the event. *)
Definition next_event (t : timed) : Z * event :=
  match c_pc (t_cell t), t_done t with
  | AtSelect _, None =>
      let d := Z.max 0 (t_deadline t - t_now t) in (d, Timer (t_now t + d - t_startedAt t))
  | AtSelect _, Some _ => (0, CtxDone)
  | _, _ => (0, Run)
  end.

Lemma next_event_enabled t :
  time_inv t → ended (c_pc (t_cell t)) = false →
  is_Some (job_step (Go (next_event t).2) (t_cell t)) ∧ 0 <= (next_event t).1 ∧
  t_now t + (next_event t).1 <= due late t ∧
  ready (Go (next_event t).2) (mkTimed (t_cell t) (t_now t + (next_event t).1) (t_startedAt t)
                                 (t_deadline t) (t_since t) (t_done t)) = true.
Proof.
  intros Hi He. pose proof (ti_due _ Hi He) as Hdue. unfold next_event, due in *.
  destruct (run_enabled (t_cell t)) as [[Hp|Hp]|[[n Hp]|Hrun]]; [by rewrite Hp in He..| |].
  - rewrite Hp in *. destruct (t_done t) as [at_|] eqn:Hd; cbn.
    + split_and!; [|done|lia|done]. eapply ctx_done_enabled; [done|]. apply (ti_done _ Hi). by rewrite Hd.
    + split_and!; [by eapply timer_enabled|lia|lia|]. lia.
  - destruct (c_pc (t_cell t)) eqn:Hp; try by (cbn; rewrite Z.add_0_r; split_and!).
    destruct (t_cell t) as [j p log]. cbn in Hp, Hrun. subst p. cbn in Hrun. by destruct Hrun.
Qed.

(** The goroutine can always go on in time, whatever the next sample is. *)
Lemma can_go_on t s :
  time_inv t → ended (c_pc (t_cell t)) = false → is_sample s = true →
  let l := [Pass (next_event t).1; Acts (Go (next_event t).2) s] in
  is_Some (timed_run l t) ∧ prompt late l t = true.
Proof.
  intros Hi He Hs l. destruct (next_event_enabled t Hi He) as ([c Hc] & Hd & Hdue & Hr).
  set (t1 := mkTimed _ _ _ _ _ _) in Hr. cbn [l timed_run prompt].
  assert (timed_step (Pass (next_event t).1) t = Some t1) as ->.
  { cbn. by rewrite (proj2 (Z.leb_le _ _) Hd). }
  rewrite (proj2 (Z.leb_le _ _) Hdue), orb_true_r. cbn [timed_step mbind option_bind].
  rewrite Hr, Hs. change (t_cell t1) with (t_cell t). rewrite Hc. cbn [andb mbind option_bind].
  assert (is_Some (armed s c t1)) as [dl ->]; [|by split].
  unfold armed. destruct (enters _ _); [|by eexists].
  destruct (job_step_const _ _ _ Hc) as [(_ & _ & _ & Hm & _) _]. rewrite Hm, (ti_mean _ Hi).
  destruct (tickInterval_bound MeanTickInterval s Hs) as (i & -> & _); [done|]. by eexists.
Qed.

End on_time.

(** The first progress tick of a buffer is stamped zero. *)
Lemma first_elapsed count j e es :
  (0 < count) → well_ticked count (abs_of j) → elapsed_of (ticks j) = e :: es → e = 0.
Proof.
  intros Hc Hw He. destruct (ticks j) as [|t ts] eqn:Et; [done|].
  assert (∀ ps, counting count ps → ps !! O = Some t → e = 0) as Hfirst.
  { intros ps Hp Ht. specialize (Hp _ _ Ht). cbn in He. destruct t; naive_solver. }
  destruct Hw as [(_ & Hp & _)|(ps & last & Hps & Hp & _ & Hr & Hn)]; cbn in *.
  - apply (Hfirst _ Hp). by rewrite Et.
  - rewrite Et in Hps. destruct ps as [|t' ps]; cbn in Hps; injection Hps as -> ->; [|by apply (Hfirst _ Hp)].
    destruct Hr as [(Hs & _)|[(_ & ? & ->)|(_ & ? & -> & _)]]; cbn in He; [|done..].
    specialize (Hn Hs). cbn in Hn. lia.
Qed.

Section runs.
Context (parent : option error) (jobID : JobID) (count : Z) (lg : option slog.Logger).
Context (c0 : cell) (at_ : Z) (l : list timed_event) (t : timed).

(** C30: the ticks are stamped in order: a run against the clock is, the
    clock forgotten, a run of the countdown's own machine; the elapsed times of
    its progress ticks never decrease, the first is zero, and none is later
    than the time since [startedAt], when the countdown entered its loop. *)
Theorem elapsed_in_order
  (HS : job_start parent jobID count MeanTickInterval lg c0)
  (HR : timed_run l (timed_start c0 at_) = Some t) :
  job_run (actions l) c0 = Some (t_cell t) ∧
  StronglySorted Z.le (elapsed_of (ticks (c_job (t_cell t)))) ∧
  (∀ e es, elapsed_of (ticks (c_job (t_cell t))) = e :: es → e = 0) ∧
  Forall (λ e, 0 <= e <= t_now t - t_startedAt t) (elapsed_of (ticks (c_job (t_cell t)))) ∧
  at_ <= t_startedAt t.
Proof.
  destruct (timed_start_inv _ _ _ _ _ _ at_ HS) as (Hi & Hk & _).
  split; [exact (timed_run_job _ _ _ HR)|].
  destruct (job_run_ok _ _ _ _ Hi (timed_run_job _ _ _ HR)) as [Hi' _].
  destruct (clock_inv_run _ _ _ _ Hi Hk HR) as [Hs Hp Hl].
  destruct (started_after l (timed_start c0 at_) t (Z.le_refl at_) HR) as [[Hst _] _].
  split_and!; [done| | |done].
  - intros e es. apply (first_elapsed count); [apply (ji_count _ _ Hi')|apply (ji_ticks _ _ Hi')].
  - eapply Forall_impl; [exact Hp|]. cbn. lia.
Qed.

(** C29: a countdown is on time: if no step of its goroutine is more than
    [late] behind, then whatever the samples, the cancellations and the panics
    are, the goroutine has ended within [count] times 9.21034 s plus
    [8 + 2 * count] times [late] of its start; from the moment its context is
    done it waits for no timer, and has ended within [8 + 2 * count] times
    [late]; and until it has ended it can take its next step in time. *)
Theorem countdown_on_time (late : Z)
  (HS : job_start parent jobID count MeanTickInterval lg c0)
  (HR : timed_run l (timed_start c0 at_) = Some t)
  (HL : 0 <= late) (HP : prompt late l (timed_start c0 at_) = true) :
  end_or_now t <= at_ + (8 + 2 * count) * late + count * 9210340000 ∧
  (∀ done_at, t_done t = Some done_at → end_or_now t <= done_at + (8 + 2 * count) * late) ∧
  (ended (c_pc (t_cell t)) = false → ∀ sample, is_sample sample = true →
   ∃ d ev, let next := [Pass d; Acts (Go ev) sample] in
     is_Some (timed_run next t) ∧ prompt late next t = true).
Proof.
  pose proof (prompt_start late count at_ HL _ _ _ _ HS) as H0.
  pose proof (time_inv_run late count at_ HL _ _ _ H0 HP HR) as Hi.
  pose proof (end_or_now_eta late count at_ HL t Hi) as He.
  pose proof (waits_nonneg _ _ (ti_job _ _ _ _ Hi)) as Hw. split_and!.
  - pose proof (ti_total _ _ _ _ Hi). unfold latest_end, MaxInterval in *. lia.
  - intros done_at Hd. pose proof (ti_cancelled _ _ _ _ Hi done_at Hd). lia.
  - intros Hend s Hs. eexists _, _. exact (can_go_on late count at_ HL t s Hi Hend Hs).
Qed.

End runs.

(** ** A concrete countdown: one tick after half a second, seen 40 ns late *)

Definition sample_cell : cell :=
  mkCell (mkJob "smith/0" StatusRunning [] 3 MeanTickInterval None 0 1 [false; false]
            (slog.Handler [])) (AtStart 2) [].

Lemma sample_cell_start : job_start None "smith/0" 2 MeanTickInterval (Some (slog.Handler [])) sample_cell.
Proof. eexists _, _. split; reflexivity. Qed.

Definition sample_run : list timed_event :=
  [Pass 10; Acts (Go Run) half; Pass 500000040; Acts (Go (Timer 500000040)) half;
   Acts (Go Run) half; Pass 300; Acts DoCancel half; Pass 25; Acts (Go CtxDone) half].

Definition sample_timed : timed :=
  Eval vm_compute in default (timed_start sample_cell 1000)
                       (timed_run sample_run (timed_start sample_cell 1000)).

Lemma sample_run_ok : timed_run sample_run (timed_start sample_cell 1000) = Some sample_timed.
Proof. vm_compute. reflexivity. Qed.

Lemma elapsed_in_order_witness :
  StronglySorted Z.le (elapsed_of (ticks (c_job (t_cell sample_timed)))) ∧
  elapsed_of (ticks (c_job (t_cell sample_timed))) = [0; 500000040].
Proof.
  split; [|vm_compute; reflexivity].
  exact (proj1 (proj2 (elapsed_in_order _ _ _ _ _ _ _ _ sample_cell_start sample_run_ok))).
Defined.

Lemma countdown_on_time_witness :
  t_done sample_timed = Some 500001350 ∧ end_or_now sample_timed <= 500001350 + 12 * 50.
Proof.
  split; [reflexivity|].
  exact (proj1 (proj2 (countdown_on_time _ _ _ _ _ _ _ _ 50 sample_cell_start sample_run_ok
           ltac:(done) ltac:(vm_compute; reflexivity))) 500001350 eq_refl).
Defined.

End timed_worker.
