(* ===== verification/Wire.v ===== *)
(** * The wire contract: [internal/gen/fizzled/v1]

    The messages and the method names the client and the server share. An enum
    is an open 32-bit integer, as in Go; a message field that was not set reads
    as its zero value, so a request is given by what its getters return. *)

From S2P Require Import Prelude.

Module fizzledv1.

(** [type Status int32] *)
Definition Status := Z.
Definition Status_STATUS_UNSPECIFIED : Status := 0%Z.
Definition Status_STATUS_RUNNING : Status := 1%Z.
Definition Status_STATUS_COMPLETED : Status := 2%Z.
Definition Status_STATUS_STOPPED : Status := 3%Z.
Definition Status_STATUS_FAILED : Status := 4%Z.

(** What an RPC carries to the server. [any] of an interceptor is one of these,
    or a message of another service. *)
Inductive Request :=
| StartRequest (count : Z)
| StopRequest (job_id : string)
| GetStatusRequest (job_id : string)
| StreamOutputRequest (job_id : string)
| OtherRequest.

(** [durationpb.Duration] *)
Record Duration := mkDuration { Seconds : Z; Nanos : Z }.

Record Progress := mkProgress { Elapsed : Duration; Remaining : Z }.

(** The oneof of a tick; [None] is a kind that was not set. *)
Inductive Kind :=
| Tick_Progress (p : Progress)
| Tick_Stopped
| Tick_Failure (message : string).

Record Tick := mkTick { Kind_ : option Kind }.

(** What an RPC answers with. *)
Inductive Response :=
| StartResponse (job_id : string)
| StopResponse (status : Status)
| GetStatusResponse (status : Status).

Definition FizzledService_Start_FullMethodName : string := "/fizzled.v1.FizzledService/Start".
Definition FizzledService_Stop_FullMethodName : string := "/fizzled.v1.FizzledService/Stop".
Definition FizzledService_GetStatus_FullMethodName : string := "/fizzled.v1.FizzledService/GetStatus".
Definition FizzledService_StreamOutput_FullMethodName : string :=
  "/fizzled.v1.FizzledService/StreamOutput".

End fizzledv1.
