(* ===== verification/Registry.v ===== *)
(** * The registry of jobs: [internal/registry]

    The world is the registry struct behind its mutex, the heap of jobs, the
    scopes that have ended, the service's log, and what its streams have
    delivered. [Create] and [Find] hold the
    mutex throughout, so each is one atomic action; [Shutdown] takes its
    snapshot in one, then stops the jobs concurrently. *)

From S2P Require Import Prelude GoStrings GoErrors Conc X509 SpiffeID X509SVID Identity Slog.
From S2P Require Import Context Wire Job JobInvariant.

Module registry.
Import authn worker worker_spec conc context.

(** A pointer to a job: its index in the heap. *)
Abbreviation loc := nat.

(** A job with its goroutine, and the scope of the context it was derived from. *)
Record object := mkObject { o_cell : cell; o_parent : option scope }.

(** [type record struct] *)
Record record := mkRecord {
  agentID : AgentID;
  counter : Z;
  jobs : gmap JobID loc;
  rec_logger : slog.Logger;
}.

(** [type Registry struct], what its mutex guards. *)
Record Registry := mkRegistry {
  records : gmap AgentID record;
  reg_logger : slog.Logger;
  isAcceptingJobs : bool;
}.

Record world := mkWorld {
  w_registry : Registry;
  w_heap : list object;
  w_done : scopes;
  w_log : list slog.LogRecord;
  w_sent : gmap scope (list fizzledv1.Tick);
}.

Definition with_registry (r : Registry) (w : world) : world :=
  mkWorld r (w_heap w) (w_done w) (w_log w) (w_sent w).
Definition with_heap (h : list object) (w : world) : world :=
  mkWorld (w_registry w) h (w_done w) (w_log w) (w_sent w).
Definition with_log (recs : list slog.LogRecord) (w : world) : world :=
  mkWorld (w_registry w) (w_heap w) (w_done w) (w_log w ++ recs) (w_sent w).

(** What a stream has delivered so far, and the delivery of one more tick. *)
Definition sent (s : scope) (w : world) : list fizzledv1.Tick := default [] (w_sent w !! s).
Definition with_sent (s : scope) (t : fizzledv1.Tick) (w : world) : world :=
  mkWorld (w_registry w) (w_heap w) (w_done w) (w_log w) (<[s := sent s w ++ [t]]> (w_sent w)).

Definition with_cell (c : cell) (o : object) : object := mkObject c (o_parent o).

(** The job a pointer points to. *)
Definition job_at (l : loc) (w : world) : option Job := (λ o, c_job (o_cell o)) <$> w_heap w !! l.

(** [New] *)
Definition New (logger : option slog.Logger) : Registry :=
  mkRegistry ∅ (logging.OrDiscard logger) true.

(** ** Records *)

Definition newRecord (agentID : AgentID) (logger : slog.Logger) : record :=
  mkRecord agentID 0 ∅ (slog.With logger [("agent_id", agentID)]).

(** [fmt.Sprintf("%s/%d", r.agentID, r.counter)] *)
Definition mint (agentID : AgentID) (counter : Z) : JobID := agentID +:+ "/" +:+ pretty counter.

(** [record.create]: the record it leaves and the job it starts. The pointer
    of the job is the next free one. *)
Definition record_create (ctx : Context) (count : Z) (r : record) (next : loc) (done : scopes)
    : result (JobID * record * object) :=
  let jobID := mint (agentID r) (counter r) in
  '(job, p) ← map_err (errorf ("record-create [agent " +:+ agentID r +:+ "]"))
    (NewJob (Context_Err done ctx) jobID count MeanTickInterval (Some (rec_logger r)));
  Ok (jobID,
      mkRecord (agentID r) (int64 (counter r + 1)) (<[jobID := next]> (jobs r)) (rec_logger r),
      mkObject (mkCell job p []) (scope_of ctx)).

Definition record_find (r : record) (jobID : JobID) : option loc := jobs r !! jobID.

Definition allJobs (r : record) : list loc := (map_to_list (jobs r)).*2.

(** ** The registry *)

(** [Registry.Create], one critical section. *)
Definition Create (ctx : Context) (agentID : AgentID) (count : Z) (w : world) : world * result JobID :=
  let reg := w_registry w in
  if negb (isAcceptingJobs reg)
  then (w, Err (errorf "registry-create" (Sentinel ErrNotAcceptingJobs)))
  else
    let rec := match records reg !! agentID with
               | Some rec => rec
               | None => newRecord agentID (reg_logger reg)
               end in
    match record_create ctx count rec (length (w_heap w)) (w_done w) with
    | Err e => (w, Err (errorf "registry-create" e))
    | Ok (jobID, rec, obj) =>
        (mkWorld (mkRegistry (<[agentID := rec]> (records reg)) (reg_logger reg) (isAcceptingJobs reg))
           (w_heap w ++ [obj]) (w_done w) (w_log w) (w_sent w), Ok jobID)
    end.

(** [Registry.Find], one critical section. *)
Definition Find (agentID : AgentID) (jobID : JobID) (w : world) : option loc :=
  rec ← records (w_registry w) !! agentID; record_find rec jobID.

(** [Job.Stop]: cancel, wait for [finished], read the status. *)
Definition cancel_object (o : object) : object :=
  with_cell (mkCell (cancel (c_job (o_cell o))) (c_pc (o_cell o)) (c_log (o_cell o))) o.

Definition Stop (l : loc) : prog world Status :=
  _ ← atomically (λ w, (with_heap (alter cancel_object l (w_heap w)) w, tt));
  _ ← await (λ w, j ← job_at l w; if is_finished j then Some tt else None);
  await (λ w, Job_Status <$> job_at l w).

(** The critical section of [Registry.Shutdown]: no job is accepted from then
    on, and the jobs there are are those of the snapshot. *)
Definition Shutdown_snapshot (w : world) : world * list loc :=
  let reg := w_registry w in
  (with_registry (mkRegistry (records reg) (reg_logger reg) false) w,
   (map_to_list (records reg)).*2 ≫= allJobs).

Definition Shutdown : prog world unit :=
  snapshot ← atomically Shutdown_snapshot;
  par (map (λ l, _ ← Stop l; mret tt) snapshot).

(** ** Fresh identifiers *)

(** An identifier determines its agent and its number, whatever bytes the
    agent's own identifier is made of. *)
Lemma mint_inj a b n m : mint a n = mint b m → a = b ∧ n = m.
Proof.
  unfold mint. intros H.
  apply (last_sep_inj "/"%char) in H as [-> H]; [|by apply pretty_free..].
  split; [done|]. by apply (inj pretty) in H.
Qed.

(** ** What the registry keeps *)

(** A job in the heap came out of [NewJob] and ran from there. *)
Definition object_ok (o : object) : Prop :=
  ∃ parent jobID count lg c0 l,
    job_start parent jobID count MeanTickInterval lg c0 ∧ job_run l c0 = Some (o_cell o).

(** The counter of a record is a 64-bit integer; it has not wrapped while the
    process has started at most [MaxInt64] jobs. *)
Definition fits (w : world) : Prop := (Z.of_nat (length (w_heap w)) <= MaxInt64)%Z.

#[export] Instance fits_dec w : Decision (fits w).
Proof. unfold fits. apply _. Qed.

Record registry_inv (w : world) : Prop := {
  ri_record : ∀ a rec, records (w_registry w) !! a = Some rec →
    agentID rec = a ∧ (0 <= counter rec <= Z.of_nat (length (w_heap w)))%Z ∧
    rec_logger rec = slog.With (reg_logger (w_registry w)) [("agent_id", a)];
  ri_minted : ∀ a rec id l, records (w_registry w) !! a = Some rec → jobs rec !! id = Some l →
    ∃ n j, (0 <= n < counter rec)%Z ∧ id = mint a n ∧ job_at l w = Some j ∧ Job_ID j = id ∧
           logger j = rec_logger rec;
  ri_owned : ∀ l, l < length (w_heap w) → ∃ a id, Find a id w = Some l;
  ri_cells : ∀ l o, w_heap w !! l = Some o → object_ok o;
}.

(** ** How the world may change under a handler's feet *)

Definition cell_evolves (c c' : cell) : Prop := ∃ l, job_run l c = Some c'.

#[export] Instance cell_evolves_preorder : PreOrder cell_evolves.
Proof.
  split; [by exists []|]. intros c1 c2 c3 [l H] [l' H']. exists (l ++ l'). by rewrite job_run_app, H.
Qed.

Record grows (w w' : world) : Prop := {
  gr_heap : ∀ l o, w_heap w !! l = Some o → ∃ o', w_heap w' !! l = Some o' ∧
    o_parent o' = o_parent o ∧ cell_evolves (o_cell o) (o_cell o');
  gr_find : ∀ a id l, Find a id w = Some l → Find a id w' = Some l;
  gr_closed : isAcceptingJobs (w_registry w) = false →
    isAcceptingJobs (w_registry w') = false ∧ length (w_heap w') = length (w_heap w);
  gr_done : w_done w ⊆ w_done w';
  gr_log : w_log w `prefix_of` w_log w';
}.

#[export] Instance grows_preorder : PreOrder grows.
Proof.
  split.
  - intros w. constructor; try done. intros l o H. by exists o.
  - intros w1 w2 w3 [H1 F1 C1 D1 L1] [H2 F2 C2 D2 L2]. constructor; eauto.
    + intros l o H. destruct (H1 _ _ H) as (o' & Ho' & Hp & He).
      destruct (H2 _ _ Ho') as (o'' & Ho'' & Hp' & He'). exists o''.
      split_and!; [done|congruence|by etrans].
    + intros H. destruct (C1 H) as [Hc Hl]. destruct (C2 Hc) as [? ?]. split; [done|congruence].
    + by etrans.
    + by etrans.
Qed.

(** The rely of every handler: whatever the other handlers, the jobs and the
    scopes do, the invariant is kept and nothing is taken back, as long as the
    counters have not wrapped. *)
Record evolves (w w' : world) : Prop := {
  ev_length : length (w_heap w) ≤ length (w_heap w');
  ev_grows : registry_inv w → fits w' → registry_inv w' ∧ grows w w';
}.

Lemma fits_le w w' : length (w_heap w) ≤ length (w_heap w') → fits w' → fits w.
Proof. unfold fits. lia. Qed.

#[export] Instance evolves_preorder : PreOrder evolves.
Proof.
  split.
  - intros w. constructor; [done|]. done.
  - intros w1 w2 w3 [L1 E1] [L2 E2]. constructor; [lia|]. intros Hi Hf.
    destruct (E1 Hi (fits_le _ _ L2 Hf)) as [Hi2 G1]. destruct (E2 Hi2 Hf) as [Hi3 G2].
    split; [done|]. by etrans.
Qed.

(** ** Lemmas *)

Lemma Find_record a id w l :
  Find a id w = Some l ↔ ∃ rec, records (w_registry w) !! a = Some rec ∧ jobs rec !! id = Some l.
Proof. unfold Find, record_find. destruct (records (w_registry w) !! a); cbn; naive_solver. Qed.

Lemma Find_registry w w' a id :
  records (w_registry w') = records (w_registry w) → Find a id w' = Find a id w.
Proof. unfold Find. by intros ->. Qed.

(** A job that is found exists and carries the id it was found under. *)
Lemma Find_job w a id l :
  registry_inv w → Find a id w = Some l →
  ∃ j, job_at l w = Some j ∧ Job_ID j = id ∧
       logger j = slog.With (reg_logger (w_registry w)) [("agent_id", a)].
Proof.
  intros Hi (rec & Hr & Hl)%Find_record.
  destruct (ri_minted _ Hi _ _ _ _ Hr Hl) as (n & j & _ & _ & ? & ? & Hlog). exists j.
  split_and!; [done|done|]. rewrite Hlog. apply (ri_record _ Hi _ _ Hr).
Qed.

(** A job has one owner and one id. *)
Lemma Find_unique w a b id id' l :
  registry_inv w → Find a id w = Some l → Find b id' w = Some l → a = b ∧ id = id'.
Proof.
  intros Hi (ra & Ha & Hla)%Find_record (rb & Hb & Hlb)%Find_record.
  destruct (ri_minted _ Hi _ _ _ _ Ha Hla) as (n & j & _ & Hn & Hj & Hid & _).
  destruct (ri_minted _ Hi _ _ _ _ Hb Hlb) as (m & j' & _ & Hm & Hj' & Hid' & _).
  rewrite Hj in Hj'. injection Hj' as <-. assert (id = id') as He by congruence. split; [|done].
  rewrite Hn, Hm in He. by apply mint_inj in He as [-> _].
Qed.

(** An id is owned by one agent at most. *)
Lemma Find_owner w a b id l l' :
  registry_inv w → Find a id w = Some l → Find b id w = Some l' → a = b.
Proof.
  intros Hi (ra & Ha & Hla)%Find_record (rb & Hb & Hlb)%Find_record.
  destruct (ri_minted _ Hi _ _ _ _ Ha Hla) as (n & j & _ & -> & _).
  destruct (ri_minted _ Hi _ _ _ _ Hb Hlb) as (m & j' & _ & Hm & _).
  by apply mint_inj in Hm as [-> _].
Qed.

Lemma job_at_lt l w j : job_at l w = Some j → l < length (w_heap w).
Proof. unfold job_at. intros (o & Ho & _)%fmap_Some. by eapply lookup_lt_Some. Qed.

Lemma object_ok_evolves o o' : cell_evolves (o_cell o) (o_cell o') → object_ok o → object_ok o'.
Proof.
  intros [l' H'] (parent & jobID & count & lg & c0 & l & Hs & Hr).
  exists parent, jobID, count, lg, c0, (l ++ l'). split; [done|]. by rewrite job_run_app, Hr.
Qed.

Lemma grows_job_at w w' l j :
  grows w w' → job_at l w = Some j → ∃ j', job_at l w' = Some j' ∧ same_job j j'.
Proof.
  intros Hg (o & Ho & ->)%fmap_Some. destruct (gr_heap _ _ Hg _ _ Ho) as (o' & Ho' & _ & r & Hr).
  exists (c_job (o_cell o')). unfold job_at. rewrite Ho'. split; [done|]. by apply job_run_const in Hr as [? _].
Qed.

(** A change that leaves the set of jobs alone. *)
Record same_jobs (w w' : world) : Prop := {
  sj_records : records (w_registry w') = records (w_registry w);
  sj_logger : reg_logger (w_registry w') = reg_logger (w_registry w);
  sj_accepting : isAcceptingJobs (w_registry w) = false → isAcceptingJobs (w_registry w') = false;
  sj_heap : Forall2 (λ o o', o_parent o' = o_parent o ∧ cell_evolves (o_cell o) (o_cell o'))
    (w_heap w) (w_heap w');
  sj_done : w_done w ⊆ w_done w';
  sj_log : w_log w `prefix_of` w_log w';
}.

Lemma same_jobs_grows w w' : same_jobs w w' → grows w w'.
Proof.
  intros [Hr Hlg Ha Hh Hd Hl]. constructor; try done.
  - intros l o Ho. by destruct (Forall2_lookup_l _ _ _ _ _ Hh Ho) as (o' & ? & ? & ?); eauto.
  - intros a id l <-. by apply Find_registry.
  - intros H. split; [auto|]. symmetry. by eapply Forall2_length.
Qed.

Lemma same_jobs_evolves w w' : same_jobs w w' → evolves w w'.
Proof.
  intros Hs. pose proof (same_jobs_grows _ _ Hs) as Hg. destruct Hs as [Hr Hlg Ha Hh Hd Hl].
  pose proof (Forall2_length _ _ _ Hh) as Hlen. constructor; [lia|].
  intros Hi _. split; [|done]. constructor; rewrite ?Hr, ?Hlg, <-?Hlen.
  - apply Hi.
  - intros a rec id l Hrec Hj. destruct (ri_minted _ Hi _ _ _ _ Hrec Hj) as (n & j & ? & ? & Hl' & ? & ?).
    destruct (grows_job_at _ _ _ _ Hg Hl') as (j' & ? & Hsame). exists n, j'.
    destruct Hsame as (Hid & Hlog & _). unfold Job_ID in *. split_and!; try done; try lia; congruence.
  - intros l Hlt. destruct (ri_owned _ Hi l Hlt) as (a & id & <-). exists a, id. by apply Find_registry.
  - intros l o' Ho'. destruct (Forall2_lookup_r _ _ _ _ _ Hh Ho') as (o & Ho & _ & He).
    eapply object_ok_evolves; [done|]. by eapply ri_cells.
Qed.

#[export] Hint Resolve same_jobs_evolves : fizz.

(** ** [Create] *)

Lemma record_create_Ok ctx count r next done id rec obj :
  record_create ctx count r next done = Ok (id, rec, obj) →
  (1 <= count <= MaxCount)%Z ∧ id = mint (agentID r) (counter r) ∧
  rec = mkRecord (agentID r) (int64 (counter r + 1)) (<[id := next]> (jobs r)) (rec_logger r) ∧
  o_parent obj = scope_of ctx ∧
  job_start (Context_Err done ctx) id count MeanTickInterval (Some (rec_logger r)) (o_cell obj).
Proof.
  unfold record_create. intros H. apply bind_Ok in H as ([job p] & Hn & H). apply map_err_Ok in Hn.
  injection H as <- <- <-. pose proof (NewJob_Ok _ _ _ _ _ _ _ Hn) as (Hc & _ & _ & _).
  split_and!; try done; try lia. by exists job, p.
Qed.

Lemma record_create_Err ctx count r next done e :
  record_create ctx count r next done = Err e →
  ¬ (1 <= count <= MaxCount)%Z ∧ ∀ s, Is e s = bool_decide (ErrInvalidCount = s).
Proof.
  unfold record_create. intros H. apply bind_Err in H as [H|([] & _ & ?)]; [|done].
  apply map_err_Err in H as (e' & H & ->). unfold NewJob in H.
  destruct (_ || _)%bool eqn:E; [|by cbn in H].
  injection H as <-. split; [|intros s; by rewrite !Is_errorf].
  intros Hc. unfold MaxCount in *. destruct (Z.leb_spec count 0), (Z.gtb_spec count 100); cbn in E; lia || done.
Qed.

(** The record [Create] works on: the agent's, or a new one. *)
Definition record_for (a : AgentID) (w : world) : record :=
  default (newRecord a (reg_logger (w_registry w))) (records (w_registry w) !! a).

Lemma Create_unfold ctx a count w :
  Create ctx a count w =
  if negb (isAcceptingJobs (w_registry w))
  then (w, Err (errorf "registry-create" (Sentinel ErrNotAcceptingJobs)))
  else match record_create ctx count (record_for a w) (length (w_heap w)) (w_done w) with
       | Err e => (w, Err (errorf "registry-create" e))
       | Ok (jobID, rec, obj) =>
           (mkWorld (mkRegistry (<[a := rec]> (records (w_registry w))) (reg_logger (w_registry w))
                       (isAcceptingJobs (w_registry w)))
              (w_heap w ++ [obj]) (w_done w) (w_log w) (w_sent w), Ok jobID)
       end.
Proof. unfold Create, record_for. by destruct (records (w_registry w) !! a). Qed.

Lemma record_for_inv w a :
  registry_inv w →
  agentID (record_for a w) = a ∧ (0 <= counter (record_for a w) <= Z.of_nat (length (w_heap w)))%Z ∧
  rec_logger (record_for a w) = slog.With (reg_logger (w_registry w)) [("agent_id", a)] ∧
  ∀ id l, jobs (record_for a w) !! id = Some l ↔ Find a id w = Some l.
Proof.
  intros Hi. unfold record_for, Find, record_find.
  destruct (records (w_registry w) !! a) as [rec|] eqn:E; cbn.
  - destruct (ri_record _ Hi _ _ E) as (? & ? & ?). split_and!; try done; lia.
  - split_and!; try done; lia.
Qed.

(** The id [Create] mints is nobody's. *)
Lemma mint_fresh w a b l :
  registry_inv w → Find b (mint a (counter (record_for a w))) w = Some l → False.
Proof.
  intros Hi (rec & Hr & Hl)%Find_record.
  destruct (ri_minted _ Hi _ _ _ _ Hr Hl) as (n & j & Hn & Hm & _).
  apply mint_inj in Hm as [<- <-]. unfold record_for in Hn. rewrite Hr in Hn. cbn in Hn. lia.
Qed.

Lemma job_at_app w w' l j obj :
  w_heap w' = w_heap w ++ [obj] → job_at l w = Some j → job_at l w' = Some j.
Proof.
  intros Hh Hj. unfold job_at in *. rewrite Hh. by rewrite lookup_app_l by (by eapply job_at_lt).
Qed.

(** What a successful [Create] does, from a world that keeps the invariant. *)
Lemma Create_Ok ctx a count w w' id :
  Create ctx a count w = (w', Ok id) → registry_inv w → fits w' →
  ∃ obj rec,
    w' = mkWorld (mkRegistry (<[a := rec]> (records (w_registry w))) (reg_logger (w_registry w)) true)
           (w_heap w ++ [obj]) (w_done w) (w_log w) (w_sent w) ∧
    isAcceptingJobs (w_registry w) = true ∧ (1 <= count <= MaxCount)%Z ∧
    id = mint a (counter (record_for a w)) ∧
    rec = mkRecord a (counter (record_for a w) + 1) (<[id := length (w_heap w)]> (jobs (record_for a w)))
            (rec_logger (record_for a w)) ∧
    o_parent obj = scope_of ctx ∧
    job_start (Context_Err (w_done w) ctx) id count MeanTickInterval
      (Some (rec_logger (record_for a w))) (o_cell obj).
Proof.
  rewrite Create_unfold. intros H Hi Hf.
  destruct (isAcceptingJobs (w_registry w)) eqn:Ha; cbn [negb] in H; [|done].
  destruct (record_create _ _ _ _ _) as [[[id' rec] obj]|] eqn:Hc; [|done]. injection H as <- <-.
  apply record_create_Ok in Hc as (Hcount & -> & -> & Hp & Hs).
  destruct (record_for_inv w a Hi) as (Hid & Hn & _). rewrite Hid in *.
  unfold fits in Hf. cbn in Hf. rewrite length_app in Hf. cbn in Hf.
  rewrite int64_id in * by (unfold MinInt64, MaxInt64 in *; lia).
  eexists _, _. split_and!; try done; lia.
Qed.

(** Where jobs are found afterwards. *)
Lemma Create_Find ctx a count w w' id b id' :
  Create ctx a count w = (w', Ok id) → registry_inv w → fits w' →
  Find b id' w' = if decide (b = a ∧ id' = id) then Some (length (w_heap w)) else Find b id' w.
Proof.
  intros H Hi Hf. destruct (Create_Ok _ _ _ _ _ _ H Hi Hf) as (obj & rec & -> & _ & _ & _ & -> & _).
  destruct (record_for_inv w a Hi) as (_ & _ & _ & Hj). unfold Find at 1, record_find. cbn.
  destruct (decide (b = a)) as [->|Hne].
  - rewrite lookup_insert_eq. cbn. destruct (decide (id' = id)) as [->|Hid].
    + rewrite lookup_insert_eq. by rewrite decide_True.
    + rewrite lookup_insert_ne by done. rewrite decide_False by naive_solver.
      apply option_eq. intros l. apply Hj.
  - rewrite lookup_insert_ne by done. by rewrite decide_False by naive_solver.
Qed.

(** What was there is found again. *)
Lemma Create_Find_old ctx a count w w' id b id' l :
  Create ctx a count w = (w', Ok id) → registry_inv w → fits w' →
  Find b id' w = Some l → Find b id' w' = Some l.
Proof.
  intros H Hi Hf Hl. rewrite (Create_Find _ _ _ _ _ _ b id' H Hi Hf).
  destruct (decide _) as [[-> ->]|]; [|done].
  destruct (Create_Ok _ _ _ _ _ _ H Hi Hf) as (obj & rec & _ & _ & _ & -> & _).
  by destruct (mint_fresh _ _ _ _ Hi Hl).
Qed.

Lemma job_start_fields parent jobID count mean lg c :
  job_start parent jobID count mean (Some lg) c →
  Job_ID (c_job c) = jobID ∧ logger (c_job c) = lg ∧ status (c_job c) = StatusRunning ∧
  ticks (c_job c) = [] ∧ ctx_err (c_job c) = parent ∧ c_pc c = AtStart count ∧ c_log c = [].
Proof. by intros (j & p & (_ & _ & -> & ->)%NewJob_Ok & ->). Qed.

Lemma Create_inv ctx a count w w' id :
  Create ctx a count w = (w', Ok id) → registry_inv w → fits w' → registry_inv w'.
Proof.
  intros H Hi Hf. pose proof (λ b id' l, Create_Find_old ctx a count w w' id b id' l H Hi Hf) as Hold.
  pose proof (Create_Find ctx a count w w' id a id H Hi Hf) as Hnew. rewrite decide_True in Hnew by done.
  destruct (Create_Ok _ _ _ _ _ _ H Hi Hf) as (obj & rec & Hw & Ha & Hc & Hid & Hrec & Hp & Hs).
  assert (w_heap w' = w_heap w ++ [obj]) as Hh by by rewrite Hw.
  assert (length (w_heap w') = S (length (w_heap w))) as Hlen by (rewrite Hh, length_app; cbn; lia).
  destruct (record_for_inv w a Hi) as (_ & Hn & Hlg & Hj).
  assert (job_at (length (w_heap w)) w' = Some (c_job (o_cell obj))) as Hat.
  { unfold job_at. by rewrite Hh, lookup_app_r, Nat.sub_diag by lia. }
  pose proof (job_start_fields _ _ _ _ _ _ Hs) as (Hjid & Hjl & _).
  constructor.
  - intros b rb. rewrite Hlen, Hw. cbn. intros [[<- <-]|[Hne Hb]]%lookup_insert_Some.
    + rewrite Hrec. cbn. split_and!; try done; lia.
    + destruct (ri_record _ Hi _ _ Hb) as (? & ? & ?). split_and!; try done; lia.
  - intros b rb id' l. rewrite Hw at 1. cbn. intros [[<- <-]|[Hne Hb]]%lookup_insert_Some.
    + rewrite Hrec. cbn. intros [[<- <-]|[Hne Hl]]%lookup_insert_Some.
      * exists (counter (record_for a w)), (c_job (o_cell obj)). split_and!; try done; lia.
      * apply Hj in Hl. pose proof Hl as (ra & Hra & Hla)%Find_record.
        destruct (ri_minted _ Hi _ _ _ _ Hra Hla) as (n & j & ? & ? & ? & ? & ?).
        assert (record_for a w = ra) as -> by (unfold record_for; by rewrite Hra).
        exists n, j. split_and!; try done; try lia. by eapply job_at_app.
    + intros Hl. destruct (ri_minted _ Hi _ _ _ _ Hb Hl) as (n & j & ? & ? & ? & ? & ?).
      exists n, j. split_and!; try done; try lia. by eapply job_at_app.
  - intros l Hl. destruct (decide (l = length (w_heap w))) as [->|]; [eauto|].
    destruct (ri_owned _ Hi l) as (b & id' & Hb); [lia|]. eauto.
  - intros l o. rewrite Hh. intros [Hl|[_ Hl]]%lookup_app_Some; [by eapply ri_cells|].
    apply list_lookup_singleton_Some in Hl as [_ <-]. by eexists _, _, _, _, _, [].
Qed.

Lemma Create_grows ctx a count w w' id :
  Create ctx a count w = (w', Ok id) → registry_inv w → fits w' → grows w w'.
Proof.
  intros H Hi Hf. pose proof (λ b id' l, Create_Find_old ctx a count w w' id b id' l H Hi Hf) as Hold.
  destruct (Create_Ok _ _ _ _ _ _ H Hi Hf) as (obj & rec & -> & Ha & _). constructor; cbn.
  - intros l o Ho. exists o. split; [by apply lookup_app_l_Some|]. split; [done|reflexivity].
  - done.
  - congruence.
  - done.
  - done.
Qed.

Lemma Create_Err ctx a count w w' e : Create ctx a count w = (w', Err e) → w' = w.
Proof.
  rewrite Create_unfold. intros H. destruct (negb _); [by simplify_eq|].
  destruct (record_create _ _ _ _ _) as [[[] ?]|]; by simplify_eq.
Qed.

Lemma Create_evolves ctx a count w : evolves w (Create ctx a count w).1.
Proof.
  destruct (Create ctx a count w) as [w' [id|e]] eqn:H; cbn.
  - constructor; [|intros Hi Hf; split; [by eapply Create_inv|by eapply Create_grows]].
    rewrite Create_unfold in H. destruct (negb _); [done|].
    destruct (record_create _ _ _ _ _) as [[[] ?]|]; [|done]. injection H as <- _. cbn.
    rewrite length_app. lia.
  - apply Create_Err in H as ->. reflexivity.
Qed.

(** ** Facts that survive the other handlers *)

(** [P] holds, and the invariant with it, unless a counter has wrapped. *)
Definition fit (P : world → Prop) (w : world) : Prop := fits w → registry_inv w ∧ P w.

Lemma fit_evolves (P : world → Prop) w w' :
  (registry_inv w → registry_inv w' → grows w w' → P w → P w') →
  fit P w → evolves w w' → fit P w'.
Proof.
  intros HP Hw [Hl He] Hf. destruct (Hw (fits_le _ _ Hl Hf)) as [Hi Hp].
  destruct (He Hi Hf) as [Hi' Hg]. split; [done|]. by apply HP.
Qed.

Lemma fit_stable (P : world → Prop) :
  (∀ w w', registry_inv w → registry_inv w' → grows w w' → P w → P w') →
  stable evolves (fit P).
Proof. intros HP w w' H He. eapply fit_evolves; [|done|done]. apply HP. Qed.

Lemma fit_mono (P Q : world → Prop) w : (registry_inv w → P w → Q w) → fit P w → fit Q w.
Proof. intros H Hp Hf. destruct (Hp Hf). auto. Qed.

Definition exists_at (l : loc) (w : world) : Prop := is_Some (job_at l w).

(** The job at [l] has closed [finished] in the terminal status [s]. *)
Definition finished_with (l : loc) (s : Status) (w : world) : Prop :=
  ∃ j, job_at l w = Some j ∧ is_finished j = true ∧ Job_Status j = s ∧ terminal s.

Lemma exists_at_grows l w w' : grows w w' → exists_at l w → exists_at l w'.
Proof. intros Hg [j Hj]. destruct (grows_job_at _ _ _ _ Hg Hj) as (j' & ? & _). by exists j'. Qed.

Lemma object_job_inv o : object_ok o → ∃ count, job_inv count (o_cell o).
Proof.
  intros (parent & jobID & count & lg & c0 & l & Hs & Hr). exists count.
  eapply job_run_ok; [by eapply job_start_inv|done].
Qed.

(** A finished job keeps its status. *)
Lemma finished_evolves o o' :
  object_ok o → cell_evolves (o_cell o) (o_cell o') → is_finished (c_job (o_cell o)) = true →
  is_finished (c_job (o_cell o')) = true ∧ terminal (status (c_job (o_cell o))) ∧
  status (c_job (o_cell o')) = status (c_job (o_cell o)).
Proof.
  intros (count & Hi)%object_job_inv [l Hl] Hf.
  destruct (finished_terminal _ _ Hi Hf) as [Ht Hp].
  destruct (job_run_ok _ _ _ _ Hi Hl) as [Hi' Ha].
  pose proof (terminal_frozen _ _ _ Ht Ha) as He. injection He as Hst _. split_and!; [|done|done].
  rewrite (cell_finished_closed _ _ Hi'). by eapply past_finished_run.
Qed.

Lemma finished_with_grows l s w w' :
  registry_inv w → grows w w' → finished_with l s w → finished_with l s w'.
Proof.
  intros Hi Hg (j & (o & Ho & ->)%fmap_Some & Hf & Hs & Ht).
  destruct (gr_heap _ _ Hg _ _ Ho) as (o' & Ho' & _ & He).
  destruct (finished_evolves _ _ (ri_cells _ Hi _ _ Ho) He Hf) as (Hf' & _ & Hst).
  exists (c_job (o_cell o')). unfold job_at. rewrite Ho'. split_and!; [done|done| |done].
  unfold Job_Status in *. cbn in *. congruence.
Qed.

Lemma job_at_finished l w j :
  registry_inv w → job_at l w = Some j → is_finished j = true → finished_with l (Job_Status j) w.
Proof.
  intros Hi Hj Hf. pose proof Hj as (o & Ho & ->)%fmap_Some.
  destruct (object_job_inv _ (ri_cells _ Hi _ _ Ho)) as [count Hc].
  destruct (finished_terminal _ _ Hc Hf) as [Ht _]. exists (c_job (o_cell o)). by split_and!.
Qed.

(** ** [Stop] *)

Definition cancelled (l : loc) (w : world) : world := with_heap (alter cancel_object l (w_heap w)) w.

Definition stop_guar (l : loc) (w w' : world) : Prop := w' = w ∨ w' = cancelled l w.

Lemma cancelled_same_jobs l w : same_jobs w (cancelled l w).
Proof.
  constructor; cbn; try done. apply Forall2_same_length_lookup_2; [by rewrite length_alter|].
  intros i o o' Ho Ho'. destruct (decide (i = l)) as [->|Hne].
  - rewrite list_lookup_alter_eq, Ho in Ho'. cbn in Ho'. injection Ho' as <-. split; [done|].
    exists [DoCancel]. cbn. by destruct (o_cell o).
  - rewrite list_lookup_alter_ne in Ho' by done. replace o' with o by congruence. split; [done|reflexivity].
Qed.

Lemma stop_guar_evolves l w w' : stop_guar l w w' → evolves w w'.
Proof. intros [->| ->]; [reflexivity|]. apply same_jobs_evolves, cancelled_same_jobs. Qed.

(** [Stop] cancels the job it was called on and touches nothing else; what it
    answers is the final status of that job. *)
Lemma wp_Stop l w :
  fit (exists_at l) w →
  wp evolves (stop_guar l) (returns (λ s, fit (finished_with l s))) (Stop l) w.
Proof.
  intros Hw. unfold Stop. apply wp_bind, wp_atomically. intros w1 w2 [] Hr [= <-].
  split; [by right|].
  assert (fit (exists_at l) (cancelled l w1)) as H2.
  { eapply fit_evolves; [| |apply (stop_guar_evolves l w1); by right].
    - intros _ _ Hg. by apply exists_at_grows.
    - eapply fit_evolves; [|done|done]. intros _ _ Hg. by apply exists_at_grows. }
  apply wp_bind, wp_await. intros w3 [] Hr3 Hfin. split; [by left|].
  destruct (job_at l w3) as [j|] eqn:Hj; [|done]. cbn in Hfin.
  destruct (is_finished j) eqn:Hf; [|done].
  assert (fit (λ w, ∃ s, finished_with l s w) w3) as H3.
  { intros Hf3. destruct (fit_evolves (exists_at l) _ w3 ltac:(intros _ _ Hg; by apply exists_at_grows) H2 Hr3 Hf3)
      as [Hi _]. split; [done|]. eexists. by apply job_at_finished. }
  apply wp_await. intros w4 s Hr4 Hs. split; [by left|]. cbn.
  assert (fit (λ w, ∃ s, finished_with l s w) w4) as H4.
  { eapply fit_evolves; [|done|done]. intros Hi _ Hg [s' Hs']. exists s'. by eapply finished_with_grows. }
  eapply fit_mono; [|exact H4]. intros _ (s' & j' & Hj' & Hf' & Hs' & Ht). rewrite Hj' in Hs. cbn in Hs.
  injection Hs as <-. exists j'. split_and!; [done|done|done|congruence].
Qed.

(** ** [Shutdown] *)

Definition shutdown_guar (w w' : world) : Prop :=
  w' = (Shutdown_snapshot w).1 ∨ ∃ l, stop_guar l w w'.

Lemma snapshot_same_jobs w : same_jobs w (Shutdown_snapshot w).1.
Proof.
  constructor; cbn; try done. apply Forall2_same_length_lookup_2; [done|].
  intros i o o' Ho Ho'. replace o' with o by congruence. split; [done|reflexivity].
Qed.

Lemma shutdown_guar_evolves w w' : shutdown_guar w w' → evolves w w'.
Proof.
  intros [->|[l H]]; [apply same_jobs_evolves, snapshot_same_jobs|by eapply stop_guar_evolves].
Qed.

(** The snapshot misses no job and holds nothing else. *)
Lemma snapshot_complete w l :
  registry_inv w → l ∈ (Shutdown_snapshot w).2 ↔ l < length (w_heap w).
Proof.
  intros Hi. cbn. rewrite list_elem_of_bind. split.
  - intros (rec & Hl & Hr). apply list_elem_of_fmap in Hr as ([a rec'] & -> & Hr%elem_of_map_to_list).
    unfold allJobs in Hl. apply list_elem_of_fmap in Hl as ([id l'] & -> & Hl%elem_of_map_to_list). cbn in *.
    destruct (ri_minted _ Hi _ _ _ _ Hr Hl) as (n & j & _ & _ & Hj & _). by eapply job_at_lt.
  - intros Hl. destruct (ri_owned _ Hi l Hl) as (a & id & (rec & Hr & Hl')%Find_record).
    exists rec. split.
    + unfold allJobs. apply list_elem_of_fmap. exists (id, l). split; [done|]. by apply elem_of_map_to_list.
    + apply list_elem_of_fmap. exists (a, rec). split; [done|]. by apply elem_of_map_to_list.
Qed.

(** The registry is closed and every job in it has finished. *)
Definition drained (w : world) : Prop :=
  isAcceptingJobs (w_registry w) = false ∧ ∀ l, l < length (w_heap w) → ∃ s, finished_with l s w.

Lemma finished_stable l : stable evolves (fit (λ w, ∃ s, finished_with l s w)).
Proof. apply fit_stable. intros w w' Hi _ Hg [s Hs]. exists s. by eapply finished_with_grows. Qed.

(** The registry is closed and [locs] are all its jobs. *)
Definition closed_with (locs : list loc) (w : world) : Prop :=
  isAcceptingJobs (w_registry w) = false ∧ ∀ l, l < length (w_heap w) → l ∈ locs.

Lemma closed_stable locs : stable evolves (fit (closed_with locs)).
Proof.
  apply fit_stable. intros w w' _ _ Hg [Hc Hl]. destruct (gr_closed _ _ Hg Hc) as [? Hlen].
  split; [done|]. by rewrite Hlen.
Qed.

Lemma wp_stop_one l w :
  fit (exists_at l) w →
  wp evolves shutdown_guar (returns (λ _, fit (λ w, ∃ s, finished_with l s w)))
    (_ ← Stop l; mret tt) w.
Proof.
  intros Hw. apply wp_bind. eapply wp_mono; [|eapply wp_weaken; [done| |by apply wp_Stop]].
  - intros [s|] w'; [|done]. cbn. apply fit_mono. eauto.
  - intros. right. eauto.
Qed.

(** [Shutdown] returns with the registry closed and every job in it finished,
    whatever is created, stopped or read meanwhile. *)
Lemma wp_Shutdown w :
  fit (λ _, True) w → wp evolves shutdown_guar (returns (λ _, fit drained)) Shutdown w.
Proof.
  intros Hw. apply wp_bind, wp_atomically. intros w1 w2 locs Hr Hs.
  assert (shutdown_guar w1 w2) as Hg by (left; by rewrite Hs). split; [done|].
  assert (fit (λ _, True) w1) as H1 by (eapply fit_evolves; [|done|done]; done).
  assert (fit (closed_with locs) w2 ∧ Forall (λ l, fit (exists_at l) w2) locs) as [Hc Hl].
  { pose proof (shutdown_guar_evolves _ _ Hg) as He.
    assert (locs = (Shutdown_snapshot w1).2) as -> by by rewrite Hs.
    assert (w2 = (Shutdown_snapshot w1).1) as -> by by rewrite Hs. split.
    - intros Hf. destruct (H1 Hf) as [Hi _]. destruct (ev_grows _ _ He Hi Hf) as [Hi2 _].
      split; [done|]. split; [done|]. intros l Hl. by apply snapshot_complete.
    - apply Forall_forall. intros l Hl Hf. destruct (H1 Hf) as [Hi _].
      destruct (ev_grows _ _ He Hi Hf) as [Hi2 _]. split; [done|].
      apply (snapshot_complete w1 l Hi) in Hl. apply lookup_lt_is_Some in Hl as [o Ho].
      exists (c_job (o_cell o)). unfold job_at. cbn. by rewrite Ho. }
  refine (wp_mono _ _ _ _ _ _ _ (wp_frame _ _ shutdown_guar_evolves (fit (closed_with locs)) _ _ _
    (closed_stable locs) Hc (wp_par _ _ shutdown_guar_evolves
       ((λ l, fit (λ w, ∃ s, finished_with l s w)) <$> locs) _ _ _ _))).
  - intros [[]|] w' [Hcl HF]; [|done]. cbn in HF. intros Hf. destruct (Hcl Hf) as [Hi [Ha Hin]].
    split; [done|]. split; [done|]. intros l Hlt. rewrite Forall_fmap, Forall_forall in HF.
    by apply (HF l (Hin l Hlt)).
  - apply Forall_fmap, Forall_forall. intros l _. apply finished_stable.
  - apply Forall2_fmap_l, Forall2_fmap_r, Forall_Forall2_diag.
    eapply Forall_impl; [exact Hl|]. intros l. apply wp_stop_one.
Qed.

(** ** Properties *)

Lemma record_create_accepts ctx count r next done :
  (1 <= count <= MaxCount)%Z → is_ok (record_create ctx count r next done) = true.
Proof.
  intros Hc. destruct (record_create ctx count r next done) eqn:E; [done|].
  by apply record_create_Err in E as [? _].
Qed.

(** [Create]. It succeeds exactly when jobs are accepted and the count is in
    range. Then the id is new to everyone, finds the job for its agent and for
    nobody else, and every other lookup answers as before; the job is running,
    has no output, and ends with the caller's scope. Otherwise nothing changes
    and the error says which of the two it was. *)
Theorem Create_spec (ctx : Context) (a : AgentID) (count : Z) (w w' : world) (r : result JobID)
  (HI : registry_inv w) (HC : Create ctx a count w = (w', r)) (HF : fits w') :
  registry_inv w' ∧
  (is_ok r = true ↔ isAcceptingJobs (w_registry w) = true ∧ (1 <= count <= MaxCount)%Z) ∧
  match r with
  | Ok id =>
      (∀ b, Find b id w = None) ∧
      (∀ b id', Find b id' w' = if decide (b = a ∧ id' = id) then Some (length (w_heap w)) else Find b id' w) ∧
      ∃ o, w_heap w' = w_heap w ++ [o] ∧ o_parent o = scope_of ctx ∧ Job_ID (c_job (o_cell o)) = id ∧
        Job_Status (c_job (o_cell o)) = StatusRunning ∧ ticks (c_job (o_cell o)) = [] ∧
        ctx_err (c_job (o_cell o)) = Context_Err (w_done w) ctx
  | Err e => w' = w ∧
      Is e ErrNotAcceptingJobs = negb (isAcceptingJobs (w_registry w)) ∧
      Is e ErrInvalidCount = isAcceptingJobs (w_registry w)
  end.
Proof.
  destruct r as [id|e].
  - pose proof (Create_inv _ _ _ _ _ _ HC HI HF) as Hi'.
    pose proof (λ b id', Create_Find _ _ _ _ _ _ b id' HC HI HF) as Hfind.
    destruct (Create_Ok _ _ _ _ _ _ HC HI HF) as (o & rec & -> & Ha & Hc & Hid & _ & Hp & Hs).
    split_and!; [done|done|intros b|done|].
    + destruct (Find b id w) eqn:E; [|done]. rewrite Hid in E. by destruct (mint_fresh _ _ _ _ HI E).
    + destruct (job_start_fields _ _ _ _ _ _ Hs) as (? & _ & ? & ? & ? & _). by exists o.
  - pose proof (Create_Err _ _ _ _ _ _ HC) as ->. rewrite Create_unfold in HC.
    destruct (isAcceptingJobs (w_registry w)) eqn:Ha; cbn [negb] in HC.
    + destruct (record_create _ _ _ _ _) as [[[] ?]|e'] eqn:E; [done|]. injection HC as <-.
      apply record_create_Err in E as [Hc Hs]. rewrite !Is_errorf, !Hs. naive_solver.
    + injection HC as <-. split_and!; [done|naive_solver|done|done|done].
Qed.

(** The first job of an agent, from the world of a new registry. *)
Definition sample_world : world := mkWorld (New None) [] ∅ [] ∅.
Definition sample_ctx : Context := mkContext None (Some "smith") None.

Lemma sample_world_inv : registry_inv sample_world.
Proof.
  constructor; cbn; [intros a rec; by rewrite lookup_empty|intros a rec id l; by rewrite lookup_empty|lia|].
  intros l o. by rewrite lookup_nil.
Qed.

Lemma Create_spec_witness :
  registry_inv sample_world ∧ registry_inv (Create sample_ctx "smith" 3 sample_world).1 ∧
  Find "jones" "smith/0" sample_world = None.
Proof.
  split; [exact sample_world_inv|].
  destruct (Create_spec sample_ctx "smith" 3 sample_world (Create sample_ctx "smith" 3 sample_world).1 (Ok "smith/0")
    sample_world_inv) as (Hi & _ & Hn & _).
  - vm_compute. reflexivity.
  - apply Z.leb_le. vm_compute. reflexivity.
  - split; [exact Hi|]. apply Hn.
Defined.

End registry.
