(* ===== verification/Ticks.v ===== *)
(** * Reading a job's output: [Job.Ticks] of [internal/worker/job.go]

    [Ticks] is the body of the iterator [Job.Ticks] returns, as a machine over
    its program points: one critical section that captures the new ticks and the
    channel to wait on, one step per tick yielded to the consumer, and the
    select. Any number of readers run against one job; the job keeps nothing
    about them. *)

From S2P Require Import Prelude GoStrings GoErrors Slog Job JobInvariant JobProperties.

Module worker_ticks.
Import worker worker_spec.

(** The three [return] statements of the iterator. *)
Inductive return_site := YieldRefused | TerminalYielded | ContextDone.

(** Where the iterator is about to act. *)
Inductive iter_pc :=
| AtLock (cursor : nat)
| AtYield (cursor : nat) (tick : Tick) (rest : list Tick)
| AtWait (cursor : nat) (wait : chan)
| Returned (site : return_site).

(** [yielded] is what the consumer has been handed so far. *)
Record reader := mkReader { r_pc : iter_pc; yielded : list Tick }.

Definition Ticks_start : reader := mkReader (AtLock 0) [].

(** What the iterator cannot decide itself: the consumer's answer to a yield,
    and which ready arm the select takes. *)
Inductive reader_event :=
| Step
| Consume (wants_more : bool)
| Wake
| ReaderCtxDone.

(** After the last tick of a batch, the loop re-checks before blocking. *)
Definition next_of_batch (cursor : nat) (rest : list Tick) : iter_pc :=
  match rest with
  | [] => AtLock cursor
  | tick :: rest => AtYield cursor tick rest
  end.

Definition Ticks_step (ev : reader_event) (j : Job) (r : reader) : option reader :=
  match r_pc r, ev with
  | AtLock cursor, Step =>
      let newTicks := drop cursor (ticks j) in
      let cursor := length (ticks j) in
      let wait := changed j in
      match newTicks with
      | [] => Some (mkReader (AtWait cursor wait) (yielded r))
      | tick :: rest => Some (mkReader (AtYield cursor tick rest) (yielded r))
      end
  | AtYield cursor tick rest, Consume wants_more =>
      let out := yielded r ++ [tick] in
      if negb wants_more then Some (mkReader (Returned YieldRefused) out)
      else if IsTerminal tick then Some (mkReader (Returned TerminalYielded) out)
      else Some (mkReader (next_of_batch cursor rest) out)
  | AtWait cursor wait, Wake =>
      if is_closed (chans j) wait then Some (mkReader (AtLock cursor) (yielded r)) else None
  | AtWait _ _, ReaderCtxDone => Some (mkReader (Returned ContextDone) (yielded r))
  | _, _ => None
  end.

(** ** A job and all its readers *)

Record stage := mkStage { s_cell : cell; s_readers : gmap nat reader }.

Inductive stage_event :=
| OfJob (a : action)
| Open (r : nat)
| OfReader (r : nat) (ev : reader_event).

Definition stage_step (ev : stage_event) (s : stage) : option stage :=
  match ev with
  | OfJob a => c ← job_step a (s_cell s); Some (mkStage c (s_readers s))
  | Open r =>
      match s_readers s !! r with
      | None => Some (mkStage (s_cell s) (<[r:=Ticks_start]> (s_readers s)))
      | Some _ => None
      end
  | OfReader r ev =>
      rd ← s_readers s !! r;
      rd' ← Ticks_step ev (c_job (s_cell s)) rd;
      Some (mkStage (s_cell s) (<[r:=rd']> (s_readers s)))
  end.

Fixpoint stage_run (l : list stage_event) (s : stage) : option stage :=
  match l with
  | [] => Some s
  | ev :: l => s ← stage_step ev s; stage_run l s
  end.

(** ** The reader invariant *)

Definition no_terminal (ts : list Tick) : Prop := Forall (λ t, IsTerminal t = false) ts.

(** What a reader knows of the job it reads: it has been handed a prefix of the
    buffer, nothing terminal before it returned, and a channel it waits on that
    is still open means that it has seen everything. *)
Definition reader_inv (j : Job) (r : reader) : Prop :=
  match r_pc r with
  | AtLock cursor =>
      yielded r = take cursor (ticks j) ∧ cursor ≤ length (ticks j) ∧ no_terminal (yielded r)
  | AtYield cursor tick rest =>
      yielded r ++ tick :: rest = take cursor (ticks j) ∧ cursor ≤ length (ticks j)
      ∧ no_terminal (yielded r)
  | AtWait cursor wait =>
      yielded r = take cursor (ticks j) ∧ cursor ≤ length (ticks j) ∧ no_terminal (yielded r) ∧
      wait < length (chans j) ∧
      (is_closed (chans j) wait = false →
         cursor = length (ticks j) ∧ wait = changed j ∧ status j = StatusRunning)
  | Returned TerminalYielded => ∃ t, last (yielded r) = Some t ∧ IsTerminal t = true
      ∧ yielded r `prefix_of` ticks j
  | Returned _ => yielded r `prefix_of` ticks j
  end.

(** The steps of a job that a reader can notice: the buffer only grows, closed
    channels stay closed, and a new tick closes the channel readers wait on. *)
Record job_grows (j j' : Job) : Prop := {
  jg_ticks : ticks j `prefix_of` ticks j';
  jg_chans : length (chans j) ≤ length (chans j');
  jg_closed : ∀ c, is_closed (chans j) c = true → is_closed (chans j') c = true;
  jg_signal : is_closed (chans j') (changed j) = false →
    ticks j' = ticks j ∧ changed j' = changed j ∧ status j' = status j;
}.

Lemma job_grows_refl j : job_grows j j.
Proof. constructor; auto. Qed.

Lemma take_prefix_of (ts ts' : list Tick) n :
  ts `prefix_of` ts' → n ≤ length ts → take n ts' = take n ts.
Proof. intros [k ->] H. rewrite take_app_le; [done|lia]. Qed.

Lemma reader_inv_grows j j' r : job_grows j j' → reader_inv j r → reader_inv j' r.
Proof.
  intros [Ht Hch Hcl Hsig]. pose proof (prefix_length _ _ Ht) as Hlen. unfold reader_inv.
  destruct (r_pc r) as [cursor|cursor tick rest|cursor wait|[]].
  - intros (Hy & Hc & Hn). rewrite (take_prefix_of _ _ _ Ht Hc). split_and!; [done|lia|done].
  - intros (Hy & Hc & Hn). rewrite (take_prefix_of _ _ _ Ht Hc). split_and!; [done|lia|done].
  - intros (Hy & Hc & Hn & Hw & Ho). rewrite (take_prefix_of _ _ _ Ht Hc).
    split_and!; [done|lia|done|lia|]. intros Hopen.
    destruct (is_closed (chans j) wait) eqn:Hold; [by rewrite (Hcl _ Hold) in Hopen|].
    destruct (Ho eq_refl) as (-> & -> & Hs). destruct (Hsig Hopen) as (-> & -> & ->). done.
  - intros Hp. by etrans.
  - intros (t & ? & ? & ?). exists t. split_and!; [done|done|]. by etrans.
  - intros Hp. by etrans.
Qed.

Lemma is_closed_app cs c : is_closed cs c = true → is_closed (cs ++ [false]) c = true.
Proof.
  unfold is_closed. intros H. destruct (cs !! c) as [b|] eqn:E; [|done].
  by rewrite (lookup_app_l_Some _ _ _ _ E).
Qed.

Lemma is_closed_close cs c d : is_closed cs d = true → is_closed (<[c:=true]> cs) d = true.
Proof.
  unfold is_closed. intros H. destruct (cs !! d) as [b|] eqn:E; [|done]. cbn in H. subst b.
  destruct (decide (c = d)) as [->|Hne].
  - rewrite list_lookup_insert_eq; [done|]. by eapply lookup_lt_Some.
  - by rewrite list_lookup_insert_ne, E.
Qed.

Lemma closed_after_close cs c b : cs !! c = Some b → is_closed (<[c:=true]> cs) c = true.
Proof.
  intros H. unfold is_closed. rewrite list_lookup_insert_eq; [done|]. by eapply lookup_lt_Some.
Qed.

Lemma report_grows j t p :
  chan_inv j p → status j = StatusRunning → job_grows j (reportProgress t j).1.
Proof.
  intros Hch Hs. pose proof (running_changed _ _ Hch Hs) as Ho.
  rewrite (reportProgress_running _ _ Hs Ho). cbn. constructor; cbn.
  - by apply prefix_app_r.
  - rewrite length_app, length_insert. lia.
  - intros c Hc. by apply is_closed_app, is_closed_close.
  - intros Hc. by rewrite (is_closed_app _ _ (closed_after_close _ _ _ Ho)) in Hc.
Qed.

Lemma setTerminal_grows j st t p :
  chan_inv j p → job_grows j (setTerminal st t j).1.
Proof.
  intros Hch. destruct (decide (status j = StatusRunning)) as [Hs|Hs].
  - pose proof (running_changed _ _ Hch Hs) as Ho.
    rewrite (setTerminal_running _ _ _ Hs Ho). cbn. constructor; cbn.
    + by apply prefix_app_r.
    + by rewrite length_insert.
    + intros c Hc. by apply is_closed_close.
    + intros Hc. by rewrite (closed_after_close _ _ _ Ho) in Hc.
  - rewrite (setTerminal_terminal _ _ _ Hs). apply job_grows_refl.
Qed.

Lemma cancel_grows e j : job_grows j (cancel_with e j).
Proof. unfold cancel_with. destruct (ctx_err j); [apply job_grows_refl|]. by constructor. Qed.

Lemma close_finished_grows j cs :
  close_chan (chans j) (finished j) = Some cs → job_grows j (with_changed (changed j) cs j).
Proof.
  unfold close_chan. destruct (chans j !! finished j) as [[]|]; [done| |done]. intros [= <-].
  constructor; cbn; try done.
  - by rewrite length_insert.
  - intros c Hc. by apply is_closed_close.
Qed.

Lemma countdown_step_grows count ev j p j' p' recs :
  chan_inv j p → pc_inv count j p → countdown_step ev j p = Some (j', p', recs) → job_grows j j'.
Proof.
  intros Hch Hpc H. destruct p, ev; cbn in H; try done.
  - pose proof (report_grows j (mkProgress 0 count0) _ Hch (proj1 (proj2 Hpc))) as Hg.
    destruct (reportProgress _ j) as [j1 []]; cbn in *; by simplify_eq.
  - simplify_eq. apply job_grows_refl.
  - destruct (_ =? _)%Z in H; simplify_eq; apply job_grows_refl.
  - destruct (ctx_err j); simplify_eq; apply job_grows_refl.
  - simplify_eq. apply job_grows_refl.
  - pose proof (report_grows j tick _ Hch (proj1 (proj2 (proj2 Hpc)))) as Hg.
    destruct (reportProgress _ j) as [j1 []]; cbn in *; by simplify_eq.
  - pose proof (setTerminal_grows j terminalStatus lastTick _ Hch) as Hg.
    destruct (setTerminal _ _ j) as [j1 [[]|]]; cbn in *; by simplify_eq.
  - simplify_eq. apply job_grows_refl.
  - simplify_eq. apply job_grows_refl.
  - destruct (close_chan _ _) eqn:E; simplify_eq; [by apply close_finished_grows|apply job_grows_refl].
  - simplify_eq. apply cancel_grows.
Qed.

Lemma job_step_grows count a c c' :
  job_inv count c → job_step a c = Some c' → job_grows (c_job c) (c_job c').
Proof.
  intros [_ _ _ Hch Hpc] H. destruct c as [j p log]. destruct a as [ev| |e]; cbn in H.
  - destruct (countdown_step ev j p) as [[[j' p'] recs]|] eqn:E; [|done]. cbn in H. simplify_eq.
    by eapply countdown_step_grows.
  - simplify_eq. apply cancel_grows.
  - simplify_eq. apply cancel_grows.
Qed.

(** ** A closed channel means new ticks *)

(** A step leaves the channel readers wait on alone, or appends a tick. *)
Definition signals (j j' : Job) : Prop :=
  is_closed (chans j') (changed j) = is_closed (chans j) (changed j) ∨
  length (ticks j) < length (ticks j').

Lemma report_signals j t : signals j (reportProgress t j).1.
Proof.
  unfold reportProgress. destruct (_ =? _)%string; [|by left]. right. cbn.
  destruct (close_chan _ _); cbn; rewrite length_app; cbn; lia.
Qed.

Lemma setTerminal_signals j st t : signals j (setTerminal st t j).1.
Proof.
  unfold setTerminal. destruct (negb _); [by left|]. right. cbn.
  destruct (close_chan _ _); cbn; rewrite length_app; cbn; lia.
Qed.

Lemma cancel_signals e j : signals j (cancel_with e j).
Proof. left. unfold cancel_with. by destruct (ctx_err j). Qed.

Lemma countdown_step_signals ev j p j' p' recs :
  chan_inv j p → countdown_step ev j p = Some (j', p', recs) → signals j j'.
Proof.
  intros Hch H. destruct p, ev; cbn in H; simplify_eq; try by left.
  - pose proof (report_signals j (mkProgress 0 count)) as Hs.
    destruct (reportProgress _ j) as [j1 []]; cbn in *; by simplify_eq.
  - destruct (_ =? _)%Z in H; simplify_eq; by left.
  - destruct (ctx_err j); simplify_eq; by left.
  - pose proof (report_signals j tick) as Hs.
    destruct (reportProgress _ j) as [j1 []]; cbn in *; by simplify_eq.
  - pose proof (setTerminal_signals j terminalStatus lastTick) as Hs.
    destruct (setTerminal _ _ j) as [j1 [[]|]]; cbn in *; by simplify_eq.
  - destruct (close_chan _ _) as [cs|] eqn:E; simplify_eq; [|by left]. left. cbn.
    unfold close_chan in E. destruct (chans j !! finished j) as [[]|]; simplify_eq.
    unfold is_closed. rewrite list_lookup_insert_ne; [done|]. intros Heq. by destruct (ci_distinct _ _ Hch).
  - apply cancel_signals.
Qed.

Lemma job_step_signals count a c c' :
  job_inv count c → job_step a c = Some c' → signals (c_job c) (c_job c').
Proof.
  intros [_ _ _ Hch _] H. destruct c as [j p log]. destruct a as [ev| |e]; cbn in H.
  - destruct (countdown_step ev j p) as [[[j' p'] recs]|] eqn:E; [|done]. cbn in H. simplify_eq.
    by eapply countdown_step_signals.
  - simplify_eq. apply cancel_signals.
  - simplify_eq. apply cancel_signals.
Qed.

(** A reader whose channel is closed has ticks to read. *)
Definition wake_inv (j : Job) (r : reader) : Prop :=
  match r_pc r with
  | AtWait cursor wait => is_closed (chans j) wait = true → cursor < length (ticks j)
  | _ => True
  end.

Lemma job_step_reader count a c c' r :
  job_inv count c → job_step a c = Some c' → reader_inv (c_job c) r → wake_inv (c_job c) r →
  reader_inv (c_job c') r ∧ wake_inv (c_job c') r.
Proof.
  intros Hi H Hr Hw. pose proof (job_step_grows _ _ _ _ Hi H) as Hg.
  split; [by eapply reader_inv_grows|]. unfold wake_inv, reader_inv in *.
  destruct (r_pc r) as [| |cursor wait|]; try done. intros Hc.
  pose proof (prefix_length _ _ (jg_ticks _ _ Hg)).
  destruct (is_closed (chans (c_job c)) wait) eqn:Eo; [specialize (Hw eq_refl); lia|].
  destruct Hr as (_ & _ & _ & _ & Ho). destruct (Ho eq_refl) as (-> & -> & _).
  destruct (job_step_signals _ _ _ _ Hi H); [congruence|done].
Qed.

Lemma job_run_reader count l c c' r :
  job_inv count c → job_run l c = Some c' → reader_inv (c_job c) r → wake_inv (c_job c) r →
  reader_inv (c_job c') r ∧ wake_inv (c_job c') r.
Proof.
  revert c. induction l as [|a l IH]; intros c Hi H Hr Hw; cbn in H; [by simplify_eq|].
  destruct (job_step a c) as [c1|] eqn:E; [|done].
  destruct (job_step_reader _ _ _ _ _ Hi E Hr Hw).
  apply (IH c1); [by eapply job_step_ok|done..].
Qed.

(** ** The reader's own steps *)

Lemma no_terminal_snoc ts t : no_terminal ts → IsTerminal t = false → no_terminal (ts ++ [t]).
Proof. intros. apply Forall_app. split; [done|]. by constructor. Qed.

Lemma open_changed_running j p :
  chan_inv j p → is_closed (chans j) (changed j) = false → status j = StatusRunning.
Proof.
  intros [Hc _ _] H. unfold is_closed in H. rewrite Hc in H. cbn in H. by reflect; apply String.eqb_eq.
Qed.

Lemma Ticks_step_inv j p r ev r' :
  chan_inv j p → reader_inv j r → Ticks_step ev j r = Some r' → reader_inv j r'.
Proof.
  intros Hch Hr H. destruct r as [rp out]. unfold reader_inv in Hr. cbn in Hr.
  destruct rp as [cursor|cursor tick rest|cursor wait|site], ev; cbn in H; try done.
  - destruct Hr as (Hy & Hc & Hn). pose proof (take_drop cursor (ticks j)) as Htd.
    destruct (drop cursor (ticks j)) as [|t ts] eqn:Hd; simplify_eq; unfold reader_inv; cbn.
    + rewrite app_nil_r in Htd. rewrite Htd, take_ge by lia.
      pose proof (lookup_lt_Some _ _ _ (ci_changed _ _ Hch)).
      split_and!; try done; [by rewrite <-Htd|]. intros Ho. split_and!; [done|done|].
      by eapply open_changed_running.
    + rewrite (take_ge (ticks j) (length (ticks j))) by lia. done.
  - destruct Hr as (Hy & Hc & Hn).
    assert (out ++ [tick] `prefix_of` ticks j) as Hp.
    { exists (rest ++ drop cursor (ticks j)). rewrite <-(app_assoc out). cbn.
      change (tick :: rest ++ drop cursor (ticks j)) with ((tick :: rest) ++ drop cursor (ticks j)).
      by rewrite app_assoc, Hy, take_drop. }
    destruct wants_more; cbn in H; [|by simplify_eq].
    destruct (IsTerminal tick) eqn:Ht; simplify_eq; unfold reader_inv; cbn.
    + exists tick. rewrite last_snoc. done.
    + destruct rest as [|t rest]; cbn; split_and!; try done; try (by apply no_terminal_snoc).
      rewrite <-app_assoc. done.
  - destruct Hr as (Hy & Hc & Hn & Hw & Ho).
    destruct (is_closed (chans j) wait); simplify_eq. unfold reader_inv. cbn. done.
  - destruct Hr as (Hy & Hc & Hn & Hw & Ho). simplify_eq. unfold reader_inv. cbn.
    apply prefix_take.
Qed.

(** ** The invariant of the stage *)

Record stage_inv (count : Z) (s : stage) : Prop := {
  si_job : job_inv count (s_cell s);
  si_readers : map_Forall (λ _, reader_inv (c_job (s_cell s))) (s_readers s);
}.

Lemma Ticks_start_inv j : reader_inv j Ticks_start.
Proof. unfold reader_inv. cbn. split_and!; [done|lia|constructor]. Qed.

Lemma stage_step_inv count ev s s' : stage_inv count s → stage_step ev s = Some s' → stage_inv count s'.
Proof.
  intros [Hj Hr] H. destruct s as [c rs]. destruct ev as [a|r|r ev]; cbn in *.
  - destruct (job_step a c) as [c'|] eqn:E; cbn in H; [|done]. simplify_eq.
    constructor; cbn; [by eapply job_step_ok|]. intros i rd Hi.
    eapply reader_inv_grows; [by eapply job_step_grows|]. by apply (Hr i).
  - destruct (rs !! r); simplify_eq. constructor; cbn; [done|].
    apply map_Forall_insert_2; [apply Ticks_start_inv|done].
  - destruct (rs !! r) as [rd|] eqn:Er; cbn in H; [|done].
    destruct (Ticks_step ev (c_job c) rd) as [rd'|] eqn:E; cbn in H; [|done]. simplify_eq.
    constructor; cbn; [done|]. apply map_Forall_insert_2; [|done].
    eapply Ticks_step_inv; [apply Hj|by apply (Hr r)|done].
Qed.

Lemma stage_run_inv count l s s' : stage_inv count s → stage_run l s = Some s' → stage_inv count s'.
Proof.
  revert s. induction l as [|ev l IH]; intros s Hi H; cbn in H; [by simplify_eq|].
  destruct (stage_step ev s) as [s1|] eqn:E; [|done]. eapply IH; [|done]. by eapply stage_step_inv.
Qed.

Lemma job_start_stage parent jobID count mean lg c :
  job_start parent jobID count mean lg c → stage_inv count (mkStage c ∅).
Proof. intros H. constructor; [by eapply job_start_inv|]. apply map_Forall_empty. Qed.

(** ** Complete delivery *)

Lemma terminal_tick_is_last count j ts t :
  well_ticked count (abs_of j) → ts ++ [t] `prefix_of` ticks j → IsTerminal t = true →
  ticks j = ts ++ [t] ∧ terminal (status j).
Proof.
  intros Hw [k Hk] Ht. destruct Hw as [(_ & Hc & Hl)|(ps & t' & Hp & Hc & Hl & Hr & _)]; cbn in *.
  - assert (t ∈ ticks j) as Hin by (rewrite Hk, !elem_of_app, list_elem_of_singleton; auto).
    by rewrite (counting_not_terminal _ _ _ Hc Hl Hin) in Ht.
  - destruct (reports_terminal _ _ Hr) as [? _]. split; [|done].
    destruct k as [|x k _] using rev_ind; [by rewrite app_nil_r in Hk|].
    rewrite Hp, app_assoc in Hk. apply app_inj_2 in Hk as [Hps _]; [|done].
    assert (t ∈ ps) as Hin by (rewrite Hps, !elem_of_app, list_elem_of_singleton; auto).
    by rewrite (counting_not_terminal _ _ _ Hc Hl Hin) in Ht.
Qed.

Lemma returned_all count j r :
  well_ticked count (abs_of j) → reader_inv j r → r_pc r = Returned TerminalYielded →
  yielded r = ticks j ∧ terminal (status j).
Proof.
  intros Hw Hr Hp. unfold reader_inv in Hr. rewrite Hp in Hr. destruct Hr as (t & Hl & Ht & Hpre).
  apply last_Some in Hl as [ts Hts]. rewrite Hts in *.
  by destruct (terminal_tick_is_last _ _ _ _ Hw Hpre Ht) as [-> ?].
Qed.

(** A reader whose consumer always wants more, of a job that has ended. *)
Definition eager_event (p : iter_pc) : reader_event :=
  match p with AtLock _ => Step | AtYield _ _ _ => Consume true | _ => Wake end.

Fixpoint reader_run (l : list reader_event) (j : Job) (r : reader) : option reader :=
  match l with
  | [] => Some r
  | ev :: l => r ← Ticks_step ev j r; reader_run l j r
  end.

Definition reads_left (j : Job) (p : iter_pc) : nat :=
  let n := length (ticks j) in
  match p with
  | AtLock cursor => 2 + 2 * (n - cursor)
  | AtYield cursor _ rest => 3 + length rest + 2 * (n - cursor)
  | AtWait cursor _ => 3 + 2 * (n - cursor)
  | Returned _ => 0
  end.

Lemma all_seen_not_terminal count j cursor ts :
  well_ticked count (abs_of j) → terminal (status j) → ts = take cursor (ticks j) →
  cursor ≤ length (ticks j) → no_terminal ts → cursor < length (ticks j).
Proof.
  intros [(Hs & _)|(ps & t & Hp & _ & _ & Hr & _)] Ht Hts Hc Hn.
  { by apply terminal_not_running in Ht. }
  destruct (decide (cursor = length (ticks j))) as [->|]; [|lia].
  rewrite take_ge in Hts by lia. cbn in Hp. rewrite Hp in Hts. rewrite Hts in Hn.
  destruct (reports_terminal _ _ Hr) as [_ Hx]. apply Forall_app in Hn as [_ Hn].
  apply Forall_cons in Hn as [Hn _]. cbn in Hn. by rewrite Hx in Hn.
Qed.

(** A reader that starts to wait on a closed channel does not exist: it would
    have read the terminal tick. *)
Lemma Ticks_step_wake count c r ev r' :
  job_inv count c → reader_inv (c_job c) r → Ticks_step ev (c_job c) r = Some r' → wake_inv (c_job c) r'.
Proof.
  intros [_ Hw _ Hch _] Hr H. pose proof (Ticks_step_inv _ _ _ _ _ Hch Hr H) as Hr'.
  unfold wake_inv. destruct r' as [[| |cursor wait|] out']; try done. cbn. intros Hc.
  assert (wait = changed (c_job c)) as ->.
  { destruct r as [[cur|cur tick rest|cur w|site] out], ev; cbn in H; try done.
    - destruct (drop cur _); by simplify_eq.
    - destruct wants_more; cbn in H; [|done]. destruct (IsTerminal tick); [done|].
      destruct rest; cbn in H; by simplify_eq.
    - destruct (is_closed _ _); by simplify_eq. }
  destruct Hr' as (Hy & Hl & Hn & _). unfold is_closed in Hc. rewrite (ci_changed _ _ Hch) in Hc. cbn in *.
  destruct (String.eqb_spec (status (c_job c)) StatusRunning) as [|Hs]; [done|].
  assert (terminal (status (c_job c))) as Ht.
  { destruct Hw as [(? & _)|(ps & t & _ & _ & _ & Hrep & _)]; [done|]. by apply reports_terminal in Hrep as [? _]. }
  by eapply all_seen_not_terminal.
Qed.

Lemma eager_step count c r :
  job_inv count c → terminal (status (c_job c)) → reader_inv (c_job c) r →
  reads_left (c_job c) (r_pc r) ≠ 0 →
  ∃ r', Ticks_step (eager_event (r_pc r)) (c_job c) r = Some r' ∧
        reads_left (c_job c) (r_pc r') < reads_left (c_job c) (r_pc r) ∧
        r_pc r' ≠ Returned YieldRefused ∧ r_pc r' ≠ Returned ContextDone.
Proof.
  intros [_ Hw _ Hch _] Ht Hr Hn. destruct c as [j p log]. cbn in *.
  destruct r as [rp out]. unfold reader_inv in Hr.
  destruct rp as [cursor|cursor tick rest|cursor wait|site]; cbn in *; [| | |done].
  - destruct Hr as (Hy & Hc & Hnt). pose proof (all_seen_not_terminal _ _ _ _ Hw Ht Hy Hc Hnt) as Hlt.
    pose proof (length_drop (ticks j) cursor) as Hd.
    destruct (drop cursor (ticks j)) as [|t ts] eqn:E; cbn in Hd; [lia|].
    eexists. split; [reflexivity|]. cbn. rewrite Nat.sub_diag. split_and!; [lia|done|done].
  - destruct (IsTerminal tick); eexists; (split; [reflexivity|]); cbn.
    + split_and!; [lia|done|done].
    + destruct rest; cbn; split_and!; try done; lia.
  - destruct Hr as (Hy & Hc & Hnt & Hwait & Ho). destruct (is_closed (chans j) wait) eqn:E.
    + eexists. split; [reflexivity|]. cbn. split_and!; [lia|done|done].
    + destruct (Ho eq_refl) as (_ & _ & Hs). by apply terminal_not_running in Ht.
Qed.

Lemma eager_run count n c r :
  job_inv count c → terminal (status (c_job c)) → reader_inv (c_job c) r →
  r_pc r ≠ Returned YieldRefused → r_pc r ≠ Returned ContextDone →
  reads_left (c_job c) (r_pc r) ≤ n →
  ∃ l r', length l ≤ n ∧ Forall (λ ev, ev = Step ∨ ev = Consume true ∨ ev = Wake) l ∧
          reader_run l (c_job c) r = Some r' ∧ r_pc r' = Returned TerminalYielded.
Proof.
  intros Hj Ht. revert r. induction n as [|n IH]; intros r Hr H1 H2 Hn;
    (destruct (decide (reads_left (c_job c) (r_pc r) = 0)) as [H0|H0];
      [exists [], r; split_and!; [cbn; lia|constructor|done|]; by destruct (r_pc r) as [| | |[]]|]); [lia|].
  destruct (eager_step count c r Hj Ht Hr H0) as (r1 & E & Hlt & H1' & H2').
  assert (reader_inv (c_job c) r1) as Hr1 by (eapply Ticks_step_inv; [apply Hj|exact Hr|exact E]).
  destruct (IH r1 Hr1 H1' H2') as (l & r' & Hl & Hf & HR & Hret); [lia|].
  exists (eager_event (r_pc r) :: l), r'. split_and!; [cbn; lia| |cbn [reader_run]; by rewrite E|done].
  constructor; [|done]. destruct (r_pc r); cbn; auto.
Qed.

Lemma reader_run_inv l j p r r' :
  chan_inv j p → reader_inv j r → reader_run l j r = Some r' → reader_inv j r'.
Proof.
  revert r. induction l as [|ev l IH]; intros r Hch Hr H; cbn in H; [by simplify_eq|].
  destruct (Ticks_step ev j r) as [r1|] eqn:E; [|done]. eapply (IH r1); [done| |done].
  by eapply Ticks_step_inv.
Qed.

(** ** Properties *)

Section stages.
Context (parent : option error) (jobID : JobID) (count mean : Z) (lg : option slog.Logger).
Context (c0 : cell) (l : list stage_event) (s : stage).

Lemma run_stage_inv :
  job_start parent jobID count mean lg c0 → stage_run l (mkStage c0 ∅) = Some s → stage_inv count s.
Proof. intros HS HR. eapply stage_run_inv; [|exact HR]. by eapply job_start_stage. Qed.

(** Every reader, however many there are and whatever they and the job
    do, has been handed exactly a prefix of the job's output, in order, from its
    start, with nothing repeated; one that returned on its own, rather than
    because its consumer or its context gave up, has been handed all of it, and
    the job has ended. *)
Theorem reader_gets_prefix (i : nat) (r : reader)
  (HS : job_start parent jobID count mean lg c0) (HR : stage_run l (mkStage c0 ∅) = Some s)
  (HI : s_readers s !! i = Some r) :
  let j := c_job (s_cell s) in
  yielded r `prefix_of` ticks j ∧
  (r_pc r = Returned TerminalYielded → yielded r = ticks j ∧ terminal (status j)).
Proof.
  destruct (run_stage_inv HS HR) as [Hj Hrs]. pose proof (Hrs i r HI) as Hr. cbv zeta. split.
  - unfold reader_inv in Hr. destruct (r_pc r) as [cursor|cursor tick rest|cursor wait|[]].
    + destruct Hr as (-> & _). apply prefix_take.
    + destruct Hr as (Hy & _). etrans; [|apply (prefix_take (ticks (c_job (s_cell s))) cursor)].
      rewrite <-Hy. by apply prefix_app_r.
    + destruct Hr as (-> & _). apply prefix_take.
    + done.
    + by destruct Hr as (t & _ & _ & ?).
    + done.
  - intros Hp. eapply returned_all; [apply Hj|exact Hr|exact Hp].
Qed.

(** No wake-up is lost: a reader suspended on a channel that is still
    open has been handed every tick there is and its job is still running; as
    soon as there is a tick it has not seen, or the job has ended, its channel is
    closed and the select can proceed. *)
Theorem no_lost_wakeup (i : nat) (r : reader) (cursor : nat) (wait : chan)
  (HS : job_start parent jobID count mean lg c0) (HR : stage_run l (mkStage c0 ∅) = Some s)
  (HI : s_readers s !! i = Some r) (HW : r_pc r = AtWait cursor wait) :
  let j := c_job (s_cell s) in
  (is_closed (chans j) wait = false → yielded r = ticks j ∧ status j = StatusRunning) ∧
  (yielded r ≠ ticks j ∨ status j ≠ StatusRunning → is_Some (Ticks_step Wake j r)).
Proof.
  destruct (run_stage_inv HS HR) as [Hj Hrs]. pose proof (Hrs i r HI) as Hr.
  unfold reader_inv in Hr. rewrite HW in Hr. destruct Hr as (Hy & Hc & _ & _ & Ho). cbv zeta.
  assert (is_closed (chans (c_job (s_cell s))) wait = false →
    yielded r = ticks (c_job (s_cell s)) ∧ status (c_job (s_cell s)) = StatusRunning) as Hopen.
  { intros H. destruct (Ho H) as (-> & _ & ?). rewrite Hy, take_ge by lia. done. }
  split; [exact Hopen|]. intros Hne. destruct r as [rp out]. cbn in *. subst rp. cbn.
  destruct (is_closed _ wait); [eauto|]. destruct (Hopen eq_refl), Hne; done.
Qed.

(** No output is missed: once a job has ended, a reader that has not
    given up, wherever it is, is handed the whole output within
    [3 + 3 * length ticks] of its own steps, and then returns. *)
Theorem reader_drains (i : nat) (r : reader)
  (HS : job_start parent jobID count mean lg c0) (HR : stage_run l (mkStage c0 ∅) = Some s)
  (HI : s_readers s !! i = Some r)
  (HT : status (c_job (s_cell s)) ≠ StatusRunning)
  (HG : r_pc r ≠ Returned YieldRefused ∧ r_pc r ≠ Returned ContextDone) :
  let j := c_job (s_cell s) in
  ∃ evs r', length evs ≤ 3 + 3 * length (ticks j) ∧
            Forall (λ ev, ev = Step ∨ ev = Consume true ∨ ev = Wake) evs ∧
            reader_run evs j r = Some r' ∧
            r_pc r' = Returned TerminalYielded ∧ yielded r' = ticks j.
Proof.
  destruct (run_stage_inv HS HR) as [Hj Hrs]. pose proof (Hrs i r HI) as Hr. cbv zeta.
  assert (terminal (status (c_job (s_cell s)))) as Ht.
  { destruct (ji_ticks _ _ Hj) as [(? & _)|(? & ? & _ & _ & _ & Hrep & _)]; [done|].
    by apply reports_terminal in Hrep as [? _]. }
  destruct (eager_run count (3 + 3 * length (ticks (c_job (s_cell s)))) (s_cell s) r)
    as (evs & r' & Hl & Hf & HRr & Hret); try done; try apply HG.
  - clear -Hr. unfold reader_inv in Hr. destruct r as [[cursor|cursor tick rest|cursor wait|site] out];
      cbn in *; try lia. destruct Hr as (Hy & Hc & _).
    apply (f_equal length) in Hy. rewrite length_app, length_take in Hy. cbn in Hy. lia.
  - exists evs, r'. split_and!; try done.
    eapply returned_all; [apply Hj| |exact Hret]. eapply reader_run_inv; [apply Hj|exact Hr|exact HRr].
Qed.
End stages.

(** ** Concrete instances *)

Import worker_properties.

(** A reader that opens before the first tick, sees it, and waits. *)
Definition waiting_run : list stage_event :=
  [Open 0; OfReader 0 Step; OfJob (Go Run); OfReader 0 Wake; OfReader 0 Step;
   OfReader 0 (Consume true); OfReader 0 Step].

Definition waiting_stage : stage :=
  Eval vm_compute in default (mkStage (sample_cell 2) ∅) (stage_run waiting_run (mkStage (sample_cell 2) ∅)).

Definition waiting_reader : reader :=
  mkReader (AtWait 1 2) [TickProgress (mkProgress 0 2)].

(** The same, and then the job is stopped. *)
Definition ended_run : list stage_event :=
  waiting_run ++ [OfJob DoCancel; OfJob (Go CtxDone); OfJob (Go Run)].

Definition ended_stage : stage :=
  Eval vm_compute in default (mkStage (sample_cell 2) ∅) (stage_run ended_run (mkStage (sample_cell 2) ∅)).

Lemma waiting_run_ok :
  stage_run waiting_run (mkStage (sample_cell 2) ∅) = Some waiting_stage ∧
  s_readers waiting_stage !! 0 = Some waiting_reader.
Proof. split; vm_compute; reflexivity. Qed.

Lemma ended_run_ok :
  stage_run ended_run (mkStage (sample_cell 2) ∅) = Some ended_stage ∧
  s_readers ended_stage !! 0 = Some waiting_reader ∧
  status (c_job (s_cell ended_stage)) ≠ StatusRunning.
Proof. split_and!; [vm_compute; reflexivity..|]. by vm_compute. Qed.

Lemma reader_gets_prefix_witness :
  yielded waiting_reader `prefix_of` ticks (c_job (s_cell waiting_stage)).
Proof.
  exact (proj1 (reader_gets_prefix _ _ _ _ _ _ _ _ 0 waiting_reader sample_start
    (proj1 waiting_run_ok) (proj2 waiting_run_ok))).
Defined.

Lemma no_lost_wakeup_witness :
  is_Some (Ticks_step Wake (c_job (s_cell ended_stage)) waiting_reader).
Proof.
  apply (proj2 (no_lost_wakeup _ _ _ _ _ _ _ _ 0 waiting_reader 1 2 sample_start
    (proj1 ended_run_ok) (proj1 (proj2 ended_run_ok)) eq_refl)).
  right. exact (proj2 (proj2 ended_run_ok)).
Defined.

Lemma reader_drains_witness :
  ∃ evs r', reader_run evs (c_job (s_cell ended_stage)) waiting_reader = Some r' ∧
            yielded r' = ticks (c_job (s_cell ended_stage)).
Proof.
  destruct (reader_drains _ _ _ _ _ _ _ _ 0 waiting_reader sample_start
    (proj1 ended_run_ok) (proj1 (proj2 ended_run_ok)) (proj2 (proj2 ended_run_ok))
    ltac:(split; discriminate)) as (evs & r' & _ & _ & HR & _ & Hy).
  exists evs, r'. split; [exact HR|exact Hy].
Defined.

End worker_ticks.
