(* ===== verification/Service.v ===== *)
(** * The handlers of the service: [internal/server/service.go]

    Every handler reads the agent the interceptor resolved out of its context,
    and works on that agent's jobs only. A handler is a program on the shared
    world; a stream's iterator is the machine of [Ticks], driven by the loop. *)

From S2P Require Import Prelude GoStrings GoErrors Conc X509 SpiffeID X509SVID Identity Slog.
From S2P Require Import Context Wire Job JobInvariant JobProperties Registry Ticks.

Module service.
Import authn worker worker_spec worker_ticks conc context registry.

Definition internalErrorMessage : string := "internal error".
Definition unexpectedErrorMessage : string := "unexpected error".

(** [type Service struct]; its registry is the one of the world. *)
Record Service := mkService { svc_logger : slog.Logger }.

(** [NewService], with the world of the registry it makes. *)
Definition NewService (logger : option slog.Logger) : Service * world :=
  let logger := logging.OrDiscard logger in
  (mkService logger, mkWorld (registry.New (Some logger)) [] ∅ [] ∅).

(** [s.logger.LogAttrs(...)] *)
Definition log (s : Service) (lvl : slog.Level) (msg : string) (attrs : list slog.Attr) : prog world unit :=
  atomically (λ w, (with_log (slog.LogAttrs (svc_logger s) lvl msg attrs) w, tt)).

(** A method of a job that reads it under its mutex. *)
Definition read_job {A} (l : loc) (f : Job → A) : prog world A :=
  await (λ w, f <$> job_at l w).

Definition Shutdown (s : Service) : prog world unit := registry.Shutdown.

Definition agentID (s : Service) (ctx : Context) : prog world (result AgentID) :=
  match agent_of ctx with
  | None =>
      _ ← log s slog.LevelError "no authenticated agent id in the context" [];
      mret (Err (StatusError Internal internalErrorMessage))
  | Some a => mret (Ok a)
  end.

(** [Start]. The conversion from the wire's 32-bit count is exact. *)
Definition Start (s : Service) (ctx : Context) (count : Z) : prog world (result fizzledv1.Response) :=
  r ← agentID s ctx;
  match r with
  | Err e => mret (Err e)
  | Ok a =>
      created ← atomically (Create (WithoutCancel ctx) a (int64 count));
      match created with
      | Ok jobID => mret (Ok (fizzledv1.StartResponse jobID))
      | Err e =>
          if Is e ErrInvalidCount then
            mret (Err (StatusError InvalidArgument ("count must be between 1 and " +:+ pretty MaxCount)))
          else if Is e ErrNotAcceptingJobs then mret (Err (StatusError Unavailable "unavailable"))
          else
            _ ← log s slog.LevelError "internal error in creating a job"
                  [("agent_id", a); ("error", Error e)];
            mret (Err (StatusError Internal internalErrorMessage))
      end
  end.

(** [findJob]: the job and its owner. *)
Definition findJob (s : Service) (ctx : Context) (jobID : string) : prog world (result (loc * AgentID)) :=
  r ← agentID s ctx;
  match r with
  | Err e => mret (Err e)
  | Ok a =>
      found ← atomically (λ w, (w, Find a jobID w));
      match found with
      | Some l => mret (Ok (l, a))
      | None =>
          _ ← log s slog.LevelInfo "job not found" [("agent_id", a); ("job_id", jobID)];
          mret (Err (StatusError NotFound "job not found"))
      end
  end.

Definition protoStatus (s : Service) (jobStatus : Status) : prog world fizzledv1.Status :=
  if (jobStatus =? StatusRunning)%string then mret fizzledv1.Status_STATUS_RUNNING
  else if (jobStatus =? StatusCompleted)%string then mret fizzledv1.Status_STATUS_COMPLETED
  else if (jobStatus =? StatusStopped)%string then mret fizzledv1.Status_STATUS_STOPPED
  else if (jobStatus =? StatusFailed)%string then mret fizzledv1.Status_STATUS_FAILED
  else
    _ ← log s slog.LevelWarn "unexpected job status" [("job_status", jobStatus)];
    mret fizzledv1.Status_STATUS_UNSPECIFIED.

Definition Stop (s : Service) (ctx : Context) (jobID : string) : prog world (result fizzledv1.Response) :=
  r ← findJob s ctx jobID;
  match r with
  | Err e => mret (Err e)
  | Ok (l, _) =>
      st ← registry.Stop l;
      pb ← protoStatus s st;
      mret (Ok (fizzledv1.StopResponse pb))
  end.

Definition GetStatus (s : Service) (ctx : Context) (jobID : string) : prog world (result fizzledv1.Response) :=
  r ← findJob s ctx jobID;
  match r with
  | Err e => mret (Err e)
  | Ok (l, _) =>
      st ← read_job l Job_Status;
      pb ← protoStatus s st;
      mret (Ok (fizzledv1.GetStatusResponse pb))
  end.

Definition protoFailure : fizzledv1.Kind := fizzledv1.Tick_Failure unexpectedErrorMessage.

Section stream.
(** [durationpb.New] *)
Context (durationpb_New : Z → fizzledv1.Duration).

(** [protoTick]. The three types of a tick are all there are, so the default
    branch of its switch is not reached. *)
Definition protoTick (tick : Tick) : fizzledv1.Tick :=
  fizzledv1.mkTick (Some
    match tick with
    | TickProgress p =>
        fizzledv1.Tick_Progress (fizzledv1.mkProgress (durationpb_New (Elapsed p)) (int32 (Remaining p)))
    | TickStopped _ => fizzledv1.Tick_Stopped
    | TickPanicError _ => protoFailure
    end).

(** [server.Send]: it delivers the tick, fails, or panics. *)
Definition Send (stream : scope) (t : fizzledv1.Tick) : prog world (option error) :=
  Act (λ c w, match c with
              | Answer None => Some (with_sent stream t w, Ret None)
              | Answer (Some e) => Some (w, Ret (Some e))
              | CallPanics v => Some (w, Raise v)
              | _ => None
              end).

(** How the loop over [job.Ticks(ctx)] ends. *)
Inductive stream_end := Ended (e : option error) | OutOfFuel.

(** One move of the iterator. *)
Definition iter_step (l : loc) (ev : reader_event) (r : reader) : prog world reader :=
  await (λ w, j ← job_at l w; Ticks_step ev j r).

(** The [select] of the iterator: both arms may be ready. *)
Definition iter_select (l : loc) (ctx : Context) (r : reader) : prog world reader :=
  Act (λ c w,
    match c with
    | Tau => j ← job_at l w; r' ← Ticks_step Wake j r; Some (w, Ret r')
    | DoneArm =>
        _ ← Context_Err (w_done w) ctx;
        j ← job_at l w; r' ← Ticks_step ReaderCtxDone j r; Some (w, Ret r')
    | _ => None
    end).

Fixpoint stream_loop (fuel : nat) (s : Service) (ctx : Context) (stream : scope) (l : loc) (r : reader)
    : prog world stream_end :=
  match fuel with
  | O => mret OutOfFuel
  | S fuel =>
      match r_pc r with
      | Returned _ => mret (Ended None)
      | AtLock _ =>
          r ← iter_step l Step r; stream_loop fuel s ctx stream l r
      | AtWait _ _ =>
          r ← iter_select l ctx r; stream_loop fuel s ctx stream l r
      | AtYield _ tick _ =>
          err ← Send stream (protoTick tick);
          match err with
          | None => r ← iter_step l (Consume true) r; stream_loop fuel s ctx stream l r
          | Some e =>
              attrs ← read_job l (λ j, [("job_id", Job_ID j); ("job_status", Job_Status j); ("error", Error e)]);
              _ ← log s slog.LevelInfo "error in streaming output" attrs;
              mret (Ended (Some e))
          end
      end
  end.

(** Four moves a tick, for the most ticks a job can have, and the last one. *)
Definition stream_fuel : nat := 4 * S (Z.to_nat MaxCount) + 4.

(** [StreamOutput], on the stream of the RPC of scope [stream]. *)
Definition StreamOutput (s : Service) (ctx : Context) (stream : scope) (jobID : string)
    : prog world (result stream_end) :=
  r ← findJob s ctx jobID;
  match r with
  | Err e => mret (Err e)
  | Ok (l, a) =>
      id ← read_job l Job_ID;
      _ ← log s slog.LevelInfo "stream opened" [("agent_id", a); ("job_id", id)];
      prog_finally
        (attrs ← read_job l (λ j, [("agent_id", a); ("job_id", Job_ID j); ("job_status", Job_Status j)]);
         log s slog.LevelInfo "stream closed" attrs)
        (e ← stream_loop stream_fuel s ctx stream l Ticks_start; mret (Ok e))
  end.

End stream.
End service.
