(* ===== verification/ServiceSpec.v ===== *)
(** * What the handlers promise

    Rely-guarantee specifications of the handlers of [Service]: what each of
    them does to the shared world, and what it answers, whatever the other
    handlers, the jobs and the clients do meanwhile. *)

From S2P Require Import Prelude GoStrings GoErrors Conc X509 SpiffeID X509SVID Identity Slog.
From S2P Require Import Context Wire Job JobInvariant JobProperties Registry Ticks Service.

Module service_spec.
Import authn worker worker_spec worker_ticks conc context registry service.

(** ** Guarantees *)

(** An action that at most writes to the log. *)
Definition quiet (w w' : world) : Prop := w' = w ∨ ∃ recs, w' = with_log recs w.

(** [Stop] on [id] as [a]: at most cancels the job [a] owns under [id]. *)
Definition stop_only (a : AgentID) (id : JobID) (w w' : world) : Prop :=
  quiet w w' ∨ ∃ l, fit (λ w, Find a id w = Some l) w ∧ w' = cancelled l w.

(** [Start] as [a]: at most one [Create] for [a], free of the RPC's scope. *)
Definition start_only (ctx : Context) (a : AgentID) (count : Z) (w w' : world) : Prop :=
  quiet w w' ∨ w' = (Create (WithoutCancel ctx) a count w).1.

Lemma quiet_same_jobs w w' : quiet w w' → same_jobs w w'.
Proof.
  assert (∀ h : list object, Forall2 (λ o o', o_parent o' = o_parent o ∧ cell_evolves (o_cell o) (o_cell o')) h h)
    as Hrefl.
  { intros h. apply Forall_Forall2_diag, Forall_forall. intros o _. by split. }
  intros [->|[recs ->]]; constructor; cbn; try done. by apply prefix_app_r.
Qed.

Lemma quiet_evolves w w' : quiet w w' → evolves w w'.
Proof. intros H. by apply same_jobs_evolves, quiet_same_jobs. Qed.

Lemma stop_only_evolves a id w w' : stop_only a id w w' → evolves w w'.
Proof. intros [H|(l & _ & ->)]; [by apply quiet_evolves|]. apply (stop_guar_evolves l). by right. Qed.

Lemma start_only_evolves ctx a count w w' : start_only ctx a count w w' → evolves w w'.
Proof. intros [H| ->]; [by apply quiet_evolves|apply Create_evolves]. Qed.

(** ** Facts about finding jobs that survive *)

Lemma found_stable a id l : stable evolves (fit (λ w, Find a id w = Some l)).
Proof. apply fit_stable. intros w w' _ _ Hg. apply Hg. Qed.

Lemma true_stable : stable evolves (fit (λ _, True)).
Proof. by apply fit_stable. Qed.

Lemma found_exists a id l w : fit (λ w, Find a id w = Some l) w → fit (exists_at l) w.
Proof. apply fit_mono. intros Hi Hl. destruct (Find_job _ _ _ _ Hi Hl) as (j & Hj & _). by exists j. Qed.

(** ** The handlers' common parts *)

Section parts.
Context (rely guar : world → world → Prop).
Context (rely_evolves : ∀ w w', rely w w' → evolves w w').
Context (guar_quiet : ∀ w w', quiet w w' → guar w w').

Lemma wp_log {A} (Q : A + panic_value → world → Prop) s lvl msg attrs (k : prog world A) w :
  (∀ w1 recs, rely w w1 → wp rely guar Q k (with_log recs w1)) →
  wp rely guar Q (_ ← log s lvl msg attrs; k) w.
Proof.
  intros H. apply wp_bind, wp_atomically. intros w1 w2 [] Hr [= <-].
  split; [|by apply H]. apply guar_quiet. right. eauto.
Qed.

Lemma wp_agentID s ctx a (Q : result AgentID + panic_value → world → Prop) w :
  agent_of ctx = Some a → Q (inl (Ok a)) w → wp rely guar Q (agentID s ctx) w.
Proof. intros H HQ. unfold agentID. by rewrite H. Qed.

(** The job that was found, or the one refusal. *)
Definition find_post (a : AgentID) (id : string) (w0 : world) (r : result (loc * AgentID)) (w : world) : Prop :=
  match r with
  | Ok (l, b) => b = a ∧ fit (λ w, Find a id w = Some l) w
  | Err e => e = StatusError NotFound "job not found" ∧ (fits w → Find a id w0 = None)
  end.

Lemma wp_findJob s ctx a id w0 w :
  agent_of ctx = Some a → fit (λ _, True) w0 → evolves w0 w →
  wp rely guar (returns (find_post a id w0)) (findJob s ctx id) w.
Proof.
  intros Ha Hw0 He0. assert (fit (λ _, True) w) as Hw by by eapply true_stable. unfold findJob. apply wp_bind. eapply wp_agentID; [done|]. cbv beta iota.
  apply wp_bind, wp_atomically. intros w1 w2 found Hr [= <- <-].
  split; [by apply guar_quiet; left|]. pose proof (rely_evolves _ _ Hr) as He.
  destruct (Find a id w1) as [l|] eqn:Hl; cbv beta iota.
  - split; [done|]. eapply fit_mono; [|by eapply true_stable]. done.
  - apply wp_log. intros w2 recs Hr2. cbn. split; [done|]. intros Hf.
    destruct (Find a id w0) as [l|] eqn:Hl0; [|done].
    assert (evolves w0 w1) as [Hlen Hg] by by etrans. destruct (rely_evolves _ _ Hr2) as [Hlen2 _].
    assert (fits w1) as Hf1 by (unfold fits in *; cbn in Hf; lia).
    destruct (Hw0 (fits_le _ _ Hlen Hf1)) as [Hi _]. destruct (Hg Hi Hf1) as [_ G].
    by rewrite (gr_find _ _ G _ _ _ Hl0) in Hl.
Qed.

(** The wire's name of a status the worker uses. *)
Definition wire_status (st : Status) : fizzledv1.Status :=
  if (st =? StatusRunning)%string then fizzledv1.Status_STATUS_RUNNING
  else if (st =? StatusCompleted)%string then fizzledv1.Status_STATUS_COMPLETED
  else if (st =? StatusStopped)%string then fizzledv1.Status_STATUS_STOPPED
  else if (st =? StatusFailed)%string then fizzledv1.Status_STATUS_FAILED
  else fizzledv1.Status_STATUS_UNSPECIFIED.

Lemma wp_protoStatus {B} s st (P : world → Prop) (Q : B + panic_value → world → Prop)
    (k : fizzledv1.Status → prog world B) w :
  stable rely P → (∀ w w', quiet w w' → P w → P w') → P w →
  (∀ w, P w → wp rely guar Q (k (wire_status st)) w) →
  wp rely guar Q (pb ← protoStatus s st; k pb) w.
Proof.
  intros Hst Hq Hw Hk. unfold protoStatus, wire_status in *.
  repeat destruct (_ =? _)%string; try by apply Hk.
  apply wp_bind, wp_log. intros w1 recs Hr. apply Hk. eapply Hq; [right; by exists recs|]. by eapply Hst.
Qed.

End parts.

(** ** Start *)

Section handlers.
Context (rely : world → world → Prop) (rely_evolves : ∀ w w', rely w w' → evolves w w').
Context (s : Service) (ctx : Context) (a : AgentID) (agent_in_ctx : agent_of ctx = Some a).

(** What [Start] answers, from the world [w0] it was called in. *)
Definition start_post (count : Z) (w0 : world) (r : result fizzledv1.Response) (w : world) : Prop :=
  match r with
  | Ok (fizzledv1.StartResponse id) =>
      (1 <= count <= MaxCount)%Z ∧
      (fits w → ∀ b, Find b id w0 = None) ∧ fit (λ w, ∃ l, Find a id w = Some l) w
  | Ok _ => False
  | Err e =>
      (e = StatusError InvalidArgument "count must be between 1 and 100" ∧ ¬ (1 <= count <= MaxCount)%Z) ∨
      (e = StatusError Unavailable "unavailable" ∧ fit (λ w, isAcceptingJobs (w_registry w) = false) w)
  end.

Lemma Create_refusal ctx' b count w w' e :
  Create ctx' b count w = (w', Err e) →
  (isAcceptingJobs (w_registry w) = false ∧ Is e ErrInvalidCount = false ∧ Is e ErrNotAcceptingJobs = true) ∨
  (isAcceptingJobs (w_registry w) = true ∧ ¬ (1 <= count <= MaxCount)%Z ∧ Is e ErrInvalidCount = true).
Proof.
  rewrite Create_unfold. destruct (isAcceptingJobs (w_registry w)); cbn [negb].
  - destruct (record_create _ _ _ _ _) as [[[] ?]|e'] eqn:H; [done|]. intros [= <- <-].
    apply record_create_Err in H as [? He]. right. split_and!; try done. by rewrite Is_errorf, He.
  - intros [= <- <-]. left. by split_and!.
Qed.

Lemma wp_Start count w0 w :
  (MinInt32 <= count <= MaxInt32)%Z → fit (λ _, True) w0 → evolves w0 w →
  wp rely (start_only ctx a count) (returns (start_post count w0)) (Start s ctx count) w.
Proof.
  intros Hc Hw He0. unfold Start. rewrite int64_id by (unfold MinInt32, MaxInt32, MinInt64, MaxInt64 in *; lia).
  apply wp_bind. eapply wp_agentID; [done|]. cbv beta iota. apply wp_bind, wp_atomically.
  intros w1 w2 r Hr Hcr. split; [right; by rewrite Hcr|].
  assert (evolves w0 w1) as He by (etrans; [exact He0|by apply rely_evolves]).
  pose proof (Create_evolves (WithoutCancel ctx) a count w1) as He2. rewrite Hcr in He2. cbn in He2.
  destruct r as [id|e].
  - assert (fit (λ _, True) w2) as H2 by (eapply true_stable; [eapply true_stable|]; done).
    cbn. split; [|split].
    + revert Hcr. rewrite Create_unfold. destruct (negb _); [done|].
      destruct (record_create _ _ _ _ _) as [[[] ?]|] eqn:E; [|done]. intros _.
      by apply record_create_Ok in E as (? & _).
    + intros Hf b. destruct (Find b id w0) as [l|] eqn:Hl; [|done]. exfalso.
      pose proof (fits_le _ _ (ev_length _ _ He2) Hf) as Hf1.
      destruct (Hw (fits_le _ _ (ev_length _ _ He) Hf1)) as [Hi _].
      destruct (ev_grows _ _ He Hi Hf1) as [Hi1 G1].
      destruct (Create_Ok _ _ _ _ _ _ Hcr Hi1 Hf) as (obj & rec & _ & _ & _ & -> & _).
      eapply mint_fresh; [exact Hi1|]. by eapply gr_find.
    + intros Hf. destruct (H2 Hf) as [Hi2 _]. split; [done|].
      pose proof (fits_le _ _ (ev_length _ _ He2) Hf) as Hf1.
      destruct (Hw (fits_le _ _ (ev_length _ _ He) Hf1)) as [Hi _].
      destruct (ev_grows _ _ He Hi Hf1) as [Hi1 _]. exists (length (w_heap w1)).
      rewrite (Create_Find _ _ _ _ _ _ a id Hcr Hi1 Hf). by rewrite decide_True.
  - pose proof (Create_Err _ _ _ _ _ _ Hcr) as ->.
    destruct (Create_refusal _ _ _ _ _ _ Hcr) as [(Ha & -> & ->)|(Ha & Hn & ->)]; cbn; [|auto].
    right. split; [done|]. eapply fit_mono; [|by eapply true_stable]. done.
Qed.

(** ** Stop and GetStatus *)

Definition stop_post (id : string) (w0 : world) (r : result fizzledv1.Response) (w : world) : Prop :=
  match r with
  | Ok (fizzledv1.StopResponse pb) =>
      ∃ st, pb = wire_status st ∧
        fit (λ w, ∃ l, Find a id w = Some l ∧ finished_with l st w) w
  | Ok _ => False
  | Err e => e = StatusError NotFound "job not found" ∧ (fits w → Find a id w0 = None)
  end.

Lemma stop_answer_stable id st :
  stable evolves (fit (λ w, ∃ l, Find a id w = Some l ∧ finished_with l st w)).
Proof.
  apply fit_stable. intros w w' Hi _ Hg (l & Hl & Hf). exists l.
  split; [by eapply gr_find|by eapply finished_with_grows].
Qed.

Lemma fit_rely (P : world → Prop) : stable evolves P → stable rely P.
Proof. intros H w w' Hw Hr. eapply H; [done|by apply rely_evolves]. Qed.

Lemma fit_quiet (P : world → Prop) w w' : stable evolves P → quiet w w' → P w → P w'.
Proof. intros H Hq Hw. eapply H; [done|by apply quiet_evolves]. Qed.

(** [Stop] cancels at most the job [a] owns under [id], and answers with the
    final status of that job, which has ended. *)
Lemma wp_Stop_handler id w0 w :
  fit (λ _, True) w0 → evolves w0 w →
  wp rely (stop_only a id) (returns (stop_post id w0)) (service.Stop s ctx id) w.
Proof.
  intros Hw He0. unfold service.Stop. apply wp_bind.
  eapply wp_mono; [|apply (wp_findJob rely (stop_only a id) rely_evolves); [|exact agent_in_ctx|exact Hw|exact He0]; by left].
  intros [[[l b]|e]|v] w1 Hp; [|done|done]. destruct Hp as [-> Hl]. cbv beta iota.
  apply wp_bind. eapply (wp_weaken evolves rely); [exact rely_evolves| |].
  2:{ eapply wp_mono; [|apply (wp_carry _ _ (fit (λ w, Find a id w = Some l)) _ _ _
        (λ w w' H Hg, found_stable a id l w w' H (stop_guar_evolves l w w' Hg)) (found_stable a id l) Hl (wp_Stop l w1 (found_exists _ _ _ _ Hl)))].
      intros [st|v] w2 [Hl2 Hst]; [|done]. cbv beta iota.
      pose proof (stop_answer_stable id st) as Hs.
      eapply (wp_protoStatus rely (stop_only a id) ltac:(by left) s st
        (fit (λ w, ∃ l, Find a id w = Some l ∧ finished_with l st w)));
        [by apply fit_rely|by intros; eapply fit_quiet| |].
      - intros Hf. destruct (Hl2 Hf), (Hst Hf). eauto.
      - intros w3 H3. by exists st. }
  intros w2 w3 [Hl2 [->| ->]]; [left; by left|]. right. by exists l.
Qed.

(** ** GetStatus *)

Definition status_at (l : loc) (st : Status) (w : world) : Prop :=
  ∃ j, job_at l w = Some j ∧ Job_Status j = st.

(** The status was the job's at some moment of the call; it is a status of the
    wire, and the call leaves the job alone. *)
Definition get_status_post (id : string) (w0 : world) (r : result fizzledv1.Response) (w : world) : Prop :=
  match r with
  | Ok (fizzledv1.GetStatusResponse pb) =>
      ∃ st w1, pb = wire_status st ∧ evolves w0 w1 ∧ evolves w1 w ∧
        fit (λ w, ∃ l, Find a id w = Some l ∧ status_at l st w) w1
  | Ok _ => False
  | Err e => e = StatusError NotFound "job not found" ∧ (fits w → Find a id w0 = None)
  end.

Lemma wp_GetStatus_handler id w0 w :
  fit (λ _, True) w0 → evolves w0 w →
  wp rely quiet (returns (get_status_post id w0)) (GetStatus s ctx id) w.
Proof.
  intros Hw He0. unfold GetStatus. apply wp_bind.
  assert (stable rely (evolves w0)) as Hst by (intros w1 w2 H1 H2; etrans; [done|by apply rely_evolves]).
  assert (stable quiet (evolves w0)) as Hsq by (intros w1 w2 H1 H2; etrans; [done|by apply quiet_evolves]).
  eapply wp_mono; [|eapply (wp_weaken rely); [done| |apply (wp_carry _ _ (evolves w0) _ _ _ Hsq Hst He0
    (wp_findJob rely quiet rely_evolves ltac:(done) s ctx a id w0 w agent_in_ctx Hw He0))]; by intros ? ? []].
  intros [[[l b]|e]|v] w1 [He1 Hp]; [|done|done]. destruct Hp as [-> Hl]. cbv beta iota.
  apply wp_bind, wp_await. intros w2 st Hr Hj. split; [by left|]. cbv beta iota.
  apply (wp_protoStatus rely quiet ltac:(done) s st (evolves w2)).
  - intros w3 w4 H3 Hr4. etrans; [done|]. by apply rely_evolves.
  - intros w3 w4 Hq H3. etrans; [done|]. by apply quiet_evolves.
  - done.
  - intros w3 H3. exists st, w2. split_and!; [done|by eapply Hst|done|].
    eapply fit_mono; [|eapply (fit_rely _ (found_stable a id l)); [exact Hl|done]].
    intros _ Hf. exists l. split; [done|]. destruct (job_at l w2) as [j|] eqn:E; [|done].
    cbn in Hj. injection Hj as <-. by exists j.
Qed.

End handlers.
End service_spec.
