(* ===== verification/StreamSpec.v ===== *)
(** * What a stream delivers: [Service.StreamOutput]

    The loop over [job.Ticks(ctx)] hands the client a prefix of the job's
    output, converted tick by tick; it ends by itself only with the whole
    output of a job that has ended, or when the RPC's context is done. The fuel
    of the loop is never used up. *)

From S2P Require Import Prelude GoStrings GoErrors Conc X509 SpiffeID X509SVID Identity Slog.
From S2P Require Import Context Wire Job JobInvariant JobProperties Registry Ticks Service.
From S2P Require Import ServiceSpec.

Module stream_spec.
Import authn worker worker_spec worker_ticks conc context registry service service_spec.

(** ** The moves a reader has left *)

Definition max_ticks : nat := S (Z.to_nat MaxCount).

Definition moves_left (j : Job) (r : reader) : nat :=
  let k := max_ticks - length (yielded r) in
  match r_pc r with
  | AtLock cursor => if decide (cursor < length (ticks j)) then 4 * k + 1 else 4 * k + 3
  | AtWait _ _ => 4 * k + 2
  | AtYield _ _ _ => 4 * k
  | Returned _ => 0
  end.

Lemma well_ticked_length count j :
  (count <= MaxCount)%Z → well_ticked count (abs_of j) → length (ticks j) ≤ max_ticks.
Proof.
  unfold max_ticks. intros Hc [(_ & _ & Hl)|(ps & t & Hp & _ & Hl & _)]; cbn in *; [lia|].
  rewrite Hp, length_app. cbn. lia.
Qed.

Lemma moves_left_grows j j' r :
  ticks j `prefix_of` ticks j' → moves_left j' r ≤ moves_left j r.
Proof.
  intros H%prefix_length. unfold moves_left. destruct (r_pc r); try done.
  repeat case_decide; lia.
Qed.

Lemma moves_left_step count c r ev r' :
  job_inv count c → reader_inv (c_job c) r → wake_inv (c_job c) r →
  Ticks_step ev (c_job c) r = Some r' → moves_left (c_job c) r' < moves_left (c_job c) r.
Proof.
  intros [Hcount Hw _ _ _] Hr Hwake H.
  pose proof (well_ticked_length _ _ (proj2 Hcount) Hw) as Hmax.
  unfold max_ticks in *. destruct c as [j p lg]. cbn in *.
  destruct r as [[cur|cur tick rest|cur wait|site] out];
    unfold reader_inv, wake_inv in *; destruct ev; cbn in *; try done.
  - pose proof (length_drop (ticks j) cur) as Hd.
    destruct (drop cur (ticks j)) as [|t ts]; cbn in Hd; simplify_eq; unfold moves_left; cbn;
      case_decide; lia.
  - destruct Hr as (Hy & Hc & _). apply (f_equal length) in Hy.
    rewrite length_app, length_take in Hy. cbn in Hy. unfold moves_left.
    destruct wants_more; cbn in H; [destruct (IsTerminal tick); [|destruct rest]|]; simplify_eq; cbn;
      rewrite ?length_app; cbn; try case_decide; lia.
  - destruct (is_closed (chans j) wait) eqn:Hcl; simplify_eq. unfold moves_left. cbn.
    specialize (Hwake eq_refl). case_decide; lia.
  - simplify_eq. unfold moves_left. cbn. lia.
Qed.

(** ** The invariant of the loop *)

(** A reader of the job at [l] with fewer than [n] moves left. *)
Definition reading (l : loc) (n : nat) (r : reader) (w : world) : Prop :=
  ∃ o count, w_heap w !! l = Some o ∧ job_inv count (o_cell o) ∧
    reader_inv (c_job (o_cell o)) r ∧ wake_inv (c_job (o_cell o)) r ∧ moves_left (c_job (o_cell o)) r < n.

Lemma reading_grows l n r w w' : grows w w' → reading l n r w → reading l n r w'.
Proof.
  intros Hg (o & count & Ho & Hi & Hr & Hw & Hm).
  destruct (gr_heap _ _ Hg _ _ Ho) as (o' & Ho' & _ & acts & Hacts).
  destruct (job_run_reader _ _ _ _ _ Hi Hacts Hr Hw) as [Hr' Hw'].
  destruct (job_run_ok _ _ _ _ Hi Hacts) as [Hi' Habs].
  exists o', count. split_and!; try done. eapply Nat.le_lt_trans; [|exact Hm].
  apply moves_left_grows. clear -Habs.
  assert (∀ a a', rtc (abs_step count) a a' → a_ticks a `prefix_of` a_ticks a') as H.
  { induction 1 as [|a b c Hs _ IH]; [done|]. etrans; [|exact IH].
    destruct Hs; cbn; by apply prefix_app_r. }
  by apply H in Habs.
Qed.

Lemma reading_step l n r ev r' w j :
  job_at l w = Some j → Ticks_step ev j r = Some r' → reading l (S n) r w → reading l n r' w.
Proof.
  intros (o & Ho & ->)%fmap_Some H (o' & count & Ho' & Hi & Hr & Hw & Hm).
  rewrite Ho in Ho'. injection Ho' as <-. exists o, count. split_and!; [done|done| | |].
  - eapply Ticks_step_inv; [apply Hi|done|done].
  - by eapply Ticks_step_wake.
  - pose proof (moves_left_step _ _ _ _ _ Hi Hr Hw H). lia.
Qed.

Section stream.
Context (durationpb_New : Z → fizzledv1.Duration).
Context (s : Service) (ctx : Context) (stream : scope) (l : loc).
Abbreviation protoTick := (protoTick durationpb_New).

(** The others never send on this stream. *)
Definition stream_rely (w w' : world) : Prop := evolves w w' ∧ sent stream w' = sent stream w.

#[export] Instance stream_rely_trans : Transitive stream_rely.
Proof. intros w1 w2 w3 [H1 E1] [H2 E2]. split; [by etrans|congruence]. Qed.

(** What has been sent is a prefix of the job's output. *)
Definition delivered (w : world) : Prop :=
  ∃ j ts, job_at l w = Some j ∧ ts `prefix_of` ticks j ∧ sent stream w = protoTick <$> ts.

(** An action of a stream writes to the log, or sends the next tick. *)
Definition stream_only (w w' : world) : Prop :=
  quiet w w' ∨ ∃ t, w' = with_sent stream t w ∧ fit delivered w'.

(** The loop's invariant, after [out] has been sent. *)
Definition streaming (n : nat) (r : reader) (out : list Tick) (w : world) : Prop :=
  reading l n r w ∧ sent stream w = protoTick <$> out ∧ r_pc r ≠ Returned YieldRefused ∧
  (r_pc r = Returned ContextDone → is_Some (Context_Err (w_done w) ctx)).

Definition stream_post (o : stream_end + panic_value) (w : world) : Prop :=
  match o with
  | inl OutOfFuel => ¬ fits w
  | inl (Ended None) => fit (λ w, (∃ j, job_at l w = Some j ∧ terminal (status j) ∧
      sent stream w = protoTick <$> ticks j) ∨ is_Some (Context_Err (w_done w) ctx)) w ∧ fit delivered w
  | inl (Ended (Some _)) | inr _ => fit delivered w
  end.

Lemma ctx_done_grows w w' :
  grows w w' → is_Some (Context_Err (w_done w) ctx) → is_Some (Context_Err (w_done w') ctx).
Proof.
  intros Hg. unfold Context_Err. destruct (scope_of ctx) as [sc|]; cbn; [|by intros [? ?]].
  intros [e He]. exists e. by eapply lookup_weaken, gr_done.
Qed.

Lemma stream_fit_stable (P : world → Prop) :
  (∀ w w', registry_inv w → grows w w' → sent stream w' = sent stream w → P w → P w') →
  stable stream_rely (fit P).
Proof.
  intros HP w w' Hw [He Hs]. eapply fit_evolves; [|exact Hw|exact He]. intros Hi _ Hg. by apply HP.
Qed.

Lemma streaming_stable n r out : stable stream_rely (fit (streaming n r out)).
Proof.
  apply stream_fit_stable. intros w w' _ Hg Hs (Hr & Ho & Hn & Hd).
  split_and!; [by eapply reading_grows|congruence|done|]. intros H. by eapply ctx_done_grows, Hd.
Qed.

Lemma grows_ticks w w' j :
  registry_inv w → grows w w' → job_at l w = Some j →
  ∃ j', job_at l w' = Some j' ∧ ticks j `prefix_of` ticks j' ∧
        (terminal (status j) → ticks j' = ticks j ∧ status j' = status j).
Proof.
  intros Hi Hg (o & Ho & ->)%fmap_Some. destruct (gr_heap _ _ Hg _ _ Ho) as (o' & Ho' & _ & acts & Hacts).
  exists (c_job (o_cell o')). unfold job_at. rewrite Ho'. split; [done|].
  destruct (object_job_inv _ (ri_cells _ Hi _ _ Ho)) as [count Hc].
  destruct (job_run_ok _ _ _ _ Hc Hacts) as [_ Habs]. split.
  - assert (∀ a a', rtc (abs_step count) a a' → a_ticks a `prefix_of` a_ticks a') as H.
    { induction 1 as [|a b c Hs _ IH]; [done|]. etrans; [|exact IH]. destruct Hs; cbn; by apply prefix_app_r. }
    by apply H in Habs.
  - intros Ht. pose proof (terminal_frozen _ _ _ Ht Habs) as He. by injection He.
Qed.

Lemma delivered_stable : stable stream_rely (fit delivered).
Proof.
  apply stream_fit_stable. intros w w' Hi Hg Hs (j & ts & Hj & Hp & Hse).
  destruct (grows_ticks _ _ _ Hi Hg Hj) as (j' & Hj' & Hpre & _). exists j', ts.
  split_and!; [done|by etrans|congruence].
Qed.

(** What the reader has been handed is a prefix of the buffer. *)
Lemma reading_prefix n r w :
  reading l n r w → ∃ j, job_at l w = Some j ∧ yielded r `prefix_of` ticks j.
Proof.
  intros (o & count & Ho & _ & Hr & _). exists (c_job (o_cell o)). unfold job_at. rewrite Ho.
  split; [done|]. unfold reader_inv in Hr. destruct (r_pc r) as [cur|cur tick rest|cur wait|[]].
  - destruct Hr as (-> & _). apply prefix_take.
  - destruct Hr as (H & _). etrans; [by apply prefix_app_r|rewrite H; apply prefix_take].
  - destruct Hr as (-> & _). apply prefix_take.
  - done.
  - by destruct Hr as (_ & _ & _ & ?).
  - done.
Qed.

Lemma streaming_delivered n r w : streaming n r (yielded r) w → delivered w.
Proof.
  intros (Hr & Hs & _). destruct (reading_prefix _ _ _ Hr) as (j & Hj & Hp). exists j, (yielded r).
  by split_and!.
Qed.

(** One move of the iterator that hands nothing out. *)
Lemma streaming_move n r ev r' out w j :
  fit (streaming (S n) r out) w → job_at l w = Some j → Ticks_step ev j r = Some r' →
  r_pc r' ≠ Returned YieldRefused →
  (r_pc r' = Returned ContextDone → is_Some (Context_Err (w_done w) ctx)) →
  fit (streaming n r' out) w.
Proof.
  intros H Hj Hst H1 H2. eapply fit_mono; [|exact H]. intros _ (Hr & Ho & _).
  split_and!; try done. by eapply reading_step.
Qed.

Lemma Ticks_step_yields ev j r r' :
  Ticks_step ev j r = Some r' →
  match ev with
  | Step => yielded r' = yielded r ∧ (∀ site, r_pc r' ≠ Returned site)
  | Wake => yielded r' = yielded r ∧ (∀ site, r_pc r' ≠ Returned site)
  | ReaderCtxDone => yielded r' = yielded r ∧ r_pc r' = Returned ContextDone
  | Consume true => ∃ cur tick rest, r_pc r = AtYield cur tick rest ∧ yielded r' = yielded r ++ [tick] ∧
      r_pc r' ≠ Returned YieldRefused ∧ r_pc r' ≠ Returned ContextDone
  | Consume false => True
  end.
Proof.
  intros H. destruct r as [[cur|cur tick rest|cur wait|site] out], ev; cbn in H; try done.
  - destruct (drop cur (ticks j)); by simplify_eq.
  - destruct wants_more; [|done]. cbn in H. exists cur, tick, rest.
    destruct (IsTerminal tick); [|destruct rest]; by simplify_eq.
  - destruct (is_closed _ _); by simplify_eq.
  - by simplify_eq.
Qed.

(** The next tick of the buffer, and the buffer's prefix it completes. *)
Lemma streaming_next n r cur tick rest out w :
  streaming n r out w → r_pc r = AtYield cur tick rest → out = yielded r →
  ∃ j, job_at l w = Some j ∧ yielded r ++ [tick] `prefix_of` ticks j.
Proof.
  intros ((o & count & Ho & _ & Hr & _) & _) Hp ->. exists (c_job (o_cell o)). unfold job_at.
  rewrite Ho. split; [done|]. unfold reader_inv in Hr. rewrite Hp in Hr. destruct Hr as (Hy & _).
  etrans; [|apply prefix_take]. rewrite <-Hy. exists rest. by rewrite <-app_assoc.
Qed.

Lemma with_sent_evolves t w : evolves w (with_sent stream t w).
Proof.
  apply same_jobs_evolves. constructor; cbn; try done.
  apply Forall_Forall2_diag, Forall_forall. intros o _. by split.
Qed.

Lemma sent_with_sent t w : sent stream (with_sent stream t w) = sent stream w ++ [t].
Proof. unfold sent, with_sent. cbn. by rewrite lookup_insert_eq. Qed.

Lemma wp_returned n r site w :
  r_pc r = Returned site → fit (streaming n r (yielded r)) w → stream_post (inl (Ended None)) w.
Proof.
  intros Hp Hw. split.
  - eapply fit_mono; [|exact Hw]. intros _ ((o & count & Ho & Hi & Hr & _) & Hs & Hn & Hd).
    destruct site; [done| |right; by apply Hd]. left. exists (c_job (o_cell o)).
    unfold job_at. rewrite Ho. destruct (returned_all _ _ _ (ji_ticks _ _ Hi) Hr Hp) as [<- ?]. done.
  - eapply fit_mono; [|exact Hw]. intros _. by eapply streaming_delivered.
Qed.

Lemma streaming_evolves (P Q : world → Prop) w w' :
  evolves w w' → (registry_inv w → P w → Q w') → fit P w → fit Q w'.
Proof.
  intros He HPQ Hw Hf. destruct (Hw (fits_le _ _ (ev_length _ _ He) Hf)) as [Hi HP].
  destruct (ev_grows _ _ He Hi Hf). auto.
Qed.

(** Sending the next tick keeps what has been delivered a prefix. *)
Lemma send_next n r cur tick rest w :
  r_pc r = AtYield cur tick rest → fit (streaming n r (yielded r)) w →
  let w' := with_sent stream (protoTick tick) w in
  fit delivered w' ∧ fit (streaming n r (yielded r ++ [tick])) w'.
Proof.
  intros Hp Hw. cbv zeta. split; eapply streaming_evolves; try apply (with_sent_evolves (protoTick tick)); try exact Hw.
  - intros _ Hs. destruct (streaming_next _ _ _ _ _ _ _ Hs Hp eq_refl) as (j & Hj & Hpre).
    exists j, (yielded r ++ [tick]). split_and!; [done|done|]. destruct Hs as (_ & Hs & _).
    by rewrite sent_with_sent, Hs, fmap_app.
  - intros _ (Hr & Hs & Hn & Hd). split_and!; try done. by rewrite sent_with_sent, Hs, fmap_app.
Qed.

(** The loop's way out when the client has gone. *)
Lemma wp_send_failed e w :
  fit delivered w →
  wp stream_rely stream_only stream_post
    (attrs ← read_job l (λ j, [("job_id", Job_ID j); ("job_status", Job_Status j); ("error", Error e)]);
     _ ← log s slog.LevelInfo "error in streaming output" attrs;
     mret (Ended (Some e))) w.
Proof.
  intros Hw. apply wp_bind, wp_await. intros w1 attrs Hr _. split; [by left; left|].
  pose proof (delivered_stable _ _ Hw Hr) as H1.
  apply wp_log; [by left|]. intros w2 recs Hr2. cbn.
  eapply streaming_evolves; [| |exact (delivered_stable _ _ H1 Hr2)].
  - apply quiet_evolves. right. by exists recs.
  - done.
Qed.

Lemma wp_stream_loop fuel r w :
  fit (streaming fuel r (yielded r)) w →
  wp stream_rely stream_only stream_post (stream_loop durationpb_New fuel s ctx stream l r) w.
Proof.
  revert r w. induction fuel as [|fuel IH]; intros r w Hw; cbn [stream_loop].
  { intros Hf. destruct (Hw Hf) as (_ & (o & count & _ & _ & _ & _ & Hm) & _). lia. }
  destruct (r_pc r) as [cur|cur tick rest|cur wait|site] eqn:Ep.
  - apply wp_bind, wp_await. intros w1 r' Hr Hstep. split; [by left; left|].
    pose proof (streaming_stable _ _ _ _ _ Hw Hr) as H1.
    destruct (job_at l w1) as [j|] eqn:Hj; [|done]. cbn in Hstep.
    destruct (Ticks_step_yields _ _ _ _ Hstep) as [Hy Hnr].
    apply IH. rewrite Hy. eapply streaming_move; [exact H1|exact Hj|exact Hstep|apply Hnr|].
    intros Hc. by destruct (Hnr ContextDone).
  - apply wp_bind. apply wp_act. intros w1 c w2 p' Hr E.
    pose proof (streaming_stable _ _ _ _ _ Hw Hr) as H1.
    assert (fit delivered w1) as Hd1 by (eapply fit_mono; [|exact H1]; intros _; by eapply streaming_delivered).
    destruct c as [| |[e|]|v| | |]; try discriminate E; cbv beta iota in E; injection E as <- <-.
    + split; [by left; left|]. by apply wp_send_failed.
    + destruct (send_next _ _ _ _ _ _ Ep H1) as [Hd Hs]. split; [right; eauto|].
      apply wp_bind, wp_await. intros w3 r' Hr3 Hstep. split; [by left; left|].
      pose proof (streaming_stable _ _ _ _ _ Hs Hr3) as H3.
      destruct (job_at l w3) as [j|] eqn:Hj; [|done]. cbn in Hstep.
      destruct (Ticks_step_yields _ _ _ _ Hstep) as (cur' & tick' & rest' & Ep' & Hy & Hn1 & Hn2).
      rewrite Ep in Ep'. injection Ep' as <- <- <-.
      apply IH. rewrite Hy. by eapply streaming_move.
    + by split; [left; left|].
  - apply wp_bind. apply wp_act. intros w1 c w2 p' Hr E.
    pose proof (streaming_stable _ _ _ _ _ Hw Hr) as H1.
    destruct c; try done; cbn in E.
    + destruct (job_at l w1) as [j|] eqn:Hj; [|done]. cbn in E.
      destruct (Ticks_step Wake j r) as [r'|] eqn:Hstep; [|done]. cbn in E. injection E as <- <-.
      split; [by left; left|]. destruct (Ticks_step_yields _ _ _ _ Hstep) as [Hy Hnr].
      apply IH. rewrite Hy. eapply streaming_move; [exact H1|exact Hj|exact Hstep|apply Hnr|].
      intros Hc. by destruct (Hnr ContextDone).
    + destruct (Context_Err (w_done w1) ctx) as [e|] eqn:Hd; [|done]. cbn in E.
      destruct (job_at l w1) as [j|] eqn:Hj; [|done]. cbn in E.
      destruct (Ticks_step ReaderCtxDone j r) as [r'|] eqn:Hstep; [|done]. cbn in E. injection E as <- <-.
      split; [by left; left|]. destruct (Ticks_step_yields _ _ _ _ Hstep) as [Hy Hnr].
      apply IH. rewrite Hy. eapply streaming_move; [exact H1|exact Hj|exact Hstep|by rewrite Hnr|].
      intros _. by rewrite Hd.
  - by eapply wp_returned.
Qed.

(** The whole output of an ended job stays the whole output. *)
Lemma ended_stable :
  stable stream_rely (fit (λ w, (∃ j, job_at l w = Some j ∧ terminal (status j) ∧
      sent stream w = protoTick <$> ticks j) ∨ is_Some (Context_Err (w_done w) ctx))).
Proof.
  apply stream_fit_stable. intros w w' Hi Hg Hs [(j & Hj & Ht & Hse)|Hd].
  - left. destruct (grows_ticks _ _ _ Hi Hg Hj) as (j' & Hj' & _ & Hfr). destruct (Hfr Ht) as [Htk Hst].
    exists j'. split_and!; [done|by rewrite Hst|congruence].
  - right. by eapply ctx_done_grows.
Qed.

Lemma stream_post_stable o : stable stream_rely (stream_post o).
Proof.
  destruct o as [[[e|]|]|v]; cbn; try apply delivered_stable.
  - intros w w' [H1 H2] Hr. split; [by eapply ended_stable|by eapply delivered_stable].
  - intros w w' H [He _] Hf. apply H. by eapply fits_le; [apply He|].
Qed.

Lemma quiet_stream_rely w w' : quiet w w' → stream_rely w w'.
Proof. intros H. split; [by apply quiet_evolves|]. by destruct H as [->|[recs ->]]. Qed.

(** The line that records the end of a stream, however it ends. *)
Lemma wp_stream_closed a o w :
  stream_post o w →
  wp stream_rely stream_only (returns (λ _, stream_post o))
    (attrs ← read_job l (λ j, [("agent_id", a); ("job_id", Job_ID j); ("job_status", Job_Status j)]);
     log s slog.LevelInfo "stream closed" attrs) w.
Proof.
  intros Hw. apply wp_bind, wp_await. intros w1 attrs Hr _. split; [by left; left|].
  apply wp_atomically. intros w2 w3 [] Hr2 [= <-]. split; [left; right; by eexists|]. cbn.
  eapply stream_post_stable; [|by apply quiet_stream_rely; right; eexists].
  eapply stream_post_stable; [|done]. by eapply stream_post_stable.
Qed.
End stream.

(** ** The handler *)

Section handler.
Context (durationpb_New : Z → fizzledv1.Duration).
Context (s : Service) (ctx : Context) (a : AgentID) (agent_in_ctx : agent_of ctx = Some a) (stream : scope).

(** The handler writes to the log, or sends the next tick of the job [a] owns
    under [id]. *)
Definition stream_guar (id : JobID) (w w' : world) : Prop :=
  quiet w w' ∨ ∃ l t, w' = with_sent stream t w ∧
    fit (λ w, Find a id w = Some l) w' ∧ fit (delivered durationpb_New stream l) w'.

Definition stream_output_post (id : JobID) (w0 : world) (o : result stream_end + panic_value) (w : world) : Prop :=
  match o with
  | inl (Err e) => e = StatusError NotFound "job not found" ∧ (fits w → Find a id w0 = None)
  | inl (Ok e) => ∃ l, fit (λ w, Find a id w = Some l) w ∧ stream_post durationpb_New ctx stream l (inl e) w
  | inr v => ∃ l, fit (λ w, Find a id w = Some l) w ∧ stream_post durationpb_New ctx stream l (inr v) w
  end.

Lemma stream_only_rely l w w' : stream_only durationpb_New stream l w w' → evolves w w'.
Proof. intros [H|(t & -> & _)]; [by apply quiet_evolves|apply with_sent_evolves]. Qed.

Lemma found_stream_stable id l : stable (stream_rely stream) (fit (λ w, Find a id w = Some l)).
Proof. intros w w' H [He _]. by eapply found_stable. Qed.

(** The reader a stream starts with has every move left. *)
Lemma streaming_start l w :
  sent stream w = [] → fit (exists_at l) w →
  fit (streaming durationpb_New ctx stream l stream_fuel Ticks_start []) w.
Proof.
  intros Hs. apply fit_mono. intros Hi [j (o & Ho & ->)%fmap_Some].
  destruct (object_job_inv _ (ri_cells _ Hi _ _ Ho)) as [count Hc].
  split_and!; try done. exists o, count. split_and!; [done|done|apply Ticks_start_inv|done|].
  unfold moves_left, stream_fuel, max_ticks. cbn. case_decide; lia.
Qed.

Lemma wp_StreamOutput id w0 w :
  fit (λ _, True) w0 → evolves w0 w → sent stream w = [] →
  wp (stream_rely stream) (stream_guar id) (stream_output_post id w0)
    (StreamOutput durationpb_New s ctx stream id) w.
Proof.
  intros Hw He0 Hs. assert (∀ w w', stream_rely stream w w' → evolves w w') as Hre by by intros ? ? [].
  unfold StreamOutput. apply wp_bind.
  assert (stable (stream_rely stream) (λ w, sent stream w = [])) as Hst by (intros ? ? ? [? ?]; congruence).
  assert (stable quiet (λ w, sent stream w = [])) as Hsq.
  { intros ? ? ? Hq%(quiet_stream_rely stream). by eapply Hst. }
  eapply (wp_conseq (λ w, sent stream w = [])); [by apply (wp_findJob _ quiet Hre)|done..|by left|].
  intros [[[l b]|e]|v] w1 Hs1 Hp; [|done|done]. destruct Hp as [-> Hl]. cbv beta iota.
  apply wp_bind, wp_await. intros w2 jid Hr2 _. split; [left; by left|].
  apply wp_log; [by left|]. intros w3 recs Hr3.
  assert (stream_rely stream w1 (with_log recs w3)) as Hr.
  { do 2 (etrans; [done|]). apply quiet_stream_rely. right. by exists recs. }
  pose proof (found_stream_stable _ _ _ _ Hl Hr) as Hl3. pose proof (Hst _ _ Hs1 Hr) as Hs3.
  apply (wp_conseq (fit (λ w, Find a id w = Some l)) (stream_rely stream) (stream_rely stream)
    (stream_only durationpb_New stream l) (stream_guar id)
    (λ o, match o with
          | inl (Ok e) => stream_post durationpb_New ctx stream l (inl e)
          | inl (Err e) => λ _, False
          | inr v => stream_post durationpb_New ctx stream l (inr v)
          end)); [|done| |apply found_stream_stable|done| |].
  - apply wp_finally, wp_bind. eapply wp_mono; [|apply (wp_stream_loop durationpb_New s ctx stream l
      stream_fuel Ticks_start); apply streaming_start; [done|]; by eapply found_exists].
    intros o w4 Ho. destruct o as [e|v].
    + cbn [wp mret prog_ret]. eapply wp_mono; [|by apply (wp_stream_closed durationpb_New s ctx stream l a (inl e))].
      by intros [[]|].
    + eapply wp_mono; [|by apply (wp_stream_closed durationpb_New s ctx stream l a (inr v))]. by intros [[]|].
  - intros w4 w5 H4 Hg. eapply found_stable; [exact H4|by eapply stream_only_rely].
  - intros w4 w5 H4 [Hq|(t & -> & Hd)]; [by left|]. right. exists l, t. split_and!; [done| |done].
    eapply found_stable; [exact H4|apply with_sent_evolves].
  - intros [[e|e]|v] w4 H4 Ho; [by exists l|done|by exists l].
Qed.

End handler.
End stream_spec.
