(* ===== verification/Interceptor.v ===== *)
(** * The interceptors: [internal/server/interceptor.go]

    Before a handler runs, the agent behind the RPC is authenticated from the
    peer's certificate and authorized for the action the method stands for. The
    interceptors are written against the interface of a peer authenticator, and
    work for any handler. *)

From S2P Require Import Prelude GoStrings GoErrors Conc Trace X509 SpiffeID X509SVID Identity Authz Slog.
From S2P Require Import Context Authenticator Wire Job Registry Service ServiceSpec.

Module interceptor.
Import authn authz conc trace context authenticator registry service service_spec.

(** [actionFor] *)
Definition actionFor (fullMethod : string) : option Action :=
  if (fullMethod =? fizzledv1.FizzledService_Start_FullMethodName)%string then Some ActionStart
  else if (fullMethod =? fizzledv1.FizzledService_Stop_FullMethodName)%string then Some ActionStop
  else if (fullMethod =? fizzledv1.FizzledService_GetStatus_FullMethodName)%string then Some ActionGetStatus
  else if (fullMethod =? fizzledv1.FizzledService_StreamOutput_FullMethodName)%string
       then Some ActionStreamOutput
  else None.

(** [targetJobID]: the requests with a [GetJobId] are those that carry an id. *)
Definition targetJobID (request : fizzledv1.Request) : string :=
  match request with
  | fizzledv1.StopRequest id | fizzledv1.GetStatusRequest id | fizzledv1.StreamOutputRequest id => id
  | fizzledv1.StartRequest _ | fizzledv1.OtherRequest => ""
  end.

(** [agentIDFrom] *)
Definition agentIDFrom (ctx : Context) : option AgentID := agent_of ctx.

(** The attributes of the line [auditDecision] writes. *)
Definition decision_attributes (agent : AgentID) (action : Action) (jobID decision : string)
    (extra : list slog.Attr) : list slog.Attr :=
  [("agent_id", agent); ("action", action); ("decision", decision)]
  ++ (if negb (jobID =? "")%string then [("job_id", jobID)] else []) ++ extra.

Section interceptor.
Context {A : Type} `{PeerAuthenticator A}.

(** [type Interceptor struct] *)
Record Interceptor := mkInterceptor {
  i_authenticator : A;
  i_authorizer : Authorizer;
  i_logger : slog.Logger;
}.

Definition NewInterceptor (a : A) (z : Authorizer) (logger : option slog.Logger) : Interceptor :=
  mkInterceptor a z (logging.OrDiscard logger).

(** [i.logger.LogAttrs(...)] *)
Definition write (i : Interceptor) (lvl : slog.Level) (msg : string) (attrs : list slog.Attr) : prog world unit :=
  atomically (λ w, (with_log (slog.LogAttrs (i_logger i) lvl msg attrs) w, tt)).

Definition auditDecision (i : Interceptor) (agent : AgentID) (action : Action) (jobID decision : string)
    (extra : list slog.Attr) : prog world unit :=
  write i slog.LevelInfo "authorization decision" (decision_attributes agent action jobID decision extra).

(** The authenticator verifies the chain at the time it is called; it calls out
    to [crypto/x509], which may panic. *)
Definition call_authenticator (i : Interceptor) (state : ConnectionState) : prog world (result AgentID) :=
  Act (λ c w, match c with
              | ClockReads now => Some (w, Ret (authenticate_peer (i_authenticator i) now state))
              | CallPanics v => Some (w, Raise v)
              | _ => None
              end).

Definition authenticate (i : Interceptor) (ctx : Context) : prog world (result AgentID) :=
  match FromContext ctx with
  | None =>
      _ ← write i slog.LevelInfo "no peer is found" [];
      mret (Err (StatusError Unauthenticated "no peer"))
  | Some (OtherAuthInfo text) =>
      _ ← write i slog.LevelInfo "connection is not mTLS" [("auth_info", text)];
      mret (Err (StatusError Unauthenticated "connection is not mTLS"))
  | Some (TLSInfo state) =>
      r ← call_authenticator i state;
      match r with
      | Err _ => mret (Err (StatusError Unauthenticated "unauthenticated"))
      | Ok agentID => mret (Ok agentID)
      end
  end.

Definition authorize (i : Interceptor) (ctx : Context) (fullMethod jobID : string) : prog world (result Context) :=
  match actionFor fullMethod with
  | None =>
      _ ← write i slog.LevelError "no action is mapped to the method" [("method", fullMethod)];
      mret (Err (StatusError Internal internalErrorMessage))
  | Some action =>
      r ← authenticate i ctx;
      match r with
      | Err e => mret (Err e)
      | Ok agentID =>
          match Authorize (i_authorizer i) agentID action with
          | Some e =>
              _ ← auditDecision i agentID action jobID "deny" [("reason", Error e)];
              mret (Err (StatusError PermissionDenied "permission denied"))
          | None =>
              _ ← auditDecision i agentID action jobID "allow" [];
              mret (Ok (WithValue ctx agentID))
          end
      end
  end.

(** The text [slog.Any] renders a recovered value as. *)
Definition panic_text (v : panic_value) : string :=
  match v with PanicWithError e => Error e | PanicWithOther text => text end.

Section guard.
(** [string(debug.Stack())] *)
Context (Stack : string).

Definition guard {R} (i : Interceptor) (fullMethod : string) (run : prog world (result R))
    : prog world (result R) :=
  prog_recover (λ v,
    _ ← write i slog.LevelError "panic in handler"
          [("method", fullMethod); ("panic", panic_text v); ("stack", Stack)];
    mret (Err (StatusError Internal internalErrorMessage))) run.

Definition Unary {R} (i : Interceptor) (ctx : Context) (request : fizzledv1.Request) (fullMethod : string)
    (handler : Context → prog world (result R)) : prog world (result R) :=
  guard i fullMethod (
    r ← authorize i ctx fullMethod (targetJobID request);
    match r with
    | Err e => mret (Err e)
    | Ok authorized => handler authorized
    end).

(** The stream's own context is replaced by the one that carries the agent. *)
Definition Stream {R} (i : Interceptor) (stream_ctx : Context) (fullMethod : string)
    (handler : Context → prog world (result R)) : prog world (result R) :=
  guard i fullMethod (
    r ← authorize i stream_ctx fullMethod "";
    match r with
    | Err e => mret (Err e)
    | Ok authorized => handler authorized
    end).

End guard.

(** ** What lets a handler run *)

(** The peer is the agent, at some reading of the clock, and the agent may take
    the action of the method. *)
Definition admitted (i : Interceptor) (ctx : Context) (fullMethod : string) (agent : AgentID) : Prop :=
  ∃ action state now, actionFor fullMethod = Some action ∧ FromContext ctx = Some (TLSInfo state) ∧
    authenticate_peer (i_authenticator i) now state = Ok agent ∧
    Authorize (i_authorizer i) agent action = None.

Lemma admitted_valid i ctx fullMethod agent : admitted i ctx fullMethod agent → valid_agent agent.
Proof. intros (? & ? & ? & _ & _ & Ha & _). by eapply authenticate_peer_valid. Qed.

(** The refusals a caller can see before the handler runs: fixed texts that say
    nothing of the reason. *)
Definition refusal (e : error) : Prop :=
  e = StatusError Internal internalErrorMessage ∨
  e = StatusError Unauthenticated "no peer" ∨
  e = StatusError Unauthenticated "connection is not mTLS" ∨
  e = StatusError Unauthenticated "unauthenticated" ∨
  e = StatusError PermissionDenied "permission denied".

Section rules.
Context (rely guar : world → world → Prop) (guar_quiet : ∀ w w', quiet w w' → guar w w').
Context (i : Interceptor) (ctx : Context) (fullMethod : string).

Lemma wp_write {B} (Q : B + panic_value → world → Prop) lvl msg attrs (k : prog world B) w :
  (∀ w1, rely w w1 → wp rely guar Q k (with_log (slog.LogAttrs (i_logger i) lvl msg attrs) w1)) →
  wp rely guar Q (_ ← write i lvl msg attrs; k) w.
Proof.
  intros Hk. apply wp_bind, wp_atomically. intros w1 w2 [] Hr [= <-].
  split; [|by apply Hk]. apply guar_quiet. right. eauto.
Qed.

(** The agent, or why there is none. *)
Definition authenticate_post (r : result AgentID) : Prop :=
  match r with
  | Ok agent => ∃ state now, FromContext ctx = Some (TLSInfo state) ∧
                  authenticate_peer (i_authenticator i) now state = Ok agent
  | Err e => refusal e
  end.

Lemma wp_authenticate w :
  wp rely guar (λ o _, match o with inl r => authenticate_post r | inr _ => True end) (authenticate i ctx) w.
Proof.
  unfold authenticate, refusal. destruct (FromContext ctx) as [[state|text]|] eqn:E.
  - apply wp_bind, wp_act. intros w1 c w2 p' Hr Ec. destruct c; simplify_eq.
    + split; [apply guar_quiet; by left|done].
    + split; [apply guar_quiet; by left|]. cbn [wp].
      destruct (authenticate_peer _ _ _) eqn:Ea; cbn; unfold refusal; [eauto 10|auto].
  - apply wp_write. intros w1 Hr. cbn. unfold refusal. auto.
  - apply wp_write. intros w1 Hr. cbn. unfold refusal. auto.
Qed.

Lemma wp_authorize jobID w :
  wp rely guar (λ o _, match o with
    | inl (Ok ctx') => ∃ agent, ctx' = WithValue ctx agent ∧ admitted i ctx fullMethod agent
    | inl (Err e) => refusal e
    | inr _ => True
    end) (authorize i ctx fullMethod jobID) w.
Proof.
  unfold authorize. destruct (actionFor fullMethod) as [action|] eqn:Ea.
  2:{ apply wp_write. intros w1 Hr. by left. }
  apply wp_bind. eapply wp_mono; [|apply wp_authenticate].
  intros [[agent|e]|v] w1 Hp; [|exact Hp|done]. destruct Hp as (state & now & Hf & Hauth). cbv beta iota.
  destruct (Authorize _ agent action) as [e|] eqn:Ez.
  - apply wp_write. intros w2 Hr. cbn. unfold refusal. auto.
  - apply wp_write. intros w2 Hr. cbn. exists agent. split; [done|]. by exists action, state, now.
Qed.
End rules.

(** A handler behind an interceptor runs only for an admitted agent, on a
    context that carries that agent; every other call ends in a refusal. A panic
    anywhere, in the handler included, ends in [Internal]. *)
Lemma wp_guarded {R} (rely guar : world → world → Prop) Stack i ctx fullMethod jobID
    (handler : Context → prog world (result R)) (P : world → Prop) (Q : result R → world → Prop) w :
  (∀ w w', quiet w w' → guar w w') → stable rely P → stable quiet P → P w →
  (∀ agent w1, admitted i ctx fullMethod agent → P w1 →
     wp rely guar (λ o w, match o with inl r => Q r w | inr _ => True end) (handler (WithValue ctx agent)) w1) →
  wp rely guar (returns (λ r w, (∃ e, r = Err e ∧ refusal e) ∨ Q r w))
    (guard Stack i fullMethod (
       r ← authorize i ctx fullMethod jobID;
       match r with Err e => mret (Err e) | Ok authorized => handler authorized end)) w.
Proof.
  intros Hq HPr HPq HP Hh. unfold guard. apply wp_recover, wp_bind.
  assert (∀ v w, wp rely guar (returns (λ r w, (∃ e, r = Err e ∧ refusal e) ∨ Q r w))
    (_ ← write i slog.LevelError "panic in handler"
          [("method", fullMethod); ("panic", panic_text v); ("stack", Stack)];
     mret (Err (StatusError Internal internalErrorMessage))) w) as Hpanic.
  { intros v w'. apply wp_write; [done|]. intros w1 _. cbn. left. eexists. split; [done|by left]. }
  eapply (wp_conseq P); [by apply (wp_authorize rely quiet)|done..|by intros; apply Hq|].
  intros [[ctx'|e]|v] w1 HP1 Ho; [| |by apply Hpanic].
  - destruct Ho as (agent & -> & Ha). eapply wp_mono; [|by apply Hh].
    intros [r|v] w2 Hr; [by right|by apply Hpanic].
  - cbn. left. eauto.
Qed.

(** ** Why a call was refused *)

(** The refusal [e] of a call, and the reason for it among the choices [cs] the
    call met: a call out that panicked, or a method without an action; a peer
    without a TLS connection; a reading of the clock at which the peer's chain
    does not verify, or at which it names an agent that may not take the
    action. *)
Definition refused_for (i : Interceptor) (ctx : Context) (fullMethod : string) (cs : list choice) (e : error) : Prop :=
  (e = StatusError Internal internalErrorMessage ∧ (actionFor fullMethod = None ∨ ∃ v, CallPanics v ∈ cs)) ∨
  (e = StatusError Unauthenticated "no peer" ∧ FromContext ctx = None) ∨
  (e = StatusError Unauthenticated "connection is not mTLS" ∧ ∃ text, FromContext ctx = Some (OtherAuthInfo text)) ∨
  (e = StatusError Unauthenticated "unauthenticated" ∧
     ∃ state now reason, FromContext ctx = Some (TLSInfo state) ∧ ClockReads now ∈ cs ∧
       authenticate_peer (i_authenticator i) now state = Err reason) ∨
  (e = StatusError PermissionDenied "permission denied" ∧
     ∃ agent action state now reason, actionFor fullMethod = Some action ∧
       FromContext ctx = Some (TLSInfo state) ∧ ClockReads now ∈ cs ∧
       authenticate_peer (i_authenticator i) now state = Ok agent ∧
       Authorize (i_authorizer i) agent action = Some reason).

Lemma refused_for_refusal i ctx fullMethod cs e : refused_for i ctx fullMethod cs e → refusal e.
Proof. unfold refused_for, refusal. naive_solver. Qed.

Section evidence.
Context (i : Interceptor) (ctx : Context) (fullMethod : string).

(** What the choices say of an authentication. *)
Definition authenticated (r : result AgentID) (cs : list choice) : Prop :=
  match r with
  | Ok agent => ∃ state now, FromContext ctx = Some (TLSInfo state) ∧ ClockReads now ∈ cs ∧
                  authenticate_peer (i_authenticator i) now state = Ok agent
  | Err e => refused_for i ctx fullMethod cs e
  end.

Lemma traced_write {B} (T : B + panic_value → list choice → Prop) lvl msg attrs (k : prog world B) cs :
  traced T k (cs ++ [Tau]) → traced T (_ ← write i lvl msg attrs; k) cs.
Proof. intros Hk. apply traced_bind, traced_atomically. intros w w' []. done. Qed.

Lemma traced_authenticate cs : traced (called_out authenticated) (authenticate i ctx) cs.
Proof.
  unfold authenticate. destruct (FromContext ctx) as [[state|text]|] eqn:E.
  - apply traced_bind, traced_act. intros w c w' p' Ec. destruct c; simplify_eq; cbn.
    + apply elem_of_app. right. by apply list_elem_of_singleton.
    + assert (ClockReads now ∈ cs ++ [ClockReads now]) as Hin
        by (apply elem_of_app; right; by apply list_elem_of_singleton).
      destruct (authenticate_peer _ now state) as [agent|reason] eqn:Ea; cbn; [by exists state, now|].
      do 3 right. left. split; [done|]. by exists state, now, reason.
  - apply traced_write. cbn. right. right. left. eauto.
  - apply traced_write. cbn. right. left. auto.
Qed.

Lemma traced_authorize jobID cs :
  traced (called_out (λ r cs, match r with
    | Ok ctx' => ∃ agent, ctx' = WithValue ctx agent ∧ admitted i ctx fullMethod agent
    | Err e => refused_for i ctx fullMethod cs e
    end)) (authorize i ctx fullMethod jobID) cs.
Proof.
  unfold authorize. destruct (actionFor fullMethod) as [action|] eqn:Ea.
  2:{ apply traced_write. left. auto. }
  apply traced_bind. eapply traced_mono; [|apply traced_authenticate].
  intros [[agent|e]|v] cs1 _ Hp; [|exact Hp|exact Hp]. destruct Hp as (state & now & Hf & Hin & Hauth). cbv beta iota.
  destruct (Authorize _ agent action) as [e|] eqn:Ez.
  - apply traced_write. do 4 right. split; [done|]. exists agent, action, state, now, e.
    split_and!; try done. apply elem_of_app. by left.
  - apply traced_write. exists agent. split; [done|]. by exists action, state, now.
Qed.

(** Behind the interceptor, every answer is a refusal with its reason, or the
    handler's for an admitted agent. *)
Lemma traced_guarded {R} Stack jobID (handler : Context → prog world (result R))
    (T : result R → list choice → Prop) cs :
  (∀ agent cs1, admitted i ctx fullMethod agent → traced (called_out T) (handler (WithValue ctx agent)) cs1) →
  traced (λ o cs, match o with
    | inl r => (∃ e, r = Err e ∧ refused_for i ctx fullMethod cs e) ∨ T r cs
    | inr _ => False
    end) (guard Stack i fullMethod (
       r ← authorize i ctx fullMethod jobID;
       match r with Err e => mret (Err e) | Ok authorized => handler authorized end)) cs.
Proof.
  intros Hh. unfold guard. apply traced_recover, traced_bind.
  assert (∀ v cs, CallPanics v ∈ cs → traced (λ (o : result R + panic_value) cs, match o with
    | inl r => (∃ e, r = Err e ∧ refused_for i ctx fullMethod cs e) ∨ T r cs | inr _ => False end)
    (_ ← write i slog.LevelError "panic in handler"
          [("method", fullMethod); ("panic", panic_text v); ("stack", Stack)];
     mret (Err (StatusError Internal internalErrorMessage))) cs) as Hpanic.
  { intros v cs1 Hv. apply traced_write. left. eexists. split; [done|]. left. split; [done|]. right.
    exists v. apply elem_of_app. by left. }
  eapply traced_mono; [|apply traced_authorize].
  intros [[ctx'|e]|v] cs1 _ Ho; [| |by apply Hpanic].
  - destruct Ho as (agent & -> & Ha). eapply traced_mono; [|by apply Hh].
    intros [r|v] cs2 _ Hr; [by right|by apply Hpanic].
  - left. eauto.
Qed.

(** ** What the interceptor lets show of the world: nothing *)

Context (I : world → Prop).

Lemma blind_write {B} (Q : B + panic_value → Prop) lvl msg attrs (k : prog world B) :
  blind I Q k → blind I Q (_ ← write i lvl msg attrs; k).
Proof. intros Hk. apply (blind_bind I (λ o, o = inl tt)); [|done|by intros []]. by apply (blind_atomically I _ _ tt). Qed.

Lemma blind_authenticate :
  blind I (λ o, match o with inl r => authenticate_post i ctx r | inr _ => True end) (authenticate i ctx).
Proof.
  unfold authenticate, authenticate_post, refusal.
  destruct (FromContext ctx) as [[state|text]|] eqn:E; [|apply blind_write; cbn; auto..].
  apply (blind_bind I (λ o, match o with
    | inl r => ∃ now, authenticate_peer (i_authenticator i) now state = r | inr _ => True end)); [|done|].
  - apply blind_act; [by intros []|]. intros [] w w' p' _ Ec; simplify_eq; cbn; [done|eauto].
  - intros [agent|e] [now Ha]; cbn; eauto 6.
Qed.

Lemma blind_guarded {R} Stack jobID (handler : Context → prog world (result R)) (Q : result R → Prop) :
  (∀ agent, admitted i ctx fullMethod agent →
     blind I (λ o, match o with inl r => Q r | inr _ => True end) (handler (WithValue ctx agent))) →
  (∀ e, refusal e → Q (Err e)) →
  blind I (λ o, match o with inl r => Q r | inr _ => False end) (guard Stack i fullMethod (
     r ← authorize i ctx fullMethod jobID;
     match r with Err e => mret (Err e) | Ok authorized => handler authorized end)).
Proof.
  intros Hh HQ. unfold guard.
  apply (blind_recover I (λ o, match o with inl r => Q r | inr _ => True end)); [|done|].
  2:{ intros v _. apply blind_write. apply HQ. by left. }
  apply (blind_bind I (λ o, match o with
    | inl (Ok ctx') => ∃ agent, ctx' = WithValue ctx agent ∧ admitted i ctx fullMethod agent
    | inl (Err e) => refusal e | inr _ => True end)); [|done|].
  2:{ intros [ctx'|e] Ho; [|by apply HQ]. destruct Ho as (agent & -> & Ha). by apply Hh. }
  unfold authorize. destruct (actionFor fullMethod) as [action|] eqn:Ea; [|apply blind_write; by left].
  apply (blind_bind I (λ o, match o with
    | inl r => authenticate_post i ctx r | inr _ => True end)); [|done|].
  - apply blind_authenticate.
  - intros [agent|e] Hp; [|exact Hp]. destruct Hp as (state & now & Hf & Hauth). cbv beta iota.
    destruct (Authorize _ agent action) as [e|] eqn:Ez; apply blind_write; cbn; [unfold refusal; auto|].
    exists agent. split; [done|]. by exists action, state, now.
Qed.
End evidence.

End interceptor.
Arguments Interceptor A : clear implicits.
End interceptor.
