(* ===== verification/Work.v ===== *)
(** * How much a goroutine does

    [within n p]: whatever the world does between its actions, and whatever the
    calls out answer, [p] takes at most [n] actions. The bounds of the handlers
    and of the interceptors, from which [SystemLiveness] bounds every RPC. *)

From S2P Require Import Prelude GoStrings GoErrors Conc X509 SpiffeID X509SVID Identity Authz Slog.
From S2P Require Import Context Authenticator Wire Job JobInvariant Registry Ticks Service Interceptor.

Module work.
Import authn worker worker_spec worker_ticks conc context authenticator registry service interceptor.

(** ** Programs *)

Section within.
Context {W : Type}.

Inductive within {A} : nat → prog W A → Prop :=
| within_settled n p (HS : settled p = true) : within n p
| within_act n f (HA : ∀ c w w' p', f c w = Some (w', p') → within n p') : within (S n) (Act f).

Lemma within_step {A} n c (p p' : prog W A) w w' :
  within n p → prog_step c p w = Some (w', p') → ∃ m, n = S m ∧ within m p'.
Proof. intros [m q HS|m f HA] H; [by destruct q|]. exists m. split; [done|]. by eapply HA. Qed.

Lemma within_mono {A} n m (p : prog W A) : n ≤ m → within n p → within m p.
Proof.
  intros Hle H. revert m Hle. induction H as [n p HS|n f _ IH]; intros m Hle; [by constructor|].
  destruct m as [|m]; [lia|]. apply within_act. intros c w w' p' H. eapply IH; [exact H|lia].
Qed.

Lemma within_bind {A B} n m (p : prog W A) (k : A → prog W B) :
  within n p → (∀ a, within m (k a)) → within (n + m) (prog_bind k p).
Proof.
  intros Hp Hk. induction Hp as [n p HS|n f _ IH].
  - destruct p as [a|v|f]; [|by constructor|done]. cbn. eapply within_mono; [|apply Hk]. lia.
  - cbn. apply within_act. intros c w w' p' H. destruct (f c w) as [[w1 p1]|] eqn:E; [|done].
    injection H as _ <-. by eapply IH.
Qed.

Lemma within_recover {A} n m (p : prog W A) h :
  within n p → (∀ v, within m (h v)) → within (n + m) (prog_recover h p).
Proof.
  intros Hp Hh. induction Hp as [n p HS|n f _ IH].
  - destruct p as [a|v|f]; [by constructor| |done]. cbn. eapply within_mono; [|apply Hh]. lia.
  - cbn. apply within_act. intros c w w' p' H. destruct (f c w) as [[w1 p1]|] eqn:E; [|done].
    injection H as _ <-. by eapply IH.
Qed.

Lemma within_finally {A} n m (p : prog W A) d :
  within n p → within m d → within (n + m) (prog_finally d p).
Proof.
  intros Hp Hd. induction Hp as [n p HS|n f _ IH].
  - rewrite Nat.add_comm. eapply (within_mono (m + 0)); [lia|].
    destruct p as [a|v|f]; [..|done]; cbn; (apply within_bind; [done|by constructor]).
  - cbn. apply within_act. intros c w w' p' H. destruct (f c w) as [[w1 p1]|] eqn:E; [|done].
    injection H as _ <-. by eapply IH.
Qed.

(** An action that leads nowhere else. *)
Lemma within_action {A} (f : choice → W → option (W * prog W A)) n :
  (∀ c w w' p', f c w = Some (w', p') → settled p' = true) → within (S n) (Act f).
Proof. intros H. apply within_act. intros c w w' p' E. apply within_settled. by eapply H. Qed.

Lemma within_atomically {A} n (f : W → W * A) : within (S n) (atomically f).
Proof. apply within_action. intros [] w w' p'; try done. destruct (f w). by intros [= _ <-]. Qed.

Lemma within_await {A} n (f : W → option A) : within (S n) (await f).
Proof. apply within_action. intros [] w w' p'; try done. destruct (f w); [|done]. by intros [= _ <-]. Qed.

(** One action, and what follows. *)
Lemma within_next {A B} n (p : prog W A) (k : A → prog W B) :
  within 1 p → (∀ a, within n (k a)) → within (S n) (prog_bind k p).
Proof. apply (within_bind 1). Qed.

End within.

(** The bound of a program, action by action. *)
Ltac act :=
  repeat first
    [ by constructor
    | apply within_atomically
    | apply within_await
    | case_match
    | apply within_next; [solve [apply within_atomically | apply within_await] | intros ?] ].

(** ** The handlers *)

Section handlers.
Context (s : Service) (ctx : Context).

Lemma within_agentID : within 1 (agentID s ctx).
Proof. unfold agentID, log. act. Qed.

Lemma within_Start count : within 3 (Start s ctx count).
Proof. apply (within_bind 1 2); [apply within_agentID|]. intros [a|e]; unfold log; act. Qed.

Lemma within_findJob jobID : within 3 (findJob s ctx jobID).
Proof. apply (within_bind 1 2); [apply within_agentID|]. intros [a|e]; unfold log; act. Qed.

Lemma within_protoStatus st : within 1 (protoStatus s st).
Proof. unfold protoStatus, log. act. Qed.

Lemma within_registry_Stop l : within 3 (registry.Stop l).
Proof. unfold registry.Stop. act. Qed.

Lemma within_Stop jobID : within 7 (service.Stop s ctx jobID).
Proof.
  apply (within_bind 3 4); [apply within_findJob|]. intros [[l a]|e]; [|by constructor].
  apply (within_bind 3 1); [apply within_registry_Stop|]. intros st.
  apply (within_bind 1 0); [apply within_protoStatus|]. by constructor.
Qed.

Lemma within_GetStatus jobID : within 5 (GetStatus s ctx jobID).
Proof.
  apply (within_bind 3 2); [apply within_findJob|]. intros [[l a]|e]; [|by constructor].
  apply (within_bind 1 1); [apply within_await|]. intros st.
  apply (within_bind 1 0); [apply within_protoStatus|]. by constructor.
Qed.

Context (durationpb_New : Z → fizzledv1.Duration).

Lemma within_Send stream t : within 1 (Send stream t).
Proof. apply within_action. intros [] w w' p'; try done; [destruct e|]; by intros [= _ <-]. Qed.

Lemma within_iter_select l r : within 1 (iter_select l ctx r).
Proof.
  apply within_action. intros c w w' p' H. destruct c; try done.
  - destruct (job_at l w) as [j|]; [|done]. cbn in H. destruct (Ticks_step _ j r); [|done]. by injection H as _ <-.
  - destruct (Context_Err _ ctx); [|done]. destruct (job_at l w) as [j|]; [|done]. cbn in H.
    destruct (Ticks_step _ j r); [|done]. by injection H as _ <-.
Qed.

(** Two actions a move of the iterator, and one more when the transport fails. *)
Lemma within_stream_loop fuel stream l r :
  within (2 * fuel + 1) (stream_loop durationpb_New fuel s ctx stream l r).
Proof.
  revert r. induction fuel as [|fuel IH]; intros r; [by constructor|].
  apply (within_mono (S (S (2 * fuel + 1)))); [lia|]. cbn [stream_loop]. destruct (r_pc r) as [n|n t m|n m|e].
  all: try by constructor.
  - apply within_next; [apply within_await|]. intros r'. eapply within_mono; [|apply IH]. lia.
  - apply within_next; [apply within_Send|]. intros [e|]; unfold log, read_job.
    + apply (within_mono 2); [lia|]. act.
    + apply within_next; [apply within_await|]. intros r'. apply IH.
  - apply within_next; [apply within_iter_select|]. intros r'. eapply within_mono; [|apply IH]. lia.
Qed.

Lemma within_StreamOutput stream jobID :
  within (8 + 2 * stream_fuel) (StreamOutput durationpb_New s ctx stream jobID).
Proof.
  apply (within_bind 3 (5 + 2 * stream_fuel)); [apply within_findJob|]. intros [[l a]|e]; [|by constructor].
  apply within_next; [apply within_await|]. intros id. apply within_next; [apply within_atomically|]. intros _.
  apply (within_mono (2 * stream_fuel + 1 + 2)); [lia|]. apply within_finally.
  - apply (within_mono (2 * stream_fuel + 1 + 0)); [lia|]. apply within_bind; [apply within_stream_loop|].
    by constructor.
  - unfold log, read_job. act.
Qed.

End handlers.

(** ** The interceptors *)

Section interceptor.
Context {A : Type} `{peers : PeerAuthenticator A}.
Context (Stack : string) (i : Interceptor A) (ctx : Context) (fullMethod : string).

Lemma within_authenticate : within 1 (authenticate i ctx).
Proof.
  unfold authenticate, write. destruct (FromContext ctx) as [[state|text]|]; [|act..].
  apply (within_bind 1 0).
  - apply within_action. intros [] w w' p'; try done; by intros [= _ <-].
  - intros [a|e]; by constructor.
Qed.

Lemma within_authorize jobID : within 2 (authorize i ctx fullMethod jobID).
Proof.
  unfold authorize, write. destruct (actionFor fullMethod) as [action|]; [|act].
  apply (within_bind 1 1); [apply within_authenticate|]. intros [a|e]; [|by constructor].
  unfold auditDecision, write. act.
Qed.

(** Three actions around a handler. *)
Lemma within_guarded {R} n jobID (handler : Context → prog world (result R)) :
  (∀ ctx, within n (handler ctx)) →
  within (n + 3) (guard Stack i fullMethod (
    r ← authorize i ctx fullMethod jobID;
    match r with Err e => mret (Err e) | Ok authorized => handler authorized end)).
Proof.
  intros Hh. apply (within_mono (2 + n + 1)); [lia|]. apply within_recover.
  - apply within_bind; [apply within_authorize|]. intros [c|e]; [apply Hh|by constructor].
  - intros v. unfold write. act.
Qed.

End interceptor.

End work.
