(* ===== verification/Liveness.v ===== *)
(** * What the handlers wait for

    Every handler can act until it has answered, but for two: [Stop] waits for
    the job it was called on, [StreamOutput] for the job it follows, and both for
    no other. [Shutdown] waits for every job. *)

From S2P Require Import Prelude GoStrings GoErrors Conc Progress X509 SpiffeID X509SVID Identity Authz Slog.
From S2P Require Import Context Authenticator Wire Job JobInvariant Registry Ticks Service.
From S2P Require Import ServiceSpec StreamSpec Interceptor.

Module liveness.
Import authn authz worker worker_spec worker_ticks conc progress context authenticator registry service service_spec
  stream_spec interceptor.

(** The job at [l] has closed [finished]. *)
Definition ended (l : loc) (w : world) : Prop := ∃ j, job_at l w = Some j ∧ is_finished j = true.

Lemma exists_stable l : stable evolves (fit (exists_at l)).
Proof. apply fit_stable. intros w w' _ _ Hg. by apply exists_at_grows. Qed.

Section handlers.
Context (rely : world → world → Prop) (rely_evolves : ∀ w w', rely w w' → evolves w w').
Context (ready : world → Prop) (ready_fits : ∀ w, ready w → fits w).
Context (s : Service).
Abbreviation live := (live rely ready).

Lemma rely_fit (P : world → Prop) w w' : stable evolves P → P w → rely w w' → P w'.
Proof. intros HP Hw Hr. eapply HP; [done|by apply rely_evolves]. Qed.

Lemma ready_fit (P : world → Prop) w : fit P w → ready w → P w.
Proof. intros H Hw. by destruct (H (ready_fits _ Hw)). Qed.

Lemma live_log {A} lvl msg attrs (k : prog world A) w :
  (∀ w1 recs, rely w w1 → live k (with_log recs w1)) → live (_ ← log s lvl msg attrs; k) w.
Proof. intros H. apply live_atomically_bind. intros w1 w2 [] Hr [= <-]. by apply H. Qed.

Lemma live_read_job {A B} l (f : Job → A) (k : A → prog world B) w :
  fit (exists_at l) w → (∀ w1 a, rely w w1 → live (k a) w1) → live (a ← read_job l f; k a) w.
Proof.
  intros Hw Hk. apply live_await_bind; [|by intros; apply Hk].
  intros w1 Hr Hready. destruct (ready_fit _ _ (rely_fit _ _ _ (exists_stable l) Hw Hr) Hready) as [j Hj].
  rewrite Hj. by eexists.
Qed.

Lemma live_protoStatus {A} st (k : fizzledv1.Status → prog world A) w :
  (∀ pb w, live (k pb) w) → live (pb ← protoStatus s st; k pb) w.
Proof.
  intros Hk. apply live_bind_any; [exact Hk|]. unfold protoStatus.
  repeat destruct (_ =? _)%string; try done. apply live_log. by intros.
Qed.

Lemma live_agentID ctx w : live (agentID s ctx) w.
Proof. unfold agentID. destruct (agent_of ctx); [done|]. apply live_log. by intros. Qed.

Lemma live_findJob ctx id w : live (findJob s ctx id) w.
Proof.
  apply live_bind_any; [|apply live_agentID]. intros [a|e] w1; [|done].
  apply live_atomically_bind. intros w2 w3 [l|] _ _; [done|]. apply live_log. by intros.
Qed.

Lemma live_Start ctx count w : live (Start s ctx count) w.
Proof.
  apply live_bind_any; [|apply live_agentID]. intros [a|e] w1; [|done].
  apply live_atomically_bind. intros w2 w3 [id|e] _ _; [done|].
  destruct (Is e ErrInvalidCount); [done|]. destruct (Is e ErrNotAcceptingJobs); [done|].
  apply live_log. by intros.
Qed.

(** [Job.Stop] waits for the job it is called on, of which [O] stays known. *)
Lemma live_Stop_job (O : world → Prop) l w :
  stable evolves (fit O) →
  (∀ w, ready w → O w → ended l w) → fit O w → live (registry.Stop l) w.
Proof.
  intros HO Hend Hw. unfold registry.Stop. apply live_atomically_bind. intros w1 w2 [] Hr [= <-].
  assert (fit O (cancelled l w1)) as H2.
  { eapply HO; [|apply (stop_guar_evolves l); by right]. by eapply rely_fit. }
  apply live_await_bind.
  - intros w3 Hr3 Hready. pose proof (rely_fit _ _ _ HO H2 Hr3) as H3.
    destruct (Hend _ Hready (ready_fit _ _ H3 Hready)) as (j & -> & Hf). cbn. rewrite Hf. by eexists.
  - intros w3 [] Hr3 _. pose proof (rely_fit _ _ _ HO H2 Hr3) as H3.
    apply live_await. intros w4 Hr4 Hready.
    destruct (Hend _ Hready (ready_fit _ _ (rely_fit _ _ _ HO H3 Hr4) Hready)) as (j & -> & _). by eexists.
Qed.

Section owned.
Context (ctx : Context) (a : AgentID) (agent_in_ctx : agent_of ctx = Some a) (id : string).

(** What follows the lookup is live if it is whenever the job is [a]'s. *)
Lemma live_found {A} (k : result (loc * AgentID) → prog world A) w :
  fit (λ _, True) w →
  (∀ e w1, live (k (Err e)) w1) →
  (∀ l w1, fit (λ w, Find a id w = Some l) w1 → live (k (Ok (l, a))) w1) →
  live (r ← findJob s ctx id; k r) w.
Proof.
  intros Hw He Hl. apply (live_bind _ (λ _ _, True)); [|apply live_findJob].
  eapply wp_mono; [|by apply (wp_findJob rely (λ _ _, True) rely_evolves ltac:(done) s ctx a id w w agent_in_ctx Hw)].
  intros [[[l b]|e]|v] w1 Hp; [|by apply He|done]. destruct Hp as [-> Hp]. by apply Hl.
Qed.

Lemma live_GetStatus w : fit (λ _, True) w → live (GetStatus s ctx id) w.
Proof.
  intros Hw. apply live_found; [done|done|]. intros l w1 Hl. apply live_read_job; [by eapply found_exists|].
  intros w2 st Hr. by apply live_protoStatus.
Qed.

Lemma live_Stop_handler w :
  (∀ w l, ready w → Find a id w = Some l → ended l w) →
  fit (λ _, True) w → live (service.Stop s ctx id) w.
Proof.
  intros Hend Hw. apply live_found; [done|done|]. intros l w1 Hl.
  apply live_bind_any; [intros st w2; by apply live_protoStatus|].
  apply (live_Stop_job (λ w, Find a id w = Some l)); [apply found_stable|by intros; eapply Hend|done].
Qed.
End owned.

End handlers.

(** ** Streams *)

Section stream.
Context (durationpb_New : Z → fizzledv1.Duration) (s : Service) (ctx : Context) (a : AgentID) (id : string).
Context (stream : scope) (ready : world → Prop) (ready_fits : ∀ w, ready w → fits w).

(** A stream that has delivered everything there is of a job that still runs
    waits for the job, unless its own context is done. *)
Definition may_continue (l : loc) (w : world) : Prop :=
  ∀ j, job_at l w = Some j →
    is_finished j = true ∨ length (sent stream w) < length (ticks j) ∨ is_Some (Context_Err (w_done w) ctx).

Context (l : loc) (ready_continues : ∀ w, ready w → Find a id w = Some l → may_continue l w).
Abbreviation rely := (stream_rely stream).
Abbreviation live := (live rely ready).
Abbreviation owned := (fit (λ w, Find a id w = Some l)).
Abbreviation streaming := (streaming durationpb_New ctx stream l).

Lemma stream_evolves w w' : rely w w' → evolves w w'.
Proof. by intros []. Qed.

(** The select has an arm that is ready. *)
Lemma live_iter_select n r cur wait (k : reader → prog world stream_end) w :
  r_pc r = AtWait cur wait → owned w → fit (streaming n r (yielded r)) w →
  (∀ w1 r', rely w w1 → fit (streaming n r (yielded r)) w1 → owned w1 →
     (∃ ev j, job_at l w1 = Some j ∧ Ticks_step ev j r = Some r' ∧
        (ev = Wake ∨ ev = ReaderCtxDone ∧ is_Some (Context_Err (w_done w1) ctx))) → live (k r') w1) →
  live (r' ← iter_select l ctx r; k r') w.
Proof.
  intros Ep Ho Hw Hk. apply live_act.
  - intros w1 Hr Hready. pose proof (rely_fit _ stream_evolves _ _ _ (found_stable a id l) Ho Hr) as Ho1.
    pose proof (streaming_stable _ _ _ _ _ _ _ _ _ Hw Hr) as H1.
    destruct (ready_fit _ ready_fits _ _ H1 Hready) as ((o & count & Hl & Hi & Hri & _) & Hs & _).
    assert (job_at l w1 = Some (c_job (o_cell o))) as Hj by (unfold job_at; by rewrite Hl).
    unfold reader_inv in Hri. rewrite Ep in Hri. destruct Hri as (Hy & Hc & _ & _ & Hopen).
    assert (is_closed (chans (c_job (o_cell o))) wait = true → ∃ c, is_Some
      (prog_step c (r' ← iter_select l ctx r; k r') w1)) as Hwake.
    { intros Hcl. exists Tau. cbn. rewrite Hj. cbn. unfold Ticks_step. rewrite Ep, Hcl. by eexists. }
    destruct (is_closed (chans (c_job (o_cell o))) wait) eqn:Ecl; [by apply Hwake|].
    destruct (Hopen eq_refl) as (-> & _ & Hst).
    destruct (ready_continues _ Hready (ready_fit _ ready_fits _ _ Ho1 Hready) _ Hj) as [Hf|[Hlt|[e He]]].
    + destruct (finished_terminal _ _ Hi Hf) as [Ht _]. by apply terminal_not_running in Ht.
    + rewrite Hs, length_fmap, Hy, length_take in Hlt. lia.
    + exists DoneArm. cbn. rewrite He. cbn. rewrite Hj. cbn. unfold Ticks_step. rewrite Ep. by eexists.
  - intros w1 c w2 p' Hr E. pose proof (rely_fit _ stream_evolves _ _ _ (found_stable a id l) Ho Hr) as Ho1.
    pose proof (streaming_stable _ _ _ _ _ _ _ _ _ Hw Hr) as H1.
    destruct c; cbn in E; try done.
    + destruct (job_at l w1) as [j|] eqn:Hj; [|done]. cbn in E.
      destruct (Ticks_step Wake j r) as [r'|] eqn:Hst; [|done]. cbn in E. injection E as <- <-.
      apply Hk; [done..|]. exists Wake, j. auto.
    + destruct (Context_Err (w_done w1) ctx) eqn:Hd; [|done]. cbn in E.
      destruct (job_at l w1) as [j|] eqn:Hj; [|done]. cbn in E.
      destruct (Ticks_step ReaderCtxDone j r) as [r'|] eqn:Hst; [|done]. cbn in E. injection E as <- <-.
      apply Hk; [done..|]. exists ReaderCtxDone, j. rewrite Hd. eauto.
Qed.

(** A move of the iterator that does not wait. *)
Lemma live_iter_step n r out ev (k : reader → prog world stream_end) w :
  (∀ j, is_Some (Ticks_step ev j r)) → owned w → fit (streaming n r out) w →
  (∀ w1 r' j, rely w w1 → fit (streaming n r out) w1 → owned w1 → job_at l w1 = Some j →
     Ticks_step ev j r = Some r' → live (k r') w1) →
  live (r' ← iter_step l ev r; k r') w.
Proof.
  intros Hen Ho Hw Hk.
  assert (∀ w1, rely w w1 → owned w1 ∧ fit (streaming n r out) w1) as Hmove.
  { intros w1 Hr. split; [by eapply rely_fit; [apply stream_evolves|apply found_stable|..]|].
    by eapply streaming_stable. }
  apply live_await_bind.
  - intros w1 Hr Hready. destruct (Hmove _ Hr) as [Ho1 _].
    destruct (ready_fit _ ready_fits _ _ (found_exists _ _ _ _ Ho1) Hready) as [j ->]. cbn.
    destruct (Hen j) as [r' ->]. by eexists.
  - intros w1 r' Hr E. destruct (Hmove _ Hr). destruct (job_at l w1) as [j|] eqn:Hj; [|done]. by eapply Hk.
Qed.

Lemma live_stream_loop fuel r w :
  owned w → fit (streaming fuel r (yielded r)) w → live (stream_loop durationpb_New fuel s ctx stream l r) w.
Proof.
  revert r w. induction fuel as [|fuel IH]; intros r w Ho Hw; cbn [stream_loop]; [done|].
  destruct (r_pc r) as [cur|cur tick rest|cur wait|site] eqn:Ep; [| | |done].
  - eapply live_iter_step; [|done|done|].
    + intros j. unfold Ticks_step. rewrite Ep. destruct (drop cur (ticks j)); by eexists.
    + intros w1 r' j _ H1 Ho1 Hj Hstep. destruct (Ticks_step_yields _ _ _ _ Hstep) as [Hy Hnr].
      apply IH; [done|]. rewrite Hy. eapply streaming_move; [exact H1|exact Hj|exact Hstep|apply Hnr|].
      intros Hc. by destruct (Hnr ContextDone).
  - apply live_act; [intros w1 _ _; exists (Answer None); by eexists|].
    intros w1 c w2 p' Hr E. pose proof (streaming_stable _ _ _ _ _ _ _ _ _ Hw Hr) as H1.
    pose proof (rely_fit _ stream_evolves _ _ _ (found_stable a id l) Ho Hr) as Ho1.
    destruct c as [| |[e|]|v| | |]; try discriminate E; cbv beta iota in E; injection E as <- <-; [| |done].
    + apply (live_read_job _ stream_evolves _ ready_fits); [by eapply found_exists|].
      intros w2 attrs _. by apply live_log.
    + destruct (send_next _ _ _ _ _ _ _ _ _ _ Ep H1) as [_ Hs].
      assert (owned (with_sent stream (protoTick durationpb_New tick) w1)) as Ho2
        by (eapply found_stable; [exact Ho1|apply with_sent_evolves]).
      eapply live_iter_step; [|done|done|].
      * intros j. unfold Ticks_step. rewrite Ep. cbn. destruct (IsTerminal tick); by eexists.
      * intros w2 r' j _ H2 Ho3 Hj Hstep.
        destruct (Ticks_step_yields _ _ _ _ Hstep) as (cur' & tick' & rest' & Ep' & Hy & Hn1 & Hn2).
        rewrite Ep in Ep'. injection Ep' as <- <- <-.
        apply IH; [done|]. rewrite Hy. by eapply streaming_move.
  - eapply live_iter_select; [done..|]. intros w1 r' _ H1 Ho1 (ev & j & Hj & Hstep & Hev).
    apply IH; [done|]. destruct Hev as [->|[-> Hd]]; destruct (Ticks_step_yields _ _ _ _ Hstep) as [Hy Hnr];
      rewrite Hy; (eapply streaming_move; [exact H1|exact Hj|exact Hstep|..]).
    + apply Hnr.
    + intros Hc. by destruct (Hnr ContextDone).
    + by rewrite Hnr.
    + by intros _.
Qed.

(** The handler around the loop. *)
Lemma live_closing b w :
  fit (exists_at l) w →
  live (attrs ← read_job l (λ j, [("agent_id", b); ("job_id", Job_ID j); ("job_status", Job_Status j)]);
        log s slog.LevelInfo "stream closed" attrs) w.
Proof.
  intros Hw. apply (live_read_job _ stream_evolves _ ready_fits); [done|].
  intros w1 attrs _. apply live_atomically.
Qed.
End stream.

Lemma live_StreamOutput durationpb_New s ctx a id stream ready w :
  agent_of ctx = Some a → (∀ w, ready w → fits w) →
  (∀ l w, ready w → Find a id w = Some l → may_continue ctx stream l w) →
  fit (λ _, True) w → sent stream w = [] →
  live (stream_rely stream) ready (StreamOutput durationpb_New s ctx stream id) w.
Proof.
  intros Ha Hrf Hrc Hw Hs. pose proof (stream_evolves stream) as Hre.
  assert (stable (stream_rely stream) (λ w, sent stream w = [])) as Hst by (intros ? ? ? [? ?]; congruence).
  assert (stable quiet (λ w, sent stream w = [])) as Hsq.
  { intros ? ? ? Hq%(quiet_stream_rely stream). by eapply Hst. }
  unfold StreamOutput. eapply live_bind; [|apply live_findJob].
  eapply wp_mono; [|apply (wp_carry _ _ (λ w, sent stream w = []) _ _ _ Hsq Hst Hs
    (wp_findJob _ quiet Hre ltac:(done) s ctx a id w w Ha Hw ltac:(reflexivity)))].
  intros [[[l b]|e]|v] w1 [Hs1 Hp]; [|done|done]. destruct Hp as [-> Hl].
  apply (live_read_job _ Hre _ Hrf); [by eapply found_exists|]. intros w2 jid Hr2.
  pose proof (rely_fit _ Hre _ _ _ (found_stable a id l) Hl Hr2) as Hl2.
  apply live_log. intros w3 recs Hr3.
  assert (stream_rely stream w2 (with_log recs w3)) as Hr.
  { etrans; [done|]. apply quiet_stream_rely. right. by exists recs. }
  pose proof (rely_fit _ Hre _ _ _ (found_stable a id l) Hl2 Hr) as Hl3.
  pose proof (Hst _ _ (Hst _ _ Hs1 Hr2) Hr) as Hs3.
  apply (live_finally _ (λ _ _, True)).
  - eapply wp_mono; [|eapply (wp_weaken (stream_rely stream)); [done| |apply (wp_carry _ (stream_only durationpb_New stream l)
      (fit (exists_at l)) (λ _ _, True))]].
    + intros o w4 [He _]. split; [apply wp_top|]. by apply live_closing.
    + done.
    + intros w4 w5 H4 Hg%stream_only_rely. by eapply exists_stable.
    + intros w4 w5 H4 [Hg _]. by eapply exists_stable.
    + by eapply found_exists.
    + apply wp_bind. eapply wp_mono; [|by apply (wp_stream_loop durationpb_New s ctx stream l stream_fuel Ticks_start),
        streaming_start; [|eapply found_exists]]. by intros [].
  - apply live_bind_any; [done|]. eapply live_stream_loop; [done|by intros; apply Hrc|done|].
    apply streaming_start; [done|]. by eapply found_exists.
Qed.

(** ** Shutdown *)

Lemma live_Shutdown ready w :
  (∀ w, ready w → fits w) → (∀ w l, ready w → l < length (w_heap w) → ended l w) →
  fit (λ _, True) w → live evolves ready registry.Shutdown w.
Proof.
  intros Hrf Hend Hw. apply live_atomically_bind. intros w1 w2 locs Hr Hs.
  assert (fit (λ _, True) w1) as H1 by by eapply true_stable.
  assert (Forall (λ l, fit (exists_at l) w2) locs) as Hl.
  { pose proof (shutdown_guar_evolves w1 (Shutdown_snapshot w1).1 ltac:(by left)) as He.
    rewrite Hs in He. apply Forall_forall. intros l Hl Hf.
    destruct (H1 (fits_le _ _ (ev_length _ _ He) Hf)) as [Hi _].
    destruct (ev_grows _ _ He Hi Hf) as [Hi2 _]. split; [done|].
    assert (locs = (Shutdown_snapshot w1).2) as -> by by rewrite Hs.
    apply (snapshot_complete w1 l Hi) in Hl. apply lookup_lt_is_Some in Hl as [o Ho].
    injection Hs as <-. exists (c_job (o_cell o)). unfold job_at. cbn. by rewrite Ho. }
  apply (live_par _ shutdown_guar); [apply _|apply shutdown_guar_evolves|].
  apply Forall_fmap. eapply Forall_impl; [exact Hl|]. intros l Hle. split.
  - eapply wp_mono; [|by apply wp_stop_one]. by intros [].
  - apply live_bind_any; [done|]. apply (live_Stop_job _ (λ _ _ H, H) _ Hrf (exists_at l)); [apply exists_stable| |done].
    intros w3 Hw3 [j Hj]. apply (Hend _ _ Hw3). by eapply job_at_lt.
Qed.

(** ** The gate *)

Section gate.
Context {A : Type} `{PeerAuthenticator A}.
Context (rely : world → world → Prop) (ready : world → Prop).
Context (i : Interceptor A) (ctx : Context) (fullMethod : string).
Abbreviation live := (live rely ready).

Lemma live_write {B} lvl msg attrs (k : prog world B) w :
  (∀ w, live k w) → live (_ ← write i lvl msg attrs; k) w.
Proof. intros Hk. apply live_atomically_bind. intros w1 w2 [] _ _. apply Hk. Qed.

Lemma live_authenticate w : live (authenticate i ctx) w.
Proof.
  unfold authenticate. destruct (FromContext ctx) as [[state|text]|]; [|by apply live_write..].
  apply live_bind_any; [by intros []|]. apply live_act.
  - intros w1 _ _. exists (ClockReads 0). by eexists.
  - intros w1 c w2 p' _ E. destruct c; simplify_eq; done.
Qed.

Lemma live_authorize jobID w : live (authorize i ctx fullMethod jobID) w.
Proof.
  unfold authorize. destruct (actionFor fullMethod); [|by apply live_write].
  apply live_bind_any; [|apply live_authenticate]. intros [agent|e] w1; [|done].
  destruct (Authorize _ agent _); by apply live_write.
Qed.

(** Behind the interceptors a handler waits for what it waits for itself. *)
Lemma live_guarded {R} (guar : world → world → Prop) Stack jobID
    (handler : Context → prog world (result R)) (P : world → Prop) w :
  (∀ w w', quiet w w' → guar w w') → stable rely P → stable quiet P → P w →
  (∀ agent w1, admitted i ctx fullMethod agent → P w1 → live (handler (WithValue ctx agent)) w1) →
  live (guard Stack i fullMethod (
    r ← authorize i ctx fullMethod jobID;
    match r with Err e => mret (Err e) | Ok authorized => handler authorized end)) w.
Proof.
  intros Hq HPr HPq HP Hh. apply (live_recover _ (λ _ _, True)).
  - eapply wp_mono; [|apply wp_top]. intros [r|v] w1 _; [done|]. by apply live_write.
  - eapply live_bind; [|apply live_authorize].
    eapply wp_mono; [|apply (wp_carry _ _ P _ _ _ HPq HPr HP (wp_authorize rely quiet ltac:(done) i ctx fullMethod jobID w))].
    intros [[ctx'|e]|v] w1 [HP1 Ho]; [|done..]. destruct Ho as (agent & -> & Ha). by apply Hh.
Qed.
End gate.

End liveness.
