(* ===== verification/Client.v ===== *)
(** * The client: [internal/client]

    The gRPC stub, its connection and protobuf's JSON encoding are parameters:
    what the package does with their answers is what it consists of. *)

From S2P Require Import Prelude GoStrings GoErrors Conc X509 SpiffeID X509SVID Identity TrustBundle.
From S2P Require Import Slog Context Authenticator Wire Job Registry Ticks Service.

Module client.
Import x509 worker authn authenticator trustbundle.

(** ** Failures: [errors.go] *)

Section errors.
(** [status.Code], of an error that is not nil. *)
Context (Code : error → code).

(** The sentinel a status code is reported as. *)
Definition sentinel_for (c : code) : sentinel :=
  match c with
  | InvalidArgument => ErrInvalidArgument
  | NotFound => ErrNotFound
  | PermissionDenied => ErrPermissionDenied
  | Unauthenticated => ErrUnauthenticated
  | Unavailable => ErrUnavailable
  | Canceled => ErrCanceled
  | DeadlineExceeded => ErrDeadlineExceeded
  | OK | Unknown | AlreadyExists | ResourceExhausted | FailedPrecondition | Aborted
  | OutOfRange | Unimplemented | Internal | DataLoss => ErrRPC
  end.

Definition errorFrom (operation : string) (err : option error) : option error :=
  match err with
  | None => None
  | Some e => Some (errorf2 operation (Sentinel (sentinel_for (Code e))) e)
  end.

(** [return zero, err]: the caller sees the zero value when [err] is nil. *)
Definition fails {A} (zero : A) (err : option error) : result A :=
  match err with None => Ok zero | Some e => Err e end.

(** ** Calls: [client.go] *)

Section calls.
(** [Status.String], which the protobuf runtime implements. *)
Context (Status_String : fizzledv1.Status → string).

Definition statusFrom (wire : fizzledv1.Status) : result Status :=
  if (wire =? fizzledv1.Status_STATUS_RUNNING)%Z then Ok StatusRunning
  else if (wire =? fizzledv1.Status_STATUS_COMPLETED)%Z then Ok StatusCompleted
  else if (wire =? fizzledv1.Status_STATUS_STOPPED)%Z then Ok StatusStopped
  else if (wire =? fizzledv1.Status_STATUS_FAILED)%Z then Ok StatusFailed
  else Err (errorf ("status [" +:+ Status_String wire +:+ "]") (Sentinel ErrUnknownStatus)).

(** The getters of a response answer the zero value for another message. *)
Definition GetJobId (r : fizzledv1.Response) : string :=
  match r with fizzledv1.StartResponse id => id | _ => "" end.
Definition GetStatus_ (r : fizzledv1.Response) : fizzledv1.Status :=
  match r with
  | fizzledv1.StopResponse s | fizzledv1.GetStatusResponse s => s
  | fizzledv1.StartResponse _ => fizzledv1.Status_STATUS_UNSPECIFIED
  end.

(** The stub: one call over the connection. *)
Context (fizzle : fizzledv1.Request → result fizzledv1.Response).

(** [Client.Start]; [count] is an [int]. *)
Definition Start (count : Z) : result JobID :=
  let operation := "start [" +:+ pretty count +:+ "]" in
  if (count <? MinInt32)%Z || (count >? MaxInt32)%Z
  then Err (errorf operation (Sentinel ErrInvalidArgument))
  else
    match fizzle (fizzledv1.StartRequest (int32 count)) with
    | Err e => fails "" (errorFrom operation (Some e))
    | Ok response => Ok (GetJobId response)
    end.

Definition Stop (jobID : JobID) : result Status :=
  let operation := "stop [" +:+ jobID +:+ "]" in
  match fizzle (fizzledv1.StopRequest jobID) with
  | Err e => fails "" (errorFrom operation (Some e))
  | Ok response => map_err (errorf operation) (statusFrom (GetStatus_ response))
  end.

Definition GetStatus (jobID : JobID) : result Status :=
  let operation := "get status [" +:+ jobID +:+ "]" in
  match fizzle (fizzledv1.GetStatusRequest jobID) with
  | Err e => fails "" (errorFrom operation (Some e))
  | Ok response => map_err (errorf operation) (statusFrom (GetStatus_ response))
  end.
End calls.

(** ** Streams *)

(** [protojson]'s encoding of a tick, and [json.Compact]. *)
Context (Marshal : fizzledv1.Tick → result string) (Compact : string → result string).

(** [tickJSON] *)
Definition tickJSON (tick : fizzledv1.Tick) : result string :=
  encoded ← map_err (errorf "tick json") (Marshal tick);
  map_err (errorf "tick json") (Compact encoded).

(** One element of the sequence: [(encoded, nil)] or [(nil, err)]. *)
Definition element : Type := result string.

(** How the iterator leaves, and whether it is still in [Recv]. The context of
    the stream is cancelled whenever it leaves. *)
Inductive leaving := Receiving | Returned.

(** The loop over [stream.Recv], on what it answers in turn, for a consumer
    that decides from the elements it has been handed whether it wants more. *)
Fixpoint recv_loop (operation : string) (wants_more : list element → bool)
    (recvs : list (result fizzledv1.Tick)) (yielded : list element) : list element * leaving :=
  match recvs with
  | [] => (yielded, Receiving)
  | Err e :: recvs =>
      if Is e io_EOF then (yielded, Returned)
      else (yielded ++ [fails "" (errorFrom operation (Some e))], Returned)
  | Ok tick :: recvs =>
      match tickJSON tick with
      | Err e => (yielded ++ [Err (errorf operation e)], Returned)
      | Ok encoded =>
          let yielded := yielded ++ [Ok encoded] in
          if negb (wants_more yielded) then (yielded, Returned)
          else recv_loop operation wants_more recvs yielded
      end
  end.

(** [Client.StreamOutput]: [opened] is what opening the stream answers, [recvs]
    what [Recv] answers from then on. *)
Definition StreamOutput (jobID : JobID) (wants_more : list element → bool)
    (opened : option error) (recvs : list (result fizzledv1.Tick)) : list element * leaving :=
  let operation := "stream output [" +:+ jobID +:+ "]" in
  match opened with
  | Some e => ([fails "" (errorFrom operation (Some e))], Returned)
  | None => recv_loop operation wants_more recvs []
  end.

(** [Client.Close], on what closing the connection answers. *)
Definition Close (closed : option error) : option error :=
  match closed with
  | None => None
  | Some e => if bool_decide (Code e ≠ Canceled) then Some (errorf "close" e) else None
  end.
End errors.

(** ** Construction *)

(** [type Config struct] *)
Record Config := mkConfig { Address : string; CAPath : string; CertPath : string; KeyPath : string }.

(** [type Client struct]: the address and the transport credentials of its
    connection. *)
Record Client := mkClient { target : string; credentials : authenticator.Config }.

Section new.
Context (Certificate_Verify : Certificate → VerifyOptions → option error).
Context (ReadFile : string → result string) (Clean : string → string).
Context (Decode : string → option (Block * string)) (ParseCertificate : string → result Certificate).
Context (LoadX509KeyPair : string → string → result KeyPair) (Time_text : Z → string).
(** [grpc.NewClient], which does not dial. *)
Context (NewClient : string → authenticator.Config → option error).

(** [New], with the audit lines it writes. [None] as in [NewAuthenticator]. *)
Definition New (config : Config) (logger : option slog.Logger) (now : Z)
    : option (result Client * list slog.LogRecord) :=
  if (Address config =? "")%string
  then Some (Err (errorf "new client: empty address" (Sentinel ErrConfig)), [])
  else
    made ← NewAuthenticator ReadFile Clean Decode ParseCertificate Time_text (CAPath config) logger;
    match made with
    | Err e => Some (Err (errorf2 "new client" (Sentinel ErrConfig) e), [])
    | Ok (authenticator, recs) =>
        match ClientConfig Certificate_Verify Clean ParseCertificate LoadX509KeyPair authenticator now
                (CertPath config) (KeyPath config) with
        | Err e => Some (Err (errorf2 "new client" (Sentinel ErrConfig) e), recs)
        | Ok tlsConfig =>
            match NewClient (Address config) tlsConfig with
            | Some e =>
                Some (Err (errorf2 ("new client [" +:+ Address config +:+ "]") (Sentinel ErrConfig) e), recs)
            | None => Some (Ok (mkClient (Address config) tlsConfig), recs)
            end
        end
    end.
End new.

(** ** Properties *)

(** The status the server sends for a job. *)
Lemma protoStatus_Ret s st wire :
  service.protoStatus s st = conc.Ret wire ↔
  (st = StatusRunning ∧ wire = 1%Z) ∨ (st = StatusCompleted ∧ wire = 2%Z) ∨
  (st = StatusStopped ∧ wire = 3%Z) ∨ (st = StatusFailed ∧ wire = 4%Z).
Proof.
  unfold service.protoStatus.
  repeat match goal with
  | |- context [(st =? ?c)%string] => destruct (String.eqb_spec st c) as [->|?]
  end; split.
  all: try (intros [= <-]; auto).
  all: intros [[Hs Hw]|[[Hs Hw]|[[Hs Hw]|[Hs Hw]]]]; subst; done.
Qed.

Lemma statusFrom_Ok Status_String wire st :
  statusFrom Status_String wire = Ok st ↔
  (st = StatusRunning ∧ wire = 1%Z) ∨ (st = StatusCompleted ∧ wire = 2%Z) ∨
  (st = StatusStopped ∧ wire = 3%Z) ∨ (st = StatusFailed ∧ wire = 4%Z).
Proof.
  unfold statusFrom, fizzledv1.Status_STATUS_RUNNING,
    fizzledv1.Status_STATUS_COMPLETED, fizzledv1.Status_STATUS_STOPPED, fizzledv1.Status_STATUS_FAILED.
  split; [|by intros [[-> ->]|[[-> ->]|[[-> ->]|[-> ->]]]]].
  repeat case_match; reflect; subst; intros [= <-]; auto.
Qed.

(** A status crosses the wire unchanged: the client reports [st] for a wire
    status exactly when the server sends that wire status for a job in [st];
    STATUS_UNSPECIFIED and numbers the client does not know are errors. *)
Theorem statuses_round_trip (Status_String : fizzledv1.Status → string) (s : service.Service)
  (wire : fizzledv1.Status) (st : Status) :
  (statusFrom Status_String wire = Ok st ↔
   service.protoStatus s st = conc.Ret wire) ∧
  (is_ok (statusFrom Status_String wire) = true ↔ (1 <= wire <= 4)%Z).
Proof.
  rewrite protoStatus_Ret, statusFrom_Ok. split; [done|]. unfold statusFrom, fizzledv1.Status_STATUS_RUNNING,
    fizzledv1.Status_STATUS_COMPLETED, fizzledv1.Status_STATUS_STOPPED, fizzledv1.Status_STATUS_FAILED.
  repeat case_match; reflect; cbn; split; intros; try done; lia.
Qed.

(** The ticks that are handed on, each encoded, until something ends it. *)
Fixpoint encoded_until (recvs : list (result fizzledv1.Tick)) (Marshal : fizzledv1.Tick → result string)
    (Compact : string → result string) : list string :=
  match recvs with
  | Ok t :: recvs =>
      match tickJSON Marshal Compact t with
      | Ok s => s :: encoded_until recvs Marshal Compact
      | Err _ => []
      end
  | _ => []
  end.

Definition is_err {A} (r : result A) : bool := negb (is_ok r).

Lemma recv_loop_spec Code Marshal Compact operation wants_more recvs yielded out l :
  recv_loop Code Marshal Compact operation wants_more recvs yielded = (out, l) →
  ∃ k fin, out = yielded ++ (Ok <$> take k (encoded_until recvs Marshal Compact)) ++ fin ∧
    length fin ≤ 1 ∧ forallb is_err fin = true.
Proof.
  revert yielded. induction recvs as [|[t|e] recvs IH]; intros yielded; cbn -[take tickJSON].
  - intros [= <- <-]. exists 0, []. split_and!; [by rewrite app_nil_r|cbn; lia|done].
  - destruct (tickJSON Marshal Compact t) as [s|e].
    + destruct (wants_more _); cbn -[take].
      * intros H. apply IH in H as (k & fin & -> & Hl & Hf). exists (S k), fin. split_and!; [|done|done].
        cbn. by rewrite <-app_assoc.
      * intros [= <- <-]. exists 1, []. cbn. split_and!; [by rewrite app_nil_r|lia|done].
    + intros [= <- <-]. exists 0, [Err (errorf operation e)]. cbn. split_and!; [done|lia|done].
  - destruct (Is e io_EOF); intros [= <- <-].
    + exists 0, []. cbn. rewrite app_nil_r. split_and!; [done|lia|done].
    + exists 0, [fails "" (errorFrom Code operation (Some e))]. cbn. split_and!; [done|lia|done].
Qed.

(** Ticks that can be encoded are handed on one by one. *)
Lemma recv_loop_ok Code Marshal Compact operation wants_more ticks encoded recvs yielded :
  Forall2 (λ t s, tickJSON Marshal Compact t = Ok s) ticks encoded →
  (∀ more, wants_more (yielded ++ (Ok <$> more)) = true) →
  recv_loop Code Marshal Compact operation wants_more ((Ok <$> ticks) ++ recvs) yielded =
  recv_loop Code Marshal Compact operation wants_more recvs (yielded ++ (Ok <$> encoded)).
Proof.
  intros H. revert yielded.
  induction H as [|t s ticks encoded Ht _ IH]; intros yielded Hw; cbn -[tickJSON]; [by rewrite app_nil_r|].
  rewrite Ht. cbn. pose proof (Hw [s]) as Hs. cbn in Hs. rewrite Hs. cbn. rewrite IH.
  - by rewrite <-app_assoc.
  - intros more. rewrite <-app_assoc. apply (Hw (s :: more)).
Qed.

Lemma recv_loop_all Code Marshal Compact operation wants_more ticks encoded yielded eof :
  Forall2 (λ t s, tickJSON Marshal Compact t = Ok s) ticks encoded → Is eof io_EOF = true →
  (∀ more, wants_more (yielded ++ (Ok <$> more)) = true) →
  recv_loop Code Marshal Compact operation wants_more ((Ok <$> ticks) ++ [Err eof]) yielded =
  (yielded ++ (Ok <$> encoded), Returned).
Proof. intros H He Hw. rewrite (recv_loop_ok _ _ _ _ _ _ encoded) by done. cbn. by rewrite He. Qed.

(** C37: the sequence a consumer is handed is a prefix of the encodings of what
    the server sent, in order, then at most one failure, which is last. When
    the server closes the stream behind its last tick and the consumer wants
    everything, it is handed every tick and no failure. *)
Theorem client_stream_faithful (Code : error → code) (Marshal : fizzledv1.Tick → result string)
  (Compact : string → result string) (jobID : JobID) (wants_more : list element → bool) (opened : option error)
  (recvs : list (result fizzledv1.Tick)) :
  (∃ k fin, (StreamOutput Code Marshal Compact jobID wants_more opened recvs).1 =
      (Ok <$> take k (encoded_until recvs Marshal Compact)) ++ fin ∧
    length fin ≤ 1 ∧ forallb is_err fin = true) ∧
  ∀ ticks encoded, Forall2 (λ t s, tickJSON Marshal Compact t = Ok s) ticks encoded →
    StreamOutput Code Marshal Compact jobID (λ _, true) None ((Ok <$> ticks) ++ [Err (Sentinel io_EOF)]) =
    (Ok <$> encoded, Returned).
Proof.
  split.
  - unfold StreamOutput. destruct opened as [e|].
    + exists 0, [fails "" (errorFrom Code ("stream output [" +:+ jobID +:+ "]") (Some e))]. cbn. split_and!; [done|lia|done].
    + destruct (recv_loop _ _ _ _ _ _ _) as [out l] eqn:E. by apply recv_loop_spec in E.
  - intros ticks encoded H. unfold StreamOutput. by rewrite (recv_loop_all _ _ _ _ _ _ encoded).
Qed.

End client.
