(* ===== verification/Fizzle.v ===== *)
(** * The command [fizzle]: [cmd/fizzle]

    The command line, the four commands, and the code the process exits with.
    Writing to a stream is a parameter: what is on the stream afterwards, and
    whether the write failed. *)

From S2P Require Import Prelude GoStrings GoErrors Conc X509 SpiffeID X509SVID Identity TrustBundle.
From S2P Require Import CommandLine Slog Context Authenticator Wire Job Registry Ticks Service.
From S2P Require Import Client.

Module fizzle.
Import x509 authn worker authenticator trustbundle client.

Definition newline : string := String (ascii_of_nat 10) "".

(** ** Commands: [command.go] *)

Definition commandStart : string := "start".
Definition commandStop : string := "stop".
Definition commandStatus : string := "status".
Definition commandOutputs : string := "outputs".
Definition commands : list string := [commandStart; commandStop; commandStatus; commandOutputs].

(** [type command interface], by its implementations. *)
Inductive command :=
| startCommand (count : Z)
| stopCommand (jobID : JobID)
| statusCommand (jobID : JobID)
| outputsCommand (jobID : JobID).

Definition newCommand (NumError : string → string → string) (name argument : string) : result command :=
  if (name =? commandStart)%string then
    count ← map_err (errorf2 ("new command [" +:+ name +:+ "]") (Sentinel fizzle_errUsage))
      (strconv.Atoi NumError argument);
    Ok (startCommand count)
  else if (name =? commandStop)%string then Ok (stopCommand argument)
  else if (name =? commandStatus)%string then Ok (statusCommand argument)
  else if (name =? commandOutputs)%string then Ok (outputsCommand argument)
  else Err (errorf ("new command: unknown name [" +:+ name +:+ "]") (Sentinel fizzle_errUsage)).

(** ** The command line: [flags.go] *)

Definition defaultAddress : string := "localhost:8443".
Definition defaultCAPath : string := ".secrets/ca.crt".
Definition defaultCertPath : string := ".secrets/agent-smith.crt".
Definition defaultKeyPath : string := ".secrets/agent-smith-private.key".

(** The double quote. *)
Definition dq : string := String (ascii_of_nat 34) "".

(** What [-h] prints. *)
Definition usage : string := "fizzle runs stochastic countdowns on a fizzled server.

Usage:
  fizzle <command> [flags] <argument>

Commands:
  start <count>    start a job, and print its job id
  stop <id>        request a stop, whether or not it is still running
  status <id>      print RUNNING, COMPLETED, STOPPED or FAILED
  outputs <id>     print every tick as one line of JSON, until the stream ends

Flags:
  --server <address>   the server to dial (default " +:+ dq +:+ "localhost:8443" +:+ dq +:+ ")
  --ca <path>          the trust bundle the server is verified against
                       (default " +:+ dq +:+ ".secrets/ca.crt" +:+ dq +:+ ")
  --cert <path>        the certificate this client presents
                       (default " +:+ dq +:+ ".secrets/agent-smith.crt" +:+ dq +:+ ")
  --key <path>         the private key for that certificate
                       (default " +:+ dq +:+ ".secrets/agent-smith-private.key" +:+ dq +:+ ")

Exit codes:
  0   the command succeeded
  1   the command failed at the server, never reached it, or was interrupted
  2   the command line, or the files it named, could not be used
".

Record invocation := mkInvocation { name : string; argument : string; config : client.Config }.

(** [newFlagSet]: the flags, and the configuration the values that were set
    leave behind. *)
Definition flag_names : list string := ["server"; "ca"; "cert"; "key"].

Definition newFlagSet (actual : gmap string string) : client.Config :=
  client.mkConfig (default defaultAddress (actual !! "server")) (default defaultCAPath (actual !! "ca"))
    (default defaultCertPath (actual !! "cert")) (default defaultKeyPath (actual !! "key")).

Definition isHelpRequest (arg : string) : bool := bool_decide (arg ∈ ["-h"; "-help"; "--help"]).

Definition parse (args : list string) : result invocation :=
  match args with
  | [] => Err (errorf "parse: no command given" (Sentinel fizzle_errUsage))
  | name :: args =>
      if isHelpRequest name then Err (errorf "parse" (Sentinel flag_ErrHelp))
      else if negb (bool_decide (name ∈ commands)) then
        Err (errorf ("parse: unknown command [" +:+ name +:+ "]") (Sentinel fizzle_errUsage))
      else
        match flag.Parse flag_names args ∅ with
        | Err e =>
            if Is e flag_ErrHelp then Err (errorf ("parse [" +:+ name +:+ "]") e)
            else Err (errorf2 ("parse [" +:+ name +:+ "]") (Sentinel fizzle_errUsage) e)
        | Ok (actual, positional) =>
            match positional with
            | [argument] => Ok (mkInvocation name argument (newFlagSet actual))
            | _ => Err (errorf ("parse [" +:+ name +:+ "]: expected one positional argument, got "
                          +:+ pretty (length positional)) (Sentinel fizzle_errUsage))
            end
        end
  end.

(** ** Exit codes: [errors.go] *)

Definition exitSuccess : Z := 0.
Definition exitFailure : Z := 1.
Definition exitUsage : Z := 2.

Definition exitCodeFor (err : option error) : Z :=
  match err with
  | None => exitSuccess
  | Some e =>
      if Is e fizzle_errUsage || Is e ErrInvalidArgument || Is e ErrConfig then exitUsage else exitFailure
  end.

(** ** The process: [main.go] *)

Section process.
Context (NumError : string → string → string).
(** What a stream that holds the first string holds after a write of the
    second, and whether the write failed. *)
Context (Write_stdout Write_stderr : string → string → string * option error).

(** What the client is built from, and what its stub and its streams answer. *)
Context (Certificate_Verify : Certificate → VerifyOptions → option error).
Context (ReadFile : string → result string) (Clean : string → string).
Context (Decode : string → option (Block * string)) (ParseCertificate : string → result Certificate).
Context (LoadX509KeyPair : string → string → result KeyPair) (Time_text : Z → string).
Context (NewClient : string → authenticator.Config → option error) (now : Z).
Context (Code : error → code) (Status_String : fizzledv1.Status → string).
Context (Marshal : fizzledv1.Tick → result string) (Compact : string → result string).
Context (stub : Client → fizzledv1.Request → result fizzledv1.Response).
Context (stream : Client → JobID → option error * list (result fizzledv1.Tick)).

Definition writeLine (out line : string) : string * option error :=
  let '(out, err) := Write_stdout out (line +:+ newline) in
  match err with
  | Some e => (out, Some (errorf "write line" e))
  | None => (out, None)
  end.

(** The body of the loop over a stream, element by element, until it returns. *)
Fixpoint print_all (jobID : JobID) (out : string) (elements : list element) : string * option error :=
  match elements with
  | [] => (out, None)
  | Err e :: _ => (out, Some (errorf ("outputs [" +:+ jobID +:+ "]") e))
  | Ok tick :: elements =>
      match writeLine out tick with
      | (out, Some e) => (out, Some (errorf ("outputs [" +:+ jobID +:+ "]") e))
      | (out, None) => print_all jobID out elements
      end
  end.

(** [command.execute]; [None] is a stream that never ends. *)
Definition command_execute (cmd : command) (fizzle : Client) (stdout : string)
    : option (string * option error) :=
  match cmd with
  | startCommand count =>
      match client.Start Code (stub fizzle) count with
      | Err e => Some (stdout, Some (errorf ("start execute [" +:+ pretty count +:+ "]") e))
      | Ok jobID => Some (writeLine stdout jobID)
      end
  | stopCommand jobID =>
      match client.Stop Code Status_String (stub fizzle) jobID with
      | Err e => Some (stdout, Some (errorf ("stop execute [" +:+ jobID +:+ "]") e))
      | Ok _ => Some (stdout, None)
      end
  | statusCommand jobID =>
      match client.GetStatus Code Status_String (stub fizzle) jobID with
      | Err e => Some (stdout, Some (errorf ("status execute [" +:+ jobID +:+ "]") e))
      | Ok status => Some (writeLine stdout status)
      end
  | outputsCommand jobID =>
      let '(opened, recvs) := stream fizzle jobID in
      let wants_more yielded := bool_decide ((print_all jobID stdout yielded).2 = None) in
      match client.StreamOutput Code Marshal Compact jobID wants_more opened recvs with
      | (elements, Returned) => Some (print_all jobID stdout elements)
      | (_, Receiving) => None
      end
  end.

(** [execute]: the client is closed when it returns; what closing answers is
    dropped. *)
Definition execute (args : list string) (stdout : string) : option (string * option error) :=
  match parse args with
  | Err e => Some (stdout, Some e)
  | Ok parsed =>
      match newCommand NumError (name parsed) (argument parsed) with
      | Err e => Some (stdout, Some e)
      | Ok cmd =>
          '(made, _) ← client.New Certificate_Verify ReadFile Clean Decode ParseCertificate LoadX509KeyPair
            Time_text NewClient (config parsed) None now;
          match made with
          | Err e => Some (stdout, Some (errorf ("execute [" +:+ name parsed +:+ "]") e))
          | Ok fizzle => command_execute cmd fizzle stdout
          end
      end
  end.

(** [run]: the exit code, and the two streams. *)
Definition run (args : list string) (stdout stderr : string) : option (Z * string * string) :=
  '(stdout, err) ← execute args stdout;
  match err with
  | None => Some (exitSuccess, stdout, stderr)
  | Some e =>
      if Is e flag_ErrHelp then Some (exitSuccess, (Write_stdout stdout usage).1, stderr)
      else
        let stderr := if Is e fizzle_errUsage then (Write_stderr stderr usage).1 else stderr in
        let stderr := (Write_stderr stderr ("fizzle: " +:+ Error e +:+ newline)).1 in
        Some (exitCodeFor (Some e), stdout, stderr)
  end.

(** [main]: what the process exits with, on all of its arguments. [None] is
    also the panic of [os.Args[1:]] when there is not even a program name. *)
Definition main (os_Args : list string) (stdout stderr : string) : option (Z * string * string) :=
  match os_Args with
  | [] => None
  | _ :: args => run args stdout stderr
  end.

(** ** Lemmas *)

(** What [parse] fails with is a mistake or a request for help, and not both. *)
Lemma parse_Err args e :
  parse args = Err e → Is e fizzle_errUsage = negb (Is e flag_ErrHelp).
Proof.
  unfold parse. destruct args as [|name args]; [by intros [= <-]|].
  destruct (isHelpRequest name); [by intros [= <-]|]. destruct (negb _); [by intros [= <-]|].
  destruct (flag.Parse flag_names args ∅) as [[actual positional]|e'] eqn:E.
  - destruct positional as [|? []]; intros [= <-]; done.
  - apply flag.Parse_Err in E as [->|[text ->]]; by intros [= <-].
Qed.

(** A client that cannot be built is a matter of configuration. *)
Lemma New_Err config logger e recs :
  client.New Certificate_Verify ReadFile Clean Decode ParseCertificate LoadX509KeyPair Time_text NewClient
    config logger now = Some (Err e, recs) → Is e ErrConfig = true.
Proof.
  unfold client.New. destruct (_ =? _)%string; [by intros [= <- <-]|].
  destruct (NewAuthenticator _ _ _ _ _ _ _) as [[[a r]|e']|]; cbn -[errorf2]; [|by intros [= <- <-]|done].
  destruct (ClientConfig _ _ _ _ _ _ _ _) as [cfg|e']; [|by intros [= <- <-]].
  destruct (NewClient _ _); [by intros [= <- <-]|done].
Qed.

(** The request a command makes, unless it streams. *)
Definition request_of (cmd : command) : option fizzledv1.Request :=
  match cmd with
  | startCommand count => Some (fizzledv1.StartRequest (int32 count))
  | stopCommand id => Some (fizzledv1.StopRequest id)
  | statusCommand id => Some (fizzledv1.GetStatusRequest id)
  | outputsCommand _ => None
  end.

Definition representable (cmd : command) : Prop :=
  match cmd with startCommand count => (MinInt32 <= count <= MaxInt32)%Z | _ => True end.

End process.

End fizzle.
