(* ===== verification/FizzleProperties.v ===== *)
(** * What the command [fizzle] reads, prints and exits with

    The command line is read back as it was meant; and every way the command can
    fail, with what is on its two streams and the code it exits with. *)

From S2P Require Import Prelude GoStrings GoErrors Conc X509 SpiffeID X509SVID Identity TrustBundle.
From S2P Require Import CommandLine Slog Context Authenticator Wire Job Registry Ticks Service.
From S2P Require Import Client Fizzle.

Module fizzle_properties.
Import x509 authn worker authenticator trustbundle client fizzle.

(** ** The command line *)

(** The last value given for a flag, or its default. *)
Definition last_value (flag default : string) (kvs : list (string * string)) : string :=
  match last (filter (λ kv, kv.1 = flag) kvs) with Some kv => kv.2 | None => default end.

Lemma fold_left_last (kvs : list (string * string)) (m : gmap string string) k dflt :
  default dflt (fold_left (λ m kv, <[kv.1 := kv.2]> m) kvs m !! k) = last_value k (default dflt (m !! k)) kvs.
Proof.
  unfold last_value. induction kvs as [|[k' v] kvs IH] using rev_ind; [done|].
  rewrite fold_left_app, filter_app. cbn [fold_left fst snd]. destruct (decide (k' = k)) as [->|Hne].
  - rewrite lookup_insert_eq, filter_cons_True, filter_nil, last_snoc by done. done.
  - rewrite lookup_insert_ne, filter_cons_False, filter_nil, app_nil_r by done. exact IH.
Qed.

Lemma scan_digits n s m : strconv.scan n s = strconv.Number m → all_bytes is_digit s = true.
Proof.
  revert n. induction s as [|c s IH]; intros n H; [done|]. cbn in H |- *.
  destruct (is_digit c); [|done]. cbn in H |- *. destruct (_ >? _)%Z; [done|]. by eapply IH.
Qed.

(** A text that is a number, for [Atoi]. *)
Definition decimal (s : string) : Prop :=
  ∃ sign digits, s = sign +:+ digits ∧ sign ∈ [""; "-"; "+"] ∧ digits ≠ "" ∧ all_bytes is_digit digits = true.

Lemma Atoi_decimal NumError s n : strconv.Atoi NumError s = Ok n → decimal s.
Proof.
  unfold strconv.Atoi. intros H.
  assert (∀ sign digits (b : bool), sign ∈ [""; "-"; "+"] →
    match (if (digits =? "")%string then strconv.InvalidSyntax else strconv.scan 0 digits) with
    | strconv.InvalidSyntax => Err (Foreign (NumError s "invalid syntax"))
    | strconv.OutOfRange => Err (Foreign (NumError s "value out of range"))
    | strconv.Number n =>
        let n := if b then (- n)%Z else n in
        if (n <? MinInt64)%Z || (n >? MaxInt64)%Z then Err (Foreign (NumError s "value out of range")) else Ok n
    end = Ok n → decimal (sign +:+ digits)) as Hd.
  { intros sign digits b Hs Hn. exists sign, digits. destruct (String.eqb_spec digits ""); [done|].
    destruct (strconv.scan 0 digits) eqn:E; try done. by apply scan_digits in E. }
  destruct s as [|c rest]; [done|]. destruct (is_byte "-" c) eqn:Hm; [|destruct (is_byte "+" c) eqn:Hp].
  - apply Ascii.eqb_eq in Hm as <-. refine (Hd "-" rest true _ H). set_solver.
  - apply Ascii.eqb_eq in Hp as <-. refine (Hd "+" rest false _ H). set_solver.
  - refine (Hd "" (String c rest) false _ H). set_solver.
Qed.

(** C38: the command line is read back as it was meant. A command, any flags of
    the set, each written as a name and a value, and one operand behind the
    terminator, are the invocation they spell: the server, the trust bundle, the
    certificate and the key are the last value given for [server], [ca], [cert]
    and [key], and their defaults otherwise. [stop], [status] and [outputs] are
    the commands of those names on the operand, whatever it is; [start] takes
    every [int], written in decimal, as that count, and nothing but digits behind
    at most a sign: any other operand is a mistake in the usage. *)
Theorem command_line_read (NumError : string → string → string) (cmd argument : string)
  (kvs : list (string * string)) (HN : cmd ∈ ["start"; "stop"; "status"; "outputs"])
  (HK : Forall (λ kv, kv.1 ∈ ["server"; "ca"; "cert"; "key"]) kvs) :
  parse (cmd :: flag.written kvs ++ ["--"; argument]) =
    Ok {| name := cmd; argument := argument;
          config := {| Address := last_value "server" "localhost:8443" kvs;
                       CAPath := last_value "ca" ".secrets/ca.crt" kvs;
                       CertPath := last_value "cert" ".secrets/agent-smith.crt" kvs;
                       KeyPath := last_value "key" ".secrets/agent-smith-private.key" kvs |} |} ∧
  newCommand NumError "stop" argument = Ok (stopCommand argument) ∧
  newCommand NumError "status" argument = Ok (statusCommand argument) ∧
  newCommand NumError "outputs" argument = Ok (outputsCommand argument) ∧
  (∀ n, (MinInt64 <= n <= MaxInt64)%Z → argument = pretty n →
    newCommand NumError "start" argument = Ok (startCommand n)) ∧
  match newCommand NumError "start" argument with
  | Ok c => decimal argument ∧ ∃ n, c = startCommand n
  | Err e => Is e fizzle_errUsage = true
  end.
Proof.
  split_and!; [|done..| |].
  - unfold parse. assert (isHelpRequest cmd = false) as ->.
    { apply bool_decide_eq_false. intros Hh.
      repeat (apply elem_of_cons in HN as [->|HN]; [by vm_compute in Hh; repeat (apply elem_of_cons in Hh as [?|Hh]; [done|]); apply elem_of_nil in Hh|]).
      by apply elem_of_nil in HN. }
    rewrite bool_decide_eq_true_2 by done. cbn [negb].
    rewrite flag.Parse_written.
    + do 2 f_equal. unfold newFlagSet. by rewrite !fold_left_last.
    + eapply Forall_impl; [exact HK|]. intros [k v] Hk. split; [done|]. cbn in Hk.
      repeat (apply elem_of_cons in Hk as [->|Hk]; [done|]). by apply elem_of_nil in Hk.
  - intros n Hn ->. unfold newCommand. cbn [String.eqb]. rewrite strconv.Atoi_pretty by done. done.
  - unfold newCommand. cbn -[errorf2 strconv.Atoi]. destruct (strconv.Atoi NumError argument) as [n|e] eqn:E; cbn.
    + split; [by eapply Atoi_decimal|by eexists].
    + done.
Qed.

Lemma command_line_read_witness :
  parse ["start"; "--key"; "k"; "--server"; "a:1"; "--server"; "h:1"; "--"; "7"] =
    Ok (mkInvocation "start" "7" (mkConfig "h:1" ".secrets/ca.crt" ".secrets/agent-smith.crt" "k")) ∧
  newCommand (λ _ r, r) "start" "7" = Ok (startCommand 7).
Proof.
  destruct (command_line_read (λ _ r, r) "start" "7" [("key", "k"); ("server", "a:1"); ("server", "h:1")])
    as (H & _ & _ & _ & Hc & _).
  - by left.
  - repeat constructor; set_solver.
  - split; [exact H|]. apply (Hc 7%Z); [split; discriminate|reflexivity].
Defined.

(** ** Every way to fail *)

Section process.
Context (NumError : string → string → string).
Context (Write_stdout Write_stderr : string → string → string * option error).
Context (Certificate_Verify : Certificate → VerifyOptions → option error).
Context (ReadFile : string → result string) (Clean : string → string).
Context (Decode : string → option (Block * string)) (ParseCertificate : string → result Certificate).
Context (LoadX509KeyPair : string → string → result KeyPair) (Time_text : Z → string).
Context (NewClient : string → authenticator.Config → option error) (now : Z).
Context (Code : error → code) (Status_String : fizzledv1.Status → string).
Context (Marshal : fizzledv1.Tick → result string) (Compact : string → result string).
Context (stub : Client → fizzledv1.Request → result fizzledv1.Response).
Context (stream : Client → JobID → option error * list (result fizzledv1.Tick)).

Abbreviation run := (fizzle.run NumError Write_stdout Write_stderr Certificate_Verify ReadFile Clean Decode
  ParseCertificate LoadX509KeyPair Time_text NewClient now Code Status_String Marshal Compact stub stream).
Abbreviation command_execute := (fizzle.command_execute Write_stdout Code Status_String Marshal Compact stub stream).
Abbreviation New_client := (client.New Certificate_Verify ReadFile Clean Decode ParseCertificate LoadX509KeyPair
  Time_text NewClient).

(** An error that wraps none of the sentinels the program looks for. *)
Definition outside (e : error) : Prop := ∀ k, Is e k = false.

(** The errors of gRPC, of the JSON encoder and of writes are none of this
    program's, and only the end of a stream is [io.EOF]; those of the files are
    neither a request for help nor a mistake on the command line. *)
Record outsiders : Prop := {
  os_stub : ∀ fizzle request e, stub fizzle request = Err e → outside e;
  os_open : ∀ fizzle id e, (stream fizzle id).1 = Some e → outside e;
  os_recv : ∀ fizzle id e, Err e ∈ (stream fizzle id).2 → Is e io_EOF = false → outside e;
  os_json : ∀ t e, client.tickJSON Marshal Compact t = Err e → outside e;
  os_write : ∀ out text out' e, Write_stdout out text = (out', Some e) → outside e;
  os_files : ∀ config e recs, New_client config None now = Some (Err e, recs) →
    Is e flag_ErrHelp = false ∧ Is e fizzle_errUsage = false;
}.

(** What the server's answer costs: its blaming the argument is a mistake of
    the caller. *)
Definition status_exit (c : code) : Z := if bool_decide (c = InvalidArgument) then 2 else 1.

(** A call that failed, as the client reports it. *)
Definition reported (operation : string) (e : error) : error :=
  errorf2 operation (Sentinel (sentinel_for (Code e))) e.

(** The output of a stream breaks off, from what is on stdout and what [Recv]
    answers from then on: with the error, the exit code and what is left on
    stdout. *)
Inductive breaks_off (id : JobID) : string → list (result fizzledv1.Tick) → string → error → Z → Prop :=
| RecvFails out e recvs :
    Is e io_EOF = false →
    breaks_off id out (Err e :: recvs) out
      (errorf ("outputs [" +:+ id +:+ "]") (reported ("stream output [" +:+ id +:+ "]") e)) (status_exit (Code e))
| EncodingFails out t e recvs :
    client.tickJSON Marshal Compact t = Err e →
    breaks_off id out (Ok t :: recvs) out
      (errorf ("outputs [" +:+ id +:+ "]") (errorf ("stream output [" +:+ id +:+ "]") e)) 1
| PrintingFails out t line out' e recvs :
    client.tickJSON Marshal Compact t = Ok line → Write_stdout out (line +:+ newline) = (out', Some e) →
    breaks_off id out (Ok t :: recvs) out' (errorf ("outputs [" +:+ id +:+ "]") (errorf "write line" e)) 1
| BreaksLater out t line out1 recvs out' e code :
    client.tickJSON Marshal Compact t = Ok line → Write_stdout out (line +:+ newline) = (out1, None) →
    breaks_off id out1 recvs out' e code → breaks_off id out (Ok t :: recvs) out' e code.

(** The call a command makes, as the command and as the client name it. *)
Definition names (cmd : command) : string * string :=
  match cmd with
  | startCommand count => ("start execute [" +:+ pretty count +:+ "]", "start [" +:+ pretty count +:+ "]")
  | stopCommand id => ("stop execute [" +:+ id +:+ "]", "stop [" +:+ id +:+ "]")
  | statusCommand id => ("status execute [" +:+ id +:+ "]", "get status [" +:+ id +:+ "]")
  | outputsCommand id => ("outputs [" +:+ id +:+ "]", "stream output [" +:+ id +:+ "]")
  end.

(** How a command fails: what is on stdout then, its error, and the code. *)
Inductive failure (fizzle : Client) (stdout : string) : command → string → error → Z → Prop :=
| CountTooBig count :
    ¬ (MinInt32 <= count <= MaxInt32)%Z →
    failure fizzle stdout (startCommand count) stdout
      (errorf (names (startCommand count)).1 (errorf (names (startCommand count)).2 (Sentinel ErrInvalidArgument))) 2
| CallFails cmd request e :
    request_of cmd = Some request → representable cmd → stub fizzle request = Err e →
    failure fizzle stdout cmd stdout (errorf (names cmd).1 (reported (names cmd).2 e)) (status_exit (Code e))
| StatusUnknown cmd id request r :
    cmd = stopCommand id ∨ cmd = statusCommand id → request_of cmd = Some request → stub fizzle request = Ok r →
    ¬ (1 <= GetStatus_ r <= 4)%Z →
    failure fizzle stdout cmd stdout
      (errorf (names cmd).1 (errorf (names cmd).2
        (errorf ("status [" +:+ Status_String (GetStatus_ r) +:+ "]") (Sentinel ErrUnknownStatus)))) 1
| AnswerNotPrinted cmd request r line out e :
    request_of cmd = Some request → representable cmd → stub fizzle request = Ok r →
    (∃ count, cmd = startCommand count ∧ line = GetJobId r) ∨
    (∃ id, cmd = statusCommand id ∧ statusFrom Status_String (GetStatus_ r) = Ok line) →
    Write_stdout stdout (line +:+ newline) = (out, Some e) →
    failure fizzle stdout cmd out (errorf "write line" e) 1
| OpeningFails id e :
    (stream fizzle id).1 = Some e →
    failure fizzle stdout (outputsCommand id) stdout
      (errorf (names (outputsCommand id)).1 (reported (names (outputsCommand id)).2 e)) (status_exit (Code e))
| OutputBreaksOff id recvs out e code :
    stream fizzle id = (None, recvs) → breaks_off id stdout recvs out e code →
    failure fizzle stdout (outputsCommand id) out e code.

Lemma statusFrom_Err wire e :
  statusFrom Status_String wire = Err e →
  e = errorf ("status [" +:+ Status_String wire +:+ "]") (Sentinel ErrUnknownStatus).
Proof. unfold statusFrom. repeat case_match; by intros [= <-]. Qed.

Lemma statusFrom_unknown wire e : statusFrom Status_String wire = Err e → ¬ (1 <= wire <= 4)%Z.
Proof.
  unfold statusFrom, fizzledv1.Status_STATUS_RUNNING, fizzledv1.Status_STATUS_COMPLETED,
    fizzledv1.Status_STATUS_STOPPED, fizzledv1.Status_STATUS_FAILED. repeat case_match; reflect; done || lia.
Qed.

(** What [outputs] does with what [Recv] answers, one by one. *)
Fixpoint prints_stream (id : JobID) (out : string) (recvs : list (result fizzledv1.Tick))
    : option (string * option error) :=
  let wrap := errorf ("outputs [" +:+ id +:+ "]") in
  match recvs with
  | [] => None
  | Err e :: _ =>
      if Is e io_EOF then Some (out, None)
      else Some (out, Some (wrap (reported ("stream output [" +:+ id +:+ "]") e)))
  | Ok t :: recvs =>
      match client.tickJSON Marshal Compact t with
      | Err e => Some (out, Some (wrap (errorf ("stream output [" +:+ id +:+ "]") e)))
      | Ok line =>
          match writeLine Write_stdout out line with
          | (out, Some e) => Some (out, Some (wrap e))
          | (out, None) => prints_stream id out recvs
          end
      end
  end.

Lemma print_all_app id out els more :
  print_all Write_stdout id out (els ++ more) =
    match print_all Write_stdout id out els with
    | (out, None) => print_all Write_stdout id out more
    | (out, Some e) => (out, Some e)
    end.
Proof.
  revert out. induction els as [|[line|e] els IH]; intros out; cbn; [done| |done].
  destruct (writeLine Write_stdout out line) as [out1 [e|]]; [done|apply IH].
Qed.

(** The iterator of the client and the loop of the command, together. *)
Lemma recv_loop_prints id stdout recvs yielded out :
  print_all Write_stdout id stdout yielded = (out, None) →
  match client.recv_loop Code Marshal Compact ("stream output [" +:+ id +:+ "]")
          (λ yielded, bool_decide ((print_all Write_stdout id stdout yielded).2 = None)) recvs yielded with
  | (els, Returned) => Some (print_all Write_stdout id stdout els)
  | (_, Receiving) => None
  end = prints_stream id out recvs.
Proof.
  revert yielded out. induction recvs as [|[t|e] recvs IH]; intros yielded out Hy; cbn -[client.tickJSON]; [done|..].
  - destruct (client.tickJSON Marshal Compact t) as [line|e].
    + rewrite print_all_app, Hy. cbn. destruct (writeLine Write_stdout out line) as [out1 [e|]] eqn:Ew; cbn.
      * rewrite print_all_app, Hy. cbn. by rewrite Ew.
      * apply IH. rewrite print_all_app, Hy. cbn. by rewrite Ew.
    + rewrite print_all_app, Hy. done.
  - destruct (Is e io_EOF); [by rewrite Hy|]. rewrite print_all_app, Hy. done.
Qed.

Lemma execute_outputs id fizzle stdout :
  command_execute (outputsCommand id) fizzle stdout =
    match stream fizzle id with
    | (Some e, _) => Some (stdout, Some (errorf ("outputs [" +:+ id +:+ "]") (reported ("stream output [" +:+ id +:+ "]") e)))
    | (None, recvs) => prints_stream id stdout recvs
    end.
Proof.
  cbn -[print_all]. destruct (stream fizzle id) as [[e|] recvs]; [done|]. unfold client.StreamOutput.
  by apply recv_loop_prints.
Qed.

Lemma breaks_off_prints id out recvs out' e code :
  breaks_off id out recvs out' e code → prints_stream id out recvs = Some (out', Some e).
Proof.
  induction 1 as [out e recvs He|out t e recvs He|out t line out' e recvs Hl Hw|out t line out1 recvs out' e code Hl Hw _ IH];
    cbn -[client.tickJSON].
  - by rewrite He.
  - by rewrite He.
  - rewrite Hl. unfold writeLine. by rewrite Hw.
  - rewrite Hl. unfold writeLine. by rewrite Hw.
Qed.

Lemma prints_breaks_off id out recvs out' e :
  prints_stream id out recvs = Some (out', Some e) → ∃ code, breaks_off id out recvs out' e code.
Proof.
  revert out. induction recvs as [|[t|e'] recvs IH]; intros out H; cbn -[client.tickJSON] in H; [done|..].
  - destruct (client.tickJSON Marshal Compact t) as [line|e'] eqn:Et.
    + unfold writeLine in H. destruct (Write_stdout out (line +:+ newline)) as [out1 [e'|]] eqn:Ew.
      * injection H as <- <-. eexists. by eapply PrintingFails.
      * destruct (IH _ H) as [code Hb]. exists code. by eapply BreaksLater.
    + injection H as <- <-. eexists. by apply EncodingFails.
  - destruct (Is e' io_EOF) eqn:He; [done|]. injection H as <- <-. eexists. by apply RecvFails.
Qed.

(** The failures are those of [command.execute], and all of them. *)
Lemma failure_execute cmd fizzle stdout out e code :
  failure fizzle stdout cmd out e code → command_execute cmd fizzle stdout = Some (out, Some e).
Proof.
  destruct 1 as [count Hn|cmd request e Hq Hc Hs|cmd id request r Hcmd Hq Hs Hn|cmd request r line out e Hq Hc Hs Hl Hw|
    id e He|id recvs out e code Hs Hb].
  - cbn. unfold client.Start. assert ((count <? MinInt32)%Z || (count >? MaxInt32)%Z = true) as ->; [|done].
    destruct (Z.ltb_spec count MinInt32), (Z.gtb_spec count MaxInt32); done || lia.
  - destruct cmd as [count|id|id|id]; cbn in Hq; simplify_eq; cbn -[int32].
    + unfold client.Start. cbn in Hc.
      destruct (Z.ltb_spec count MinInt32), (Z.gtb_spec count MaxInt32); [lia..|]. cbn -[int32]. by rewrite Hs.
    + unfold client.Stop. by rewrite Hs.
    + unfold client.GetStatus. by rewrite Hs.
  - assert (statusFrom Status_String (GetStatus_ r) =
      Err (errorf ("status [" +:+ Status_String (GetStatus_ r) +:+ "]") (Sentinel ErrUnknownStatus))) as Hst.
    { unfold statusFrom, fizzledv1.Status_STATUS_RUNNING, fizzledv1.Status_STATUS_COMPLETED,
        fizzledv1.Status_STATUS_STOPPED, fizzledv1.Status_STATUS_FAILED. repeat case_match; reflect; done || lia. }
    destruct Hcmd as [->| ->]; cbn in Hq; simplify_eq; cbn -[statusFrom];
      unfold client.Stop, client.GetStatus; rewrite Hs; cbn -[statusFrom]; by rewrite Hst.
  - destruct Hl as [(count & -> & ->)|(id & -> & Hl)]; cbn in Hq; simplify_eq; cbn -[int32 statusFrom].
    + unfold client.Start. cbn in Hc.
      destruct (Z.ltb_spec count MinInt32), (Z.gtb_spec count MaxInt32); [lia..|]. cbn -[int32]. rewrite Hs.
      unfold writeLine. by rewrite Hw.
    + unfold client.GetStatus. rewrite Hs. cbn -[statusFrom]. rewrite Hl. cbn. unfold writeLine. by rewrite Hw.
  - rewrite execute_outputs. destruct (stream fizzle id) as [opened recvs]. cbn in He. by subst.
  - rewrite execute_outputs, Hs. by eapply breaks_off_prints.
Qed.

Lemma execute_failure cmd fizzle stdout out e :
  command_execute cmd fizzle stdout = Some (out, Some e) → ∃ code, failure fizzle stdout cmd out e code.
Proof.
  intros H. destruct cmd as [count|id|id|id].
  - destruct (decide (MinInt32 <= count <= MaxInt32)%Z) as [Hc|Hn].
    2:{ pose proof (failure_execute _ _ _ _ _ _ (CountTooBig fizzle stdout count Hn)) as H'.
        rewrite H in H'. injection H' as -> ->. eexists. by constructor. }
    cbn -[int32] in H. unfold client.Start in H.
    destruct (Z.ltb_spec count MinInt32), (Z.gtb_spec count MaxInt32); [lia..|]. cbn -[int32] in H.
    destruct (stub fizzle _) as [r|e'] eqn:Es.
    + unfold writeLine in H. destruct (Write_stdout _ _) as [out' [e'|]] eqn:Ew; [|done]. injection H as <- <-.
      eexists. eapply (AnswerNotPrinted fizzle stdout (startCommand count)); [done|done|done|by left; exists count|done].
    + injection H as <- <-. eexists. by apply (CallFails fizzle stdout (startCommand count) _ _ eq_refl Hc).
  - cbn -[statusFrom] in H. unfold client.Stop in H. destruct (stub fizzle _) as [r|e'] eqn:Es.
    + destruct (statusFrom Status_String (GetStatus_ r)) as [st|e'] eqn:Est; cbn in H; [done|]. eexists.
      rewrite (statusFrom_Err _ _ Est) in H. injection H as <- <-.
      eapply (StatusUnknown fizzle stdout (stopCommand id)); [by left|done|done|by eapply statusFrom_unknown].
    + injection H as <- <-. eexists. by apply (CallFails fizzle stdout (stopCommand id) _ _ eq_refl I).
  - cbn -[statusFrom] in H. unfold client.GetStatus in H. destruct (stub fizzle _) as [r|e'] eqn:Es.
    + destruct (statusFrom Status_String (GetStatus_ r)) as [st|e'] eqn:Est; cbn in H.
      * unfold writeLine in H. destruct (Write_stdout _ _) as [out' [e'|]] eqn:Ew; [|done]. injection H as <- <-.
        eexists. eapply (AnswerNotPrinted fizzle stdout (statusCommand id)); [done|done|done|by right; exists id|done].
      * eexists. rewrite (statusFrom_Err _ _ Est) in H. injection H as <- <-.
        eapply (StatusUnknown fizzle stdout (statusCommand id)); [by right|done|done|by eapply statusFrom_unknown].
    + injection H as <- <-. eexists. by apply (CallFails fizzle stdout (statusCommand id) _ _ eq_refl I).
  - rewrite execute_outputs in H. destruct (stream fizzle id) as [[e'|] recvs] eqn:Es.
    + injection H as <- <-. eexists. apply OpeningFails. by rewrite Es.
    + destruct (prints_breaks_off _ _ _ _ _ H) as [code Hb]. exists code. by eapply OutputBreaksOff.
Qed.

Section codes.
Context (outsider_errors : outsiders).

(** The process tells a failure from a request for help and from a mistake on
    the command line, and exits with its code. *)
Definition told (e : error) (code : Z) : Prop :=
  Is e flag_ErrHelp = false ∧ Is e fizzle_errUsage = false ∧ exitCodeFor (Some e) = code.

Lemma told_outside e : outside e → told e 1.
Proof. intros H. unfold told, exitCodeFor. by rewrite !H. Qed.

Lemma told_errorf label e code : told e code → told (errorf label e) code.
Proof. unfold told, exitCodeFor. by rewrite !Is_errorf. Qed.

Lemma told_reported operation e : outside e → told (reported operation e) (status_exit (Code e)).
Proof.
  intros H. unfold told, exitCodeFor, reported, status_exit. rewrite !Is_errorf2, !H, !Is_sentinel.
  by destruct (Code e).
Qed.

Lemma breaks_off_told id out recvs out' e code :
  (∀ e, Err e ∈ recvs → Is e io_EOF = false → outside e) → breaks_off id out recvs out' e code → told e code.
Proof.
  intros Hr. induction 1 as [out e recvs He|out t e recvs He|out t line out' e recvs Hl Hw|out t line out1 recvs out' e code Hl Hw _ IH].
  - apply told_errorf, told_reported, Hr; [by left|done].
  - do 2 apply told_errorf. by eapply told_outside, (os_json outsider_errors).
  - do 2 apply told_errorf. by eapply told_outside, (os_write outsider_errors).
  - apply IH. intros e' Hin. apply Hr. by right.
Qed.

Lemma failure_told fizzle stdout cmd out e code : failure fizzle stdout cmd out e code → told e code.
Proof.
  destruct 1 as [count Hn|cmd request e Hq Hc Hs|cmd id request r Hcmd Hq Hs Hn|cmd request r line out e Hq Hc Hs Hl Hw|
    id e He|id recvs out e code Hs Hb].
  - by do 2 apply told_errorf.
  - by eapply told_errorf, told_reported, (os_stub outsider_errors).
  - by do 3 apply told_errorf.
  - by eapply told_errorf, told_outside, (os_write outsider_errors).
  - by eapply told_errorf, told_reported, (os_open outsider_errors).
  - eapply breaks_off_told; [|exact Hb]. intros e' Hin. apply (os_recv outsider_errors fizzle id). by rewrite Hs.
Qed.

(** C39: the exit code and the streams of [fizzle], at every stage that can
    fail. A request for help prints the usage on stdout and exits 0. A command
    line that cannot be read, or an operand that is no count, prints the usage
    and then the error on stderr and exits 2. Files or an address no client can
    be made from exit 2 with the error alone: no usage. After that a command
    fails in the ways [failure] lists, and in no other, with the output so far
    on stdout and its error, alone, on stderr: it exits 2 for a count no request
    can carry, and for an RPC whose status blames the argument; and 1 for every
    other status, for a status of a job it does not know, for a tick it cannot
    encode and for a line it cannot write. Otherwise it exits 0, with nothing on
    stderr. *)
Theorem exit_codes (args : list string) (stdout stderr : string) :
  let line e := "fizzle: " +:+ Error e +:+ newline in
  match parse args with
  | Err e =>
      run args stdout stderr =
        if Is e flag_ErrHelp then Some (0%Z, (Write_stdout stdout usage).1, stderr)
        else Some (2%Z, stdout, (Write_stderr (Write_stderr stderr usage).1 (line e)).1)
  | Ok p =>
      match newCommand NumError (name p) (argument p), New_client (config p) None now with
      | Err e, _ => run args stdout stderr = Some (2%Z, stdout, (Write_stderr (Write_stderr stderr usage).1 (line e)).1)
      | Ok _, None => run args stdout stderr = None
      | Ok _, Some (Err e, _) =>
          run args stdout stderr =
            Some (2%Z, stdout, (Write_stderr stderr (line (errorf ("execute [" +:+ name p +:+ "]") e))).1)
      | Ok cmd, Some (Ok fizzle, _) =>
          (∀ out e code, failure fizzle stdout cmd out e code →
             run args stdout stderr = Some (code, out, (Write_stderr stderr (line e)).1)) ∧
          (∀ code out err, run args stdout stderr = Some (code, out, err) →
             (code = 0%Z ∧ err = stderr) ∨
             ∃ e, failure fizzle stdout cmd out e code ∧ err = (Write_stderr stderr (line e)).1)
      end
  end.
Proof.
  intros line. unfold fizzle.run, execute. destruct (parse args) as [p|e] eqn:Ep.
  2:{ cbn -[Is]. pose proof (parse_Err _ _ Ep) as Hu. destruct (Is e flag_ErrHelp) eqn:Eh; [done|].
      cbn in Hu. by rewrite !Hu. }
  destruct (newCommand NumError (name p) (argument p)) as [cmd|e] eqn:En.
  2:{ assert (Is e fizzle_errUsage = true ∧ Is e flag_ErrHelp = false) as [Hu Hh].
      { unfold newCommand, strconv.Atoi in En. repeat case_match; cbn in En; simplify_eq; done. }
      cbn -[Is]. by rewrite Hh, !Hu. }
  destruct (New_client (config p) None now) as [[[fizzle|e] recs]|] eqn:Ec; [| |done].
  - cbn -[command_execute Is exitCodeFor]. split.
    + intros out e code Hf. destruct (failure_told _ _ _ _ _ _ Hf) as (Hh & Hu & Hx).
      rewrite (failure_execute _ _ _ _ _ _ Hf). cbn -[Is exitCodeFor]. by rewrite Hh, Hu, Hx.
    + intros code out err H. destruct (command_execute cmd fizzle stdout) as [[out' [e|]]|] eqn:Ee; [| |done].
      * destruct (execute_failure _ _ _ _ _ Ee) as [code' Hf]. destruct (failure_told _ _ _ _ _ _ Hf) as (Hh & Hu & Hx).
        cbn -[Is exitCodeFor] in H. rewrite Hh, Hu, Hx in H. injection H as <- <- <-. right. by exists e.
      * cbn in H. injection H as <- _ <-. by left.
  - destruct (os_files outsider_errors _ _ _ Ec) as [Hh Hu].
    cbn -[Is]. rewrite Is_errorf, Hh. unfold exitCodeFor.
    by rewrite !Is_errorf, Hu, (New_Err _ _ _ _ _ _ _ _ _ _ _ _ _ Ec), orb_true_r.
Qed.
End codes.

End process.

(** ** The property at work: a server that knows no such job *)

Definition sample_code (e : error) : code := match e with StatusError c _ => c | _ => Unknown end.
Definition sample_write (out text : string) : string * option error := (out +:+ text, None).

Definition sample_answer : error := StatusError NotFound "job not found".

(** Every path names the same bundle, and the same certificate. *)
Definition sample_ok : string → result string := λ _, Ok sample_bundle.

Definition sample_leaf : Certificate := mkCertificate "leaf" 2 1 20 false KeyUsageDigitalSignature
  [ExtKeyUsageServerAuth; ExtKeyUsageClientAuth] (ECDSAPublicKey P256) [client_uri "smith"].

Definition sample_certificates (der : string) : result Certificate :=
  if (der =? "leaf")%string then Ok sample_leaf else sample_ParseCertificate der.

Lemma sample_outsiders :
  outsiders sample_write (λ _ _, None) sample_ok (λ p, p) sample_Decode sample_certificates
    (λ _ _, Ok (mkKeyPair ["leaf"])) (λ _, "") (λ _ _, None) 10 (λ _, Ok "") Ok (λ _ _, Err sample_answer)
    (λ _ _, (None, [])).
Proof.
  constructor; try done.
  - by intros fizzle request e [= <-] k.
  - intros fizzle id e H. by apply elem_of_nil in H.
  - intros config e recs H. unfold client.New in H. destruct (_ =? _)%string; [by injection H as <- _|].
    exfalso. match type of H with ?new = _ => enough (match new with Some (Err _, _) => False | _ => True end) as Hn end.
    + by rewrite H in Hn.
    + clear H. vm_compute. exact I.
Qed.

(** The process on it, with a stub that answers so. *)
Abbreviation sample_process property := (property (λ _ r : string, r) sample_write sample_write (λ _ _, None)
  sample_ok (λ p, p) sample_Decode sample_certificates (λ _ _, Ok (mkKeyPair ["leaf"])) (λ _, "") (λ _ _, None) 10%Z
  sample_code (λ _, "") (λ _, Ok "") Ok (λ _ _, Err sample_answer) (λ _ _, (None, []))).

Lemma exit_codes_witness :
  sample_process fizzle.run ["status"; "--server"; "h:1"; "smith/0"] "" "" =
    Some (1%Z, "", "fizzle: status execute [smith/0]: get status [smith/0]: not found: job not found" +:+ newline).
Proof.
  pose proof (sample_process exit_codes sample_outsiders ["status"; "--server"; "h:1"; "smith/0"] "" "") as [H _].
  rewrite (H _ _ _ (CallFails _ _ _ _ _ _ _ _ "" (statusCommand "smith/0") (fizzledv1.GetStatusRequest "smith/0")
    sample_answer eq_refl I eq_refl)).
  vm_compute. reflexivity.
Defined.

End fizzle_properties.
