(* ===== verification/System.v ===== *)
(** * The server as a whole

    RPCs arrive on connections, each is served by a goroutine of its own behind
    the interceptors ([newTransport] and [RegisterFizzledServiceServer] in
    [internal/server/server.go]), jobs run, RPCs end, shutdowns begin, in any
    interleaving of their atomic actions. [sys_step] is one event; a system is
    reachable when a list of events leads to it from [sys_init]. *)

From S2P Require Import Prelude GoStrings GoErrors Conc X509 SpiffeID X509SVID Identity Authz Slog.
From S2P Require Import Context Authenticator Wire Job JobInvariant Registry Ticks Service.
From S2P Require Import ServiceSpec StreamSpec Interceptor.

Module system.
Import authn worker worker_spec conc context authenticator registry service service_spec stream_spec interceptor.

(** The method each request of the service is sent to. *)
Definition method_of (req : fizzledv1.Request) : string :=
  match req with
  | fizzledv1.StartRequest _ => fizzledv1.FizzledService_Start_FullMethodName
  | fizzledv1.StopRequest _ => fizzledv1.FizzledService_Stop_FullMethodName
  | fizzledv1.GetStatusRequest _ => fizzledv1.FizzledService_GetStatus_FullMethodName
  | fizzledv1.StreamOutputRequest _ => fizzledv1.FizzledService_StreamOutput_FullMethodName
  | fizzledv1.OtherRequest => ""
  end.

(** A goroutine: a unary RPC, a stream, or a shutdown; or an RPC whose message
    cannot be decoded: a unary one, answered with the decoder's error as it
    arrives, or a stream. *)
Inductive task :=
| Calling (ctx : Context) (req : fizzledv1.Request) (p : prog world (result fizzledv1.Response))
| Streaming (ctx : Context) (id : JobID) (p : prog world (result stream_end))
| ShuttingDown (p : prog world unit)
| Undecoded (ctx : Context) (e : error)
| UndecodedStream (ctx : Context) (e : error) (p : prog world (result stream_end)).

Record system := mkSystem { s_world : world; s_tasks : gmap nat task }.

Section server.
Context {A : Type} `{peers : PeerAuthenticator A}.
Context (durationpb_New : Z → fizzledv1.Duration) (Stack : string).
Context (i : Interceptor A) (svc : Service).

(** The handler a unary request is dispatched to. *)
Definition handler_of (req : fizzledv1.Request) (ctx : Context) : prog world (result fizzledv1.Response) :=
  match req with
  | fizzledv1.StartRequest count => Start svc ctx count
  | fizzledv1.StopRequest id => service.Stop svc ctx id
  | fizzledv1.GetStatusRequest id => GetStatus svc ctx id
  | _ => mret (Err (StatusError Unimplemented "unknown method"))
  end.

(** The goroutine that serves the RPC [tid], which arrived from [peer]. Its
    context carries no agent: the key is the server's own. *)
Definition serve (tid : nat) (peer : option AuthInfo) (req : fizzledv1.Request) : option task :=
  let ctx := mkContext peer None (Some tid) in
  match req with
  | fizzledv1.StartRequest count =>
      if bool_decide (MinInt32 <= count <= MaxInt32)%Z
      then Some (Calling ctx req (Unary Stack i ctx req (method_of req) (handler_of req))) else None
  | fizzledv1.StopRequest _ | fizzledv1.GetStatusRequest _ =>
      Some (Calling ctx req (Unary Stack i ctx req (method_of req) (handler_of req)))
  | fizzledv1.StreamOutputRequest id =>
      Some (Streaming ctx id
        (Stream Stack i ctx (method_of req) (λ ctx, StreamOutput durationpb_New svc ctx tid id)))
  | fizzledv1.OtherRequest => None
  end.

(** The goroutine of an RPC whose message the decoder refuses with [e]: a unary
    handler returns it before its interceptor is called, a stream's handler is
    behind the gate. *)
Definition serve_undecoded (tid : nat) (peer : option AuthInfo) (stream : bool) (e : error) : task :=
  let ctx := mkContext peer None (Some tid) in
  if stream then
    UndecodedStream ctx e (Stream Stack i ctx fizzledv1.FizzledService_StreamOutput_FullMethodName (λ _, mret (Err e)))
  else Undecoded ctx e.

Inductive sys_event :=
| Arrive (tid : nat) (peer : option AuthInfo) (req : fizzledv1.Request)
| ArriveUndecoded (tid : nat) (peer : option AuthInfo) (stream : bool) (e : error)
| BeginShutdown (tid : nat)
| TaskRuns (tid : nat) (c : choice)
| JobRuns (l : loc) (ev : event)
| RPCEnds (tid : nat) (cause : error).

(** The end of a scope: the jobs derived from it see their context end. *)
Definition end_scope (tid : nat) (cause : error) (w : world) : world :=
  mkWorld (w_registry w)
    ((λ o, if decide (o_parent o = Some tid)
           then default o ((λ c, with_cell c o) <$> job_step (ParentDone cause) (o_cell o)) else o) <$> w_heap w)
    (<[tid := cause]> (w_done w)) (w_log w) (w_sent w).

Definition task_step (c : choice) (t : task) (w : world) : option (world * task) :=
  match t with
  | Calling ctx req p => '(w, p) ← prog_step c p w; Some (w, Calling ctx req p)
  | Streaming ctx id p => '(w, p) ← prog_step c p w; Some (w, Streaming ctx id p)
  | ShuttingDown p => '(w, p) ← prog_step c p w; Some (w, ShuttingDown p)
  | Undecoded _ _ => None
  | UndecodedStream ctx e p => '(w, p) ← prog_step c p w; Some (w, UndecodedStream ctx e p)
  end.

Definition sys_step (ev : sys_event) (s : system) : option system :=
  match ev with
  | Arrive tid peer req =>
      match s_tasks s !! tid with
      | Some _ => None
      | None => t ← serve tid peer req; Some (mkSystem (s_world s) (<[tid := t]> (s_tasks s)))
      end
  | ArriveUndecoded tid peer stream e =>
      match s_tasks s !! tid with
      | Some _ => None
      | None => Some (mkSystem (s_world s) (<[tid := serve_undecoded tid peer stream e]> (s_tasks s)))
      end
  | BeginShutdown tid =>
      match s_tasks s !! tid with
      | Some _ => None
      | None => Some (mkSystem (s_world s) (<[tid := ShuttingDown (service.Shutdown svc)]> (s_tasks s)))
      end
  | TaskRuns tid c =>
      t ← s_tasks s !! tid;
      '(w, t) ← task_step c t (s_world s);
      Some (mkSystem w (<[tid := t]> (s_tasks s)))
  | JobRuns l ev =>
      o ← w_heap (s_world s) !! l;
      c ← job_step (Go ev) (o_cell o);
      Some (mkSystem (with_heap (<[l := with_cell c o]> (w_heap (s_world s))) (s_world s)) (s_tasks s))
  | RPCEnds tid cause =>
      match s_tasks s !! tid, w_done (s_world s) !! tid with
      | Some _, None => Some (mkSystem (end_scope tid cause (s_world s)) (s_tasks s))
      | _, _ => None
      end
  end.

Fixpoint sys_run (l : list sys_event) (s : system) : option system :=
  match l with
  | [] => Some s
  | ev :: l => s ← sys_step ev s; sys_run l s
  end.

(** ** What each goroutine promises *)

Definition call_post (agent : AgentID) (req : fizzledv1.Request) (w0 : world)
    (r : result fizzledv1.Response) (w : world) : Prop :=
  match req with
  | fizzledv1.StartRequest count => start_post agent count w0 r w
  | fizzledv1.StopRequest id => stop_post agent id w0 r w
  | fizzledv1.GetStatusRequest id => get_status_post agent id w0 r w
  | _ => False
  end.

Definition call_guar (agent : AgentID) (ctx : Context) (req : fizzledv1.Request) (w w' : world) : Prop :=
  match req with
  | fizzledv1.StartRequest count => start_only (WithValue ctx agent) agent count w w'
  | fizzledv1.StopRequest id => stop_only agent id w w'
  | _ => quiet w w'
  end.

Definition task_guar (tid : nat) (t : task) (w w' : world) : Prop :=
  match t with
  | Calling ctx req _ => quiet w w' ∨ ∃ agent, admitted i ctx (method_of req) agent ∧ call_guar agent ctx req w w'
  | Streaming ctx id _ =>
      quiet w w' ∨ ∃ agent, admitted i ctx fizzledv1.FizzledService_StreamOutput_FullMethodName agent ∧
        stream_guar durationpb_New agent tid id w w'
  | ShuttingDown _ => shutdown_guar w w'
  | Undecoded _ _ | UndecodedStream _ _ _ => quiet w w'
  end.

(** A refusal of the interceptors, or what the handler answered an agent. *)
Definition call_answer (ctx : Context) (req : fizzledv1.Request) (w0 : world)
    (r : result fizzledv1.Response) (w : world) : Prop :=
  (∃ e, r = Err e ∧ refusal e) ∨
  ∃ agent, admitted i ctx (method_of req) agent ∧ call_post agent req w0 r w.

Definition stream_answer (tid : nat) (ctx : Context) (id : JobID) (w0 : world)
    (r : result stream_end) (w : world) : Prop :=
  (∃ e, r = Err e ∧ refusal e) ∨
  ∃ agent, admitted i ctx fizzledv1.FizzledService_StreamOutput_FullMethodName agent ∧
    stream_output_post durationpb_New (WithValue ctx agent) agent tid id w0 (inl r) w.

(** A refusal of the interceptors, or the decoder's error, to an agent. *)
Definition undecoded_answer (ctx : Context) (e : error) (r : result stream_end) : Prop :=
  (∃ e', r = Err e' ∧ refusal e') ∨
  ∃ agent, admitted i ctx fizzledv1.FizzledService_StreamOutput_FullMethodName agent ∧ r = Err e.

(** A goroutine that was started in the world [w0] keeps its promise from [w]
    on. *)
Definition task_ok_from (w0 : world) (tid : nat) (t : task) (w : world) : Prop :=
  match t with
  | Calling ctx req p => wp evolves (task_guar tid t) (returns (call_answer ctx req w0)) p w
  | Streaming ctx id p => wp (stream_rely tid) (task_guar tid t) (returns (stream_answer tid ctx id w0)) p w
  | ShuttingDown p => wp evolves shutdown_guar (returns (λ _, fit drained)) p w
  | Undecoded _ _ => True
  | UndecodedStream ctx e p => wp evolves quiet (returns (λ r _, undecoded_answer ctx e r)) p w
  end.

Definition task_ok (tid : nat) (t : task) (w : world) : Prop := ∃ w0, task_ok_from w0 tid t w.

(** ** The invariant of the system *)

Record sys_inv (s : system) : Prop := {
  sy_world : fit (λ _, True) (s_world s);
  sy_tasks : ∀ tid t, s_tasks s !! tid = Some t → task_ok tid t (s_world s);
  sy_fresh : ∀ tid, s_tasks s !! tid = None → w_sent (s_world s) !! tid = None;
}.

(** ** Posts survive *)

Lemma found_none_stable (P : Prop) : stable evolves (λ w, fits w → P).
Proof. intros w w' Hw [Hl _] Hf. apply Hw. by eapply fits_le. Qed.

Lemma call_post_stable agent req w0 r : stable evolves (call_post agent req w0 r).
Proof.
  intros w w' H He. destruct req as [count|id|id|id|]; cbn in *; try done.
  - destruct r as [[id|st|st]|e]; cbn in *; try done.
    + destruct H as (? & H1 & H2). split; [done|]. split; [by eapply (found_none_stable (∀ b, _))|].
      eapply fit_evolves; [|exact H2|done]. intros _ _ Hg [l Hl]. exists l. by eapply gr_find.
    + destruct H as [?|[? H]]; [by left|]. right. split; [done|].
      eapply fit_evolves; [|exact H|done]. intros _ _ Hg Ha. by apply (gr_closed _ _ Hg).
  - destruct r as [[|pb|]|e]; cbn in *; try done.
    + destruct H as (st & -> & H). exists st. split; [done|]. by eapply stop_answer_stable.
    + destruct H as [-> H]. split; [done|]. by eapply found_none_stable.
  - destruct r as [[| |pb]|e]; cbn in *; try done.
    + destruct H as (st & w1 & -> & H0 & H1 & H2). exists st, w1. split_and!; [done|done|by etrans|done].
    + destruct H as [-> H]. split; [done|]. by eapply found_none_stable.
Qed.

Lemma call_answer_stable ctx req w0 o : stable evolves (returns (call_answer ctx req w0) o).
Proof.
  intros w w' H He. destruct o as [r|]; [|done]. destruct H as [H|(agent & Ha & H)]; [by left|].
  right. exists agent. split; [done|]. by eapply call_post_stable.
Qed.

Lemma stream_answer_stable tid ctx id w0 o : stable (stream_rely tid) (returns (stream_answer tid ctx id w0) o).
Proof.
  intros w w' H Hr. destruct o as [r|]; [|done]. destruct H as [H|(agent & Ha & H)]; [by left|].
  right. exists agent. split; [done|]. destruct r as [e|e]; cbn in *.
  - destruct H as (l & Hl & Hp). exists l. split; [eapply found_stable; [done|apply Hr]|].
    exact (stream_post_stable durationpb_New (WithValue ctx agent) tid l (inl e) w w' Hp Hr).
  - destruct H as [-> H]. split; [done|]. eapply found_none_stable; [done|apply Hr].
Qed.

Lemma drained_stable : stable evolves (fit drained).
Proof.
  apply fit_stable. intros w w' Hi _ Hg [Hc Hl]. destruct (gr_closed _ _ Hg Hc) as [? Hlen].
  split; [done|]. intros l Hlt. rewrite Hlen in Hlt. destruct (Hl l Hlt) as [st Hst]. exists st.
  by eapply finished_with_grows.
Qed.

Lemma task_ok_from_stable w0 tid t : stable (stream_rely tid) (task_ok_from w0 tid t).
Proof.
  intros w w' H Hr. destruct t as [ctx req p|ctx id p|p|ctx e|ctx e p]; cbn in *; [| | |done|].
  - eapply (wp_rely evolves); [apply _|intros o; apply call_answer_stable|exact H|apply Hr].
  - eapply (wp_rely (stream_rely tid));
      [apply stream_rely_trans|intros o; apply stream_answer_stable|exact H|apply Hr].
  - eapply (wp_rely evolves); [apply _| |exact H|apply Hr]. intros [[]|v] w1 w2 Ho He; [|done]. by eapply drained_stable.
  - eapply (wp_rely evolves); [apply _| |exact H|apply Hr]. by intros [r|v] w1 w2.
Qed.

Lemma task_ok_stable tid t : stable (stream_rely tid) (task_ok tid t).
Proof. intros w w' [w0 H] Hr. exists w0. by eapply task_ok_from_stable. Qed.

(** ** The steps *)

Lemma call_guar_evolves agent ctx req w w' : call_guar agent ctx req w w' → evolves w w'.
Proof.
  destruct req; cbn; [apply start_only_evolves|apply stop_only_evolves|apply quiet_evolves..].
Qed.

Lemma task_guar_evolves tid t w w' : task_guar tid t w w' → evolves w w'.
Proof.
  destruct t as [ctx req p|ctx id p|p|ctx e|ctx e p]; cbn; [| | |apply quiet_evolves..].
  - intros [H0|(agent & _ & H0)]; [by apply quiet_evolves|by eapply call_guar_evolves].
  - intros [H0|(agent & _ & [H0|(l & t & -> & _)])]; [by apply quiet_evolves..|apply with_sent_evolves].
  - apply shutdown_guar_evolves.
Qed.

Lemma quiet_sent w w' : quiet w w' → w_sent w' = w_sent w.
Proof. by intros [->|[recs ->]]. Qed.

Lemma Create_sent ctx agent count w : w_sent (Create ctx agent count w).1 = w_sent w.
Proof.
  rewrite Create_unfold. destruct (negb _); [done|]. by destruct (record_create _ _ _ _ _) as [[[] ?]|].
Qed.

(** A goroutine sends on its own stream only. *)
Lemma task_guar_sent tid t w w' tid' :
  task_guar tid t w w' → tid' ≠ tid → w_sent w' !! tid' = w_sent w !! tid'.
Proof.
  intros H0 Hne. destruct t as [ctx req p|ctx id p|p|ctx e|ctx e p]; cbn in *; [| | |by rewrite (quiet_sent _ _ H0)..].
  - destruct H0 as [H0|(agent & _ & H0)]; [by rewrite (quiet_sent _ _ H0)|].
    destruct req; cbn in H0; try by rewrite (quiet_sent _ _ H0).
    + destruct H0 as [H0| ->]; [by rewrite (quiet_sent _ _ H0)|by rewrite Create_sent].
    + destruct H0 as [H0|(l & _ & ->)]; [by rewrite (quiet_sent _ _ H0)|done].
  - destruct H0 as [H0|(agent & _ & [H0|(l & t & -> & _)])]; [by rewrite (quiet_sent _ _ H0)..|].
    cbn. by rewrite lookup_insert_ne.
  - destruct H0 as [->|(l & [->| ->])]; done.
Qed.

(** What a goroutine is does not change as it runs. *)
Definition same_task (t t' : task) : Prop :=
  match t, t' with
  | Calling ctx req _, Calling ctx' req' _ => ctx = ctx' ∧ req = req'
  | Streaming ctx id _, Streaming ctx' id' _ => ctx = ctx' ∧ id = id'
  | ShuttingDown _, ShuttingDown _ => True
  | Undecoded ctx e, Undecoded ctx' e' => ctx = ctx' ∧ e = e'
  | UndecodedStream ctx e _, UndecodedStream ctx' e' _ => ctx = ctx' ∧ e = e'
  | _, _ => False
  end.

#[export] Instance same_task_preorder : PreOrder same_task.
Proof.
  split; [by intros []|]. intros [] [] []; cbn; naive_solver.
Qed.

Lemma task_step_same c t w w' t' : task_step c t w = Some (w', t') → same_task t t'.
Proof.
  destruct t as [ctx req p|ctx id p|p|ctx e|ctx e p]; cbn; [..|done|]; destruct (prog_step c p w) as [[w1 p1]|]; try done;
    by intros [= _ <-].
Qed.

Lemma task_step_ok_from w0 tid c t w w' t' :
  task_ok_from w0 tid t w → task_step c t w = Some (w', t') →
  task_guar tid t w w' ∧ task_ok_from w0 tid t' w'.
Proof.
  intros H0 E. destruct t as [ctx req p|ctx id p|p|ctx e|ctx e p]; cbn in E; [..|done|];
    (destruct (prog_step c p w) as [[w1 p1]|] eqn:Ep; [|done]); cbn in E; injection E as <- <-; cbn in *.
  - by destruct (wp_step _ _ _ _ _ _ _ _ _ H0 (reflexivity w) Ep) as [Hg Hw'].
  - by destruct (wp_step _ _ _ _ _ _ _ _ _ H0 (conj (reflexivity w) eq_refl) Ep) as [Hg Hw'].
  - by eapply wp_step; [exact H0|reflexivity|].
  - by eapply wp_step; [exact H0|reflexivity|].
Qed.

Lemma task_step_ok tid c t w w' t' :
  task_ok tid t w → task_step c t w = Some (w', t') → task_guar tid t w w' ∧ task_ok tid t' w'.
Proof.
  intros [w0 H] E. destruct (task_step_ok_from _ _ _ _ _ _ _ H E). split; [done|]. by exists w0.
Qed.

Lemma end_scope_same_jobs tid cause w :
  w_done w !! tid = None → same_jobs w (end_scope tid cause w).
Proof.
  intros Hd. constructor; cbn; try done.
  - apply Forall2_fmap_r, Forall_Forall2_diag, Forall_forall. intros o _. cbn.
    destruct (decide (o_parent o = Some tid)); [|split; [done|reflexivity]].
    cbn. split; [done|]. exists [ParentDone cause]. by destruct (o_cell o).
  - by apply insert_subseteq.
Qed.

Lemma job_runs_same_jobs w l o ev c :
  w_heap w !! l = Some o → job_step (Go ev) (o_cell o) = Some c →
  same_jobs w (with_heap (<[l := with_cell c o]> (w_heap w)) w).
Proof.
  intros Ho Hc. constructor; cbn; try done. apply Forall2_same_length_lookup_2; [by rewrite length_insert|].
  intros k o1 o2 H1 H2. destruct (decide (k = l)) as [->|Hne].
  - rewrite list_lookup_insert_eq in H2 by (by eapply lookup_lt_Some). rewrite Ho in H1. simplify_eq.
    split; [done|]. exists [Go ev]. cbn [job_run]. by rewrite Hc.
  - rewrite list_lookup_insert_ne in H2 by done. rewrite H1 in H2. simplify_eq. by split.
Qed.

(** ** A new goroutine *)

Lemma handler_ok ctx agent req w0 w :
  match req with fizzledv1.StartRequest count => (MinInt32 <= count <= MaxInt32)%Z | _ => True end →
  fizzledv1.OtherRequest ≠ req → (∀ id, fizzledv1.StreamOutputRequest id ≠ req) →
  fit (λ _, True) w0 → evolves w0 w →
  wp evolves (call_guar agent ctx req) (returns (call_post agent req w0)) (handler_of req (WithValue ctx agent)) w.
Proof.
  intros Hc Ho Hs Hw0 He. destruct req as [count|id|id|id|]; [| | |by destruct (Hs id)|done]; cbn.
  - by apply (wp_Start evolves (λ _ _ H, H) svc (WithValue ctx agent) agent eq_refl).
  - by apply (wp_Stop_handler evolves (λ _ _ H, H) svc (WithValue ctx agent) agent eq_refl).
  - by apply (wp_GetStatus_handler evolves (λ _ _ H, H) svc (WithValue ctx agent) agent eq_refl).
Qed.

Lemma calling_ok tid peer req w :
  match req with fizzledv1.StartRequest count => (MinInt32 <= count <= MaxInt32)%Z | _ => True end →
  fizzledv1.OtherRequest ≠ req → (∀ id, fizzledv1.StreamOutputRequest id ≠ req) →
  fit (λ _, True) w →
  let ctx := mkContext peer None (Some tid) in
  task_ok_from w tid (Calling ctx req (Unary Stack i ctx req (method_of req) (handler_of req))) w.
Proof.
  intros Hc Ho Hs Hw ctx.
  eapply wp_mono; [|apply (wp_guarded evolves _ Stack i ctx (method_of req) (targetJobID req) (handler_of req)
    (evolves w) (λ r w', ∃ agent, admitted i ctx (method_of req) agent ∧ call_post agent req w r w'))].
  - intros [r|v] w' Hr; [exact Hr|done].
  - intros w1 w2 Hq. by left.
  - intros w1 w2 H1 H2. by etrans.
  - intros w1 w2 H1 H2. etrans; [done|by apply quiet_evolves].
  - reflexivity.
  - intros agent w1 Ha He. eapply wp_mono; [|eapply wp_weaken; [done| |
      by apply (handler_ok ctx agent req w)]].
    + intros [r|v] w2 Hr; [by exists agent|done].
    + intros w2 w3 Hg. right. by exists agent.
Qed.

Lemma streaming_ok tid peer id w :
  fit (λ _, True) w → w_sent w !! tid = None →
  let ctx := mkContext peer None (Some tid) in
  task_ok_from w tid (Streaming ctx id (Stream Stack i ctx fizzledv1.FizzledService_StreamOutput_FullMethodName
    (λ ctx, StreamOutput durationpb_New svc ctx tid id))) w.
Proof.
  intros Hw Hn ctx.
  eapply wp_mono; [|apply (wp_guarded (stream_rely tid) _ Stack i ctx _ "" _
    (λ w1, evolves w w1 ∧ sent tid w1 = [])
    (λ r w', ∃ agent, admitted i ctx fizzledv1.FizzledService_StreamOutput_FullMethodName agent ∧
       stream_output_post durationpb_New (WithValue ctx agent) agent tid id w (inl r) w'))].
  - intros [r|v] w' Hr; [exact Hr|done].
  - intros w1 w2 Hq. by left.
  - intros w1 w2 [H1 H2] [H3 H4]. split; [by etrans|congruence].
  - intros w1 w2 [H1 H2] Hq. split; [etrans; [done|by apply quiet_evolves]|].
    unfold sent in *. by rewrite (quiet_sent _ _ Hq).
  - split; [reflexivity|]. unfold sent. by rewrite Hn.
  - intros agent w1 Ha [He Hs]. eapply wp_mono; [|eapply wp_weaken; [done| |
      by apply (wp_StreamOutput durationpb_New svc (WithValue ctx agent) agent eq_refl tid id w)]].
    + intros [r|v] w2 Hr; [by exists agent|done].
    + intros w2 w3 Hg. right. by exists agent.
Qed.

Lemma serve_ok tid peer req t w :
  fit (λ _, True) w → w_sent w !! tid = None → serve tid peer req = Some t → task_ok_from w tid t w.
Proof.
  intros Hw Hn H. destruct req as [count|id|id|id|]; cbn -[Unary Stream] in H; simplify_eq.
  - case_bool_decide as Hc; [|done]. injection H as <-. by apply calling_ok.
  - by apply calling_ok.
  - by apply calling_ok.
  - by apply streaming_ok.
Qed.

Lemma undecoded_ok tid peer stream e w : task_ok_from w tid (serve_undecoded tid peer stream e) w.
Proof.
  destruct stream; [|done]. cbn -[Stream].
  eapply wp_mono; [|apply (wp_guarded evolves quiet Stack i _ _ "" _ (λ _, True)
    (λ r _, ∃ agent, admitted i (mkContext peer None (Some tid))
       fizzledv1.FizzledService_StreamOutput_FullMethodName agent ∧ r = Err e)); try done].
  - by intros [r|v] w' Hr.
  - intros agent w1 Ha _. by exists agent.
Qed.

(** ** The system keeps its invariant *)

Lemma sys_step_inv ev s s' :
  sys_inv s → sys_step ev s = Some s' → sys_inv s' ∧ evolves (s_world s) (s_world s').
Proof.
  intros [Hw Ht Hf] H. destruct s as [w tasks]. cbn in *.
  assert (∀ w', evolves w w' → (∀ tid, w_sent w' !! tid = w_sent w !! tid) →
    fit (λ _, True) w' ∧ ∀ tid t, tasks !! tid = Some t → task_ok tid t w') as Hmove.
  { intros w' He Hs. split; [by eapply true_stable|]. intros tid t Hl.
    eapply task_ok_stable; [by apply Ht|]. split; [done|]. unfold sent. by rewrite Hs. }
  destruct ev as [tid peer req|tid peer stream e|tid|tid c|l ev|tid cause];
    cbn -[serve serve_undecoded task_step job_step] in H.
  - destruct (tasks !! tid) eqn:E; [done|]. destruct (serve tid peer req) as [t|] eqn:Es; [|done].
    injection H as <-. split; [|reflexivity]. constructor; cbn; [done| |].
    + intros tid' t'. intros [[<- <-]|[_ Hl]]%lookup_insert_Some; [|by apply Ht].
      exists w. eapply serve_ok; [done|by apply Hf|done].
    + intros tid' Hl. apply lookup_insert_None in Hl as [Hl _]. by apply Hf.
  - destruct (tasks !! tid) eqn:E; [done|]. injection H as <-. split; [|reflexivity].
    constructor; cbn -[serve_undecoded]; [done| |].
    + intros tid' t'. intros [[<- <-]|[_ Hl]]%lookup_insert_Some; [|by apply Ht]. exists w. apply undecoded_ok.
    + intros tid' Hl. apply lookup_insert_None in Hl as [Hl _]. by apply Hf.
  - destruct (tasks !! tid) eqn:E; [done|]. injection H as <-. split; [|reflexivity]. constructor; cbn; [done| |].
    + intros tid' t'. intros [[<- <-]|[_ Hl]]%lookup_insert_Some; [|by apply Ht]. exists w. by apply wp_Shutdown.
    + intros tid' Hl. apply lookup_insert_None in Hl as [Hl _]. by apply Hf.
  - destruct (tasks !! tid) as [t|] eqn:E; [|done]. cbn in H.
    destruct (task_step c t w) as [[w' t']|] eqn:Es; [|done]. injection H as <-.
    destruct (task_step_ok _ _ _ _ _ _ (Ht _ _ E) Es) as [Hg Hok].
    pose proof (task_guar_evolves _ _ _ _ Hg) as He. split; [|done]. constructor; cbn.
    + by eapply true_stable.
    + intros tid' t''. intros [[<- <-]|[Hne Hl]]%lookup_insert_Some; [done|].
      eapply task_ok_stable; [by apply Ht|]. split; [done|]. unfold sent.
      by rewrite (task_guar_sent _ _ _ _ tid' Hg).
    + intros tid' [Hl Hne]%lookup_insert_None. rewrite (task_guar_sent _ _ _ _ tid' Hg); [by apply Hf|done].
  - destruct (w_heap w !! l) as [o|] eqn:Eo; [|done]. cbn -[job_step] in H.
    destruct (job_step (Go ev) (o_cell o)) as [c|] eqn:Ec; [|done]. injection H as <-.
    pose proof (same_jobs_evolves _ _ (job_runs_same_jobs _ _ _ _ _ Eo Ec)) as He.
    split; [|done]. destruct (Hmove _ He) as [? ?]; [done|]. by constructor.
  - destruct (tasks !! tid) eqn:E; [|done]. destruct (w_done w !! tid) eqn:Ed; [done|]. injection H as <-.
    pose proof (same_jobs_evolves _ _ (end_scope_same_jobs tid cause w Ed)) as He.
    split; [|done]. destruct (Hmove _ He) as [? ?]; [done|]. by constructor.
Qed.

Lemma sys_run_inv l s s' :
  sys_inv s → sys_run l s = Some s' → sys_inv s' ∧ evolves (s_world s) (s_world s').
Proof.
  revert s. induction l as [|ev l IH]; intros s Hi H; cbn in H; [simplify_eq; split; [done|reflexivity]|].
  destruct (sys_step ev s) as [s1|] eqn:E; [|done]. destruct (sys_step_inv _ _ _ Hi E) as [Hi1 He].
  destruct (IH _ Hi1 H). split; [done|by etrans].
Qed.

(** The system before the first RPC. *)
Definition sys_init (logger : option slog.Logger) : system := mkSystem (NewService logger).2 ∅.

Lemma init_registry_inv logger : registry_inv (NewService logger).2.
Proof.
  constructor; cbn.
  - intros a rec. by rewrite lookup_empty.
  - intros a rec id l. by rewrite lookup_empty.
  - lia.
  - intros l o. by rewrite lookup_nil.
Qed.

Lemma sys_init_inv logger : sys_inv (sys_init logger).
Proof.
  constructor; cbn.
  - intros _. split; [apply init_registry_inv|done].
  - intros tid t. by rewrite lookup_empty.
  - done.
Qed.

Definition reachable (logger : option slog.Logger) (s : system) : Prop :=
  ∃ l, sys_run l (sys_init logger) = Some s.

Lemma reachable_inv logger s : reachable logger s → sys_inv s.
Proof. intros [l H]. by apply (sys_run_inv _ _ _ (sys_init_inv logger) H). Qed.

End server.
Arguments serve_undecoded : simpl never.
End system.
