(* ===== verification/Sample.v ===== *)
(** * A concrete server

    Two agents, their certificates, the roles file that knows both, and a way
    to run the system on them: what the properties of the whole are exercised
    on. The chain verification of the standard library is instantiated by one
    that accepts, the conversion of durations by the documented one. *)

From S2P Require Import Prelude GoStrings GoErrors Conc X509 SpiffeID X509SVID Identity Authz Slog.
From S2P Require Import Context Authenticator Wire Job JobInvariant Registry Ticks Service.
From S2P Require Import Interceptor System.

Module sample.
Import x509 x509svid authn worker conc context authz authenticator registry service interceptor system.

Definition leaf_of (agent : AgentID) : Certificate := {|
  Raw := agent; SerialNumber := 2; NotBefore := 1; NotAfter := 20; IsCA := false;
  KeyUsage := KeyUsageDigitalSignature; ExtKeyUsage := [ExtKeyUsageServerAuth; ExtKeyUsageClientAuth];
  PublicKeyOf := ECDSAPublicKey P256; URIs := [client_uri agent];
|}.

(** The peer behind a connection of an agent. *)
Definition peer (agent : AgentID) : option AuthInfo :=
  Some (TLSInfo (mkConnectionState [Some (leaf_of agent)])).

Definition seconds (d : Z) : fizzledv1.Duration :=
  fizzledv1.mkDuration (Z.quot d 1000000000) (Z.rem d 1000000000).

#[export] Instance sample_peers : PeerAuthenticator Authenticator := Authenticator_peers (λ _ _, None).

Definition interceptor : Interceptor Authenticator :=
  NewInterceptor sample_authenticator
    (mkAuthorizer {[ "smith" := RoleUser; "jones" := RoleUser ]}) (Some (slog.Handler [])).

Definition svc : Service := (NewService None).1.

Definition step := sys_step seconds "stack" interceptor svc.
Definition run := sys_run seconds "stack" interceptor svc.
Definition init : system := sys_init None.

(** The system after some events, when they can happen. *)
Definition after (l : list sys_event) : system := default init (run l init).
Definition possible (l : list sys_event) : bool := bool_decide (is_Some (run l init)).

Lemma run_after l : possible l = true → run l init = Some (after l).
Proof. intros [s Hs]%bool_decide_eq_true. unfold after. by rewrite Hs. Qed.

Lemma run_app l l' s :
  run (l ++ l') s = match run l s with Some s' => run l' s' | None => None end.
Proof.
  revert s. unfold run. induction l as [|ev l IH]; intros s; [done|]. cbn -[sys_step].
  destruct (sys_step _ _ _ _ ev s); [apply IH|done].
Qed.

Lemma run_from l l' : possible l = true → possible (l ++ l') = true → run l' (after l) = Some (after (l ++ l')).
Proof. intros H H'. apply run_after in H, H'. by rewrite run_app, H in H'. Qed.

(** [n] turns of a goroutine that needs nothing from outside. *)
Definition turns (n : nat) (tid : nat) : list sys_event := replicate n (TaskRuns tid Tau).

(** An agent's call up to the handler: it arrives, it is authenticated at the
    time 10, the decision is recorded. *)
Definition call_of (tid : nat) (agent : AgentID) (req : fizzledv1.Request) : list sys_event :=
  [Arrive tid (peer agent) req; TaskRuns tid (ClockReads 10); TaskRuns tid Tau].

(** Agent smith starts a job of one tick, [smith/0], the first of the heap. *)
Definition started : list sys_event := call_of 1 "smith" (fizzledv1.StartRequest 1) ++ turns 1 1.

Definition job_runs (es : list event) : list sys_event := JobRuns 0 <$> es.

(** A call of smith's that stops it. *)
Definition stop_calls : list sys_event :=
  call_of 2 "smith" (fizzledv1.StopRequest "smith/0") ++ turns 2 2 ++
  job_runs [Run; CtxDone; Run; Run; Run] ++ turns 2 2.

(** A call of an agent's that asks for its status. *)
Definition status_calls (agent : AgentID) : list sys_event :=
  call_of 3 agent (fizzledv1.GetStatusRequest "smith/0") ++ turns 2 3.

(** It runs to its end. *)
Definition completes : list sys_event := job_runs [Run; Timer 5; Run; Run; Run; Run].

(** A stream of smith's that delivers all of it. *)
Definition stream_opens : list sys_event :=
  call_of 4 "smith" (fizzledv1.StreamOutputRequest "smith/0") ++ turns 4 4 ++
  [TaskRuns 4 (Answer None); TaskRuns 4 Tau].

Definition stream_calls : list sys_event :=
  stream_opens ++ [TaskRuns 4 (Answer None); TaskRuns 4 Tau] ++ turns 2 4.

(** A shutdown, begun while the job runs. *)
Definition shuts_down : list sys_event :=
  [BeginShutdown 5; TaskRuns 5 Tau; TaskRuns 5 Tau] ++
  job_runs [Run; CtxDone; Run; Run; Run] ++ turns 2 5.

(** The context of an RPC before it is authenticated. *)
Definition rpc_ctx (tid : nat) (agent : AgentID) : Context := mkContext (peer agent) None (Some tid).

(** What a goroutine that has settled answered. *)
Definition answered (tid : nat) (s : system) : option (result fizzledv1.Response + result stream_end + unit) :=
  match s_tasks s !! tid with
  | Some (Calling _ _ (Ret r)) => Some (inl (inl r))
  | Some (Streaming _ _ (Ret r)) => Some (inl (inr r))
  | Some (ShuttingDown (Ret u)) => Some (inr u)
  | _ => None
  end.

(** jones is not smith, at whatever time it is asked. *)
Lemma jones_is_not_smith tid fullMethod : ¬ admitted interceptor (rpc_ctx tid "jones") fullMethod "smith".
Proof.
  intros (action & state & now & _ & Hs & Ha & _). injection Hs as <-.
  apply Authenticate_agent in Ha as [leaf H]. apply clientSVID_Ok in H as (Hl & Hu & _).
  apply verified_leaf_Ok in Hl as [Hv _]. apply Verify_Ok in Hv as (signers & pool & Hc & _).
  cbn in Hc. injection Hc as Hc _. rewrite <-Hc in Hu. done.
Qed.

End sample.
