(* ===== verification/Rpc.v ===== *)
(** * The generated stub and handlers: [internal/gen/fizzled/v1]

    What protoc-gen-go-grpc generated between the client's methods and the
    server's: the stub names a method and hands a message to the connection, the
    service description names the handler of each method, and a handler decodes
    the message and calls the service behind the interceptor. Protobuf's
    encoding is the class [Codec], gRPC's table of methods the class [Routing],
    each with what it documents. *)

From S2P Require Import Prelude GoStrings GoErrors CommandLine Conc X509 SpiffeID X509SVID Identity Authz Slog.
From S2P Require Import Context Authenticator Wire Job JobInvariant Registry Ticks Service.
From S2P Require Import ServiceSpec StreamSpec Interceptor System Sample.

Module fizzledv1_grpc.
Import authn conc context authenticator registry service interceptor system.

(** ** Messages as bytes *)

(** [proto.Marshal] of a request, and [proto.Unmarshal] into a fresh message of
    each type, which is read through its getter. *)
Class Codec := {
  encode : fizzledv1.Request → string;
  decode_StartRequest : string → result Z;
  decode_StopRequest : string → result string;
  decode_GetStatusRequest : string → result string;
  decode_StreamOutputRequest : string → result string;
}.

(** A message decodes to what was encoded. *)
Class CodecLaws `{Codec} := {
  decode_encode_start count : (MinInt32 <= count <= MaxInt32)%Z →
    decode_StartRequest (encode (fizzledv1.StartRequest count)) = Ok count;
  decode_encode_stop id : decode_StopRequest (encode (fizzledv1.StopRequest id)) = Ok id;
  decode_encode_status id : decode_GetStatusRequest (encode (fizzledv1.GetStatusRequest id)) = Ok id;
  decode_encode_output id : decode_StreamOutputRequest (encode (fizzledv1.StreamOutputRequest id)) = Ok id;
}.

Abbreviation answer := (prog world (result fizzledv1.Response)).

(** [type FizzledServiceServer interface] *)
Record FizzledServiceServer := mkFizzledServiceServer {
  srv_Start : Context → Z → answer;
  srv_Stop : Context → string → answer;
  srv_GetStatus : Context → string → answer;
  srv_StreamOutput : Context → string → prog world (result stream_end);
}.

(** [grpc.UnaryServerInterceptor], and [grpc.UnaryHandler] with it. *)
Definition UnaryHandler : Type := Context → fizzledv1.Request → answer.
Definition UnaryServerInterceptor : Type := Context → fizzledv1.Request → string → UnaryHandler → answer.

(** [grpc.MethodDesc], [grpc.StreamDesc] and [grpc.ServiceDesc]. *)
Record MethodDesc := mkMethodDesc {
  MethodName : string;
  Handler : FizzledServiceServer → Context → string → option UnaryServerInterceptor → answer;
}.
Record StreamDesc := mkStreamDesc {
  StreamName : string;
  StreamHandler : FizzledServiceServer → Context → string → prog world (result stream_end);
}.
Record ServiceDesc := mkServiceDesc {
  ServiceName : string; Methods : list MethodDesc; Streams : list StreamDesc;
}.

(** The panic of [req.( *T )] on a message of another type. *)
Definition bad_assertion : panic_value := PanicWithError (Foreign "interface conversion").

Section handlers.
Context `{Codec}.

(** [_FizzledService_Start_Handler] *)
Definition Start_Handler (srv : FizzledServiceServer) (ctx : Context) (payload : string)
    (interceptor : option UnaryServerInterceptor) : answer :=
  match decode_StartRequest payload with
  | Err e => mret (Err e)
  | Ok in_ =>
      match interceptor with
      | None => srv_Start srv ctx in_
      | Some interceptor =>
          interceptor ctx (fizzledv1.StartRequest in_) fizzledv1.FizzledService_Start_FullMethodName
            (λ ctx req, match req with
                        | fizzledv1.StartRequest count => srv_Start srv ctx count
                        | _ => Raise bad_assertion
                        end)
      end
  end.

(** [_FizzledService_Stop_Handler] *)
Definition Stop_Handler (srv : FizzledServiceServer) (ctx : Context) (payload : string)
    (interceptor : option UnaryServerInterceptor) : answer :=
  match decode_StopRequest payload with
  | Err e => mret (Err e)
  | Ok in_ =>
      match interceptor with
      | None => srv_Stop srv ctx in_
      | Some interceptor =>
          interceptor ctx (fizzledv1.StopRequest in_) fizzledv1.FizzledService_Stop_FullMethodName
            (λ ctx req, match req with
                        | fizzledv1.StopRequest id => srv_Stop srv ctx id
                        | _ => Raise bad_assertion
                        end)
      end
  end.

(** [_FizzledService_GetStatus_Handler] *)
Definition GetStatus_Handler (srv : FizzledServiceServer) (ctx : Context) (payload : string)
    (interceptor : option UnaryServerInterceptor) : answer :=
  match decode_GetStatusRequest payload with
  | Err e => mret (Err e)
  | Ok in_ =>
      match interceptor with
      | None => srv_GetStatus srv ctx in_
      | Some interceptor =>
          interceptor ctx (fizzledv1.GetStatusRequest in_) fizzledv1.FizzledService_GetStatus_FullMethodName
            (λ ctx req, match req with
                        | fizzledv1.GetStatusRequest id => srv_GetStatus srv ctx id
                        | _ => Raise bad_assertion
                        end)
      end
  end.

(** [_FizzledService_StreamOutput_Handler]: the request is the first message of
    the stream. *)
Definition StreamOutput_Handler (srv : FizzledServiceServer) (ctx : Context) (payload : string)
    : prog world (result stream_end) :=
  match decode_StreamOutputRequest payload with
  | Err e => mret (Err e)
  | Ok m => srv_StreamOutput srv ctx m
  end.

(** [FizzledService_ServiceDesc] *)
Definition FizzledService_ServiceDesc : ServiceDesc := {|
  ServiceName := "fizzled.v1.FizzledService";
  Methods := [mkMethodDesc "Start" Start_Handler; mkMethodDesc "Stop" Stop_Handler;
              mkMethodDesc "GetStatus" GetStatus_Handler];
  Streams := [mkStreamDesc "StreamOutput" StreamOutput_Handler];
|}.

(** The path of a method, as gRPC spells it. *)
Definition path (desc : ServiceDesc) (name : string) : string := "/" +:+ ServiceName desc +:+ "/" +:+ name.

(** ** The stub *)

(** [cc.Invoke] and the opening of a stream by [cc.NewStream], [SendMsg] and
    [CloseSend], on a method and the message sent. *)
Context (Invoke : string → string → result fizzledv1.Response).
Context (NewStream : string → string → option error * list (result fizzledv1.Tick)).

Definition client_Start (in_ : fizzledv1.Request) : result fizzledv1.Response :=
  Invoke fizzledv1.FizzledService_Start_FullMethodName (encode in_).
Definition client_Stop (in_ : fizzledv1.Request) : result fizzledv1.Response :=
  Invoke fizzledv1.FizzledService_Stop_FullMethodName (encode in_).
Definition client_GetStatus (in_ : fizzledv1.Request) : result fizzledv1.Response :=
  Invoke fizzledv1.FizzledService_GetStatus_FullMethodName (encode in_).
Definition client_StreamOutput (in_ : fizzledv1.Request) : option error * list (result fizzledv1.Tick) :=
  NewStream fizzledv1.FizzledService_StreamOutput_FullMethodName (encode in_).

(** [NewFizzledServiceClient], by the method each request is an argument of. *)
Definition NewFizzledServiceClient (in_ : fizzledv1.Request) : result fizzledv1.Response :=
  match in_ with
  | fizzledv1.StartRequest _ => client_Start in_
  | fizzledv1.StopRequest _ => client_Stop in_
  | fizzledv1.GetStatusRequest _ => client_GetStatus in_
  | _ => Err (Foreign "")
  end.
End handlers.

(** ** The server *)

(** The program a goroutine of the server runs for an RPC. *)
Definition program : Type := answer + prog world (result stream_end).

(** [grpc.StreamServerInterceptor]: what it wraps sees the context it chose. *)
Definition StreamServerInterceptor : Type :=
  Context → string → (Context → prog world (result stream_end)) → prog world (result stream_end).

(** A [grpc.Server] made with the two interceptors, with a service registered:
    an RPC on the path of a method runs its handler, a stream's behind the
    interceptor, a unary one's with the interceptor in hand. *)
Class Registered (desc : ServiceDesc) (srv : FizzledServiceServer)
    (unary : UnaryServerInterceptor) (stream : StreamServerInterceptor) := {
  accept : Context → string → string → option program;
  accept_method (ctx : Context) (d : MethodDesc) (payload : string) : d ∈ Methods desc →
    accept ctx (path desc (MethodName d)) payload = Some (inl (Handler d srv ctx payload (Some unary)));
  accept_stream (ctx : Context) (d : StreamDesc) (payload : string) : d ∈ Streams desc →
    accept ctx (path desc (StreamName d)) payload =
      Some (inr (stream ctx (path desc (StreamName d)) (λ ctx, StreamHandler d srv ctx payload)));
}.

Section routing.
Context `{CodecLaws}.
Context {A : Type} `{peers : PeerAuthenticator A}.
Context (durationpb_New : Z → fizzledv1.Duration) (Stack : string).
Context (i : Interceptor A) (svc : Service) (tid : nat).

(** The service, as what [RegisterFizzledServiceServer] is given; the streams
    of the RPC [tid]. *)
Definition registered_service : FizzledServiceServer := {|
  srv_Start := Start svc;
  srv_Stop := service.Stop svc;
  srv_GetStatus := GetStatus svc;
  srv_StreamOutput := λ ctx id, StreamOutput durationpb_New svc ctx tid id;
|}.

(** The interceptors, as [newTransport] passes them. *)
Definition unary_interceptor : UnaryServerInterceptor := λ ctx req fullMethod handler,
  Unary Stack i ctx req fullMethod (λ ctx, handler ctx req).
Definition stream_interceptor : StreamServerInterceptor := λ ctx fullMethod handler,
  Stream Stack i ctx fullMethod handler.

Context `{!Registered FizzledService_ServiceDesc registered_service unary_interceptor stream_interceptor}.

Definition program_of (t : task) : option program :=
  match t with
  | Calling _ _ p => Some (inl p)
  | Streaming _ _ p => Some (inr p)
  | ShuttingDown _ => None
  | Undecoded _ e => Some (inl (mret (Err e)))
  | UndecodedStream _ _ p => Some (inr p)
  end.

Lemma accept_Start ctx payload :
  accept ctx fizzledv1.FizzledService_Start_FullMethodName payload =
    Some (inl (Start_Handler registered_service ctx payload (Some unary_interceptor))).
Proof. refine (accept_method (desc := FizzledService_ServiceDesc) ctx (mkMethodDesc "Start" Start_Handler) payload _). by left. Qed.

Lemma accept_Stop ctx payload :
  accept ctx fizzledv1.FizzledService_Stop_FullMethodName payload =
    Some (inl (Stop_Handler registered_service ctx payload (Some unary_interceptor))).
Proof. refine (accept_method (desc := FizzledService_ServiceDesc) ctx (mkMethodDesc "Stop" Stop_Handler) payload _). by right; left. Qed.

Lemma accept_GetStatus ctx payload :
  accept ctx fizzledv1.FizzledService_GetStatus_FullMethodName payload =
    Some (inl (GetStatus_Handler registered_service ctx payload (Some unary_interceptor))).
Proof. refine (accept_method (desc := FizzledService_ServiceDesc) ctx (mkMethodDesc "GetStatus" GetStatus_Handler) payload _). by right; right; left. Qed.

Lemma accept_StreamOutput ctx payload :
  accept ctx fizzledv1.FizzledService_StreamOutput_FullMethodName payload =
    Some (inr (Stream Stack i ctx fizzledv1.FizzledService_StreamOutput_FullMethodName
      (λ ctx, StreamOutput_Handler registered_service ctx payload))).
Proof. refine (accept_stream (desc := FizzledService_ServiceDesc) ctx (mkStreamDesc "StreamOutput" StreamOutput_Handler) payload _). by left. Qed.

(** A unary request of its method that cannot be decoded. *)
Definition undecodable (fullMethod payload : string) (e : error) : Prop :=
  (fullMethod = fizzledv1.FizzledService_Start_FullMethodName ∧ decode_StartRequest payload = Err e) ∨
  (fullMethod = fizzledv1.FizzledService_Stop_FullMethodName ∧ decode_StopRequest payload = Err e) ∨
  (fullMethod = fizzledv1.FizzledService_GetStatus_FullMethodName ∧ decode_GetStatusRequest payload = Err e).

(** C20: RPCs reach the handler they name. Each request is sent by the stub on
    the one method it belongs to; the RPC the server accepts on that method with
    that message runs exactly the program that serves the request in the system:
    the handler of that request behind the interceptor. So does the RPC whose
    message cannot be decoded: a unary one is answered with the decoder's error,
    without a step of the server: neither the interceptor nor a handler runs;
    on a stream the gate comes first, and the message is found out behind it. *)
Theorem rpc_routed (Invoke : string → string → result fizzledv1.Response)
  (NewStream : string → string → option error * list (result fizzledv1.Tick)) :
  (∀ peer req t, serve durationpb_New Stack i svc tid peer req = Some t →
    accept (mkContext peer None (Some tid)) (method_of req) (encode req) = program_of t) ∧
  (∀ req, (∃ count, req = fizzledv1.StartRequest count) ∨ (∃ id, req = fizzledv1.StopRequest id) ∨
      (∃ id, req = fizzledv1.GetStatusRequest id) →
    NewFizzledServiceClient Invoke req = Invoke (method_of req) (encode req)) ∧
  (∀ id, let req := fizzledv1.StreamOutputRequest id in
    client_StreamOutput NewStream req = NewStream (method_of req) (encode req)) ∧
  (∀ peer fullMethod payload e, undecodable fullMethod payload e →
    let t := serve_undecoded Stack i tid peer false e in
    accept (mkContext peer None (Some tid)) fullMethod payload = program_of t ∧
    program_of t = Some (inl (Ret (Err e)))) ∧
  (∀ peer payload e, decode_StreamOutputRequest payload = Err e →
    accept (mkContext peer None (Some tid)) fizzledv1.FizzledService_StreamOutput_FullMethodName payload =
      program_of (serve_undecoded Stack i tid peer true e)).
Proof.
  split_and!.
  - intros peer req t Ht. destruct req as [count|id|id|id|]; cbn -[Unary Stream accept] in Ht |- *; simplify_eq.
    + case_bool_decide as Hc; simplify_eq. rewrite accept_Start. unfold Start_Handler.
      by rewrite decode_encode_start.
    + rewrite accept_Stop. unfold Stop_Handler. by rewrite decode_encode_stop.
    + rewrite accept_GetStatus. unfold GetStatus_Handler. by rewrite decode_encode_status.
    + rewrite accept_StreamOutput. unfold StreamOutput_Handler. by rewrite decode_encode_output.
  - by intros req [[? ->]|[[? ->]|[? ->]]].
  - done.
  - intros peer m payload e He t. split; [|done].
    destruct He as [[-> He]|[[-> He]|[-> He]]];
      rewrite ?accept_Start, ?accept_Stop, ?accept_GetStatus;
      unfold Start_Handler, Stop_Handler, GetStatus_Handler; by rewrite He.
  - intros peer payload e He. rewrite accept_StreamOutput. unfold StreamOutput_Handler. by rewrite He.
Qed.

End routing.

(** ** The property at work: decimal counts, and a table of paths *)

Section samples.
#[local] Existing Instance sample.sample_peers.

#[local] Instance sample_codec : Codec := {|
  encode req := match req with
                | fizzledv1.StartRequest count => pretty count
                | fizzledv1.StopRequest id | fizzledv1.GetStatusRequest id | fizzledv1.StreamOutputRequest id => id
                | fizzledv1.OtherRequest => ""
                end;
  decode_StartRequest := strconv.Atoi (λ _ r, r);
  decode_StopRequest := Ok;
  decode_GetStatusRequest := Ok;
  decode_StreamOutputRequest := Ok;
|}.

#[local] Instance sample_codec_laws : CodecLaws.
Proof.
  constructor; try done. intros count Hc. apply strconv.Atoi_pretty.
  unfold MinInt32, MaxInt32, MinInt64, MaxInt64 in *. lia.
Qed.

(** The entry of a table under a path. *)
Definition by_path {D} (name : D → string) (p : string) (l : list D) : option D :=
  List.find (λ d, (path FizzledService_ServiceDesc (name d) =? p)%string) l.

#[local] Instance sample_registered srv unary stream : Registered FizzledService_ServiceDesc srv unary stream.
Proof.
  refine {|
    accept ctx p payload :=
      match by_path MethodName p (Methods FizzledService_ServiceDesc) with
      | Some d => Some (inl (Handler d srv ctx payload (Some unary)))
      | None =>
          match by_path StreamName p (Streams FizzledService_ServiceDesc) with
          | Some d => Some (inr (stream ctx p (λ ctx, StreamHandler d srv ctx payload)))
          | None => None
          end
      end |}.
  - intros ctx d payload Hd. by repeat (apply elem_of_cons in Hd as [->|Hd]; [reflexivity|]); apply elem_of_nil in Hd.
  - intros ctx d payload Hd. by repeat (apply elem_of_cons in Hd as [->|Hd]; [reflexivity|]); apply elem_of_nil in Hd.
Defined.

(** "seven" is no count: the RPC is answered as it arrives. *)
Lemma rpc_routed_witness :
  let ctx := mkContext None None (Some 3) in
  @accept _ _ _ _ (sample_registered (registered_service sample.seconds sample.svc 3)
      (unary_interceptor "stack" sample.interceptor) (stream_interceptor "stack" sample.interceptor))
    ctx fizzledv1.FizzledService_Start_FullMethodName "seven" = Some (inl (Ret (Err (Foreign "invalid syntax")))).
Proof.
  intros ctx.
  refine (proj1 (proj1 (proj2 (proj2 (proj2 (rpc_routed sample.seconds "stack" sample.interceptor sample.svc 3
    (λ _ _, Err (Foreign "")) (λ _ _, (None, [])))))) None _ _ _ _)).
  left. split; reflexivity.
Defined.

End samples.

End fizzledv1_grpc.
