(* ===== verification/Ownership.v ===== *)
(** * Who can affect a job

    Every way an event changes a job: its own goroutine moves, a shutdown
    cancels it, or a [Stop] that its owner was admitted for does. No job is
    derived from the scope of the RPC that created it, so no disconnection
    reaches it. From this: a job that stopped was told to, and a stream
    delivers a prefix of one job's output. *)

From S2P Require Import Prelude GoStrings GoErrors Conc X509 SpiffeID X509SVID Identity Authz Slog.
From S2P Require Import Context Authenticator Wire Job JobInvariant Registry Ticks Service.
From S2P Require Import ServiceSpec StreamSpec Interceptor System.

Module ownership.
Import authn worker worker_spec conc context authenticator registry service service_spec stream_spec
  interceptor system.

Section server.
Context {A : Type} `{peers : PeerAuthenticator A}.
Context (durationpb_New : Z → fizzledv1.Duration) (Stack : string).
Context (i : Interceptor A) (svc : Service) (logger : option slog.Logger).
Abbreviation sys_step := (sys_step durationpb_New Stack i svc).
Abbreviation sys_run := (sys_run durationpb_New Stack i svc).
Abbreviation reachable := (reachable durationpb_New Stack i svc logger).
Abbreviation sys_inv := (sys_inv durationpb_New i).
Abbreviation task_ok := (task_ok durationpb_New i).

(** An invariant of single events is one of runs. *)
Lemma run_invariant (P : system → Prop) :
  (∀ ev s s', sys_inv s → P s → sys_step ev s = Some s' → P s') →
  ∀ l s s', sys_inv s → P s → sys_run l s = Some s' → P s'.
Proof.
  intros HP. induction l as [|ev l IH]; intros s s' Hi Hs H; cbn in H; [by simplify_eq|].
  destruct (sys_step ev s) as [s1|] eqn:E; [|done].
  eapply (IH s1); [by eapply sys_step_inv|by eapply HP|done].
Qed.

Lemma sys_run_snoc l ev s s' : sys_run (l ++ [ev]) s = Some s' ↔ ∃ s1, sys_run l s = Some s1 ∧ sys_step ev s1 = Some s'.
Proof.
  revert s. induction l as [|ev' l IH]; intros s; cbn -[sys_step].
  - destruct (sys_step ev s) as [s1|] eqn:E; cbn -[sys_step]; naive_solver congruence.
  - destruct (sys_step ev' s) as [s1|]; cbn -[sys_step]; [apply IH|]. split; [done|by intros (? & ? & _)].
Qed.

Lemma reachable_step ev s s' : reachable s → sys_step ev s = Some s' → reachable s'.
Proof. intros [l H] Hs. exists (l ++ [ev]). apply sys_run_snoc. by exists s. Qed.

(** An event leaves a goroutine as it is, or is its own. *)
Lemma event_task ev s s' tid t :
  sys_step ev s = Some s' → s_tasks s !! tid = Some t →
  (s_tasks s' !! tid = Some t ∧ ∀ c, ev ≠ TaskRuns tid c) ∨
  ∃ c t', ev = TaskRuns tid c ∧ task_step c t (s_world s) = Some (s_world s', t') ∧ s_tasks s' !! tid = Some t'.
Proof.
  intros H Ht. destruct ev as [tid' peer req|tid' peer strm err|tid'|tid' c|l ev|tid' cause];
    cbn -[serve task_step job_step] in H; [| | |destruct (decide (tid' = tid)) as [->|Hne]| |].
  - destruct (s_tasks s !! tid') eqn:E; [done|]. destruct (serve _ _ _ _ tid' peer req) as [t'|]; [|done].
    injection H as <-. left. cbn. by rewrite lookup_insert_ne by congruence.
  - destruct (s_tasks s !! tid') eqn:E; [done|]. injection H as <-. left. cbn. by rewrite lookup_insert_ne by congruence.
  - destruct (s_tasks s !! tid') eqn:E; [done|]. injection H as <-. left. cbn. by rewrite lookup_insert_ne by congruence.
  - rewrite Ht in H. cbn -[task_step] in H. destruct (task_step c t (s_world s)) as [[w' t']|] eqn:Es; [|done].
    injection H as <-. right. exists c, t'. cbn -[task_step]. by rewrite lookup_insert_eq.
  - destruct (s_tasks s !! tid') as [t1|]; [|done]. cbn -[task_step] in H.
    destruct (task_step c t1 (s_world s)) as [[w' t1']|]; [|done]. injection H as <-. left. cbn.
    rewrite lookup_insert_ne by done. split; [done|]. intros c'. congruence.
  - destruct (w_heap (s_world s) !! l) as [o|]; [|done]. cbn -[job_step] in H.
    destruct (job_step (Go ev) (o_cell o)); [|done]. injection H as <-. by left.
  - destruct (s_tasks s !! tid'); [|done]. destruct (w_done (s_world s) !! tid'); [done|].
    injection H as <-. by left.
Qed.

(** A goroutine stays what it is. *)
Lemma tasks_kept ev s s' tid t :
  sys_step ev s = Some s' → s_tasks s !! tid = Some t → ∃ t', s_tasks s' !! tid = Some t' ∧ same_task t t'.
Proof.
  intros H Ht. destruct (event_task _ _ _ _ _ H Ht) as [[Ht' _]|(c & t' & _ & Hs & Ht')]; [by exists t|].
  exists t'. split; [done|]. by eapply task_step_same.
Qed.

(** To one goroutine an event is a step of the others, or its own. *)
Lemma event_others ev s s' tid t :
  sys_inv s → sys_step ev s = Some s' → s_tasks s !! tid = Some t →
  (s_tasks s' !! tid = Some t ∧ stream_rely tid (s_world s) (s_world s')) ∨
  ∃ c t', task_step c t (s_world s) = Some (s_world s', t') ∧ s_tasks s' !! tid = Some t'.
Proof.
  intros Hi H Ht. destruct (sys_step_inv _ _ _ _ _ _ _ Hi H) as [_ He].
  destruct (event_task _ _ _ _ _ H Ht) as [[Ht' Hne]|(c & t' & _ & Hs & Ht')]; [left|right; by exists c, t'].
  split; [done|]. split; [done|].
  destruct ev as [tid' peer req|tid' peer strm err|tid'|tid' c|l ev|tid' cause]; cbn -[serve task_step job_step] in H.
  - destruct (s_tasks s !! tid'); [done|]. destruct (serve _ _ _ _ tid' peer req); [|done]. by injection H as <-.
  - destruct (s_tasks s !! tid'); [done|]. by injection H as <-.
  - destruct (s_tasks s !! tid'); [done|]. by injection H as <-.
  - destruct (s_tasks s !! tid') as [t1|] eqn:E; [|done]. cbn -[task_step] in H.
    destruct (task_step c t1 (s_world s)) as [[w' t1']|] eqn:Es; [|done]. injection H as <-. cbn.
    destruct (task_step_ok _ _ _ _ _ _ _ _ (sy_tasks _ _ _ Hi _ _ E) Es) as [Hg _].
    unfold sent. rewrite (task_guar_sent _ _ _ _ _ _ tid Hg); [done|]. intros ->. by destruct (Hne c).
  - destruct (w_heap (s_world s) !! l) as [o|]; [|done]. cbn -[job_step] in H.
    destruct (job_step (Go ev) (o_cell o)); [|done]. by injection H as <-.
  - destruct (s_tasks s !! tid'); [|done]. destruct (w_done (s_world s) !! tid'); [done|]. by injection H as <-.
Qed.

(** A goroutine that was not there before has just been started. *)
Lemma event_starts ev s s' tid t :
  sys_step ev s = Some s' → s_tasks s !! tid = None → s_tasks s' !! tid = Some t →
  s_world s' = s_world s ∧
  ((∃ peer req, ev = Arrive tid peer req ∧ serve durationpb_New Stack i svc tid peer req = Some t) ∨
   (∃ peer stream e, ev = ArriveUndecoded tid peer stream e ∧ t = serve_undecoded Stack i tid peer stream e) ∨
   (ev = BeginShutdown tid ∧ t = ShuttingDown (service.Shutdown svc))).
Proof.
  intros H Hn Ht. destruct ev as [tid' peer req|tid' peer strm err|tid'|tid' c|l ev|tid' cause]; cbn -[serve task_step job_step] in H.
  - destruct (s_tasks s !! tid') eqn:E; [done|]. destruct (serve _ _ _ _ tid' peer req) as [t'|] eqn:Es; [|done].
    injection H as <-. split; [done|]. cbn in Ht.
    apply lookup_insert_Some in Ht as [[-> ->]|[_ Ht]]; [left; by exists peer, req|congruence].
  - destruct (s_tasks s !! tid') eqn:E; [done|]. injection H as <-. split; [done|]. cbn in Ht.
    apply lookup_insert_Some in Ht as [[-> <-]|[_ Ht]]; [right; left; by eexists _, _, _|congruence].
  - destruct (s_tasks s !! tid') eqn:E; [done|]. injection H as <-. split; [done|]. cbn in Ht.
    apply lookup_insert_Some in Ht as [[-> <-]|[_ Ht]]; [by right; right|congruence].
  - destruct (s_tasks s !! tid') as [t1|] eqn:E; [|done]. cbn in H.
    destruct (task_step c t1 (s_world s)) as [[w' t1']|]; [|done]. injection H as <-. cbn in Ht.
    apply lookup_insert_Some in Ht as [[-> _]|[_ Ht]]; congruence.
  - destruct (w_heap (s_world s) !! l) as [o|]; [|done]. cbn -[job_step] in H.
    destruct (job_step (Go ev) (o_cell o)); [|done]. injection H as <-. cbn in Ht. congruence.
  - destruct (s_tasks s !! tid'); [|done]. destruct (w_done (s_world s) !! tid'); [done|].
    injection H as <-. cbn in Ht. congruence.
Qed.

(** ** The ways a job changes *)

(** A goroutine that may cancel the job [a] owns under [id]. *)
Definition stops (t : task) (a : AgentID) (id : JobID) : Prop :=
  match t with
  | ShuttingDown _ => True
  | Calling ctx (fizzledv1.StopRequest id') _ =>
      id' = id ∧ admitted i ctx fizzledv1.FizzledService_Stop_FullMethodName a
  | _ => False
  end.

Lemma stops_same t t' a id : same_task t t' → stops t a id → stops t' a id.
Proof. destruct t, t'; cbn; try done. by intros [-> ->]. Qed.

Inductive job_change (ev : sys_event) (s : system) (l : loc) (o' : object) : Prop :=
| Untouched (H : w_heap (s_world s) !! l = Some o')
| Created (HL : length (w_heap (s_world s)) ≤ l) (HP : o_parent o' = None) id count lg
    (HS : job_start None id count MeanTickInterval (Some lg) (o_cell o'))
| Ran o e (HO : w_heap (s_world s) !! l = Some o) (HE : ev = JobRuns l e)
    (HC : job_step (Go e) (o_cell o) = Some (o_cell o')) (HP : o_parent o' = o_parent o)
| Cancelled o tid c t (HO : w_heap (s_world s) !! l = Some o) (HN : o' = cancel_object o)
    (HE : ev = TaskRuns tid c) (HT : s_tasks s !! tid = Some t)
    (HS : ∀ a id, fits (s_world s) → Find a id (s_world s) = Some l → stops t a id).

(** The jobs of a world none of whose jobs ends with a scope. *)
Definition detached (w : world) : Prop := ∀ l o, w_heap w !! l = Some o → o_parent o = None.

Lemma end_scope_detached tid cause w : detached w → w_heap (end_scope tid cause w) = w_heap w.
Proof.
  intros Hd. cbn. rewrite <-(list_fmap_id (w_heap w)) at 2. apply list_fmap_ext.
  intros l o Ho. by rewrite (Hd _ _ Ho).
Qed.

Lemma cancelled_lookup l k w o' :
  w_heap (cancelled l w) !! k = Some o' →
  w_heap w !! k = Some o' ∨ k = l ∧ ∃ o, w_heap w !! k = Some o ∧ o' = cancel_object o.
Proof.
  cbn. intros H. destruct (decide (l = k)) as [->|Hne].
  - rewrite list_lookup_alter_eq in H. apply fmap_Some in H as (o & ? & ->). eauto.
  - rewrite list_lookup_alter_ne in H by done. by left.
Qed.

Lemma Create_heap ctx a count w l o' :
  w_heap (Create (WithoutCancel ctx) a count w).1 !! l = Some o' →
  w_heap w !! l = Some o' ∨
  length (w_heap w) ≤ l ∧ o_parent o' = None ∧
  ∃ id lg, job_start None id count MeanTickInterval (Some lg) (o_cell o').
Proof.
  rewrite Create_unfold. destruct (negb _); [by left|].
  destruct (record_create _ _ _ _ _) as [[[id rec] obj]|] eqn:E; [|by left]. cbn.
  apply record_create_Ok in E as (_ & _ & _ & Hp & Hs).
  intros [H|[Hl H]]%lookup_app_Some; [by left|]. right. split; [done|].
  apply list_lookup_singleton_Some in H as [_ <-]. eauto.
Qed.

(** What an action of a goroutine does to a job. *)
Lemma task_change tid c t w w' s l o' :
  s_world s = w → s_tasks s !! tid = Some t → fit (λ _, True) w →
  task_guar durationpb_New i tid t w w' → w_heap w' !! l = Some o' →
  job_change (TaskRuns tid c) s l o'.
Proof.
  intros Hw Ht Hi Hg Ho.
  assert (w_heap w !! l = Some o' → job_change (TaskRuns tid c) s l o') as Hsame.
  { intros. apply Untouched. by rewrite Hw. }
  assert (∀ k, w' = cancelled k w → (∀ a id, fits w → Find a id w = Some k → stops t a id) →
    job_change (TaskRuns tid c) s l o') as Hcancel.
  { intros k -> Hs. apply cancelled_lookup in Ho as [H|(-> & o & H & ->)]; [by apply Hsame|].
    rewrite <-Hw in H. eapply Cancelled; [done..|]. by rewrite Hw. }
  assert (quiet w w' → job_change (TaskRuns tid c) s l o') as Hquiet.
  { intros [->|[recs ->]]; by apply Hsame. }
  destruct t as [ctx req p|ctx id p|p|ctx e|ctx e p]; cbn in Hg; [| | |by apply Hquiet..].
  - destruct Hg as [Hq|(a & Ha & Hg)]; [by apply Hquiet|].
    destruct req as [count|id|id|id|]; cbn in Hg; try by apply Hquiet.
    + destruct Hg as [Hq| ->]; [by apply Hquiet|].
      apply Create_heap in Ho as [H|(Hl & Hp & id & lg & Hs)]; [by apply Hsame|].
      eapply Created; [by rewrite Hw|done..].
    + destruct Hg as [Hq|(k & Hk & Hc)]; [by apply Hquiet|]. apply (Hcancel k Hc).
      intros b id' Hf Hb. destruct (Hk Hf) as [Hr Hfound].
      by destruct (Find_unique _ _ _ _ _ _ Hr Hfound Hb) as [<- <-].
  - destruct Hg as [Hq|(a & _ & [Hq|(k & t & -> & _)])]; [by apply Hquiet..|by apply Hsame].
  - destruct Hg as [->|(k & [->| Hc])]; [by apply Hsame..|]. by apply (Hcancel k Hc).
Qed.

(** Every event changes a job in one of the four ways. *)
Lemma heap_step ev s s' l o' :
  sys_inv s → detached (s_world s) → sys_step ev s = Some s' →
  w_heap (s_world s') !! l = Some o' → job_change ev s l o'.
Proof.
  intros [Hw Ht _] Hd H Ho.
  destruct ev as [tid peer req|tid peer strm err|tid|tid c|k e|tid cause]; cbn -[serve task_step job_step] in H.
  - destruct (s_tasks s !! tid); [done|]. destruct (serve _ _ _ _ tid peer req); [|done].
    injection H as <-. by apply Untouched.
  - destruct (s_tasks s !! tid); [done|]. injection H as <-. by apply Untouched.
  - destruct (s_tasks s !! tid); [done|]. injection H as <-. by apply Untouched.
  - destruct (s_tasks s !! tid) as [t|] eqn:E; [|done]. cbn in H.
    destruct (task_step c t (s_world s)) as [[w' t']|] eqn:Es; [|done]. injection H as <-.
    eapply task_change; [done..| |exact Ho]. by apply (task_step_ok _ _ _ _ _ _ _ _ (Ht _ _ E) Es).
  - destruct (w_heap (s_world s) !! k) as [o|] eqn:Eo; [|done]. cbn -[job_step] in H.
    destruct (job_step (Go e) (o_cell o)) as [c|] eqn:Ec; [|done]. injection H as <-. cbn in Ho.
    destruct (decide (k = l)) as [->|Hne].
    + rewrite list_lookup_insert_eq in Ho by (by eapply lookup_lt_Some). injection Ho as <-. by eapply Ran.
    + rewrite list_lookup_insert_ne in Ho by done. by apply Untouched.
  - destruct (s_tasks s !! tid); [|done]. destruct (w_done (s_world s) !! tid); [done|].
    injection H as <-. cbn [s_world] in Ho. rewrite end_scope_detached in Ho by done. by apply Untouched.
Qed.

Lemma detached_step ev s s' :
  sys_inv s → detached (s_world s) → sys_step ev s = Some s' → detached (s_world s').
Proof.
  intros Hi Hd H l o' Ho. destruct (heap_step _ _ _ _ _ Hi Hd H Ho) as [| |o|o]; try by eauto.
  - etrans; [done|]. eauto.
  - subst o'. cbn. eauto.
Qed.

Lemma reachable_detached s : reachable s → detached (s_world s).
Proof.
  intros [l H]. eapply (run_invariant (λ s, detached (s_world s))); [apply detached_step| | |exact H].
  - apply sys_init_inv.
  - intros k o Hk. cbn in Hk. by rewrite lookup_nil in Hk.
Qed.

(** A job that was there keeps its owner. *)
Lemma owner_before ev s s' a id l :
  sys_inv s → sys_step ev s = Some s' → fits (s_world s') →
  l < length (w_heap (s_world s)) → Find a id (s_world s') = Some l → Find a id (s_world s) = Some l.
Proof.
  intros Hi H Hf Hl Hfound. destruct (sys_step_inv _ _ _ _ _ _ _ Hi H) as [Hi' He].
  destruct (sy_world _ _ _ Hi (fits_le _ _ (ev_length _ _ He) Hf)) as [Hr _].
  destruct (ev_grows _ _ He Hr Hf) as [Hr' Hg].
  destruct (ri_owned _ Hr l Hl) as (b & id' & Hb).
  by destruct (Find_unique _ _ _ _ _ _ Hr' Hfound (gr_find _ _ Hg _ _ _ Hb)) as [-> ->].
Qed.

(** ** A job that stopped was told to *)

(** A job that has been told to stop, or has stopped. *)
Definition wants_stop (c : cell) : Prop :=
  status (c_job c) = StatusStopped ∨
  match c_pc c with
  | Exited | Crashed => False
  | AtFinish st _ _ => st = StatusStopped ∨ ctx_err (c_job c) ≠ None
  | _ => ctx_err (c_job c) ≠ None
  end.

Lemma reportProgress_fields t j j' v :
  reportProgress t j = (j', v) → status j' = status j ∧ ctx_err j' = ctx_err j.
Proof.
  unfold reportProgress. destruct (_ =? _)%string; [|by intros [= <- <-]].
  by destruct (close_chan _ _); intros [= <- <-].
Qed.

Lemma setTerminal_fields st t j j' r :
  setTerminal st t j = (j', r) → (status j' = status j ∨ status j' = st) ∧ ctx_err j' = ctx_err j.
Proof.
  unfold setTerminal. destruct (negb _); [intros [= <- <-]; auto|].
  destruct (close_chan _ _); intros [= <- <-]; auto.
Qed.

Lemma wants_stop_back e c c' : job_step (Go e) c = Some c' → wants_stop c' → wants_stop c.
Proof using Type.
  clear durationpb_New.
  destruct c as [j p lg]. unfold wants_stop. cbn -[countdown_step].
  destruct (countdown_step e j p) as [[[j' p'] recs]|] eqn:E; [|done]. cbn -[countdown_step]. intros [= <-]. cbn.
  assert (∀ n, loop_head n = AtSelect n ∨ loop_head n = AtCloseFinished false) as Hl.
  { intros n. unfold loop_head. case_match; auto. }
  destruct p as [n|n|t n|st t rec|st t rec|b|b| |], e; cbn -[reportProgress setTerminal cancel auditTransition loop_head] in E; try done.
  - destruct (reportProgress _ j) as [j1 [v|]] eqn:R; apply reportProgress_fields in R as [Rs Rc];
      cbn in E; injection E as <- <- <-; rewrite Rs, Rc; [naive_solver|].
    destruct (Hl (n - 1)%Z) as [-> | ->]; naive_solver.
  - naive_solver.
  - case_match; naive_solver.
  - case_match; naive_solver.
  - naive_solver.
  - destruct (reportProgress _ j) as [j1 [v|]] eqn:R; apply reportProgress_fields in R as [Rs Rc];
      cbn in E; injection E as <- <- <-; rewrite Rs, Rc; [naive_solver|].
    destruct (Hl (n - 1)%Z) as [-> | ->]; naive_solver.
  - destruct (setTerminal _ _ j) as [j1 [[]|v]] eqn:R; apply setTerminal_fields in R as [Rs Rc];
      cbn in E; injection E as <- <- <-; rewrite Rc; destruct Rs as [-> | ->]; destruct rec; naive_solver.
  - naive_solver.
  - destruct rec; naive_solver.
  - destruct (close_chan _ _); naive_solver.
  - assert (status (cancel j) = status j) as Hc by (unfold cancel, cancel_with; by destruct (ctx_err j)).
    destruct b; injection E as <- <- <-; rewrite Hc; naive_solver.
Qed.

(** Some goroutine may have told the job to stop. *)
Definition may_stop (s : system) (a : AgentID) (id : JobID) : Prop :=
  ∃ tid t, s_tasks s !! tid = Some t ∧ stops t a id.

Lemma may_stop_kept ev s s' a id : sys_step ev s = Some s' → may_stop s a id → may_stop s' a id.
Proof.
  intros H (tid & t & Ht & Hs). destruct (tasks_kept _ _ _ _ _ H Ht) as (t' & Ht' & Hsame).
  exists tid, t'. split; [done|]. by eapply stops_same.
Qed.

Definition told (s : system) : Prop :=
  detached (s_world s) ∧
  (fits (s_world s) → ∀ a id l o, Find a id (s_world s) = Some l → w_heap (s_world s) !! l = Some o →
     wants_stop (o_cell o) → may_stop s a id).

Lemma started_wants_nothing id count mean lg c :
  job_start None id count mean (Some lg) c → ¬ wants_stop c.
Proof using Type.
  clear durationpb_New.
  intros (_ & _ & Hs & _ & He & Hp & _)%job_start_fields. unfold wants_stop. rewrite Hs, He, Hp. naive_solver.
Qed.

Lemma told_step ev s s' : sys_inv s → told s → sys_step ev s = Some s' → told s'.
Proof.
  intros Hi [Hd Ht] H. split; [by eapply detached_step|]. intros Hf a id l o' Hl Ho' Hw.
  destruct (sys_step_inv _ _ _ _ _ _ _ Hi H) as [_ He]. pose proof (fits_le _ _ (ev_length _ _ He) Hf) as Hf0.
  pose proof (λ Hlt, owner_before ev s s' a id l Hi H Hf Hlt Hl) as Hown.
  destruct (heap_step _ _ _ _ _ Hi Hd H Ho') as [Ho|Hlen Hp id' count lg Hs|o e Ho -> Hc Hp|o tid c t Ho -> -> Htid Hs].
  - eapply may_stop_kept; [done|]. eapply Ht; [done|apply Hown; by eapply lookup_lt_Some|done..].
  - by destruct (started_wants_nothing _ _ _ _ _ Hs).
  - eapply may_stop_kept; [done|]. eapply Ht; [done|apply Hown; by eapply lookup_lt_Some|done|].
    by eapply wants_stop_back.
  - eapply may_stop_kept; [done|]. exists tid, t. split; [done|]. apply Hs; [done|].
    apply Hown. by eapply lookup_lt_Some.
Qed.

Lemma reachable_told s : reachable s → told s.
Proof.
  intros [l H]. eapply (run_invariant told); [apply told_step|apply sys_init_inv| |exact H].
  split; [intros k o Hk|intros _ a id k o _ Hk]; cbn in Hk; by rewrite lookup_nil in Hk.
Qed.

(** ** What a stream has delivered *)

(** Nothing yet, or a prefix of the output of the job the agent it was admitted
    for owns. *)
Definition streamed (tid : nat) (ctx : Context) (id : JobID) (w : world) : Prop :=
  sent tid w = [] ∨
  ∃ agent l, admitted i ctx fizzledv1.FizzledService_StreamOutput_FullMethodName agent ∧
    fit (λ w, Find agent id w = Some l) w ∧ fit (delivered durationpb_New tid l) w.

Lemma streamed_stable tid ctx id : stable (stream_rely tid) (streamed tid ctx id).
Proof.
  intros w w' [H|(a & l & Ha & Hl & Hd)] [He Hs]; [left; congruence|]. right. exists a, l.
  split_and!; [done|by eapply found_stable|by eapply delivered_stable].
Qed.

Lemma streamed_guar tid ctx id p w w' :
  streamed tid ctx id w → task_guar durationpb_New i tid (Streaming ctx id p) w w' → streamed tid ctx id w'.
Proof.
  intros H [Hq|(a & Ha & [Hq|(l & t & -> & Hl & Hd)])].
  - by eapply streamed_stable, quiet_stream_rely.
  - by eapply streamed_stable, quiet_stream_rely.
  - right. by exists a, l.
Qed.

Definition all_streamed (s : system) : Prop :=
  ∀ tid ctx id p, s_tasks s !! tid = Some (Streaming ctx id p) → streamed tid ctx id (s_world s).

Lemma all_streamed_step ev s s' : sys_inv s → all_streamed s → sys_step ev s = Some s' → all_streamed s'.
Proof.
  intros Hi Ha H tid ctx id p Hp. destruct (s_tasks s !! tid) as [t|] eqn:Ht.
  - destruct (event_others _ _ _ _ _ Hi H Ht) as [[Hs Hr]|(c & t1 & Hs & Ht1)].
    + eapply streamed_stable; [|done]. eapply Ha. by rewrite Ht, <-Hs.
    + rewrite Hp in Ht1. injection Ht1 as <-. pose proof (task_step_same _ _ _ _ _ Hs) as Hsame.
      destruct t as [|ctx1 id1 p1| | |]; try done. destruct Hsame as [-> ->].
      eapply streamed_guar; [by eapply Ha|]. by apply (task_step_ok _ _ _ _ _ _ _ _ (sy_tasks _ _ _ Hi _ _ Ht) Hs).
  - destruct (event_starts _ _ _ _ _ H Ht Hp) as [-> _]. left. unfold sent. by rewrite (sy_fresh _ _ _ Hi _ Ht).
Qed.

Lemma reachable_streamed s : reachable s → all_streamed s.
Proof.
  intros [l H]. eapply (run_invariant all_streamed); [apply all_streamed_step|apply sys_init_inv| |exact H].
  intros tid ctx id p Hp. cbn in Hp. by rewrite lookup_empty in Hp.
Qed.

(** ** A message that cannot be decoded *)

Definition undecoded (t : task) : bool :=
  match t with Undecoded _ _ | UndecodedStream _ _ _ => true | _ => false end.

Definition all_silent (s : system) : Prop :=
  ∀ tid t, s_tasks s !! tid = Some t → undecoded t = true → sent tid (s_world s) = [].

Lemma undecoded_same t t' : same_task t t' → undecoded t = undecoded t'.
Proof. by destruct t, t'. Qed.

Lemma undecoded_quiet tid t w w' :
  undecoded t = true → task_guar durationpb_New i tid t w w' → quiet w w'.
Proof. by destruct t. Qed.

Lemma all_silent_step ev s s' : sys_inv s → all_silent s → sys_step ev s = Some s' → all_silent s'.
Proof.
  intros Hi Ha H tid t' Ht' Hu. destruct (s_tasks s !! tid) as [t|] eqn:Ht.
  - destruct (event_others _ _ _ _ _ Hi H Ht) as [[Hs [_ Hr]]|(c & t1 & Hs & Ht1)].
    + rewrite Hr. by apply (Ha tid t'); rewrite ?Ht, <-?Hs.
    + rewrite Ht' in Ht1. injection Ht1 as <-. pose proof (task_step_same _ _ _ _ _ Hs) as Hsame.
      rewrite <-(undecoded_same _ _ Hsame) in Hu.
      destruct (task_step_ok _ _ _ _ _ _ _ _ (sy_tasks _ _ _ Hi _ _ Ht) Hs) as [Hg _].
      unfold sent. rewrite (quiet_sent _ _ (undecoded_quiet _ _ _ _ Hu Hg)). by apply (Ha tid t).
  - destruct (event_starts _ _ _ _ _ H Ht Ht') as [-> _]. unfold sent. by rewrite (sy_fresh _ _ _ Hi _ Ht).
Qed.

Lemma reachable_silent s : reachable s → all_silent s.
Proof.
  intros [l H]. eapply (run_invariant all_silent); [apply all_silent_step|apply sys_init_inv| |exact H].
  intros tid t Ht. cbn in Ht. by rewrite lookup_empty in Ht.
Qed.

End server.
End ownership.
