(* ===== verification/Evidence.v ===== *)
(** * What an RPC's own choices say of its answer

    Along a run of the server the choices of one goroutine are collected
    ([choices_of]). They tell why an RPC was refused, that a stream which gave
    up was refused a tick by the transport, and, for an RPC on a job that is not
    its agent's, everything it does. *)

From S2P Require Import Prelude GoStrings GoErrors Conc Trace X509 SpiffeID X509SVID Identity Authz Slog.
From S2P Require Import Context Authenticator Wire Job JobInvariant Registry Ticks Service.
From S2P Require Import ServiceSpec StreamSpec Interceptor System Ownership.

Module evidence.
Import authn worker worker_spec worker_ticks conc trace context authenticator registry service service_spec stream_spec
  interceptor system ownership.

(** The handlers' own errors are none of the interceptors'. *)
Definition own_error {R} (r : result R) : Prop := ∀ e, r = Err e → ¬ refusal e.

Lemma own_Ok {R} (a : R) : own_error (Ok a).
Proof. by intros e. Qed.

Lemma own_status {R} c text :
  c ≠ Internal → c ≠ Unauthenticated → c ≠ PermissionDenied → own_error (Err (StatusError c text) : result R).
Proof. intros ??? e [= <-]. unfold refusal. naive_solver. Qed.

#[local] Hint Resolve own_Ok : core.

(** ** The handlers *)

Section handlers.
Context (s : Service) (ctx : Context) (a : AgentID) (agent_in_ctx : agent_of ctx = Some a).
Abbreviation owned := (called_out (λ r (_ : list choice), own_error r)).

Lemma traced_log {A} (T : A + panic_value → list choice → Prop) lvl msg attrs (k : prog world A) cs :
  traced T k (cs ++ [Tau]) → traced T (_ ← log s lvl msg attrs; k) cs.
Proof. intros H. apply traced_bind, traced_atomically. by intros w w' []. Qed.

Lemma traced_findJob id cs : traced owned (findJob s ctx id) cs.
Proof.
  unfold findJob, agentID. rewrite agent_in_ctx. cbn [mret]. apply traced_bind. cbn [traced].
  apply traced_bind, traced_atomically. intros w w' found _. cbv beta iota. destruct found as [l|]; [done|].
  apply traced_log. by apply own_status.
Qed.

Lemma traced_protoStatus {B} (T : B + panic_value → list choice → Prop) st (k : fizzledv1.Status → prog world B) cs :
  (∀ pb cs, traced T (k pb) cs) → traced T (pb ← protoStatus s st; k pb) cs.
Proof.
  intros H. unfold protoStatus. repeat destruct (_ =? _)%string; try by apply H.
  apply traced_bind, traced_log. apply H.
Qed.

Lemma traced_Start count cs : traced owned (Start s ctx count) cs.
Proof.
  unfold Start, agentID. rewrite agent_in_ctx. apply traced_bind. cbn [mret traced].
  apply traced_bind, traced_atomically. intros w w' r Hr. cbv beta iota. destruct r as [id|e]; [done|].
  destruct (Create_refusal _ _ _ _ _ _ Hr) as [(_ & -> & ->)|(_ & _ & ->)]; by apply own_status.
Qed.

Lemma traced_found {B} (f : loc → prog world (result B)) id cs :
  (∀ l cs, traced owned (f l) cs) →
  traced owned (r ← findJob s ctx id; match r with Err e => mret (Err e) | Ok (l, _) => f l end) cs.
Proof.
  intros Hf. apply traced_bind. eapply traced_mono; [|apply traced_findJob].
  intros [[[l b]|e]|v] cs1 _ Hp; [apply Hf| |exact Hp]. intros e' [= <-]. by apply Hp.
Qed.

Lemma traced_Stop id cs : traced owned (service.Stop s ctx id) cs.
Proof.
  apply traced_found. intros l cs1. apply traced_bind, traced_bind, traced_atomically. intros w w' [] _.
  apply traced_bind, traced_await. intros w1 [] _. apply traced_await. intros w2 st _.
  by apply traced_protoStatus.
Qed.

Lemma traced_GetStatus id cs : traced owned (GetStatus s ctx id) cs.
Proof.
  apply traced_found. intros l cs1. apply traced_bind, traced_await. intros w st _.
  by apply traced_protoStatus.
Qed.

Section stream.
Context (durationpb_New : Z → fizzledv1.Duration) (stream : scope).

(** A stream gives up only with what a [Send] of its own answered. *)
Definition gave_up (o : stream_end) (cs : list choice) : Prop :=
  ∀ e, o = Ended (Some e) → Answer (Some e) ∈ cs.

Lemma traced_stream_loop fuel l r cs :
  traced (called_out gave_up) (stream_loop durationpb_New fuel s ctx stream l r) cs.
Proof.
  revert r cs. induction fuel as [|fuel IH]; intros r cs; cbn [stream_loop]; [by intros e|].
  destruct (r_pc r) as [cur|cur tick rest|cur wait|site].
  - apply traced_bind, traced_await. intros w r' _. apply IH.
  - apply traced_bind, traced_act. intros w c w' p' E.
    destruct c as [| |[e|]|v| | |]; try discriminate E; cbv beta iota in E; injection E as <- <-.
    + apply traced_bind, traced_await. intros w1 attrs _. apply traced_log. intros e' [= <-].
      apply elem_of_app. left. apply elem_of_app. left. apply elem_of_app. right. by apply list_elem_of_singleton.
    + apply traced_bind, traced_await. intros w1 r' _. apply IH.
    + apply elem_of_app. right. by apply list_elem_of_singleton.
  - apply traced_bind, traced_act. intros w c w' p' E. destruct c; try done; cbn in E.
    + destruct (job_at l w) as [j|]; [|done]. cbn in E. destruct (Ticks_step Wake j r) as [r'|]; [|done].
      cbn in E. injection E as <- <-. apply IH.
    + destruct (Context_Err (w_done w) ctx); [|done]. cbn in E. destruct (job_at l w) as [j|]; [|done]. cbn in E.
      destruct (Ticks_step ReaderCtxDone j r) as [r'|]; [|done]. cbn in E. injection E as <- <-. apply IH.
  - by intros e.
Qed.

Definition stream_choices (r : result stream_end) (cs : list choice) : Prop :=
  match r with Ok o => gave_up o cs | Err e => ¬ refusal e end.

Lemma traced_StreamOutput id cs :
  traced (called_out stream_choices) (StreamOutput durationpb_New s ctx stream id) cs.
Proof.
  unfold StreamOutput. apply traced_bind. eapply traced_mono; [|apply traced_findJob].
  intros [[[l b]|e]|v] cs1 _ Hp; [|by apply Hp|exact Hp]. cbv beta iota.
  apply traced_bind, traced_await. intros w id' _. apply traced_log, traced_finally, traced_bind.
  assert (∀ (T : list choice → Prop) (Q : unit + panic_value → list choice → Prop) cs,
    T cs → (∀ cs cs', cs ⊆ cs' → T cs → T cs') → (∀ a cs, T cs → Q (inl a) cs) →
    traced Q (attrs ← read_job l (λ j, [("agent_id", b); ("job_id", Job_ID j); ("job_status", Job_Status j)]);
         log s slog.LevelInfo "stream closed" attrs) cs) as Hclose.
  { intros T Q cs2 HT Hmono HQ. apply traced_bind, traced_await. intros w1 attrs _. apply traced_atomically.
    intros w2 w3 [] _. apply HQ. eapply Hmono; [|exact HT]. set_solver. }
  eapply traced_mono; [|apply (traced_stream_loop stream_fuel l Ticks_start)].
  intros [o|v] cs2 _ Ho; cbv beta iota.
  - apply (Hclose (gave_up o)); [exact Ho| |done]. intros cs3 cs4 Hsub H e He. by apply Hsub, H.
  - apply (Hclose (λ cs, CallPanics v ∈ cs)); [exact Ho|set_solver|done].
Qed.

End stream.

(** ** A job that is not there *)

Context (I : world → Prop) (id : JobID) (not_there : ∀ w, I w → Find a id w = None).

Definition not_found {B} (o : result B + panic_value) : Prop := o = inl (Err (StatusError NotFound "job not found")).

Lemma blind_findJob : blind I not_found (findJob s ctx id).
Proof.
  unfold findJob, agentID. rewrite agent_in_ctx.
  apply (blind_bind I (λ o, o = inl (Ok a))); [done|done|]. intros r [= ->].
  apply (blind_bind I (λ o, o = inl None)); [|done|].
  - apply (blind_atomically I _ _ None); [|done]. intros w Hw. by apply not_there.
  - intros found [= ->]. apply (blind_bind I (λ o, o = inl tt)); [|done|by intros _ _].
    by apply (blind_atomically I _ _ tt).
Qed.

Lemma blind_not_found {B} (f : loc * AgentID → prog world (result B)) :
  blind I not_found (r ← findJob s ctx id; match r with Err e => mret (Err e) | Ok x => f x end).
Proof. apply (blind_bind I not_found); [apply blind_findJob|done|]. by intros r [= ->]. Qed.

End handlers.

(** ** The RPCs of the server *)

Section server.
Context {A : Type} `{peers : PeerAuthenticator A}.
Context (durationpb_New : Z → fizzledv1.Duration) (Stack : string).
Context (i : Interceptor A) (svc : Service).
Abbreviation sys_step := (sys_step durationpb_New Stack i svc).
Abbreviation sys_run := (sys_run durationpb_New Stack i svc).
Abbreviation sys_inv := (sys_inv durationpb_New i).
Abbreviation serve := (serve durationpb_New Stack i svc).

(** The choices the goroutine [tid] met in a run. *)
Definition choice_of (tid : nat) (ev : sys_event) : list choice :=
  match ev with TaskRuns tid' c => if decide (tid' = tid) then [c] else [] | _ => [] end.

Definition choices_of (tid : nat) (l : list sys_event) : list choice := l ≫= choice_of tid.

(** Why an RPC was refused, or that its handler answered. *)
Definition answered {R} (T : result R → list choice → Prop) (ctx : Context) (fullMethod : string)
    (o : result R + panic_value) (cs : list choice) : Prop :=
  match o with
  | inl r => (∃ e, r = Err e ∧ refused_for i ctx fullMethod cs e) ∨ T r cs
  | inr _ => False
  end.

Definition task_traced (t : task) (cs : list choice) : Prop :=
  match t with
  | Calling ctx req p => traced (answered (λ r _, own_error r) ctx (method_of req)) p cs
  | Streaming ctx id p =>
      traced (answered stream_choices ctx fizzledv1.FizzledService_StreamOutput_FullMethodName) p cs
  | _ => True
  end.

Lemma serve_traced tid peer req t cs : serve tid peer req = Some t → task_traced t cs.
Proof.
  intros H. assert (∀ ctx req f, (∀ agent cs, traced (called_out (λ r _, own_error r)) (f (WithValue ctx agent)) cs) →
    task_traced (Calling ctx req (Unary Stack i ctx req (method_of req) f)) cs) as Hcall.
  { intros ctx req' f Hf. apply traced_guarded. intros agent cs1 _. apply Hf. }
  destruct req as [count|id|id|id|]; cbn -[Unary Stream] in H; simplify_eq.
  - case_bool_decide; [|done]. injection H as <-. apply Hcall. intros agent cs1. by eapply traced_Start.
  - apply Hcall. intros agent cs1. by eapply traced_Stop.
  - apply Hcall. intros agent cs1. by eapply traced_GetStatus.
  - apply traced_guarded. intros agent cs1 _. by eapply traced_StreamOutput.
Qed.

Lemma task_step_traced t cs c w w' t' :
  task_traced t cs → task_step c t w = Some (w', t') → task_traced t' (cs ++ [c]).
Proof.
  intros H E. destruct t as [ctx req p|ctx id p|p|ctx e|ctx e p]; cbn in E; [..|done|];
    (destruct (prog_step c p w) as [[w1 p1]|] eqn:Ep; [|done]); cbn in E; injection E as <- <-; cbn in *; try done;
    by eapply traced_step.
Qed.

Lemma traced_run tid t l s s' cs :
  s_tasks s !! tid = Some t → task_traced t cs → sys_run l s = Some s' →
  ∃ t', s_tasks s' !! tid = Some t' ∧ same_task t t' ∧ task_traced t' (cs ++ choices_of tid l).
Proof.
  revert s t cs. induction l as [|ev l IH]; intros s t cs Ht Hok H; cbn in H.
  { injection H as <-. exists t. rewrite app_nil_r. by split_and!. }
  destruct (sys_step ev s) as [s1|] eqn:E; [|done]. cbn [choices_of mbind list_bind].
  destruct (event_task _ _ _ _ _ _ _ _ _ E Ht) as [[Ht1 Hne]|(c & t1 & -> & Hs & Ht1)].
  - destruct (IH s1 t cs Ht1 Hok H) as (t' & ? & ? & ?). exists t'. split_and!; [done..|].
    replace (choice_of tid ev) with (@nil choice); [done|]. destruct ev as [| | |tid' c'| |]; try done. cbn.
    case_decide; [subst; by destruct (Hne c')|done].
  - destruct (IH s1 t1 (cs ++ [c]) Ht1 (task_step_traced _ _ _ _ _ _ Hok Hs) H) as (t' & ? & ? & Hok').
    exists t'. split_and!; [done|etrans; [by eapply task_step_same|done]|].
    cbn. rewrite decide_True by done. cbn. by rewrite <-app_assoc in Hok'.
Qed.

(** ** What a goroutine that is blind has become *)

Definition program_steps (I : world → Prop) (cs : list choice) (t t' : task) : Prop :=
  match t, t' with
  | Calling _ _ p, Calling _ _ p' => steps I cs p p'
  | Streaming _ _ p, Streaming _ _ p' => steps I cs p p'
  | _, _ => True
  end.

Lemma task_step_steps (I : world → Prop) c cs t t1 t' w w' :
  I w → task_step c t w = Some (w', t1) → same_task t1 t' → program_steps I cs t1 t' → program_steps I (c :: cs) t t'.
Proof.
  intros Hw E Hs H. destruct t as [ctx req p|ctx id p|p|ctx e|ctx e p]; cbn in E; [..|done|]; try done;
    (destruct (prog_step c p w) as [[w1 p1]|] eqn:Ep; [|done]); cbn in E; injection E as <- <-;
    destruct t'; try done; by econstructor.
Qed.

Lemma steps_run (I : world → Prop) tid t l s s' :
  s_tasks s !! tid = Some t → sys_run l s = Some s' →
  (∀ l1 s1, l1 `prefix_of` l → sys_run l1 s = Some s1 → I (s_world s1)) →
  ∃ t', s_tasks s' !! tid = Some t' ∧ same_task t t' ∧ program_steps I (choices_of tid l) t t'.
Proof.
  revert s t. induction l as [|ev l IH]; intros s t Ht H HI; cbn in H.
  { injection H as <-. exists t. split_and!; [done|done|]. destruct t; cbn; try done; constructor. }
  destruct (sys_step ev s) as [s1|] eqn:E; [|done]. cbn [choices_of mbind list_bind].
  assert (∀ l1 s2, l1 `prefix_of` l → sys_run l1 s1 = Some s2 → I (s_world s2)) as HI1.
  { intros l1 s2 Hp H1. destruct Hp as [k ->]. apply (HI (ev :: l1)); [by exists k|]. cbn. by rewrite E. }
  destruct (event_task _ _ _ _ _ _ _ _ _ E Ht) as [[Ht1 Hne]|(c & t1 & -> & Hs & Ht1)].
  - destruct (IH s1 t Ht1 H HI1) as (t' & ? & ? & ?). exists t'. split_and!; [done..|].
    replace (choice_of tid ev) with (@nil choice); [done|]. destruct ev as [| | |tid' c'| |]; try done. cbn.
    case_decide; [subst; by destruct (Hne c')|done].
  - destruct (IH s1 t1 Ht1 H HI1) as (t' & ? & Hs' & Hok').
    exists t'. split_and!; [done|etrans; [by eapply task_step_same|done]|].
    cbn. rewrite decide_True by done. cbn. eapply task_step_steps; [|exact Hs|done|done].
    apply (HI []); [apply prefix_nil|done].
Qed.

(** The RPCs that ask for a job. *)
Definition asks_for (id : JobID) (req : fizzledv1.Request) : Prop :=
  req = fizzledv1.StopRequest id ∨ req = fizzledv1.GetStatusRequest id ∨ req = fizzledv1.StreamOutputRequest id.

(** No agent the peer is admitted as has a job under [id]. *)
Definition out_of_reach (ctx : Context) (req : fizzledv1.Request) (id : JobID) (w : world) : Prop :=
  ∀ agent, admitted i ctx (method_of req) agent → Find agent id w = None.

Definition denied {R} (o : result R + panic_value) : Prop :=
  match o with
  | inl r => ∃ e, r = Err e ∧ (refusal e ∨ e = StatusError NotFound "job not found")
  | inr _ => False
  end.

Definition task_blind (I : world → Prop) (t : task) : Prop :=
  match t with
  | Calling _ _ p => blind I denied p
  | Streaming _ _ p => blind I denied p
  | _ => False
  end.

Lemma serve_blind tid peer req id t :
  asks_for id req → serve tid peer req = Some t →
  task_blind (out_of_reach (mkContext peer None (Some tid)) req id) t.
Proof.
  intros Hq Hs. set (ctx := mkContext peer None (Some tid)) in *.
  assert (∀ (B : Type) jobID (f : Context → loc * AgentID → prog world (result B)) m,
    m = method_of req → blind (out_of_reach ctx req id) denied (guard Stack i m (r ← authorize i ctx m jobID;
      match r with
      | Err e => mret (Err e)
      | Ok ctx => r ← findJob svc ctx id; match r with Err e => mret (Err e) | Ok x => f ctx x end
      end))) as H.
  { intros B jobID f m ->. apply (blind_guarded i ctx _ _ Stack jobID
      (λ ctx, r ← findJob svc ctx id; match r with Err e => mret (Err e) | Ok x => f ctx x end)
      (λ r, ∃ e, r = Err e ∧ (refusal e ∨ e = StatusError NotFound "job not found"))).
    - intros agent Ha. eapply (blind_mono _ not_found); [|apply (blind_not_found svc (WithValue ctx agent) agent eq_refl _ id); intros w Hw; by apply Hw].
      intros o ->. cbn. eauto.
    - intros e He. eauto. }
  destruct Hq as [->|[->| ->]]; cbn -[Unary Stream] in Hs; injection Hs as <-.
  - by apply (H _ _ (λ ctx '(l, _), _)).
  - by apply (H _ _ (λ ctx '(l, _), _)).
  - by apply (H _ _ (λ ctx '(l, a), _)).
Qed.

End server.
End evidence.
