(* ===== verification/Model.v ===== *)
(** * What the service is, to those who use it

    The abstract service: which agent owns which job under which id, and of
    each job only its countdown, whether it has been told to stop, and what it
    has put out. Four things happen to it: an agent opens a job, a job emits its
    next tick, a job is told to stop, the service closes. Every event of the
    running server is one of them, done by whom it may be done by, or cannot be
    seen. *)

From S2P Require Import Prelude GoStrings GoErrors Conc X509 SpiffeID X509SVID Identity Authz Slog.
From S2P Require Import Context Authenticator Wire Job JobInvariant Registry Ticks Service.
From S2P Require Import ServiceSpec StreamSpec Interceptor System Sample Ownership.

Module service_model.
Import authn worker worker_spec conc context authenticator registry service service_spec stream_spec
  interceptor system ownership.

(** ** The abstract service *)

Record model_job := mkModelJob { m_count : Z; m_told : bool; m_state : abs }.

Record model := mkModel { m_accepting : bool; m_owned : gmap (AgentID * JobID) model_job }.

Definition set_job (agent : AgentID) (id : JobID) (j : model_job) (m : model) : model :=
  mkModel (m_accepting m) (<[(agent, id) := j]> (m_owned m)).

Inductive act := Opens (agent : AgentID) (count : Z) | Emits (agent : AgentID) (id : JobID)
  | Tells (agent : AgentID) (id : JobID) | Closes.

Inductive model_step (m : model) : act → model → Prop :=
| model_opens agent id count (HA : m_accepting m = true) (HC : (1 <= count <= MaxCount)%Z)
    (HF : ∀ b, m_owned m !! (b, id) = None) :
    model_step m (Opens agent count) (set_job agent id (mkModelJob count false (mkAbs StatusRunning [])) m)
| model_emits agent id count told a a' (HL : m_owned m !! (agent, id) = Some (mkModelJob count told a))
    (HS : abs_step count a a') (HT : a_status a' = StatusStopped → told = true) :
    model_step m (Emits agent id) (set_job agent id (mkModelJob count told a') m)
| model_tells agent id count told a (HL : m_owned m !! (agent, id) = Some (mkModelJob count told a)) :
    model_step m (Tells agent id) (set_job agent id (mkModelJob count true a) m)
| model_closes : model_step m Closes (mkModel false (m_owned m)).

Definition model_init : model := mkModel true ∅.

(** ** The world that stands for it *)

Record job_represents (o : object) (j : model_job) : Prop := {
  jr_inv : job_inv (m_count j) (o_cell o);
  jr_state : m_state j = abs_of (c_job (o_cell o));
  jr_told : m_told j = false → ¬ wants_stop (o_cell o);
}.

Definition owns (w : world) (agent : AgentID) (id : JobID) (j : model_job) : Prop :=
  ∃ l o, Find agent id w = Some l ∧ w_heap w !! l = Some o ∧ job_represents o j.

Record represents (w : world) (m : model) : Prop := {
  re_accepting : isAcceptingJobs (w_registry w) = m_accepting m;
  re_owned : ∀ agent id, match m_owned m !! (agent, id) with
                         | Some j => owns w agent id j
                         | None => Find agent id w = None
                         end;
}.

Lemma represents_Find w m agent id l :
  represents w m → Find agent id w = Some l → ∃ j, m_owned m !! (agent, id) = Some j.
Proof.
  intros [_ Ho] Hl. specialize (Ho agent id). destruct (m_owned m !! (agent, id)) as [j|]; [by exists j|congruence].
Qed.

(** A change that leaves the jobs alone cannot be seen, but for the closing. *)
Lemma represents_same w w' m b :
  represents w m → records (w_registry w') = records (w_registry w) → w_heap w' = w_heap w →
  isAcceptingJobs (w_registry w') = b → represents w' (mkModel b (m_owned m)).
Proof.
  intros [_ Ho] Hr Hh Ha. constructor; [done|]. intros agent id. specialize (Ho agent id). cbn.
  unfold owns in *. rewrite (Find_registry w w') by done. by rewrite Hh.
Qed.

Lemma represents_same_accepting w w' m :
  represents w m → records (w_registry w') = records (w_registry w) → w_heap w' = w_heap w →
  isAcceptingJobs (w_registry w') = isAcceptingJobs (w_registry w) → represents w' m.
Proof.
  intros Hm Hr Hh Ha. pose proof (re_accepting _ _ Hm) as Hacc. destruct m as [b owned]. cbn in Hacc.
  eapply (represents_same w w' (mkModel b owned)); [done..|congruence].
Qed.

Lemma represents_quiet w w' m : represents w m → quiet w w' → represents w' m.
Proof. intros Hm [->|[recs ->]]; [done|]. by eapply represents_same_accepting. Qed.

(** A change of the one job an agent owns under an id. *)
Lemma represents_set w w' m agent id l o' j' :
  registry_inv w → represents w m → Find agent id w = Some l →
  w_registry w' = w_registry w → w_heap w' = <[l := o']> (w_heap w) → job_represents o' j' →
  represents w' (set_job agent id j' m).
Proof.
  intros Hi [Ha Ho] Hl Hr Hh Hj. constructor; cbn; [by rewrite Hr|]. intros b id'.
  destruct (Find_job _ _ _ _ Hi Hl) as (j & Hjl & _).
  assert (∀ b id', Find b id' w' = Find b id' w) as HF by (intros; apply Find_registry; by rewrite Hr).
  destruct (decide ((b, id') = (agent, id))) as [[= -> ->]|Hne].
  - rewrite lookup_insert_eq. exists l, o'. rewrite HF, Hh, list_lookup_insert_eq by by eapply job_at_lt. done.
  - rewrite lookup_insert_ne by done. specialize (Ho b id'). destruct (m_owned m !! (b, id')) as [jb|]; [|by rewrite HF].
    destruct Ho as (lb & ob & Hlb & Hob & Hjb). exists lb, ob. rewrite HF, Hh. split_and!; [done| |done].
    rewrite list_lookup_insert_ne; [done|]. intros ->. by destruct (Find_unique _ _ _ _ _ _ Hi Hl Hlb) as [-> ->].
Qed.

(** ** One step of each kind *)

Lemma represents_Create ctx a count w w' id m :
  registry_inv w → fits w' → represents w m → Create (WithoutCancel ctx) a count w = (w', Ok id) →
  ∃ m', represents w' m' ∧ model_step m (Opens a count) m'.
Proof.
  intros Hi Hf Hm HC. pose proof (λ b id', Create_Find _ _ _ _ _ _ b id' HC Hi Hf) as HF.
  destruct (Create_Ok _ _ _ _ _ _ HC Hi Hf) as (o & rec & Hw & Hacc & Hc & Hid & _ & _ & Hs).
  assert (∀ b, Find b id w = None) as Hfresh.
  { intros b. destruct (Find b id w) eqn:E; [|done]. rewrite Hid in E. by destruct (mint_fresh _ _ _ _ Hi E). }
  pose proof (job_start_inv _ _ _ _ _ _ Hs) as Hinv. pose proof (started_wants_nothing _ _ _ _ _ Hs) as Hn.
  destruct (job_start_fields _ _ _ _ _ _ Hs) as (_ & _ & Hst & Hts & _).
  eexists. split; [|apply (model_opens m a id count); [by rewrite <-(re_accepting _ _ Hm)|done|]].
  - constructor; cbn; [by rewrite Hw, <-(re_accepting _ _ Hm)|]. intros b id'.
    destruct (decide ((b, id') = (a, id))) as [[= -> ->]|Hne].
    + rewrite lookup_insert_eq. exists (length (w_heap w)), o. rewrite HF, decide_True by done.
      split_and!; [done|by rewrite Hw; cbn; rewrite lookup_app_r, Nat.sub_diag by lia|].
      constructor; cbn; [done| |done]. unfold abs_of. by rewrite Hst, Hts.
    + rewrite lookup_insert_ne by done. pose proof (re_owned _ _ Hm b id') as Ho.
      destruct (m_owned m !! (b, id')) as [j|].
      * destruct Ho as (l & ob & Hl & Hob & Hj). exists l, ob. rewrite HF, decide_False by naive_solver.
        split_and!; [done| |done]. rewrite Hw. cbn. by apply lookup_app_l_Some.
      * rewrite HF, decide_False by naive_solver. done.
  - intros b. pose proof (re_owned _ _ Hm b id) as Ho. destruct (m_owned m !! (b, id)); [|done].
    destruct Ho as (l & ob & Hl & _). by rewrite Hfresh in Hl.
Qed.

Lemma represents_cancelled w m agent id l :
  registry_inv w → represents w m → Find agent id w = Some l →
  ∃ m', represents (cancelled l w) m' ∧ model_step m (Tells agent id) m'.
Proof.
  intros Hi Hm Hl. destruct (represents_Find _ _ _ _ _ Hm Hl) as [[count told a] Hj].
  pose proof (re_owned _ _ Hm agent id) as Ho. rewrite Hj in Ho. destruct Ho as (l' & o & Hl' & Ho & [Hinv Hst _]).
  rewrite Hl in Hl'. injection Hl' as <-. cbn in *.
  eexists. split; [|by eapply model_tells].
  eapply (represents_set w _ m agent id l (cancel_object o)); [done..| |].
  - cbn. apply list_eq. intros k. destruct (decide (l = k)) as [->|Hne].
    + rewrite list_lookup_alter_eq, Ho, list_lookup_insert_eq by by eapply lookup_lt_Some. done.
    + by rewrite list_lookup_alter_ne, list_lookup_insert_ne.
  - constructor; cbn; [|rewrite Hst|done].
    + eapply (job_step_ok count DoCancel (o_cell o)); [done|]. by destruct (o_cell o).
    + unfold abs_of, cancel, cancel_with. by destruct (ctx_err _).
Qed.

Lemma represents_runs w m l ev o c agent id :
  registry_inv w → represents w m → w_heap w !! l = Some o → job_step (Go ev) (o_cell o) = Some c →
  Find agent id w = Some l →
  ∃ m', represents (with_heap (<[l := with_cell c o]> (w_heap w)) w) m' ∧
    (m' = m ∨ model_step m (Emits agent id) m').
Proof.
  intros Hi Hm Ho Hc Hl. destruct (represents_Find _ _ _ _ _ Hm Hl) as [[count told a] Hj].
  pose proof (re_owned _ _ Hm agent id) as Hown. rewrite Hj in Hown.
  destruct Hown as (l' & o' & Hl' & Ho' & [Hinv Hst Htold]). rewrite Hl in Hl'. injection Hl' as <-.
  rewrite Ho in Ho'. injection Ho' as <-. cbn -[job_step] in *. subst a.
  destruct (job_step_ok _ _ _ _ Hinv Hc) as [Hinv' Hsim].
  set (m' := set_job agent id (mkModelJob count told (abs_of (c_job c))) m).
  assert (told = false → ¬ wants_stop c) as Htold'.
  { intros Ht Hw. apply (Htold Ht). by eapply wants_stop_back. }
  assert (represents (with_heap (<[l := with_cell c o]> (w_heap w)) w) m') as Hm'.
  { eapply (represents_set w _ m agent id l (with_cell c o)); [done..|]. by constructor. }
  exists m'. split; [done|]. destruct Hsim as [Hsame|Hstep].
  - left. unfold m', set_job. destruct m as [b owned]. cbn in *. f_equal. rewrite Hsame. by apply insert_id.
  - right. eapply model_emits; [done|done|]. cbn. intros Hstop. destruct told; [done|].
    destruct (Htold' eq_refl). by left.
Qed.

(** ** Every event *)

Section server.
Context {A : Type} `{peers : PeerAuthenticator A}.
Context (durationpb_New : Z → fizzledv1.Duration) (Stack : string).
Context (i : Interceptor A) (svc : Service) (logger : option slog.Logger).
Abbreviation sys_step := (sys_step durationpb_New Stack i svc).
Abbreviation sys_run := (sys_run durationpb_New Stack i svc).
Abbreviation reachable := (reachable durationpb_New Stack i svc logger).

(** Who may bring it about: the goroutine of a [Start] from a peer that was
    admitted as the agent; the job's own; a shutdown, or a [Stop] on the id from
    a peer that was admitted as the job's owner; a shutdown. *)
Definition causes (s : system) (ev : sys_event) (a : act) : Prop :=
  match a with
  | Opens agent count => ∃ tid c ctx p, ev = TaskRuns tid c ∧
      s_tasks s !! tid = Some (Calling ctx (fizzledv1.StartRequest count) p) ∧
      admitted i ctx fizzledv1.FizzledService_Start_FullMethodName agent
  | Emits agent id => ∃ l e, ev = JobRuns l e ∧ Find agent id (s_world s) = Some l
  | Tells agent id => ∃ tid c t, ev = TaskRuns tid c ∧ s_tasks s !! tid = Some t ∧ stops i t agent id
  | Closes => ∃ tid c p, ev = TaskRuns tid c ∧ s_tasks s !! tid = Some (ShuttingDown p)
  end.

(** An event is one step of the abstract service, or none. *)
Definition seen (s s' : system) (ev : sys_event) (m : model) : Prop :=
  ∃ m', represents (s_world s') m' ∧ (m' = m ∨ ∃ a, model_step m a m' ∧ causes s ev a).

Lemma unseen s s' ev m : represents (s_world s') m → seen s s' ev m.
Proof. intros H. exists m. auto. Qed.

Lemma task_seen tid c t s s' m :
  s_tasks s !! tid = Some t → registry_inv (s_world s) → fits (s_world s') → represents (s_world s) m →
  task_guar durationpb_New i tid t (s_world s) (s_world s') → seen s s' (TaskRuns tid c) m.
Proof.
  intros Ht Hi Hf Hm Hg. pose proof (ev_length _ _ (task_guar_evolves _ _ _ _ _ _ Hg)) as Hlen.
  pose proof (fits_le _ _ Hlen Hf) as Hf0.
  assert (quiet (s_world s) (s_world s') → seen s s' (TaskRuns tid c) m) as Hquiet.
  { intros Hq. apply unseen. by eapply represents_quiet. }
  assert (∀ l, s_world s' = cancelled l (s_world s) →
    (∀ agent id, Find agent id (s_world s) = Some l → stops i t agent id) → seen s s' (TaskRuns tid c) m) as Hcancel.
  { intros l Hw Hs. destruct (decide (l < length (w_heap (s_world s)))) as [Hl|Hl].
    - destruct (ri_owned _ Hi l Hl) as (agent & id & Hfind).
      destruct (represents_cancelled _ _ _ _ _ Hi Hm Hfind) as (m' & Hm' & Hstep).
      exists m'. rewrite Hw. split; [done|]. right. exists (Tells agent id). split; [done|]. exists tid, c, t. auto.
    - apply unseen. rewrite Hw. eapply represents_same_accepting; [done..| |done]. apply list_alter_out. lia. }
  destruct t as [ctx req p|ctx id p|p|ctx e|ctx e p]; cbn in Hg; [| | |by apply Hquiet..].
  - destruct Hg as [Hq|(agent & Ha & Hg)]; [by apply Hquiet|].
    destruct req as [count|id|id|id|]; cbn in Hg; try by apply Hquiet.
    + destruct Hg as [Hq|Hw]; [by apply Hquiet|].
      destruct (Create (WithoutCancel (WithValue ctx agent)) agent count (s_world s)) as [w' [id|e]] eqn:HC; cbn in Hw; subst w'.
      * destruct (represents_Create _ _ _ _ _ _ _ Hi Hf Hm HC) as (m' & Hm' & Hstep).
        exists m'. split; [done|]. right. eexists. split; [done|]. by exists tid, c, ctx, p.
      * apply unseen. by rewrite (Create_Err _ _ _ _ _ _ HC).
    + destruct Hg as [Hq|(l & Hl & Hw)]; [by apply Hquiet|]. destruct (Hl Hf0) as [_ Hfind].
      apply (Hcancel l Hw). intros b id' Hb. by destruct (Find_unique _ _ _ _ _ _ Hi Hfind Hb) as [<- <-].
  - destruct Hg as [Hq|(agent & _ & [Hq|(l & t & Hw & _)])]; [by apply Hquiet..|].
    apply unseen. rewrite Hw. by eapply represents_same_accepting.
  - destruct Hg as [Hw|(l & [Hw|Hw])]; [|by apply Hquiet; left|by apply (Hcancel l Hw)].
    exists (mkModel false (m_owned m)). split; [rewrite Hw; by eapply represents_same|].
    right. exists Closes. split; [constructor|]. by exists tid, c, p.
Qed.

Lemma event_seen s s' ev m :
  reachable s → sys_step ev s = Some s' → fits (s_world s') → represents (s_world s) m → seen s s' ev m.
Proof.
  intros HR HS HF HM. pose proof (reachable_inv _ _ _ _ _ _ HR) as Hi.
  destruct (sys_step_inv _ _ _ _ _ _ _ Hi HS) as [_ He].
  destruct (sy_world _ _ _ Hi (fits_le _ _ (ev_length _ _ He) HF)) as [Hr _].
  destruct ev as [tid peer req|tid peer strm err|tid|tid c|l ev|tid cause]; cbn -[serve task_step job_step] in HS.
  - destruct (s_tasks s !! tid); [done|]. destruct (serve _ _ _ _ tid peer req); [|done].
    injection HS as <-. by apply unseen.
  - destruct (s_tasks s !! tid); [done|]. injection HS as <-. by apply unseen.
  - destruct (s_tasks s !! tid); [done|]. injection HS as <-. by apply unseen.
  - destruct (s_tasks s !! tid) as [t|] eqn:E; [|done]. cbn in HS.
    destruct (task_step c t (s_world s)) as [[w' t']|] eqn:Es; [|done]. injection HS as <-.
    eapply task_seen; [done..|]. by apply (task_step_ok _ _ _ _ _ _ _ _ (sy_tasks _ _ _ Hi _ _ E) Es).
  - destruct (w_heap (s_world s) !! l) as [o|] eqn:Eo; [|done]. cbn -[job_step] in HS.
    destruct (job_step (Go ev) (o_cell o)) as [c|] eqn:Ec; [|done]. injection HS as <-.
    destruct (ri_owned _ Hr l) as (agent & id & Hl); [by eapply lookup_lt_Some|].
    destruct (represents_runs _ _ _ _ _ _ _ _ Hr HM Eo Ec Hl) as (m' & Hm' & [->|Hstep]).
    + by apply unseen.
    + exists m'. split; [done|]. right. eexists. split; [done|]. by exists l, ev.
  - destruct (s_tasks s !! tid); [|done]. destruct (w_done (s_world s) !! tid); [done|]. injection HS as <-.
    apply unseen. eapply represents_same_accepting; [done..| |done]. cbn [s_world].
    apply end_scope_detached. by eapply reachable_detached.
Qed.

(** The empty server is the empty service. *)
Lemma init_represents : represents (s_world (sys_init logger)) model_init.
Proof. constructor; cbn; [done|]. intros agent id. by rewrite lookup_empty. Qed.

Definition model_steps : model → model → Prop := rtc (λ m m', ∃ a, model_step m a m').

Lemma reachable_represents s :
  reachable s → fits (s_world s) → ∃ m, model_steps model_init m ∧ represents (s_world s) m.
Proof.
  intros [l H]. revert s H. induction l as [|ev l IH] using rev_ind; intros s H Hf.
  - injection H as <-. exists model_init. split; [constructor|apply init_represents].
  - apply sys_run_snoc in H as (s1 & H1 & H2). assert (reachable s1) as Hr by by exists l.
    destruct (sys_step_inv _ _ _ _ _ _ _ (reachable_inv _ _ _ _ _ _ Hr) H2) as [_ He].
    destruct (IH s1 H1 (fits_le _ _ (ev_length _ _ He) Hf)) as (m & Hm & Hrep).
    destruct (event_seen _ _ _ _ Hr H2 Hf Hrep) as (m' & Hrep' & [->|(a & Hstep & _)]); [by exists m|].
    exists m'. split; [|done]. eapply rtc_r; [done|by exists a].
Qed.

(** ** The refinement *)

(** C2: refinement. What the running server has done so far is a run of the
    abstract service, and every further event is invisible to those who use the
    service, or is one step of the abstract service, brought about by whom it
    may be: only an admitted [Start] opens a job, for its own agent under an id
    that is nobody's; a job only emits what its countdown has next; only its
    owner or a shutdown tells it to stop, and it never reports STOPPED untold;
    only a shutdown closes the service, for good; and nothing else ever happens
    to a job. *)
Theorem service_refines_model (s : system) (HR : reachable s) (HF : fits (s_world s)) :
  (∃ m, model_steps model_init m ∧ represents (s_world s) m) ∧
  ∀ ev s' m, sys_step ev s = Some s' → fits (s_world s') → represents (s_world s) m →
    ∃ m', represents (s_world s') m' ∧ (m' = m ∨ ∃ a, model_step m a m' ∧ causes s ev a).
Proof.
  split; [by apply reachable_represents|]. intros ev s' m HS HF' HM. by apply event_seen.
Qed.

End server.

(** ** The refinement at work *)

Section samples.
Import sample.

(** smith has called [Stop] on the job, which has not noticed yet: in the
    abstract service it runs, and has been told. *)
Lemma service_refines_model_witness :
  ∃ m count, model_steps model_init m ∧ m_accepting m = true ∧
    m_owned m !! ("smith", "smith/0") = Some (mkModelJob count true (mkAbs StatusRunning [])).
Proof.
  set (l := started ++ take 5 stop_calls).
  assert (fits (s_world (after l))) as Hf by (apply Z.leb_le; vm_compute; reflexivity).
  assert (reachable seconds "stack" interceptor svc None (after l)) as Hr
    by (exists l; apply run_after; vm_compute; reflexivity).
  destruct (service_refines_model seconds "stack" interceptor svc None (after l) Hr Hf) as [(m & Hm & Hrep) _].
  pose proof (re_accepting _ _ Hrep) as Ha. pose proof (re_owned _ _ Hrep "smith" "smith/0") as Ho.
  match type of Ho with match ?x with _ => _ end => destruct x as [[count told st]|] eqn:E end.
  - destruct Ho as (k & o & Hk & Ho & [Hi Hst Ht]). cbn in Hi, Hst, Ht.
    assert (Find "smith" "smith/0" (s_world (after l)) = Some 0) as Hk0 by (vm_compute; reflexivity).
    rewrite Hk0 in Hk. injection Hk as <-.
    assert (match w_heap (s_world (after l)) !! 0 with
            | Some o => abs_of (c_job (o_cell o)) = mkAbs StatusRunning [] ∧ wants_stop (o_cell o)
            | None => False end) as Hc by (vm_compute; split; [reflexivity|right; discriminate]).
    rewrite Ho in Hc. destruct Hc as [Habs Hw].
    exists m, count. split; [exact Hm|]. split; [rewrite <-Ha; vm_compute; reflexivity|].
    destruct told; [|destruct (Ht eq_refl Hw)]. rewrite Hst, Habs in E. exact E.
  - exfalso. vm_compute in Ho. discriminate Ho.
Defined.

End samples.
End service_model.
