(* ===== verification/SystemLiveness.v ===== *)
(** * No goroutine is stuck

    In every reachable system a goroutine that has not settled can act, unless
    it waits for a job of its own that still runs; and a job that still runs can
    move. So once no RPC arrives, whatever the order of the events, after
    finitely many of them every RPC is answered and every job has ended; and each
    RPC takes a bounded number of them. *)

From S2P Require Import Prelude GoStrings GoErrors Conc Progress X509 SpiffeID X509SVID Identity Authz Slog.
From S2P Require Import Context Authenticator Wire Job JobInvariant Registry Ticks Service.
From S2P Require Import ServiceSpec StreamSpec Interceptor Liveness Work System Sample Ownership.

Module system_liveness.
Import authn worker worker_spec conc progress context authenticator registry service service_spec stream_spec
  interceptor liveness work system ownership.

Section server.
Context {A : Type} `{peers : PeerAuthenticator A}.
Context (durationpb_New : Z → fizzledv1.Duration) (Stack : string).
Context (i : Interceptor A) (svc : Service) (logger : option slog.Logger).
Abbreviation sys_step := (sys_step durationpb_New Stack i svc).
Abbreviation sys_run := (sys_run durationpb_New Stack i svc).
Abbreviation reachable := (reachable durationpb_New Stack i svc logger).
Abbreviation sys_inv := (sys_inv durationpb_New i).
Abbreviation serve := (serve durationpb_New Stack i svc).

(** ** What a goroutine may wait for *)

(** What the goroutine [tid] may wait for is there: for a [Stop], the end of
    the job that the agent it is admitted for owns under the id; for a stream,
    the end of that job or a tick it has not delivered, or the end of the RPC;
    for a shutdown, the end of every job; for the others, nothing. *)
Definition unblocked (tid : nat) (t : task) (w : world) : Prop :=
  match t with
  | Calling ctx (fizzledv1.StopRequest id) _ => ∀ agent l,
      admitted i ctx fizzledv1.FizzledService_Stop_FullMethodName agent → Find agent id w = Some l → ended l w
  | Calling _ _ _ => True
  | Streaming ctx id _ => ∀ agent l,
      admitted i ctx fizzledv1.FizzledService_StreamOutput_FullMethodName agent → Find agent id w = Some l →
      may_continue ctx tid l w
  | ShuttingDown _ => ∀ l, l < length (w_heap w) → ended l w
  | Undecoded _ _ | UndecodedStream _ _ _ => True
  end.

Definition ready (tid : nat) (t : task) (w : world) : Prop := fits w ∧ unblocked tid t w.

Lemma unblocked_same tid t t' w : same_task t t' → unblocked tid t w → unblocked tid t' w.
Proof. destruct t, t'; cbn; try done; by intros [-> ->]. Qed.

Definition task_settled (t : task) : bool :=
  match t with
  | Calling _ _ p => settled p
  | Streaming _ _ p | UndecodedStream _ _ p => settled p
  | ShuttingDown p => settled p
  | Undecoded _ _ => true
  end.

(** A goroutine that can act whenever it is ready. *)
Definition task_live (tid : nat) (t : task) (w : world) : Prop :=
  match t with
  | Calling _ _ p => live evolves (ready tid t) p w
  | Streaming _ _ p => live (stream_rely tid) (ready tid t) p w
  | ShuttingDown p => live evolves (ready tid t) p w
  | Undecoded _ _ => True
  | UndecodedStream _ _ p => live evolves (ready tid t) p w
  end.

Lemma task_live_stable tid t : stable (stream_rely tid) (task_live tid t).
Proof.
  intros w w' H Hr. destruct t; cbn in *; [..|done|]; (eapply live_rely; [apply _|exact H|]);
    [apply Hr|exact Hr|apply Hr..].
Qed.

Lemma task_live_step tid c t w w' t' : task_live tid t w → task_step c t w = Some (w', t') → task_live tid t' w'.
Proof.
  intros H E. destruct t as [ctx req p|ctx id p|p|ctx e|ctx e p]; cbn in E; [..|done|];
    (destruct (prog_step c p w) as [[w1 p1]|] eqn:Ep; [|done]); cbn in E; injection E as <- <-; cbn in *.
  - by eapply live_step; [exact H|reflexivity|].
  - by eapply live_step; [exact H|split; reflexivity|].
  - by eapply live_step; [exact H|reflexivity|].
  - by eapply live_step; [exact H|reflexivity|].
Qed.

Lemma task_live_moves tid t w :
  task_live tid t w → ready tid t w → task_settled t = false → ∃ c, is_Some (task_step c t w).
Proof.
  intros H Hr Hs. assert (Reflexive (stream_rely tid)) as Hrefl by (intros ?; split; reflexivity).
  destruct t as [ctx req p|ctx id p|p|ctx e|ctx e p]; cbn in *; [..|done|];
    destruct (live_moves _ _ p w H Hr Hs) as [c [[w' p'] Hc]]; exists c; rewrite Hc; by eexists.
Qed.

(** ** A new goroutine *)

Lemma calling_live tid peer req w :
  fizzledv1.OtherRequest ≠ req → (∀ id, fizzledv1.StreamOutputRequest id ≠ req) →
  fit (λ _, True) w →
  let ctx := mkContext peer None (Some tid) in
  task_live tid (Calling ctx req (Unary Stack i ctx req (method_of req) (handler_of svc req))) w.
Proof.
  intros Ho Hs Hw ctx. cbn [task_live]. unfold Unary.
  apply (live_guarded evolves _ i ctx (method_of req) (λ _ _, True) Stack (targetJobID req) _ (evolves w)); [done| | |done|].
  - intros w1 w2 H1 H2. by etrans.
  - intros w1 w2 H1 H2. etrans; [done|by apply quiet_evolves].
  - intros agent w1 Ha He. assert (fit (λ _, True) w1) as H1 by by eapply true_stable.
    assert (∀ w, ready tid (Calling ctx req (Unary Stack i ctx req (method_of req) (handler_of svc req))) w → fits w)
      as Hf by by intros ? [].
    destruct req as [count|id|id|id|]; [| | |by destruct (Hs id)|done]; cbn [handler_of].
    + apply live_Start.
    + apply (live_Stop_handler evolves (λ _ _ H, H) _ Hf svc (WithValue ctx agent) agent eq_refl); [|done].
      intros w2 l [_ Hu]. by apply Hu.
    + by apply (live_GetStatus evolves (λ _ _ H, H) _ Hf svc (WithValue ctx agent) agent eq_refl).
Qed.

Lemma streaming_live tid peer id w :
  fit (λ _, True) w → w_sent w !! tid = None →
  let ctx := mkContext peer None (Some tid) in
  task_live tid (Streaming ctx id (Stream Stack i ctx fizzledv1.FizzledService_StreamOutput_FullMethodName
    (λ ctx, StreamOutput durationpb_New svc ctx tid id))) w.
Proof.
  intros Hw Hn ctx. cbn [task_live]. unfold Stream.
  apply (live_guarded (stream_rely tid) _ i ctx _ (λ _ _, True) Stack "" _ (λ w1, evolves w w1 ∧ sent tid w1 = []));
    [done| | | |].
  - intros w1 w2 [H1 H2] [H3 H4]. split; [by etrans|congruence].
  - intros w1 w2 [H1 H2] Hq. split; [etrans; [done|by apply quiet_evolves]|].
    unfold sent in *. by rewrite (quiet_sent _ _ Hq).
  - split; [reflexivity|]. unfold sent. by rewrite Hn.
  - intros agent w1 Ha [He Hs]. eapply live_StreamOutput; [done|by intros ? []| | |done].
    + intros l w2 [_ Hu] Hl. by apply (Hu agent l Ha).
    + by eapply true_stable.
Qed.

Lemma serve_live tid peer req t w :
  fit (λ _, True) w → w_sent w !! tid = None → serve tid peer req = Some t → task_live tid t w.
Proof.
  intros Hw Hn H. destruct req as [count|id|id|id|]; cbn -[Unary Stream] in H; simplify_eq.
  - case_bool_decide as Hc; [|done]. injection H as <-. by apply calling_live.
  - by apply calling_live.
  - by apply calling_live.
  - by apply streaming_live.
Qed.

Lemma undecoded_live tid peer stream e w : task_live tid (serve_undecoded Stack i tid peer stream e) w.
Proof.
  destruct stream; [|done]. unfold serve_undecoded. cbn [task_live]. unfold Stream.
  by apply (live_guarded evolves _ i _ _ (λ _ _, True) Stack "" _ (λ _, True)).
Qed.

Lemma shutdown_live tid w : fit (λ _, True) w → task_live tid (ShuttingDown (service.Shutdown svc)) w.
Proof. intros Hw. apply live_Shutdown; [by intros ? []| |done]. intros w1 l [_ Hu]. by apply Hu. Qed.

(** ** Every goroutine stays live *)

Definition all_live (s : system) : Prop := ∀ tid t, s_tasks s !! tid = Some t → task_live tid t (s_world s).

Lemma all_live_step ev s s' : sys_inv s → all_live s → sys_step ev s = Some s' → all_live s'.
Proof.
  intros Hi Hl H tid t' Ht'. destruct (s_tasks s !! tid) as [t|] eqn:Ht.
  - destruct (event_others _ _ _ _ _ _ _ _ _ Hi H Ht) as [[Hs Hr]|(c & t1 & Hs & Ht1)].
    + replace t' with t by congruence. eapply task_live_stable; [by apply Hl|done].
    + replace t' with t1 by congruence. eapply task_live_step; [by apply Hl|done].
  - destruct (event_starts _ _ _ _ _ _ _ _ _ H Ht Ht') as [-> [(peer & req & _ & Hs)|[(peer & stream & e & _ & ->)|[_ ->]]]].
    + eapply serve_live; [apply Hi|by apply Hi|done].
    + apply undecoded_live.
    + apply shutdown_live, Hi.
Qed.

Lemma reachable_live s : reachable s → all_live s.
Proof.
  intros [l H]. eapply (run_invariant _ _ _ _ all_live); [apply all_live_step|apply sys_init_inv| |exact H].
  intros tid t Ht. cbn in Ht. by rewrite lookup_empty in Ht.
Qed.

(** ** Rest *)

(** Every RPC is answered, every shutdown has returned, every job has ended. *)
Definition at_rest (s : system) : Prop :=
  map_Forall (λ _ t, task_settled t = true) (s_tasks s) ∧
  Forall (λ o, is_finished (c_job (o_cell o)) = true) (w_heap (s_world s)).

#[export] Instance at_rest_dec s : Decision (at_rest s).
Proof. unfold at_rest. apply _. Qed.

(** An event that brings no new goroutine. *)
Definition moves (s s' : system) : Prop :=
  ∃ ev, match ev with Arrive _ _ _ | ArriveUndecoded _ _ _ _ | BeginShutdown _ => False | _ => True end ∧ sys_step ev s = Some s'.

Lemma unfinished_runs s l o :
  reachable s → fits (s_world s) → w_heap (s_world s) !! l = Some o → is_finished (c_job (o_cell o)) = false →
  ∃ ev s', sys_step (JobRuns l ev) s = Some s'.
Proof.
  intros Hr Hf Ho Hn. destruct (sy_world _ _ _ (reachable_inv _ _ _ _ _ _ Hr) Hf) as [Hi _].
  destruct (object_job_inv _ (ri_cells _ Hi _ _ Ho)) as [count Hc].
  rewrite (cell_finished_closed _ _ Hc) in Hn.
  destruct (countdown_enabled (o_cell o)) as [H|(ev & c & Hev)]; [by destruct H as [H|H]; rewrite H in Hn|].
  exists ev. cbn -[job_step]. rewrite Ho. cbn -[job_step]. rewrite Hev. by eexists.
Qed.

(** With every job ended, nothing has anything to wait for. *)
Lemma ended_unblocked s tid t :
  registry_inv (s_world s) → Forall (λ o, is_finished (c_job (o_cell o)) = true) (w_heap (s_world s)) →
  unblocked tid t (s_world s).
Proof.
  intros Hi Hall. rewrite Forall_lookup in Hall.
  assert (∀ l j, job_at l (s_world s) = Some j → is_finished j = true) as Hfin.
  { intros l j (o & Ho & ->)%fmap_Some. by eapply Hall. }
  assert (∀ a id l, Find a id (s_world s) = Some l → ended l (s_world s)) as Hend.
  { intros a id l Hl. destruct (Find_job _ _ _ _ Hi Hl) as (j & Hj & _). exists j. eauto. }
  destruct t as [ctx [| id| | |] p|ctx id p|p|ctx e|ctx e p]; cbn; try done.
  - intros agent l _. apply Hend.
  - intros agent l _ _ j Hj. left. by eapply Hfin.
  - intros l [o Ho]%lookup_lt_is_Some. exists (c_job (o_cell o)). unfold job_at. rewrite Ho. split; [done|]. by eapply Hall.
Qed.

(** A system that is not at rest can move. *)
Lemma busy_moves s : reachable s → fits (s_world s) → at_rest s ∨ ∃ s', moves s s'.
Proof.
  intros Hr Hf. destruct (decide (at_rest s)) as [|Hn]; [by left|]. right.
  destruct (decide (Forall (λ o, is_finished (c_job (o_cell o)) = true) (w_heap (s_world s)))) as [Hall|Hsome].
  - destruct (decide (map_Forall (λ _ t, task_settled t = true) (s_tasks s))) as [|Ht]; [by destruct Hn|].
    apply map_not_Forall in Ht as (tid & t & Ht & Hs); [|apply _]. apply not_true_is_false in Hs.
    destruct (sy_world _ _ _ (reachable_inv _ _ _ _ _ _ Hr) Hf) as [Hi _].
    destruct (task_live_moves tid t (s_world s)) as [c [[w' t'] Hc]]; [by apply reachable_live| |done|].
    + split; [done|]. by apply ended_unblocked.
    + eexists. exists (TaskRuns tid c). split; [done|]. cbn -[task_step]. rewrite Ht. cbn -[task_step]. by rewrite Hc.
  - apply not_Forall_Exists, Exists_exists in Hsome as (o & [l Ho]%list_elem_of_lookup & Hs); [|apply _].
    destruct (unfinished_runs s l o Hr Hf Ho (not_true_is_false _ Hs)) as (ev & s' & H). exists s'. by exists (JobRuns l ev).
Qed.

(** ** Every move comes closer to rest *)

Definition task_lt (t' t : task) : Prop := ∃ c w w', task_step c t w = Some (w', t').

Lemma task_lt_wf t : Acc task_lt t.
Proof.
  assert (∀ B (mk : prog world B → task),
    (∀ c p w w' t', task_step c (mk p) w = Some (w', t') → ∃ p', prog_step c p w = Some (w', p') ∧ t' = mk p') →
    ∀ p, Acc task_lt (mk p)) as Hmk.
  { intros B mk Hstep p. induction (prog_lt_wf p) as [p _ IH]. constructor. intros t' (c & w & w' & H).
    apply Hstep in H as (p' & Hp & ->). apply IH. by exists c, w, w'. }
  destruct t as [ctx req p|ctx id p|p|ctx e|ctx e p]; [..|by constructor; intros t' (c & w & w' & H)|];
    apply Hmk; clear; intros c p w w' t' H; cbn [task_step] in H;
    (destruct (prog_step c p w) as [[w1 p1]|]; [|done]); injection H as <- <-; by exists p1.
Qed.

(** What the jobs and the scopes can still do. *)
Definition moves_of_jobs (w : world) : nat := sum_list ((λ o, fuel_left (c_pc (o_cell o))) <$> w_heap w).
Definition open_scopes (s : system) : gset nat := dom (s_tasks s) ∖ dom (w_done (s_world s)).
Definition moves_left (s : system) : nat := moves_of_jobs (s_world s) + size (open_scopes s).

Definition closer (s' s : system) : Prop :=
  map_lt task_lt (s_tasks s') (s_tasks s) ∨ s_tasks s' = s_tasks s ∧ moves_left s' < moves_left s.

Lemma closer_wf s : Acc closer s.
Proof.
  remember (s_tasks s) as m eqn:Em. revert s Em. induction (map_lt_wf _ task_lt_wf m) as [m _ IHm]. intros s.
  remember (moves_left s) as n eqn:En. revert s En. induction (lt_wf n) as [n _ IHn]. intros s -> ->.
  constructor. intros s' [Hl|[He Hlt]]; [by eapply IHm|]. by eapply IHn.
Qed.

Lemma moves_of_jobs_insert w l o o' :
  w_heap w !! l = Some o → fuel_left (c_pc (o_cell o')) < fuel_left (c_pc (o_cell o)) →
  moves_of_jobs (with_heap (<[l := o']> (w_heap w)) w) < moves_of_jobs w.
Proof.
  intros Ho Hlt. unfold moves_of_jobs. cbn. rewrite insert_take_drop by (by eapply lookup_lt_Some).
  rewrite <-(take_drop_middle _ _ _ Ho) at 3. rewrite !fmap_app, !sum_list_with_app.
  cbn. lia.
Qed.

Lemma moves_closer s s' : reachable s → fits (s_world s) → moves s s' → closer s' s.
Proof.
  intros Hr Hf (ev & Hev & H). destruct (sy_world _ _ _ (reachable_inv _ _ _ _ _ _ Hr) Hf) as [Hi _].
  destruct ev as [| | |tid c|l ev|tid cause]; [done..| | |]; cbn -[task_step job_step] in H.
  - destruct (s_tasks s !! tid) as [t|] eqn:E; [|done]. cbn in H.
    destruct (task_step c t (s_world s)) as [[w' t']|] eqn:Es; [|done]. injection H as <-.
    left. exists tid, t, t'. split_and!; [done|done|]. by exists c, (s_world s), w'.
  - destruct (w_heap (s_world s) !! l) as [o|] eqn:Eo; [|done]. cbn -[job_step] in H.
    destruct (job_step (Go ev) (o_cell o)) as [c|] eqn:Ec; [|done]. injection H as <-.
    right. split; [done|]. destruct (object_job_inv _ (ri_cells _ Hi _ _ Eo)) as [count Hc].
    apply Nat.add_lt_mono_r. eapply moves_of_jobs_insert; [done|]. by eapply countdown_step_fuel.
  - destruct (s_tasks s !! tid) eqn:E; [|done]. destruct (w_done (s_world s) !! tid) eqn:Ed; [done|].
    injection H as <-. right. split; [done|]. unfold moves_left, moves_of_jobs. cbn [s_world].
    rewrite end_scope_detached by by eapply reachable_detached. apply Nat.add_lt_mono_l.
    apply subset_size. unfold open_scopes, end_scope. cbn [s_tasks s_world w_done].
    unfold scopes. rewrite dom_insert_L.
    assert (tid ∈ dom (s_tasks s)) by (by apply elem_of_dom). assert (tid ∉ dom (w_done (s_world s))) by (by apply not_elem_of_dom).
    set_solver.
Qed.

Lemma moves_reachable s s' : reachable s → moves s s' → reachable s'.
Proof. intros Hr (ev & _ & H). by eapply reachable_step. Qed.

(** ** What an RPC costs *)

(** A goroutine that acts at most [n] times more. *)
Definition task_within (n : nat) (t : task) : Prop :=
  match t with
  | Calling _ _ p => within n p
  | Streaming _ _ p | UndecodedStream _ _ p => within n p
  | ShuttingDown p => within n p
  | Undecoded _ _ => True
  end.

Lemma task_within_step n c t w w' t' :
  task_within n t → task_step c t w = Some (w', t') → ∃ m, n = S m ∧ task_within m t'.
Proof.
  intros H E. destruct t as [ctx req p|ctx id p|p|ctx e|ctx e p]; cbn in E; [..|done|];
    (destruct (prog_step c p w) as [[w1 p1]|] eqn:Ep; [|done]); cbn in E; injection E as <- <-;
    by apply (within_step _ _ _ _ _ _ H Ep).
Qed.

(** The actions of the goroutine [tid] among some events. *)
Definition acts_of (tid : nat) (ev : sys_event) : bool :=
  match ev with TaskRuns tid' _ => bool_decide (tid' = tid) | _ => false end.
Definition actions_of (tid : nat) (l : list sys_event) : nat := length (List.filter (acts_of tid) l).

(** The most actions an RPC takes, the three of the interceptors included. *)
Definition work_of (req : fizzledv1.Request) : nat :=
  match req with
  | fizzledv1.StartRequest _ => 6
  | fizzledv1.StopRequest _ => 10
  | fizzledv1.GetStatusRequest _ => 8
  | fizzledv1.StreamOutputRequest _ => 11 + 2 * stream_fuel
  | fizzledv1.OtherRequest => 0
  end.

Lemma serve_within tid peer req t : serve tid peer req = Some t → task_within (work_of req) t.
Proof.
  destruct req as [count|id|id|id|]; cbn -[Unary Stream stream_fuel]; intros H; simplify_eq.
  - case_bool_decide; [|done]. injection H as <-. apply (within_guarded _ _ _ _ 3). intros ctx. apply within_Start.
  - apply (within_guarded _ _ _ _ 7). intros ctx. apply within_Stop.
  - apply (within_guarded _ _ _ _ 5). intros ctx. apply within_GetStatus.
  - apply (within_mono (8 + 2 * stream_fuel + 3)); [lia|]. apply within_guarded. intros ctx. apply within_StreamOutput.
Qed.

Lemma undecoded_within tid peer stream e : task_within 3 (serve_undecoded Stack i tid peer stream e).
Proof. destruct stream; [|done]. apply (within_guarded _ _ _ _ 0). intros ctx. by constructor. Qed.

Lemma run_within tid n t l s s' :
  s_tasks s !! tid = Some t → task_within n t → sys_run l s = Some s' → actions_of tid l ≤ n.
Proof.
  revert n t s. unfold actions_of. induction l as [|ev l IH]; intros n t s Ht Hn H; cbn -[sys_step] in H |- *; [lia|].
  destruct (sys_step ev s) as [s1|] eqn:E; [|done]. cbn -[sys_step] in H.
  destruct (event_task _ _ _ _ _ _ _ _ _ E Ht) as [[Ht1 Hne]|(c & t1 & -> & Hs & Ht1)].
  - assert (acts_of tid ev = false) as ->; [|by eapply IH].
    destruct ev as [| | |tid' c| |]; cbn; try done. case_bool_decide; [|done]. subst. by destruct (Hne c).
  - cbn. rewrite bool_decide_eq_true_2 by done. cbn. destruct (task_within_step _ _ _ _ _ _ Hn Hs) as (m & -> & Hm).
    apply le_n_S. by eapply IH.
Qed.

(** The events from the arrival of an RPC on. *)
Lemma arrival_within ev tid t n l s s' :
  (∀ s1, sys_step ev s = Some s1 → s_tasks s1 !! tid = Some t) → task_within n t →
  sys_run (ev :: l) s = Some s' → actions_of tid l ≤ n.
Proof.
  intros Ht Hn H. cbn -[sys_step] in H. destruct (sys_step ev s) as [s1|] eqn:E; [|done].
  eapply run_within; [by apply Ht|done|exact H].
Qed.

(** ** Properties *)

(** C12: no goroutine is stuck, and none waits for another agent. In every
    reachable system a goroutine of an RPC or of a shutdown that has not
    returned can act as soon as what it may wait for is there: a [Start] or a
    [GetStatus] at once; a [Stop] once the job its own agent has under the id
    ended; a stream when there is a tick it has not delivered, when that job
    ended or when its client went away; a shutdown once the jobs ended. And
    every job that has not ended has an event of its own. *)
Theorem waits_only_for_its_job (s : system) (HR : reachable s) (HF : fits (s_world s)) :
  (∀ tid t, s_tasks s !! tid = Some t → task_settled t = false → unblocked tid t (s_world s) →
     ∃ c s', sys_step (TaskRuns tid c) s = Some s') ∧
  (∀ l o, w_heap (s_world s) !! l = Some o → is_finished (c_job (o_cell o)) = false →
     ∃ ev s', sys_step (JobRuns l ev) s = Some s').
Proof.
  split.
  - intros tid t Ht Hs Hu. destruct (task_live_moves tid t (s_world s)) as [c [[w' t'] Hc]]; [by apply reachable_live|done..|].
    exists c. cbn -[task_step]. rewrite Ht. cbn -[task_step]. rewrite Hc. by eexists.
  - intros l o Ho Hn. destruct (unfinished_runs s l o HR HF Ho Hn) as (ev & s' & H). by exists ev, s'.
Qed.

(** C3: every RPC is answered, and costs a bounded amount of work. From every
    reachable system, once no new RPC arrives: whatever the order in which
    goroutines, timers, panics and clients that go away act, no run is endless
    and none gets stuck before every RPC has been answered, every shutdown has
    returned and every job has ended. And whatever arrives, however long it is
    open and however its client behaves, the goroutine of a [Start] acts at most
    6 times, that of a [Stop] 10 times, of a [GetStatus] 8 times, of a stream 827
    times, and that of an RPC that cannot be decoded 3 times. *)
Theorem every_rpc_answered (s : system) (HR : reachable s) :
  inevitable moves (λ s', fits (s_world s') → at_rest s') s ∧
  (∀ tid peer req l s', sys_run (Arrive tid peer req :: l) s = Some s' → actions_of tid l ≤ work_of req) ∧
  (∀ tid peer stream e l s', sys_run (ArriveUndecoded tid peer stream e :: l) s = Some s' → actions_of tid l ≤ 3).
Proof.
  split_and!.
  - eapply (inevitable_wf _ _ reachable closer); [|apply closer_wf|exact HR]. intros s1 Hr.
    destruct (decide (fits (s_world s1))) as [Hf|Hn]; [|by left].
    destruct (busy_moves s1 Hr Hf) as [|He]; [by left|]. right. split; [done|].
    intros s2 Hm. split; [by eapply moves_reachable|by eapply moves_closer].
  - intros tid peer req l s' H. destruct (serve tid peer req) as [t|] eqn:Et.
    + eapply arrival_within; [|by eapply serve_within|exact H]. intros s1 E. cbn -[system.serve] in E.
      destruct (s_tasks s !! tid); [done|]. rewrite Et in E. injection E as <-. apply lookup_insert_eq.
    + cbn -[system.serve] in H. destruct (s_tasks s !! tid); [done|]. by rewrite Et in H.
  - intros tid peer stream e l s' H. eapply arrival_within; [|apply undecoded_within|exact H]. intros s1 E. cbn in E.
    destruct (s_tasks s !! tid); [done|]. injection E as <-. apply lookup_insert_eq.
Qed.

End server.

(** ** The properties at work *)

Section samples.
Import sample.

(** A [Stop] that has cancelled its job and waits for it. *)
Definition stop_waits : list sys_event := started ++ take 5 stop_calls.
(** The same when the job has ended. *)
Definition stop_may_answer : list sys_event := started ++ take 10 stop_calls.

Lemma waits_only_for_its_job_witness :
  (∃ ev s', step (JobRuns 0 ev) (after stop_waits) = Some s') ∧
  (∃ c s', step (TaskRuns 2 c) (after stop_may_answer) = Some s').
Proof.
  assert (∀ l, possible l = true → reachable seconds "stack" interceptor svc None (after l)) as Hr.
  { intros l Hl. exists l. exact (run_after l Hl). }
  assert (∀ l, (Z.of_nat (length (w_heap (s_world (after l)))) <=? MaxInt64)%Z = true → fits (s_world (after l))) as Hf.
  { intros l Hl. exact (proj1 (Z.leb_le _ _) Hl). }
  split.
  - assert (match w_heap (s_world (after stop_waits)) !! 0 with
            | Some o => is_finished (c_job (o_cell o)) | None => true end = false) as Hn by (vm_compute; reflexivity).
    destruct (w_heap (s_world (after stop_waits)) !! 0) as [o|] eqn:E; [|discriminate Hn].
    refine (proj2 (waits_only_for_its_job seconds "stack" interceptor svc None (after stop_waits) _ _) 0 o E Hn).
    + apply Hr. vm_compute. reflexivity.
    + apply Hf. vm_compute. reflexivity.
  - assert (match s_tasks (after stop_may_answer) !! 2 with Some t => task_settled t | None => true end = false) as Hn
      by (vm_compute; reflexivity).
    assert (reachable seconds "stack" interceptor svc None (after stop_may_answer)) as Hreach
      by (apply Hr; vm_compute; reflexivity).
    assert (fits (s_world (after stop_may_answer))) as Hfits by (apply Hf; vm_compute; reflexivity).
    destruct (s_tasks (after stop_may_answer) !! 2) as [t|] eqn:E; [|discriminate Hn].
    refine (proj1 (waits_only_for_its_job seconds "stack" interceptor svc None (after stop_may_answer) Hreach Hfits) 2 t E Hn _).
    apply ended_unblocked; [exact (proj1 (sy_world _ _ _ (reachable_inv _ _ _ _ _ _ Hreach) Hfits))|].
    apply (bool_decide_eq_true_1 _). vm_compute. reflexivity.
Defined.

Lemma every_rpc_answered_witness :
  answered 2 (after stop_waits) = None ∧
  inevitable (moves seconds "stack" interceptor svc) (λ s', fits (s_world s') → at_rest s') (after stop_waits).
Proof.
  split; [vm_compute; reflexivity|]. refine (proj1 (every_rpc_answered seconds "stack" interceptor svc None _ _)).
  exists stop_waits. apply run_after. vm_compute. reflexivity.
Defined.

End samples.
End system_liveness.
