(* ===== verification/Server.v ===== *)
(** * The server: [internal/server/server.go]

    [New] builds the stack and listens; [Serve] runs it until its context is
    done or the transport fails, then shuts it down. [Serve], the goroutines it
    starts and the system they run are one machine ([serve_step]): the select
    in [Serve], the two steps of the goroutine in [shutdown], the grace. gRPC is
    a parameter: which RPCs it lets in, and when [GracefulStop] returns. *)

From S2P Require Import Prelude GoStrings GoErrors Conc X509 SpiffeID X509SVID Identity TrustBundle.
From S2P Require Import Authz Slog Context Authenticator Wire Job JobInvariant Registry Ticks.
From S2P Require Import Service ServiceSpec StreamSpec Interceptor System Ownership.

Module server.
Import x509 authn authz trustbundle worker worker_spec conc context authenticator registry service service_spec
  stream_spec interceptor system ownership.

(** ** Construction *)

Definition keepaliveTime : Z := 60000000000.
Definition keepaliveTimeout : Z := 10000000000.
Definition keepaliveMinTime : Z := 600000000000.
Definition defaultShutdownGrace : Z := 5000000000.

(** [type Config struct] *)
Record Config := mkConfig {
  Address : string; CAPath : string; CertPath : string; KeyPath : string; RolesPath : string;
  ShutdownGrace : Z;
}.

(** [grpc.Server], by the options it is made with: the credentials, the
    interceptors, and the keepalive parameters and policy. *)
Record transport := mkTransport {
  creds : authenticator.Config;
  interceptors : Interceptor Authenticator;
  MaxConnectionIdle : Z; MaxConnectionAge : Z; MaxConnectionAgeGrace : Z; Time : Z; Timeout : Z;
  MinTime : Z; PermitWithoutStream : bool;
}.

Section new.
Context (Certificate_Verify : Certificate → VerifyOptions → option error).
#[local] Existing Instance Authenticator_peers.
Context (ReadFile : string → result string) (Clean : string → string) (parse : string → result json.value).
Context (Decode : string → option (Block * string)) (ParseCertificate : string → result Certificate).
Context (LoadX509KeyPair : string → string → result KeyPair) (Time_text : Z → string).
(** [net.ListenConfig.Listen]: the address that is bound. *)
Context (Listen : string → result string).

Definition newTransport (tlsConfig : authenticator.Config) (a : Authenticator) (z : Authorizer)
    (logger : slog.Logger) : transport := {|
  creds := tlsConfig;
  interceptors := NewInterceptor a z (Some logger);
  MaxConnectionIdle := 0; MaxConnectionAge := 0; MaxConnectionAgeGrace := 0;
  Time := keepaliveTime; Timeout := keepaliveTimeout;
  MinTime := keepaliveMinTime; PermitWithoutStream := false;
|}.

(** [type Server struct], with the world of its service. *)
Record Server := mkServer {
  grpc : transport;
  svc : Service;
  svc_world : world;
  listener : string;
  shutdownGrace : Z;
  srv_logger : slog.Logger;
}.

(** [Server.Addr], of the listener's own address. *)
Definition Addr (s : Server) : string := listener s.

(** [New], with the lines it logs. [None] as in [NewAuthenticator]. *)
Definition New (config : Config) (logger : option slog.Logger) (now : Z)
    : option (result Server * list slog.LogRecord) :=
  let wrap := errorf "new server" in
  if (Address config =? "")%string then Some (Err (wrap (Sentinel ErrEmptyAddress)), [])
  else
    let logger := logging.OrDiscard logger in
    let grace := if (ShutdownGrace config <=? 0)%Z then defaultShutdownGrace else ShutdownGrace config in
    made ← NewAuthenticator ReadFile Clean Decode ParseCertificate Time_text (CAPath config) (Some logger);
    match made with
    | Err e => Some (Err (wrap e), [])
    | Ok (a, recs) => Some (
        tlsConfig ← map_err wrap (ServerConfig Certificate_Verify Clean ParseCertificate LoadX509KeyPair a now
                                    (CertPath config) (KeyPath config));
        z ← map_err wrap (Load ReadFile Clean parse (RolesPath config));
        listener ← map_err (errorf ("new server [" +:+ Address config +:+ "]")) (Listen (Address config));
        let '(s, w) := NewService (Some logger) in
        Ok (mkServer (newTransport tlsConfig a z logger) s w listener grace logger), recs)
    end.

(** [Server.Close], on what closing the listener answers. *)
Definition Close (closed : option error) : option error :=
  match closed with
  | None => None
  | Some e => if Is e net_ErrClosed then None else Some (errorf "close" e)
  end.
End new.

(** ** Serving *)

(** Where [Serve] is: in its select; in [shutdown]'s select, with the error of
    the transport if it is already in hand; waiting for the goroutine of
    [shutdown] after the transport was stopped under it; waiting for the error
    of the transport; returned. *)
Inductive main_pc :=
| Selecting
| Shutting (serveErr : option (option error))
| Cutting (serveErr : option (option error))
| Receiving (isDrained : bool)
| Done (r : option error).

(** Where the goroutine of [shutdown] is: not started; in [Service.Shutdown],
    run by the goroutine [tid] of the system; in [GracefulStop]; done, with
    [stopped] closed. *)
Inductive drain_pc := NotStarted | StoppingJobs (tid : nat) | Draining | Stopped.

(** [v_served] is the channel [served], and [v_returned] what the transport's
    [Serve] returned. *)
Record serving := mkServing {
  v_system : system;
  v_main : main_pc;
  v_drain : drain_pc;
  v_served : option (option error);
  v_returned : option (option error);
  v_done : bool;
  v_cut : bool;
  v_log : list slog.LogRecord;
}.

(** The result of [Serve]. *)
Definition outcome (serveErr : option error) (isDrained : bool) : option error :=
  let drained := if negb isDrained then Some (errorf "serve" (Sentinel ErrShutdownGraceElapsed)) else None in
  match serveErr with
  | Some e => if negb (Is e grpc_ErrServerStopped) then Some (errorf "serve" e) else drained
  | None => drained
  end.

(** What [Serve] does when [shutdown] returns. *)
Definition after_shutdown (serveErr : option (option error)) (isDrained : bool) : main_pc :=
  match serveErr with
  | Some e => Done (outcome e isDrained)
  | None => Receiving isDrained
  end.

(** [GracefulStop] has been called. *)
Definition draining (v : serving) : bool :=
  match v_drain v with Draining | Stopped => true | _ => false end.

Section serve.
Context {A : Type} `{peers : PeerAuthenticator A}.
Context (durationpb_New : Z → fizzledv1.Duration) (Stack : string).
Context (i : Interceptor A) (s : Service) (logger : slog.Logger) (grace : Z).
(** Whether the transport lets an RPC in, once [GracefulStop] or [Stop] has
    been called; and when [GracefulStop] returns, once [Stop] has been. *)
Context (lets_in : bool → bool → Prop) (graceful_returns : system → bool → Prop).
Abbreviation sys_step := (sys_step durationpb_New Stack i s).

(** An event of the system that the transport allows. *)
Definition allowed (v : serving) (ev : sys_event) : Prop :=
  match ev with
  | Arrive _ _ _ | ArriveUndecoded _ _ _ _ => lets_in (draining v) (v_cut v)
  | BeginShutdown _ => False
  | _ => True
  end.

Inductive serve_step (v : serving) : serving → Prop :=
| SystemRuns ev sys' (HA : allowed v ev) (HS : sys_step ev (v_system v) = Some sys') :
    serve_step v (mkServing sys' (v_main v) (v_drain v) (v_served v) (v_returned v) (v_done v) (v_cut v) (v_log v))
| TransportReturns e (HR : v_returned v = None) :
    serve_step v (mkServing (v_system v) (v_main v) (v_drain v) (Some e) (Some e) (v_done v) (v_cut v) (v_log v))
| ContextDone :
    serve_step v (mkServing (v_system v) (v_main v) (v_drain v) (v_served v) (v_returned v) true (v_cut v) (v_log v))
| SelectServed e tid sys' (HM : v_main v = Selecting) (HV : v_served v = Some e)
    (HS : sys_step (BeginShutdown tid) (v_system v) = Some sys') :
    serve_step v (mkServing sys' (Shutting (Some e)) (StoppingJobs tid) None (v_returned v) (v_done v) (v_cut v) (v_log v))
| SelectDone tid sys' (HM : v_main v = Selecting) (HD : v_done v = true)
    (HS : sys_step (BeginShutdown tid) (v_system v) = Some sys') :
    serve_step v (mkServing sys' (Shutting None) (StoppingJobs tid) (v_served v) (v_returned v) (v_done v) (v_cut v) (v_log v))
| JobsStopped tid (HD : v_drain v = StoppingJobs tid)
    (HT : s_tasks (v_system v) !! tid = Some (ShuttingDown (Ret tt))) :
    serve_step v (mkServing (v_system v) (v_main v) Draining (v_served v) (v_returned v) (v_done v) (v_cut v) (v_log v))
| GracefulReturns (HD : v_drain v = Draining) (HG : graceful_returns (v_system v) (v_cut v)) :
    serve_step v (mkServing (v_system v) (v_main v) Stopped (v_served v) (v_returned v) (v_done v) (v_cut v) (v_log v))
| ShutdownDrained serveErr (HM : v_main v = Shutting serveErr) (HD : v_drain v = Stopped) :
    serve_step v (mkServing (v_system v) (after_shutdown serveErr true) Stopped (v_served v) (v_returned v) (v_done v)
      (v_cut v) (v_log v))
| GraceElapses serveErr (HM : v_main v = Shutting serveErr) :
    serve_step v (mkServing (v_system v) (Cutting serveErr) (v_drain v) (v_served v) (v_returned v) (v_done v) true
      (v_log v ++ slog.LogAttrs logger slog.LevelWarn "shutdown grace elapsed with streams still open"
        [("grace", Duration_String grace)]))
| ShutdownCut serveErr (HM : v_main v = Cutting serveErr) (HD : v_drain v = Stopped) :
    serve_step v (mkServing (v_system v) (after_shutdown serveErr false) Stopped (v_served v) (v_returned v) (v_done v)
      (v_cut v) (v_log v))
| TransportReceived isDrained e (HM : v_main v = Receiving isDrained) (HV : v_served v = Some e) :
    serve_step v (mkServing (v_system v) (Done (outcome e isDrained)) (v_drain v) None (v_returned v) (v_done v)
      (v_cut v) (v_log v)).

Definition serve_init (lg : option slog.Logger) : serving :=
  mkServing (sys_init lg) Selecting NotStarted None None false false [].

Definition serves (lg : option slog.Logger) : serving → Prop := rtc serve_step (serve_init lg).

End serve.
End server.
