(* ===== verification/Fizzled.v ===== *)
(** * The command [fizzled]: [cmd/fizzled]

    Its flags, the code it exits with, and the process that stands a server up,
    serves, and reports how that ended. How [Serve] ends is what [Server] is
    about; here it is what it returns. *)

From S2P Require Import Prelude GoStrings GoErrors Conc X509 SpiffeID X509SVID Identity TrustBundle.
From S2P Require Import CommandLine Authz Slog Context Authenticator Wire Job Registry Ticks.
From S2P Require Import Service Interceptor System Ownership Server.

Module fizzled.
Import x509 authn authenticator trustbundle.

Definition newline : string := String (ascii_of_nat 10) "".

(** ** The command line: [flags.go] *)

Definition defaultAddress : string := "localhost:8443".
Definition defaultCAPath : string := ".secrets/ca.crt".
Definition defaultCertPath : string := ".secrets/server.crt".
Definition defaultKeyPath : string := ".secrets/server-private.key".
Definition defaultRolesPath : string := ".secrets/roles.json".

(** The double quote. *)
Definition dq : string := String (ascii_of_nat 34) "".

(** What [-h] prints. *)
Definition usage : string := "fizzled serves stochastic countdowns over mTLS.

Usage:
  fizzled [flags]

Flags:
  --server <address>   the address to listen on (default " +:+ dq +:+ "localhost:8443" +:+ dq +:+ ")
  --ca <path>          the trust bundle every client is verified against
                       (default " +:+ dq +:+ ".secrets/ca.crt" +:+ dq +:+ ")
  --cert <path>        the certificate this server presents
                       (default " +:+ dq +:+ ".secrets/server.crt" +:+ dq +:+ ")
  --key <path>         the private key for that certificate
                       (default " +:+ dq +:+ ".secrets/server-private.key" +:+ dq +:+ ")
  --roles <path>       the agent-to-role mapping to authorize from
                       (default " +:+ dq +:+ ".secrets/roles.json" +:+ dq +:+ ")

The defaults are what " +:+ dq +:+ "make secrets" +:+ dq +:+ " writes, so a working copy needs no flags.
fizzled logs to stderr as JSON, and serves until it is sent SIGINT or SIGTERM.

Exit codes:
  0   the shutdown drained every open stream
  1   serving failed, or the shutdown ran out of grace with streams still open
  2   the flags or the files could not be used
".

Definition flag_names : list string := ["server"; "ca"; "cert"; "key"; "roles"].

(** The configuration that the values of the flags leave behind. *)
Definition configured (actual : gmap string string) : server.Config :=
  server.mkConfig (default defaultAddress (actual !! "server")) (default defaultCAPath (actual !! "ca"))
    (default defaultCertPath (actual !! "cert")) (default defaultKeyPath (actual !! "key"))
    (default defaultRolesPath (actual !! "roles")) 0.

Definition parse (args : list string) : result server.Config :=
  match flag.Parse flag_names args ∅ with
  | Err e =>
      if Is e flag_ErrHelp then Err (errorf "parse" e)
      else Err (errorf2 "parse" (Sentinel fizzled_errUsage) e)
  | Ok (actual, positional) =>
      if negb (length positional =? 0)%nat then
        Err (errorf ("parse: expected no positional arguments, got " +:+ pretty (length positional))
               (Sentinel fizzled_errUsage))
      else Ok (configured actual)
  end.

(** ** Exit codes: [errors.go] *)

Definition exitSuccess : Z := 0.
Definition exitFailure : Z := 1.
Definition exitUsage : Z := 2.

Definition exitCodeFor (err : option error) : Z :=
  match err with
  | None => exitSuccess
  | Some e => if Is e fizzled_errUsage || Is e fizzled_errConfig then exitUsage else exitFailure
  end.

(** ** The process: [main.go] *)

Section process.
(** What a stream that holds the first string holds after a write of the
    second, and whether the write failed. *)
Context (Write_stdout Write_stderr : string → string → string * option error).
Context (Certificate_Verify : Certificate → VerifyOptions → option error).
Context (ReadFile : string → result string) (Clean : string → string) (parse_json : string → result json.value).
Context (Decode : string → option (Block * string)) (ParseCertificate : string → result Certificate).
Context (LoadX509KeyPair : string → string → result KeyPair) (Time_text : Z → string).
Context (Listen : string → result string) (now : Z).
(** What [Serve] returns, on the server it is called on, and what is logged
    until then. *)
Context (Serve : server.Server → option error * list slog.LogRecord).

(** What the process leaves: its exit code, its streams, and its log, which the
    JSON handler writes to stderr. *)
Record exit := mkExit {
  exit_code : Z; exit_stdout : string; exit_stderr : string; exit_log : list slog.LogRecord;
}.

(** [serve] *)
Definition serve (config : server.Config) (logger : slog.Logger)
    : option (option error * list slog.LogRecord) :=
  '(made, recs) ← server.New Certificate_Verify ReadFile Clean parse_json Decode ParseCertificate
    LoadX509KeyPair Time_text Listen config (Some logger) now;
  match made with
  | Err e => Some (Some (errorf2 "serve" (Sentinel fizzled_errConfig) e), recs)
  | Ok fizzled =>
      let recs := recs ++ slog.LogAttrs logger slog.LevelInfo "fizzled is listening"
                            [("address", server.listener fizzled)] in
      let '(err, lines) := Serve fizzled in
      let recs := recs ++ lines in
      match err with
      | Some e => Some (Some (errorf "serve" e), recs)
      | None => Some (None, recs)
      end
  end.

Definition run (args : list string) (stdout stderr : string) : option exit :=
  match parse args with
  | Err e =>
      if Is e flag_ErrHelp then Some (mkExit exitSuccess (Write_stdout stdout usage).1 stderr [])
      else
        let stderr := (Write_stderr stderr usage).1 in
        let stderr := (Write_stderr stderr ("fizzled: " +:+ Error e +:+ newline)).1 in
        Some (mkExit (exitCodeFor (Some e)) stdout stderr [])
  | Ok config =>
      let logger := slog.Handler [] in
      '(err, recs) ← serve config logger;
      match err with
      | Some e =>
          Some (mkExit (exitCodeFor (Some e)) stdout stderr
            (recs ++ slog.LogAttrs logger slog.LevelError "fizzled stopped" [("error", Error e)]))
      | None =>
          Some (mkExit exitSuccess stdout stderr
            (recs ++ slog.LogAttrs logger slog.LevelInfo "fizzled stopped" []))
      end
  end.

(** [main]: what the process leaves, on all of its arguments. [None] is also
    the panic of [os.Args[1:]] when there is not even a program name. *)
Definition main (os_Args : list string) (stdout stderr : string) : option exit :=
  match os_Args with
  | [] => None
  | _ :: args => run args stdout stderr
  end.

(** ** Properties *)

(** How the process ends. A request for help exits 0 with the usage on
    stdout; flags that cannot be read exit 2 with the usage on stderr and
    nothing on stdout; a server that cannot be built exits 2, one that was
    served exits with what [Serve] returned: 0 for nil, 1 for an error of the
    transport or an elapsed grace. Every server that was built logs that it
    listens, then what is logged while it serves, and last that it stopped. *)
Theorem process_ends (args : list string) (stdout stderr : string) :
  match parse args with
  | Err e => ∃ diagnostic, run args stdout stderr = Some (
      if Is e flag_ErrHelp then mkExit exitSuccess (Write_stdout stdout usage).1 stderr []
      else mkExit exitUsage stdout (Write_stderr (Write_stderr stderr usage).1 diagnostic).1 [])
  | Ok config =>
      let logger := slog.Handler [] in
      match server.New Certificate_Verify ReadFile Clean parse_json Decode ParseCertificate
              LoadX509KeyPair Time_text Listen config (Some logger) now with
      | None => run args stdout stderr = None
      | Some (Err e, recs) => ∃ last, run args stdout stderr =
          Some (mkExit exitUsage stdout stderr (recs ++ [last])) ∧ slog.level last = slog.LevelError
      | Some (Ok fizzled, recs) => ∃ last code, run args stdout stderr =
          Some (mkExit code stdout stderr
            (recs ++ slog.LogAttrs logger slog.LevelInfo "fizzled is listening"
                       [("address", server.listener fizzled)] ++ (Serve fizzled).2 ++ [last])) ∧
          slog.message last = "fizzled stopped" ∧
          (code = exitSuccess ↔ (Serve fizzled).1 = None) ∧
          (∀ e, (Serve fizzled).1 = Some e → Is e fizzled_errUsage = false → Is e fizzled_errConfig = false →
             code = exitFailure)
      end
  end.
Proof.
  unfold run. destruct (parse args) as [config|e] eqn:Ep.
  2:{ destruct (Is e flag_ErrHelp) eqn:Eh; [by exists ""|]. eexists. cbn -[Is].
      assert (Is e fizzled_errUsage = true) as ->.
      { unfold parse in Ep. destruct (flag.Parse flag_names args ∅) as [[actual positional]|e'] eqn:E.
        - destruct positional; cbn in Ep; [done|by injection Ep as <-].
        - apply flag.Parse_Err in E as [->|[text ->]]; cbn in Ep; by injection Ep as <-. }
      done. }
  cbv zeta. unfold serve. destruct (server.New _ _ _ _ _ _ _ _ _ _ _ _) as [[[fizzled|e] recs]|]; [| |done].
  - cbn -[Is slog.LogAttrs]. destruct (Serve fizzled) as [[e|] lines]; cbn -[Is].
    + eexists _, _. rewrite <-!app_assoc. split; [done|]. split; [done|]. rewrite !Is_errorf.
      split; [|by intros ? [= <-] -> ->]. split; [|done]. by destruct (_ || _).
    + eexists _, _. rewrite <-!app_assoc. split; [done|]. split; [done|]. by split.
  - cbn -[Is errorf2 slog.LogAttrs]. rewrite !Is_errorf2, Is_sentinel. cbn -[Is errorf2 slog.LogAttrs].
    rewrite orb_true_r. eexists. by split.
Qed.

End process.
End fizzled.
