(* ===== verification/ServerProperties.v ===== *)
(** * What a shutdown guarantees

    The invariant of [Serve], by induction on its steps, from what gRPC
    documents of [GracefulStop]: that it lets no RPC in, and returns when those
    in flight have. *)

From S2P Require Import Prelude GoStrings GoErrors Conc X509 SpiffeID X509SVID Identity TrustBundle.
From S2P Require Import Authz Slog Context Authenticator Wire Job JobInvariant Registry Ticks.
From S2P Require Import Service ServiceSpec StreamSpec Interceptor System Ownership Server Sample.

Module server_properties.
Import authn worker worker_spec conc context authenticator registry service service_spec stream_spec interceptor
  system ownership server.

(** An RPC that has been answered. *)
Definition answered (t : task) : Prop :=
  match t with
  | Calling _ _ p => settled p = true
  | Streaming _ _ p => settled p = true
  | ShuttingDown _ | Undecoded _ _ => True
  | UndecodedStream _ _ p => settled p = true
  end.

Definition no_rpc_in_flight (s : system) : Prop := ∀ tid t, s_tasks s !! tid = Some t → answered t.

Section serve.
Context {A : Type} `{peers : PeerAuthenticator A}.
Context (durationpb_New : Z → fizzledv1.Duration) (Stack : string).
Context (i : Interceptor A) (s : Service) (logger : slog.Logger) (grace : Z) (lg : option slog.Logger).
Context (lets_in : bool → bool → Prop) (graceful_returns : system → bool → Prop).
Context (draining_refuses : ∀ stopped, ¬ lets_in true stopped).
Context (graceful_waits : ∀ sys, graceful_returns sys false → no_rpc_in_flight sys).
Abbreviation sys_step := (sys_step durationpb_New Stack i s).
Abbreviation reachable := (reachable durationpb_New Stack i s lg).
Abbreviation serve_step := (serve_step durationpb_New Stack i s logger grace lets_in graceful_returns).
Abbreviation serves := (serves durationpb_New Stack i s logger grace lets_in graceful_returns lg).

(** What has settled stays as it is. *)
Lemma prog_settled {B} (p : prog world B) c w : settled p = true → prog_step c p w = None.
Proof. by destruct p. Qed.

Lemma shut_down_kept ev sys sys' tid :
  sys_step ev sys = Some sys' → s_tasks sys !! tid = Some (ShuttingDown (Ret tt)) →
  s_tasks sys' !! tid = Some (ShuttingDown (Ret tt)).
Proof.
  intros H Ht. destruct ev as [tid' peer req|tid' peer strm err|tid'|tid' c|l ev|tid' cause]; cbn -[serve task_step job_step] in H.
  - destruct (s_tasks sys !! tid') eqn:E; [done|]. destruct (serve _ _ _ _ tid' peer req); [|done].
    injection H as <-. cbn. by rewrite lookup_insert_ne by congruence.
  - destruct (s_tasks sys !! tid') eqn:E; [done|]. injection H as <-. cbn. by rewrite lookup_insert_ne by congruence.
  - destruct (s_tasks sys !! tid') eqn:E; [done|]. injection H as <-. cbn. by rewrite lookup_insert_ne by congruence.
  - destruct (decide (tid' = tid)) as [->|Hne].
    + rewrite Ht in H. cbn in H. done.
    + destruct (s_tasks sys !! tid') as [t1|]; [|done]. cbn in H.
      destruct (task_step c t1 (s_world sys)) as [[w' t1']|]; [|done]. injection H as <-. cbn.
      by rewrite lookup_insert_ne.
  - destruct (w_heap (s_world sys) !! l) as [o|]; [|done]. cbn -[job_step] in H.
    destruct (job_step (Go ev) (o_cell o)); [|done]. by injection H as <-.
  - destruct (s_tasks sys !! tid'); [|done]. destruct (w_done (s_world sys) !! tid'); [done|]. by injection H as <-.
Qed.

Definition arrives (ev : sys_event) : bool :=
  match ev with Arrive _ _ _ | ArriveUndecoded _ _ _ _ => true | _ => false end.

(** With no RPC in flight, only an arrival brings one. *)
Lemma quiet_kept ev sys sys' :
  no_rpc_in_flight sys → arrives ev = false →
  sys_step ev sys = Some sys' → no_rpc_in_flight sys'.
Proof.
  intros Hq Hna H tid t Ht. destruct ev as [tid' peer req|tid' peer strm err|tid'|tid' c|l ev|tid' cause];
    cbn -[task_step job_step] in H; [done..| | | |].
  - destruct (s_tasks sys !! tid') eqn:E; [done|]. injection H as <-. cbn in Ht.
    apply lookup_insert_Some in Ht as [[_ <-]|[_ Ht]]; [done|by eapply Hq].
  - destruct (s_tasks sys !! tid') as [t1|] eqn:E; [|done]. cbn in H.
    destruct (task_step c t1 (s_world sys)) as [[w' t1']|] eqn:Es; [|done]. injection H as <-. cbn in Ht.
    apply lookup_insert_Some in Ht as [[_ <-]|[_ Ht]]; [|by eapply Hq].
    pose proof (task_step_same _ _ _ _ _ Es) as Hsame. pose proof (Hq _ _ E) as Ha.
    destruct t1 as [ctx req p|ctx id p|p|ctx e|ctx e p], t1'; try done; cbn in Es, Ha; by rewrite prog_settled in Es.
  - destruct (w_heap (s_world sys) !! l) as [o|]; [|done]. cbn -[job_step] in H.
    destruct (job_step (Go ev) (o_cell o)); [|done]. injection H as <-. by eapply Hq.
  - destruct (s_tasks sys !! tid'); [|done]. destruct (w_done (s_world sys) !! tid'); [done|].
    injection H as <-. by eapply Hq.
Qed.

(** ** The invariant *)

Definition warning : list slog.LogRecord :=
  slog.LogAttrs logger slog.LevelWarn "shutdown grace elapsed with streams still open"
    [("grace", Duration_String grace)].

Record serve_inv (v : serving) : Prop := {
  vi_system : reachable (v_system v);
  vi_jobs : draining v = true → ∃ tid, s_tasks (v_system v) !! tid = Some (ShuttingDown (Ret tt));
  vi_quiet : v_drain v = Stopped → v_cut v = false → no_rpc_in_flight (v_system v);
  vi_main : match v_main v with
            | Selecting => v_drain v = NotStarted ∧ v_cut v = false
            | Shutting _ => v_cut v = false
            | Cutting _ => v_cut v = true
            | Receiving d => v_drain v = Stopped ∧ v_cut v = negb d
            | Done r => v_drain v = Stopped ∧ ∃ e, v_returned v = Some e ∧ r = outcome e (negb (v_cut v))
            end;
  vi_log : v_log v = if v_cut v then warning else [];
  vi_served : ∀ e, v_served v = Some e → v_returned v = Some e;
  vi_in_hand : match v_main v with
               | Shutting (Some e) | Cutting (Some e) => v_returned v = Some e
               | _ => True
               end;
}.

(** What [Serve] does when [shutdown] returns, with the transport's error if it
    is in hand. *)
Lemma after_shutdown_main serveErr d (w : option (option error)) :
  match serveErr with Some e => w = Some e | None => True end →
  match after_shutdown serveErr d with
  | Receiving d' => d' = d
  | Done r => ∃ e, w = Some e ∧ r = outcome e d
  | _ => False
  end.
Proof. destruct serveErr as [e|]; [by exists e|done]. Qed.

Lemma serve_step_inv v v' : serve_inv v → serve_step v v' → serve_inv v'.
Proof.
  intros [Hr Hj Hq Hm Hl Hv Hh] Hs. destruct Hs as [ev sys' HA HS|e HR| |e tid sys' HM HV HS|tid sys' HM HD HS|tid HD HT|
    HD HG|serveErr HM HD|serveErr HM|serveErr HM HD|d e HM HV].
  - constructor; cbn; [by eapply reachable_step| | |done..].
    + intros Hd. destruct (Hj Hd) as [tid Ht]. exists tid. by eapply shut_down_kept.
    + intros Hd Hc. eapply quiet_kept; [by apply Hq| |done].
      destruct ev; try done; cbn in HA; unfold draining in HA; rewrite Hd in HA; by destruct (draining_refuses _ HA).
  - rewrite HR in *. constructor; cbn; try done.
    + destruct (v_main v); try done. destruct Hm as (_ & e' & [=] & _).
    + by destruct (v_main v) as [|[]|[]| |].
  - by constructor.
  - rewrite HM in Hm. destruct Hm as [_ Hc]. constructor; cbn; try done; [by eapply reachable_step|by apply Hv].
  - rewrite HM in Hm. destruct Hm as [_ Hc]. constructor; cbn; try done. by eapply reachable_step.
  - assert (v_main v ≠ Selecting) as Hne by (intros E; rewrite E in Hm; destruct Hm; congruence).
    constructor; cbn; [done|by exists tid|done| |done..].
    destruct (v_main v); try done; destruct Hm; congruence.
  - constructor; cbn; [done| | | |done..].
    + intros _. apply Hj. unfold draining. by rewrite HD.
    + intros _ Hc. apply graceful_waits. by rewrite <-Hc.
    + destruct (v_main v); try done; destruct Hm; congruence.
  - rewrite HM in Hm, Hh. constructor; cbn; [done| | | |done|done|by destruct serveErr].
    + intros _. apply Hj. unfold draining. by rewrite HD.
    + intros _ Hc. by apply Hq.
    + pose proof (after_shutdown_main serveErr true (v_returned v) Hh) as Ha. rewrite Hm.
      destruct (after_shutdown serveErr true); try done. by subst.
  - rewrite HM in Hm, Hh. rewrite Hm in Hl. constructor; cbn; [done|exact Hj|done|done| |done..]. by rewrite Hl.
  - rewrite HM in Hm, Hh. constructor; cbn; [done| | | |done|done|by destruct serveErr].
    + intros _. apply Hj. unfold draining. by rewrite HD.
    + intros _ Hc. congruence.
    + pose proof (after_shutdown_main serveErr false (v_returned v) Hh) as Ha. rewrite Hm.
      destruct (after_shutdown serveErr false); try done. by subst.
  - rewrite HM in Hm. destruct Hm as [Hd Hc]. constructor; cbn; [done|exact Hj|exact Hq| |done..].
    split; [done|]. exists e. split; [by apply Hv|]. by rewrite Hc, negb_involutive.
Qed.

(** The system runs on its own for a while. *)
Lemma system_runs l v sys' :
  Forall (allowed lets_in v) l → sys_run durationpb_New Stack i s l (v_system v) = Some sys' →
  rtc serve_step v (mkServing sys' (v_main v) (v_drain v) (v_served v) (v_returned v) (v_done v) (v_cut v) (v_log v)).
Proof.
  revert v. induction l as [|ev l IH]; intros v Ha H; cbn [sys_run] in H.
  - injection H as <-. by destruct v.
  - apply Forall_cons in Ha as [Hev Ha]. destruct (sys_step ev (v_system v)) as [s1|] eqn:E; [|done].
    eapply rtc_l; [by eapply SystemRuns|].
    exact (IH (mkServing s1 (v_main v) (v_drain v) (v_served v) (v_returned v) (v_done v) (v_cut v) (v_log v)) Ha H).
Qed.

Lemma serves_inv v : serves v → serve_inv v.
Proof.
  intros H. assert (serve_inv (serve_init lg)) as Hi.
  { constructor; cbn; try done. by exists []. }
  revert Hi. induction H as [|v v1 v2 Hs _ IH]; [done|]. intros Hi. by apply IH, (serve_step_inv v).
Qed.

(** A server whose [GracefulStop] has been called has no job left. *)
Lemma draining_drained v : serve_inv v → draining v = true → fit drained (s_world (v_system v)).
Proof.
  intros Hi Hd. destruct (vi_jobs _ Hi Hd) as [tid Ht].
  pose proof (reachable_inv _ _ _ _ _ _ (vi_system _ Hi)) as Hs.
  destruct (sy_tasks _ _ _ Hs _ _ Ht) as [w0 H]. exact H.
Qed.

(** ** The streams of a server that is done *)

(** A stream that is over, with [r]: it was refused or found no job; or it
    delivered the whole output of a job of the agent it was admitted for, with
    the tick that reports how the job ended last; or its client went away, or the
    transport refused a tick. *)
Definition stream_over (tid : nat) (ctx : Context) (id : JobID) (r : result stream_end) (w : world) : Prop :=
  (∃ e, r = Err e ∧ (refusal e ∨ e = StatusError NotFound "job not found")) ∨
  (∃ agent l j ps t, r = Ok (Ended None) ∧
     admitted i ctx fizzledv1.FizzledService_StreamOutput_FullMethodName agent ∧
     Find agent id w = Some l ∧ job_at l w = Some j ∧ ticks j = ps ++ [t] ∧ reports (status j) t ∧
     sent tid w = protoTick durationpb_New <$> ps ++ [t]) ∨
  is_Some (Context_Err (w_done w) ctx) ∨ (∃ e, r = Ok (Ended (Some e))).

(** An ended job has the tick that reports it last. *)
Lemma ended_ticks w l j :
  registry_inv w → job_at l w = Some j → terminal (status j) → ∃ ps t, ticks j = ps ++ [t] ∧ reports (status j) t.
Proof.
  intros Hi (o & Ho & ->)%fmap_Some Ht. destruct (object_job_inv _ (ri_cells _ Hi _ _ Ho)) as [count Hc].
  destruct (ji_ticks _ _ Hc) as [(Hs & _)|(ps & t & Hts & _ & _ & Hr & _)]; cbn in *.
  - by apply terminal_not_running in Ht.
  - by exists ps, t.
Qed.

Lemma quiet_stream_over sys tid ctx id p :
  reachable sys → fits (s_world sys) → no_rpc_in_flight sys → s_tasks sys !! tid = Some (Streaming ctx id p) →
  ∃ r, p = Ret r ∧ stream_over tid ctx id r (s_world sys).
Proof.
  intros Hr Hf Hq Ht. pose proof (reachable_inv _ _ _ _ _ _ Hr) as Hi. pose proof (Hq _ _ Ht) as Hs.
  destruct (sy_tasks _ _ _ Hi _ _ Ht) as [w0 Hok]. cbn in Hs, Hok.
  destruct p as [r|v|f]; [|done..]. exists r. split; [done|]. cbn in Hok.
  destruct Hok as [(e & -> & He)|(agent & Ha & Hok)]; [left; eauto|].
  destruct r as [e|e]; cbn in Hok; [|destruct Hok as [-> _]; left; eauto].
  destruct Hok as (l & Hl & Hp). destruct e as [[e|]|]; cbn in Hp; [right; right; right; by exists e| |done].
  destruct Hp as [Hp _]. destruct (Hp Hf) as [Hreg [(j & Hj & Hterm & Hsent)|Hdone]]; [|by right; right; left].
  destruct (ended_ticks _ _ _ Hreg Hj Hterm) as (ps & t & Hts & Hrep). rewrite Hts in Hsent. destruct (Hl Hf) as [_ Hfind].
  right. left. by exists agent, l, j, ps, t.
Qed.

(** ** Properties *)

(** The state [Serve] returned in. *)
Record returned (v : serving) (r : option error) : Prop := {
  rt_drained : drained (s_world (v_system v));
  rt_result : ∃ serveErr, v_returned v = Some serveErr ∧ r = outcome serveErr (negb (v_cut v));
  rt_log : v_log v = if v_cut v then warning else [];
  rt_answered : v_cut v = false → no_rpc_in_flight (v_system v);
}.

Lemma done_returned v r :
  serves v → v_main v = Done r → fits (s_world (v_system v)) → returned v r.
Proof.
  intros HV HM HF. pose proof (serves_inv v HV) as Hi. pose proof (vi_main _ Hi) as Hm. rewrite HM in Hm.
  destruct Hm as [Hd Hr]. constructor; [|exact Hr| |exact (vi_quiet _ Hi Hd)].
  - by destruct (draining_drained v Hi ltac:(unfold draining; by rewrite Hd) HF).
  - pose proof (vi_log _ Hi) as Hl. by destruct (v_cut v).
Qed.

(** C15: jobs first, then the transport, and what [Serve] returns. In whatever
    order the parts of a shutdown happen to move, once [GracefulStop] has been
    called, every job has ended and none can be started. When [Serve] returns
    its error says whether the shutdown finished in its grace, next to the error
    the transport's own [Serve] returned: a nil error means that nothing was
    logged, that every RPC has been answered, and that every stream is over: it
    was refused, or got all of its job's output, the last tick included, or its
    client went away, or it ended with the error of a [Send]; a shutdown that
    was cut short is never reported as nil and is logged exactly once. *)
Theorem serve_returns (v : serving) (HV : serves v) (HF : fits (s_world (v_system v))) :
  (draining v = true → drained (s_world (v_system v))) ∧
  ∀ r, v_main v = Done r → draining v = true ∧
    ∃ serveErr isDrained, v_returned v = Some serveErr ∧ r = outcome serveErr isDrained ∧
      v_log v = (if isDrained then [] else warning) ∧
      (isDrained = true → no_rpc_in_flight (v_system v) ∧
         ∀ tid ctx id p, s_tasks (v_system v) !! tid = Some (Streaming ctx id p) →
           ∃ r, p = Ret r ∧ stream_over tid ctx id r (s_world (v_system v))) ∧
      (r = None → isDrained = true ∧ ∀ e, serveErr = Some e → Is e grpc_ErrServerStopped = true) ∧
      (isDrained = false → serveErr = None → ∃ e, r = Some e ∧ Is e ErrShutdownGraceElapsed = true).
Proof.
  split.
  - intros Hd. by destruct (draining_drained v (serves_inv v HV) Hd HF).
  - intros r HM. destruct (done_returned v r HV HM HF) as [_ (serveErr & Hse & ->) Hl Hq].
    pose proof (serves_inv v HV) as Hi. pose proof (vi_main _ Hi) as Hm. rewrite HM in Hm. destruct Hm as [Hd _].
    split; [unfold draining; by rewrite Hd|]. exists serveErr, (negb (v_cut v)). split; [exact Hse|].
    assert (v_cut v = false → no_rpc_in_flight (v_system v) ∧
      ∀ tid ctx id p, s_tasks (v_system v) !! tid = Some (Streaming ctx id p) →
        ∃ r, p = Ret r ∧ stream_over tid ctx id r (s_world (v_system v))) as Hstreams.
    { intros Hc. split; [by apply Hq|]. intros tid ctx id p. apply quiet_stream_over; [apply Hi|done|by apply Hq]. }
    unfold outcome.
    destruct (v_cut v), serveErr as [e|]; cbn in *; try destruct (Is e _) eqn:E; cbn;
      split_and!; try done; try (by intros _; auto); try (by intros _ _; eexists).
    all: intros _; split; [done|]; by intros ? [= <-].
Qed.

End serve.

(** ** The stack *)

Section stack.
Context (Certificate_Verify : x509.Certificate → x509.VerifyOptions → option error).
Context (ReadFile : string → result string) (Clean : string → string) (parse : string → result json.value).
Context (Decode : string → option (trustbundle.Block * string)).
Context (ParseCertificate : string → result x509.Certificate).
Context (LoadX509KeyPair : string → string → result KeyPair) (Time_text : Z → string).
Context (Listen : string → result string).

(** What [New] stands up is one stack around one authenticator. The
    transport asks every client for a certificate and admits it by the verdict
    of the authenticator the interceptors ask again on every RPC; its own SVID
    passed the check its clients will make; it authorizes from the roles file;
    no job exists yet, jobs are accepted, and the grace is positive. *)
Theorem New_stack (config : server.Config) (lg : option slog.Logger) (now : Z) (srv : server.Server)
  (recs : list slog.LogRecord)
  (HN : server.New Certificate_Verify ReadFile Clean parse Decode ParseCertificate LoadX509KeyPair Time_text Listen
          config lg now = Some (Ok srv, recs)) :
  let a := i_authenticator (interceptors (grpc srv)) in
  ClientAuth (creds (grpc srv)) = RequireAnyClientCert ∧
  VerifyConnection (creds (grpc srv)) = verifyClientPeer Certificate_Verify a ∧
  (∃ chain, loadIdentity Clean ParseCertificate LoadX509KeyPair (server.CertPath config) (server.KeyPath config) =
      Ok (hd (mkKeyPair []) (Certificates (creds (grpc srv))), chain) ∧
    ∃ recs, verifyServerPeer Certificate_Verify a now (mkConnectionState chain) = Verdict None recs) ∧
  authz.Load ReadFile Clean parse (server.RolesPath config) = Ok (i_authorizer (interceptors (grpc srv))) ∧
  w_heap (svc_world srv) = [] ∧ isAcceptingJobs (w_registry (svc_world srv)) = true ∧
  (0 < shutdownGrace srv)%Z ∧
  (0 < server.ShutdownGrace config → shutdownGrace srv = server.ShutdownGrace config)%Z.
Proof.
  unfold server.New in HN. destruct (_ =? _)%string; [done|]. cbv zeta in HN.
  destruct (NewAuthenticator _ _ _ _ _ _ _) as [[[a arecs]|e]|]; cbn -[errorf] in HN; [|done|done].
  destruct (ServerConfig _ _ _ _ a now _ _) as [cfg|e] eqn:Ec; cbn -[errorf] in HN; [|done].
  destruct (authz.Load _ _ _ _) as [z|e] eqn:Ez; cbn -[errorf] in HN; [|done].
  destruct (Listen _) as [bound|e]; cbn -[errorf] in HN; [|done].
  injection HN as <- <-. cbn.
  unfold ServerConfig in Ec. apply bind_Ok in Ec as ([identity chain] & Hid%map_err_Ok & Ec).
  apply bind_Ok in Ec as (leaf & Hl%map_err_Ok & [= <-]). cbn. split_and!; try done.
  - exists chain. split; [done|]. unfold verifyServerPeer. cbn. rewrite Hl. by eexists.
  - unfold defaultShutdownGrace. case_match; reflect; lia.
  - intros Hg. case_match; reflect; lia.
Qed.
End stack.

(** ** The properties at work *)

Section samples.
Import sample.

(** The files of a deployment. *)
Definition sample_files (path : string) : result string :=
  if (path =? "ca.crt")%string then Ok trustbundle.sample_bundle else Ok "one".

Definition server_leaf : x509.Certificate := x509.mkCertificate "server" 3 1 20 false
  x509.KeyUsageDigitalSignature [x509.ExtKeyUsageServerAuth; x509.ExtKeyUsageClientAuth]
  (x509.ECDSAPublicKey x509.P256) ["spiffe://fizzled.internal/server"].

Definition sample_certificates (der : string) : result x509.Certificate :=
  if (der =? "server")%string then Ok server_leaf else trustbundle.sample_ParseCertificate der.

Definition sample_New : option (result server.Server * list slog.LogRecord) :=
  server.New (λ _ _, None) sample_files (λ p, p) authz.sample_parse trustbundle.sample_Decode sample_certificates
    (λ _ _, Ok (mkKeyPair ["server"])) (λ _, "") Ok
    (server.mkConfig "localhost:8443" "ca.crt" "server.crt" "server.key" "roles.json" 7) None 10.

Lemma New_stack_witness :
  ∃ srv recs, sample_New = Some (Ok srv, recs) ∧ ClientAuth (creds (grpc srv)) = RequireAnyClientCert ∧
    shutdownGrace srv = 7%Z.
Proof.
  destruct sample_New as [[[srv|e] recs]|] eqn:E.
  - exists srv, recs. split; [done|].
    destruct (New_stack (λ _ _, None) sample_files (λ p, p) authz.sample_parse trustbundle.sample_Decode
      sample_certificates (λ _ _, Ok (mkKeyPair ["server"])) (λ _, "") Ok
      (server.mkConfig "localhost:8443" "ca.crt" "server.crt" "server.key" "roles.json" 7) None 10 srv recs E)
      as (Hc & _ & _ & _ & _ & _ & _ & Hg).
    split; [exact Hc|]. by apply Hg.
  - exfalso. assert (match sample_New with Some (Ok _, _) => true | _ => false end = true) as H
      by (vm_compute; reflexivity). by rewrite E in H.
  - exfalso. assert (match sample_New with Some (Ok _, _) => true | _ => false end = true) as H
      by (vm_compute; reflexivity). by rewrite E in H.
Defined.

(** A transport that lets RPCs in until it drains, and drains until they are
    answered or it is stopped. *)
Definition lets_in (draining stopped : bool) : Prop := draining = false ∧ stopped = false.
Definition graceful_returns (sys : system) (stopped : bool) : Prop := stopped = true ∨ no_rpc_in_flight sys.

Abbreviation serve_step := (serve_step seconds "stack" sample.interceptor sample.svc slog.DiscardHandler 5
  lets_in graceful_returns).
Abbreviation serves := (serves seconds "stack" sample.interceptor sample.svc slog.DiscardHandler 5
  lets_in graceful_returns None).

Lemma lets_in_refuses stopped : ¬ lets_in true stopped.
Proof. by intros [? _]. Qed.

Lemma graceful_returns_waits sys : graceful_returns sys false → no_rpc_in_flight sys.
Proof. by intros [?|?]. Qed.

Definition answered_check (s : system) : bool :=
  forallb (λ kt, match kt.2 with
                 | Calling _ _ p => settled p
                 | Streaming _ _ p => settled p
                 | ShuttingDown _ | Undecoded _ _ => true
                 | UndecodedStream _ _ p => settled p
                 end) (map_to_list (s_tasks s)).

Lemma answered_check_sound s : answered_check s = true → no_rpc_in_flight s.
Proof.
  intros H tid t Ht. unfold answered_check in H. rewrite forallb_forall in H.
  specialize (H (tid, t)). cbn in H. apply elem_of_map_to_list, list_elem_of_In, H in Ht. by destruct t.
Qed.

Abbreviation serves_run := (system_runs seconds "stack" sample.interceptor sample.svc slog.DiscardHandler 5
  lets_in graceful_returns).

Lemma run_cons ev l s : run (ev :: l) s = match step ev s with Some s' => run l s' | None => None end.
Proof. done. Qed.

(** A job is started, the context is done, the jobs are stopped. *)
Definition after_jobs (main : main_pc) (drain : drain_pc) (served returned : option (option error)) : serving :=
  mkServing (after (started ++ shuts_down)) main drain served returned true false [].

Lemma serves_stops_jobs : serves (after_jobs (Shutting None) Draining None None).
Proof.
  assert (run started init = Some (after started)) as H1 by (apply run_after; vm_compute; reflexivity).
  assert (run shuts_down (after started) = Some (after (started ++ shuts_down))) as H2
    by (apply run_from; vm_compute; reflexivity).
  unfold serves, serve_init.
  etrans; [apply (serves_run started _ (after started)); [by repeat constructor|exact H1]|]. cbn.
  eapply rtc_l; [apply ContextDone|]. cbn.
  change shuts_down with (BeginShutdown 5 :: tail shuts_down) in H2 at 1. rewrite run_cons in H2.
  destruct (step (BeginShutdown 5) (after started)) as [s1|] eqn:E; [|done].
  eapply rtc_l; [exact (SelectDone _ _ _ _ _ _ _ _ (mkServing (after started) Selecting NotStarted None None true false [])
    5 s1 eq_refl eq_refl E)|]. cbn.
  etrans; [exact (serves_run (tail shuts_down) (mkServing s1 (Shutting None) (StoppingJobs 5) None None true false [])
    _ ltac:(repeat constructor) H2)|]. cbn.
  assert (s_tasks (after (started ++ shuts_down)) !! 5 = Some (ShuttingDown (Ret tt))) as HT
    by (vm_compute; reflexivity).
  apply rtc_once. exact (JobsStopped _ _ _ _ _ _ _ _ (after_jobs (Shutting None) (StoppingJobs 5) None None) 5 eq_refl HT).
Qed.

(** The drain finishes, then the transport reports its end. *)
Lemma serves_done : serves (after_jobs (Done None) Stopped None (Some None)).
Proof.
  unfold serves. etrans; [exact serves_stops_jobs|].
  eapply rtc_l; [apply GracefulReturns; [reflexivity|]|].
  { right. apply answered_check_sound. vm_compute. reflexivity. }
  eapply rtc_l; [exact (ShutdownDrained _ _ _ _ _ _ _ _ (after_jobs (Shutting None) Stopped None None) None eq_refl eq_refl)|]. cbn.
  eapply rtc_l; [exact (TransportReturns _ _ _ _ _ _ _ _ (after_jobs (Receiving true) Stopped None None) None eq_refl)|]. cbn.
  apply rtc_once. exact (TransportReceived _ _ _ _ _ _ _ _ (after_jobs (Receiving true) Stopped (Some None) (Some None)) true None
    eq_refl eq_refl).
Qed.

Lemma serve_returns_witness :
  drained (s_world (after (started ++ shuts_down))) ∧
  ∃ serveErr isDrained, None = outcome serveErr isDrained ∧ isDrained = true ∧
    no_rpc_in_flight (after (started ++ shuts_down)).
Proof.
  assert (fits (s_world (after (started ++ shuts_down)))) as Hf by (apply Z.leb_le; vm_compute; reflexivity).
  destruct (serve_returns seconds "stack" sample.interceptor sample.svc slog.DiscardHandler 5 None
    lets_in graceful_returns lets_in_refuses graceful_returns_waits _ serves_done Hf) as [Hd Hr].
  destruct (Hr None eq_refl) as (Hdr & e & d & _ & Hres & _ & Hq & Hn & _).
  split; [exact (Hd Hdr)|]. exists e, d. destruct (Hn eq_refl) as [Ht _].
  exact (conj Hres (conj Ht (proj1 (Hq Ht)))).
Defined.

End samples.
End server_properties.
