(* ===== verification/Daemon.v ===== *)
(** * The daemon, from its command line to its exit code

    [fizzled] ([cmd/fizzled]) composed with the server it builds and the system
    that server runs: what its exit code and its log say about the jobs and the
    RPCs once [Serve] has returned. *)

From S2P Require Import Prelude GoStrings GoErrors Conc X509 SpiffeID X509SVID Identity TrustBundle.
From S2P Require Import CommandLine Authz Slog Context Authenticator Wire Job JobInvariant Registry Ticks.
From S2P Require Import Service ServiceSpec StreamSpec Interceptor System Sample Ownership Server Fizzled.
From S2P Require Import ServerProperties.

Module daemon.
Import x509 authn authenticator trustbundle context conc worker registry service interceptor system ownership.
Import server server_properties fizzled.

Section daemon.
Context (Write_stdout Write_stderr : string → string → string * option error).
Context (Certificate_Verify : Certificate → VerifyOptions → option error).
Context (ReadFile : string → result string) (Clean : string → string) (parse_json : string → result json.value).
Context (Decode : string → option (Block * string)) (ParseCertificate : string → result Certificate).
Context (LoadX509KeyPair : string → string → result KeyPair) (Time_text : Z → string).
Context (Listen : string → result string) (now : Z).
Context (Serve : Server → option error * list slog.LogRecord).
Context (durationpb_New : Z → fizzledv1.Duration) (Stack : string).
Context (lets_in : bool → bool → Prop) (graceful_returns : system → bool → Prop).

(** The interceptors ask the authenticator the transport was made with. *)
#[local] Instance daemon_peers : PeerAuthenticator Authenticator := Authenticator_peers Certificate_Verify.

(** The logger [run] makes: JSON on stderr. *)
Definition logger : slog.Logger := slog.Handler [].

(** The flags make a configuration, and its files a server. *)
Definition stands_up (args : list string) (srv : Server) (recs : list slog.LogRecord) : Prop :=
  ∃ config, parse args = Ok config ∧
    server.New Certificate_Verify ReadFile Clean parse_json Decode ParseCertificate LoadX509KeyPair Time_text
      Listen config (Some logger) now = Some (Ok srv, recs).

(** A state of that server serving. *)
Definition serving_of (srv : Server) : serving → Prop :=
  serves durationpb_New Stack (interceptors (grpc srv)) (svc srv) (srv_logger srv) (shutdownGrace srv)
    lets_in graceful_returns (Some logger).

(** The server is built around the service and the logger it serves with. *)
Lemma New_service args srv recs :
  stands_up args srv recs → srv_logger srv = logger ∧ NewService (Some logger) = (svc srv, svc_world srv).
Proof.
  intros (config & _ & HN). unfold server.New in HN. destruct (_ =? _)%string; [done|]. cbv zeta in HN.
  destruct (NewAuthenticator _ _ _ _ _ _ _) as [[[a arecs]|e]|]; cbn -[errorf] in HN; [|done|done].
  destruct (ServerConfig _ _ _ _ a now _ _) as [cfg|e]; cbn -[errorf] in HN; [|done].
  destruct (authz.Load _ _ _ _) as [z|e]; cbn -[errorf] in HN; [|done].
  destruct (Listen _) as [bound|e]; cbn -[errorf] in HN; [|done].
  by injection HN as <- <-.
Qed.

(** The transport ended by itself, or because it was stopped. *)
Definition transport_ok (serveErr : option error) : Prop :=
  ∀ e, serveErr = Some e → Is e grpc_ErrServerStopped = true.

Lemma outcome_None serveErr isDrained :
  outcome serveErr isDrained = None ↔ transport_ok serveErr ∧ isDrained = true.
Proof.
  unfold outcome, transport_ok. destruct serveErr as [e|], isDrained; cbn.
  - destruct (Is e _) eqn:E; cbn; split; try done; [by split; [intros ? [= <-]|]|].
    intros [H _]. specialize (H e eq_refl). congruence.
  - destruct (negb _); cbn; split; try done; by intros [_ ?].
  - by split.
  - split; [done|by intros [_ ?]].
Qed.

Lemma exit_success r : exitCodeFor (errorf "serve" <$> r) = exitSuccess ↔ r = None.
Proof. destruct r; cbn -[Is]; [|done]. by destruct (_ || _). Qed.

Abbreviation main := (fizzled.main Write_stdout Write_stderr Certificate_Verify ReadFile Clean parse_json Decode
  ParseCertificate LoadX509KeyPair Time_text Listen now Serve).

Lemma main_serves program args srv recs stdout stderr :
  stands_up args srv recs →
  ∃ last, slog.message last = "fizzled stopped" ∧
    main (program :: args) stdout stderr = Some (mkExit (exitCodeFor (errorf "serve" <$> (Serve srv).1)) stdout stderr
      (recs ++ slog.LogAttrs logger slog.LevelInfo "fizzled is listening" [("address", listener srv)] ++
       (Serve srv).2 ++ [last])).
Proof.
  intros (config & Hp & HN). unfold fizzled.main, fizzled.run, fizzled.serve. rewrite Hp. cbv zeta.
  change (slog.Handler []) with logger. rewrite HN. cbn -[slog.LogAttrs Is].
  destruct (Serve srv) as [[e|] lines]; cbn -[Is]; eexists; rewrite <-!app_assoc; (split; [|reflexivity]; reflexivity).
Qed.

(** gRPC's [GracefulStop] lets no RPC in, and returns when those in flight have. *)
Context (draining_refuses : ∀ stopped, ¬ lets_in true stopped).
Context (graceful_waits : ∀ sys, graceful_returns sys false → no_rpc_in_flight sys).

(** C17: the exit code of the daemon says how its shutdown went. Once [Serve],
    on the server its flags and files stood up, has returned, every job has
    ended and none can be started; the process exits 0 exactly when the
    transport's [Serve] returned no error but that it was stopped and the drain
    finished in its grace, and then every RPC has been answered; it exits 1 when
    only the grace elapsed, which is logged. The log begins with the address it
    listens on, and its last line says that it stopped. *)
Theorem daemon_end_to_end (program : string) (args : list string) (srv : Server) (recs : list slog.LogRecord)
  (stdout stderr : string) (v : serving) (r : option error)
  (HU : stands_up args srv recs) (HV : serving_of srv v) (HM : v_main v = Done r)
  (HR : (Serve srv).1 = r) (HL : ∀ line, line ∈ v_log v → line ∈ (Serve srv).2)
  (HF : fits (s_world (v_system v))) :
  ∃ code serveErr last, main (program :: args) stdout stderr = Some (mkExit code stdout stderr
      (recs ++ slog.LogAttrs logger slog.LevelInfo "fizzled is listening" [("address", listener srv)] ++
       (Serve srv).2 ++ [last])) ∧
    slog.message last = "fizzled stopped" ∧
    s_world (sys_init (Some logger)) = svc_world srv ∧
    drained (s_world (v_system v)) ∧
    v_returned v = Some serveErr ∧ r = outcome serveErr (negb (v_cut v)) ∧ (code = exitSuccess ↔ r = None) ∧
    (code = exitSuccess ↔ transport_ok serveErr ∧ v_cut v = false) ∧
    (code = exitSuccess → no_rpc_in_flight (v_system v) ∧ v_log v = []) ∧
    (serveErr = None → v_cut v = true → code = exitFailure ∧
       ∃ line, line ∈ (Serve srv).2 ∧ slog.message line = "shutdown grace elapsed with streams still open").
Proof.
  destruct (main_serves program args srv recs stdout stderr HU) as (last & Hlast & Hrun).
  destruct (New_service _ _ _ HU) as [Hlogger Hsvc].
  destruct (done_returned _ _ _ _ _ _ _ _ _ draining_refuses graceful_waits v r HV HM HF) as [Hd (serveErr & Hse & He) Hl Hq].
  eexists _, serveErr, last. split; [exact Hrun|]. rewrite HR, He. rewrite exit_success, outcome_None, negb_true_iff.
  split_and!; [done|unfold sys_init; by rewrite Hsvc|done|done|done|done|done| |].
  - intros [_ Hc]. rewrite Hc in Hl. auto.
  - intros -> Hc. rewrite Hc in Hl |- *. rewrite Hl, Hlogger in HL. split; [done|].
    eexists. split; [apply HL; by left|done].
Qed.

End daemon.
(** ** The property at work: a daemon that is interrupted before any RPC *)

Section samples.
Import sample.

Definition append_write (out text : string) : string * option error := (out +:+ text, None).
Definition sample_args : list string := ["--ca"; "ca.crt"; "--roles"; "roles.json"].

Definition sample_stands_up (srv : Server) (recs : list slog.LogRecord) : Prop :=
  stands_up (λ _ _, None) sample_files (λ p, p) authz.sample_parse trustbundle.sample_Decode sample_certificates
    (λ _ _, Ok (mkKeyPair ["server"])) (λ _, "") Ok 10 sample_args srv recs.

Lemma sample_up : ∃ srv recs, sample_stands_up srv recs.
Proof.
  set (made := match parse sample_args with
               | Ok config => server.New (λ _ _, None) sample_files (λ p, p) authz.sample_parse
                   trustbundle.sample_Decode sample_certificates (λ _ _, Ok (mkKeyPair ["server"])) (λ _, "") Ok
                   config (Some logger) 10
               | Err _ => None
               end).
  assert (match made with Some (Ok _, _) => true | _ => false end = true) as H by (vm_compute; reflexivity).
  destruct made as [[[srv|e] recs]|] eqn:E; [|discriminate H..]. exists srv, recs.
  destruct (parse sample_args) as [config|] eqn:Ep; [|discriminate E]. by exists config.
Qed.

(** The shutdown of a system with no job. *)
Definition stopped_system : system :=
  mkSystem (mkWorld (mkRegistry ∅ logger false) [] ∅ [] ∅) {[ 0 := ShuttingDown (Ret tt) ]}.

#[local] Instance sample_peers : PeerAuthenticator Authenticator := Authenticator_peers (λ _ _, None).

Lemma sample_stops (i : Interceptor Authenticator) : ∃ sys,
  sys_step seconds "stack" i (NewService (Some logger)).1 (BeginShutdown 0) (sys_init (Some logger)) = Some sys ∧
  sys_run seconds "stack" i (NewService (Some logger)).1 (turns 1 0) sys = Some stopped_system.
Proof. eexists. split; [reflexivity|]. vm_compute. reflexivity. Qed.

Definition sample_serves (srv : Server) : serving → Prop :=
  serving_of (λ _ _, None) seconds "stack" lets_in graceful_returns srv.

Definition sample_done : serving := mkServing stopped_system (Done None) Stopped None (Some None) true false [].

Lemma sample_serves_done srv recs : sample_stands_up srv recs → sample_serves srv sample_done.
Proof.
  intros HU. destruct (New_service _ _ _ _ _ _ _ _ _ _ _ _ _ HU) as [Hl Hs].
  unfold sample_serves, serving_of, serves, serve_init. rewrite Hl.
  assert (server.svc srv = (NewService (Some logger)).1) as -> by by rewrite Hs.
  destruct (sample_stops (interceptors (grpc srv))) as (sys & Hbegin & Hrun).
  eapply rtc_l; [apply ContextDone|]. cbn [v_system v_main v_drain v_served v_returned v_cut v_log].
  eapply rtc_l; [by eapply (SelectDone _ _ _ _ _ _ _ _ (mkServing _ _ _ _ _ true _ _) 0 sys)|].
  etrans; [eapply (system_runs _ _ _ _ _ _ _ _ (turns 1 0)); [by repeat constructor|exact Hrun]|].
  cbn [v_system v_main v_drain v_served v_returned v_done v_cut v_log].
  eapply rtc_l; [by eapply (JobsStopped _ _ _ _ _ _ _ _ _ 0)|].
  eapply rtc_l; [apply GracefulReturns; [done|]|].
  { right. apply answered_check_sound. vm_compute. reflexivity. }
  eapply rtc_l; [by apply (ShutdownDrained _ _ _ _ _ _ _ _ _ None)|].
  eapply rtc_l; [by apply (TransportReturns _ _ _ _ _ _ _ _ _ None)|].
  by eapply rtc_l; [by apply (TransportReceived _ _ _ _ _ _ _ _ _ true None)|].
Qed.

Lemma daemon_end_to_end_witness :
  ∃ srv recs x, sample_stands_up srv recs ∧
    fizzled.main append_write append_write (λ _ _, None) sample_files (λ p, p) authz.sample_parse
      trustbundle.sample_Decode sample_certificates (λ _ _, Ok (mkKeyPair ["server"])) (λ _, "") Ok 10
      (λ _, (None, [])) ("fizzled" :: sample_args) "" "" = Some x ∧
    exit_code x = exitSuccess ∧ no_rpc_in_flight stopped_system.
Proof.
  destruct sample_up as (srv & recs & HU).
  destruct (daemon_end_to_end append_write append_write (λ _ _, None) sample_files (λ p, p) authz.sample_parse
      trustbundle.sample_Decode sample_certificates (λ _ _, Ok (mkKeyPair ["server"])) (λ _, "") Ok 10
      (λ _, (None, [])) seconds "stack" lets_in graceful_returns lets_in_refuses graceful_returns_waits
      "fizzled" sample_args srv recs "" "" sample_done None HU (sample_serves_done srv recs HU) eq_refl eq_refl)
    as (code & serveErr & last & Hrun & _ & _ & _ & _ & _ & Hcode & _ & Hq & _).
  - intros line Hline. exact Hline.
  - apply Z.leb_le. vm_compute. reflexivity.
  - exists srv, recs. eexists. split; [exact HU|]. split; [exact Hrun|].
    exact (conj (proj2 Hcode eq_refl) (proj1 (Hq (proj2 Hcode eq_refl)))).
Defined.

End samples.
End daemon.
