(* ===== verification/ServerLiveness.v ===== *)
(** * [Serve] returns

    Once its context is done or its transport has failed, and no RPC arrives
    any more, [Serve] returns after finitely many events, whatever their order
    and whether or not the grace elapses. Of [GracefulStop] this needs that it
    returns when no RPC is in flight. *)

From S2P Require Import Prelude GoStrings GoErrors Conc Progress X509 SpiffeID X509SVID Identity TrustBundle.
From S2P Require Import Authz Slog Context Authenticator Wire Job JobInvariant Registry Ticks.
From S2P Require Import Service ServiceSpec StreamSpec Interceptor Liveness System Ownership SystemLiveness.
From S2P Require Import Server Sample ServerProperties.

Module server_liveness.
Import authn worker worker_spec conc progress context authenticator registry service service_spec interceptor
  liveness system ownership system_liveness server server_properties.

Section serve.
Context {A : Type} `{peers : PeerAuthenticator A}.
Context (durationpb_New : Z → fizzledv1.Duration) (Stack : string).
Context (i : Interceptor A) (s : Service) (logger : slog.Logger) (grace : Z) (lg : option slog.Logger).
Context (lets_in : bool → bool → Prop) (graceful_returns : system → bool → Prop).
Context (draining_refuses : ∀ stopped, ¬ lets_in true stopped).
Context (graceful_waits : ∀ sys, graceful_returns sys false → no_rpc_in_flight sys).
Context (graceful_completes : ∀ sys stopped, no_rpc_in_flight sys → graceful_returns sys stopped).
Abbreviation reachable := (reachable durationpb_New Stack i s lg).
Abbreviation serve_inv := (serve_inv durationpb_New Stack i s logger grace lg).
Abbreviation serve_step := (serve_step durationpb_New Stack i s logger grace).
Abbreviation serves := (serves durationpb_New Stack i s logger grace lets_in graceful_returns lg).
Abbreviation moves := (moves durationpb_New Stack i s).

(** A step in which nothing arrives, and something happens. *)
Definition quiet_step (v v' : serving) : Prop := serve_step (λ _ _, False) graceful_returns v v' ∧ v ≠ v'.

Lemma quiet_allowed v v' : serve_step (λ _ _, False) graceful_returns v v' → serve_step lets_in graceful_returns v v'.
Proof. intros []; econstructor; try done. by destruct ev. Qed.

(** ** Every step comes closer *)

Definition main_rank (p : main_pc) : nat :=
  match p with Selecting => 4 | Shutting _ => 3 | Cutting _ => 2 | Receiving _ => 1 | Done _ => 0 end.
Definition drain_rank (p : drain_pc) : nat :=
  match p with NotStarted => 3 | StoppingJobs _ => 2 | Draining => 1 | Stopped => 0 end.
Definition rank (v : serving) : nat :=
  4 * main_rank (v_main v) + drain_rank (v_drain v) + (if v_returned v is Some _ then 0 else 1) + (if v_done v then 0 else 1).

Definition closer_to_end (v' v : serving) : Prop :=
  rank v' < rank v ∨ rank v' = rank v ∧ closer (v_system v') (v_system v).

Lemma closer_to_end_wf v : Acc closer_to_end v.
Proof.
  remember (rank v) as n eqn:En. revert v En. induction (lt_wf n) as [n _ IHn]. intros v.
  remember (v_system v) as sys eqn:Es. revert v Es. induction (closer_wf sys) as [sys _ IHs]. intros v -> ->.
  constructor. intros v' [Hlt|[He Hc]]; [by eapply IHn|]. by eapply IHs.
Qed.

Lemma quiet_closer v v' :
  reachable (v_system v) → fits (s_world (v_system v)) → quiet_step v v' → closer_to_end v' v.
Proof.
  intros Hr Hf [H Hne].
  assert (∀ b : bool, (if b then 0 else 1) ≤ 1) as Hb by (intros []; lia).
  destruct H as [ev sys' HA HS|e HR| |e tid sys' HM HV HS|tid sys' HM HD HS|tid HD HT|
    HD HG|serveErr HM HD|serveErr HM|serveErr HM HD|d e HM HV]; unfold closer_to_end, rank; cbn.
  - right. split; [done|]. eapply moves_closer; [exact Hr|done|]. exists ev. by destruct ev.
  - left. rewrite HR. lia.
  - left. destruct (v_done v) eqn:Ed; [|lia]. destruct Hne. destruct v; cbn in *. by subst.
  - left. rewrite HM. destruct (v_drain v); cbn; lia.
  - left. rewrite HM. destruct (v_drain v); cbn; lia.
  - left. rewrite HD. cbn. lia.
  - left. rewrite HD. cbn. lia.
  - left. rewrite HM, HD. destruct serveErr; cbn; lia.
  - left. rewrite HM. cbn. lia.
  - left. rewrite HM, HD. destruct serveErr; cbn; lia.
  - left. rewrite HM. cbn. lia.
Qed.

(** ** There is always a step *)

(** A shutdown that was started is run by a goroutine; the error of the
    transport is in hand, to come, or has been received. *)
Record wait_inv (v : serving) : Prop := {
  wt_started : v_main v ≠ Selecting → v_drain v ≠ NotStarted;
  wt_stopping : ∀ tid, v_drain v = StoppingJobs tid → ∃ p, s_tasks (v_system v) !! tid = Some (ShuttingDown p);
  wt_served : match v_main v with
              | Shutting (Some _) | Cutting (Some _) | Done _ => True
              | _ => is_Some (v_returned v) → is_Some (v_served v)
              end;
}.

(** The context is done, or the transport has failed. *)
Definition triggered (v : serving) : Prop :=
  v_main v = Selecting → v_done v = true ∨ is_Some (v_served v).

Lemma after_shutdown_not_selecting serveErr d : after_shutdown serveErr d ≠ Selecting.
Proof. by destruct serveErr. Qed.

Lemma begin_shutdown_task tid sys sys' :
  sys_step durationpb_New Stack i s (BeginShutdown tid) sys = Some sys' →
  ∃ p, s_tasks sys' !! tid = Some (ShuttingDown p).
Proof.
  cbn. destruct (s_tasks sys !! tid); [done|]. intros [= <-]. eexists. apply lookup_insert_eq.
Qed.

Lemma serve_step_wait v v' : wait_inv v → serve_step lets_in graceful_returns v v' → wait_inv v'.
Proof.
  intros [Hs Ht Hv] H. destruct H as [ev sys' HA HS|e HR| |e tid sys' HM HV HS|tid sys' HM HD HS|tid HD HT|
    HD HG|serveErr HM HD|serveErr HM|serveErr HM HD|d e HM HV]; constructor; cbn; try done.
  - intros tid Hd. destruct (Ht _ Hd) as [p Hp]. destruct (tasks_kept _ _ _ _ _ _ _ _ _ HS Hp) as (t' & Ht' & Hsame).
    destruct t' as [| |p'| |]; try done. by exists p'.
  - destruct (v_main v) as [|[]|[]| |]; try done; by eexists.
  - intros tid' [= <-]. by eapply begin_shutdown_task.
  - intros tid' [= <-]. by eapply begin_shutdown_task.
  - by rewrite HM in Hv.
  - rewrite HM in Hv. by destruct serveErr.
  - rewrite HM in Hv. intros _. apply Hs. by rewrite HM.
  - rewrite HM in Hv. by destruct serveErr.
  - rewrite HM in Hv. by destruct serveErr.
  - intros _. apply Hs. by rewrite HM.
Qed.

Lemma serves_waits v : serves v → serve_inv v ∧ wait_inv v.
Proof.
  intros H. split; [by eapply serves_inv|]. assert (wait_inv (serve_init lg)) as Hi by (constructor; [done|done|by intros []]).
  revert Hi. induction H as [|v v1 v2 Hs _ IH]; [done|]. intros Hi. by apply IH, (serve_step_wait v).
Qed.

Lemma serve_step_triggered v v' : triggered v → serve_step lets_in graceful_returns v v' → triggered v'.
Proof.
  intros Ht H. destruct H; unfold triggered in *; cbn in *; try done; eauto.
  - intros Hs. by apply after_shutdown_not_selecting in Hs.
  - intros Hs. by apply after_shutdown_not_selecting in Hs.
Qed.

(** A busy system moves, and [Serve] lets it. *)
Lemma system_moves v :
  reachable (v_system v) → fits (s_world (v_system v)) → (∃ sys', moves (v_system v) sys') → ∃ v', quiet_step v v'.
Proof.
  intros Hr Hf [sys' Hm]. pose proof Hm as (ev & Hev & H). eexists. split; [eapply SystemRuns; [|exact H]; by destruct ev|].
  intros E. apply (f_equal v_system) in E. cbn in E. subst sys'.
  eapply (acc_irrefl closer); [apply closer_wf|]. by eapply moves_closer.
Qed.

(** A step of [Serve] itself that changes where it is. *)
Lemma main_moves v v' :
  serve_step (λ _ _, False) graceful_returns v v' →
  v_main v' ≠ v_main v ∨ v_drain v' ≠ v_drain v ∨ v_returned v' ≠ v_returned v → ∃ v', quiet_step v v'.
Proof. intros H Hne. exists v'. split; [done|]. intros E. rewrite E in Hne. naive_solver. Qed.

Lemma shutdown_advances v :
  serve_inv v → wait_inv v → fits (s_world (v_system v)) → v_main v ≠ Selecting → v_drain v ≠ Stopped →
  ∃ v', quiet_step v v'.
Proof.
  intros Hi Hw Hf Hm Hd. pose proof (vi_system _ _ _ _ _ _ _ _ Hi) as Hr.
  destruct (busy_moves _ _ _ _ _ _ Hr Hf) as [[Hrest _]|Hbusy]; [|by apply system_moves].
  destruct (v_drain v) as [|tid| |] eqn:Ed; [|..]; [by destruct (wt_started _ Hw Hm)| | |done].
  - destruct (wt_stopping _ Hw _ Ed) as [p Hp]. pose proof (map_Forall_lookup_1 _ _ _ _ Hrest Hp) as Hset.
    destruct (sy_tasks _ _ _ (reachable_inv _ _ _ _ _ _ Hr) _ _ Hp) as [w0 Hok]. cbn in Hset, Hok.
    destruct p as [[]|v0|f]; [|done..]. eapply main_moves; [by eapply JobsStopped|]. right. left. cbn. by rewrite Ed.
  - eapply main_moves; [eapply GracefulReturns; [done|]|].
    + apply graceful_completes. intros tid t Ht. pose proof (map_Forall_lookup_1 _ _ _ _ Hrest Ht). by destruct t.
    + right. left. cbn. by rewrite Ed.
Qed.

Lemma serve_advances v :
  serve_inv v → wait_inv v → triggered v → fits (s_world (v_system v)) →
  (∃ r, v_main v = Done r) ∨ ∃ v', quiet_step v v'.
Proof.
  intros Hi Hw Ht Hf.
  assert (v_main v ≠ Selecting → v_drain v = Stopped ∨ ∃ v', quiet_step v v') as Hdrain.
  { intros Hm. destruct (v_drain v) eqn:Ed; auto; right; apply shutdown_advances; try done; congruence. }
  destruct (v_main v) as [|e|e|d|r] eqn:Em; [| | | |by left; exists r]; right.
  - assert (s_tasks (v_system v) !! fresh (dom (s_tasks (v_system v))) = None) as Hn
      by apply not_elem_of_dom, is_fresh.
    destruct (Ht Em) as [Hd|[e He]].
    + eapply main_moves; [eapply SelectDone; [done|done|cbn; by rewrite Hn]|]. left. cbn. by rewrite Em.
    + eapply main_moves; [eapply SelectServed; [done|done|cbn; by rewrite Hn]|]. left. cbn. by rewrite Em.
  - destruct (Hdrain ltac:(done)) as [Hd|]; [|done].
    eapply main_moves; [by eapply ShutdownDrained|]. left. cbn. rewrite Em. by destruct e.
  - destruct (Hdrain ltac:(done)) as [Hd|]; [|done].
    eapply main_moves; [by eapply ShutdownCut|]. left. cbn. rewrite Em. by destruct e.
  - pose proof (wt_served _ Hw) as Hs. rewrite Em in Hs. destruct (v_returned v) as [r|] eqn:Er.
    + destruct (Hs ltac:(done)) as [e He]. eapply main_moves; [by eapply TransportReceived|]. left. cbn. by rewrite Em.
    + eapply main_moves; [by apply (TransportReturns _ _ _ _ _ _ _ _ v None)|]. right. right. cbn. by rewrite Er.
Qed.

(** ** Properties *)

(** C14: [Serve] returns: once its context is done or the transport has failed,
    and no RPC arrives any more, every run of the rest of the events is finite
    and none gets stuck before [Serve] has returned. *)
Theorem serve_always_returns (v : serving) (HV : serves v) (HT : triggered v) :
  inevitable quiet_step (λ v', fits (s_world (v_system v')) → ∃ r, v_main v' = Done r) v.
Proof.
  eapply (inevitable_wf _ _ (λ v, (serve_inv v ∧ wait_inv v) ∧ triggered v) closer_to_end);
    [|apply closer_to_end_wf|split; [by apply serves_waits|done]].
  intros v1 [[Hi Hw] Ht]. destruct (decide (fits (s_world (v_system v1)))) as [Hf|Hn]; [|by left].
  destruct (serve_advances v1 Hi Hw Ht Hf) as [|He]; [by left|]. right. split; [done|].
  intros v2 Hq. pose proof (quiet_allowed _ _ (proj1 Hq)) as Hs. split; [split; [split|]|].
  - by eapply serve_step_inv.
  - by eapply serve_step_wait.
  - by eapply serve_step_triggered.
  - apply quiet_closer; [apply Hi|done|done].
Qed.

End serve.

(** ** The property at work *)

Section samples.
Import sample.

Lemma graceful_returns_completes sys stopped : no_rpc_in_flight sys → graceful_returns sys stopped.
Proof. by right. Qed.

(** A job runs, and the context of [Serve] is done. *)
Definition interrupted : serving := mkServing (after started) Selecting NotStarted None None true false [].

Lemma serves_interrupted :
  server.serves seconds "stack" sample.interceptor sample.svc slog.DiscardHandler 5 lets_in graceful_returns None interrupted.
Proof.
  assert (run started init = Some (after started)) as H1 by (apply run_after; vm_compute; reflexivity).
  unfold server.serves, serve_init.
  etrans; [apply (system_runs seconds "stack" sample.interceptor sample.svc slog.DiscardHandler 5
    lets_in graceful_returns started _ (after started)); [by repeat constructor|exact H1]|]. cbn.
  apply rtc_once. apply ContextDone.
Qed.

Lemma serve_always_returns_witness :
  inevitable (quiet_step seconds "stack" sample.interceptor sample.svc slog.DiscardHandler 5 graceful_returns)
    (λ v', fits (s_world (v_system v')) → ∃ r, v_main v' = Done r) interrupted.
Proof.
  apply (serve_always_returns seconds "stack" sample.interceptor sample.svc slog.DiscardHandler 5 None
    lets_in graceful_returns lets_in_refuses graceful_returns_waits graceful_returns_completes interrupted).
  - apply serves_interrupted.
  - intros _. left. reflexivity.
Defined.

End samples.
End server_liveness.
