(* ===== verification/TimedServe.v ===== *)
(** * A shutdown against the clock: [internal/server/server.go]

    [shutdown] arms a timer on its way into its select
    ([time.After(s.shutdownGrace)]). [timed] is a server that serves
    ([Server.v]) with the clock and that timer: time passes, the parts of
    [Serve] move, and the timer's arm of the select is taken only once its
    deadline is reached. Forgetting the clock gives a run of [Server.v]. *)

From S2P Require Import Prelude GoStrings GoErrors Conc X509 SpiffeID X509SVID Identity TrustBundle.
From S2P Require Import Authz Slog Context Authenticator Wire Job JobInvariant Registry Ticks.
From S2P Require Import Service ServiceSpec StreamSpec Interceptor System Ownership Server Sample.
From S2P Require Import ServerProperties SystemLiveness ServerLiveness Daemon.

Module timed_server.
Import worker conc context authenticator registry service interceptor system server server_properties server_liveness.
Local Open Scope Z_scope.

(** ** The server, the clock and the timer *)

(** What happens at most once to a server that serves: its context is done or
    its transport returns; its shutdown begins; the grace elapses; the goroutine
    of [shutdown] ends; the transport returns. *)
Inductive mark := Triggered | Began | CutOff | Drained | Returned.

Definition selecting (p : main_pc) : bool := match p with Selecting => true | _ => false end.

Definition has_returned (v : serving) : bool := if v_returned v is Some _ then true else false.

Lemma has_returned_Some v : has_returned v = true ↔ is_Some (v_returned v).
Proof. unfold has_returned. destruct (v_returned v); split; [by eexists|done|done|by intros []]. Qed.

Definition flag (m : mark) (v : serving) : bool :=
  match m with
  | Triggered => v_done v || has_returned v
  | Began => negb (selecting (v_main v))
  | CutOff => v_cut v
  | Drained => match v_drain v with Stopped => true | _ => false end
  | Returned => has_returned v
  end.

(** [t_since] is when [Serve] took its last step, and [t_at] when each mark was
    first reached: only the theorems read them. *)
Record timed := mkTimed {
  t_serving : serving;
  t_now : Z;
  t_deadline : Z;
  t_since : Z;
  t_at : mark → option Z;
}.

(** A server whose [Serve] is called at time [at_]. *)
Definition timed_start (lg : option slog.Logger) (at_ : Z) : timed :=
  mkTimed (serve_init lg) at_ at_ at_ (λ _, None).

Definition pass (d : Z) (t : timed) : timed :=
  mkTimed (t_serving t) (t_now t + d) (t_deadline t) (t_since t) (t_at t).

(** The step from [p] to [p'] enters the select of [shutdown]. *)
Definition enters (p p' : main_pc) : bool :=
  match p, p' with Selecting, Shutting _ => true | _, _ => false end.

(** The step takes the timer's arm of that select. *)
Definition elapses (p p' : main_pc) : bool :=
  match p, p' with Shutting _, Cutting _ => true | _, _ => false end.

(** The arm is ready from the deadline on. *)
Definition ready (v' : serving) (t : timed) : bool :=
  negb (elapses (v_main (t_serving t)) (v_main v')) || (t_deadline t <=? t_now t).

(** [t] once its server has moved to [v']: the timer is armed on the way into
    the select. *)
Definition moved (grace : Z) (v' : serving) (t : timed) : timed :=
  let p := v_main (t_serving t) in
  {| t_serving := v';
     t_now := t_now t;
     t_deadline := if enters p (v_main v') then t_now t + grace else t_deadline t;
     t_since := if (main_rank (v_main v') =? main_rank p)%nat then t_since t else t_now t;
     t_at m := match t_at t m with
               | Some at_ => Some at_
               | None => if flag m v' then Some (t_now t) else None
               end |}.

(** ** On time *)

(** The mark that [Serve] waits for where it is. *)
Definition awaited (p : main_pc) : option mark :=
  match p with
  | Selecting => Some Triggered
  | Shutting _ | Cutting _ => Some Drained
  | Receiving _ => Some Returned
  | Done _ => None
  end.

(** From when on [Serve] can take its next step: from what it waits for, or
    from the deadline of its timer. *)
Definition due (t : timed) : option Z :=
  let woken := m ← awaited (v_main (t_serving t)); Z.max (t_since t) <$> t_at t m in
  match v_main (t_serving t) with
  | Shutting _ => Some (match woken with Some w => Z.min (t_deadline t) w | None => t_deadline t end)
  | _ => woken
  end.

(** [Serve] is not more than [late] behind. *)
Definition in_time (late : Z) (t : timed) : Prop := ∀ d, due t = Some d → t_now t <= d + late.

Section serve.
Context {A : Type} `{peers : PeerAuthenticator A}.
Context (durationpb_New : Z → fizzledv1.Duration) (Stack : string).
Context (i : Interceptor A) (s : Service) (logger : slog.Logger) (grace : Z) (lg : option slog.Logger).
Context (lets_in : bool → bool → Prop) (graceful_returns : system → bool → Prop).
Abbreviation serve_step := (serve_step durationpb_New Stack i s logger grace lets_in graceful_returns).
Abbreviation serves := (serves durationpb_New Stack i s logger grace lets_in graceful_returns lg).
Abbreviation serve_inv := (serve_inv durationpb_New Stack i s logger grace lg).

Inductive timed_step (t : timed) : timed → Prop :=
| Passes d (HD : 0 <= d) : timed_step t (pass d t)
| Moves v' (HS : serve_step (t_serving t) v') (HR : ready v' t = true) : timed_step t (moved grace v' t).

(** A step after which [Serve] is not more than [late] behind. *)
Definition prompt_step (late : Z) (t t' : timed) : Prop := timed_step t t' ∧ in_time late t'.

Lemma timed_step_serves t t' : serves (t_serving t) → timed_step t t' → serves (t_serving t').
Proof. intros H [d HD|v' HS HR]; [done|]. by eapply rtc_r. Qed.


Context (draining_refuses : ∀ stopped, ¬ lets_in true stopped).
Context (graceful_waits : ∀ sys, graceful_returns sys false → no_rpc_in_flight sys).

(** ** What the marks say *)

(** The error of the transport is there only once the transport has returned. *)
Definition received (v : serving) : Prop :=
  (is_Some (v_served v) → has_returned v = true) ∧
  match v_main v with
  | Shutting (Some _) | Cutting (Some _) | Done _ => has_returned v = true
  | _ => True
  end.

Lemma serve_step_received v v' : received v → serve_step v v' → received v'.
Proof.
  intros [Hs Hm] []; unfold received; cbn in *; rewrite ?HM in *; split; try done; eauto.
  - by destruct (v_main v) as [|[]|[]| |].
  - by destruct serveErr.
  - by destruct serveErr.
Qed.

Lemma after_shutdown_selecting e d : selecting (after_shutdown e d) = false.
Proof. by destruct e. Qed.

Lemma serves_ok v : serves v → serve_inv v.
Proof. exact (serves_inv _ _ _ _ _ _ _ _ _ draining_refuses graceful_waits v). Qed.

Lemma flag_kept m v v' : serves v → serve_step v v' → flag m v = true → flag m v' = true.
Proof.
  intros Hv Hs. pose proof (vi_main _ _ _ _ _ _ _ _ (serves_ok v Hv)) as Hm.
  destruct Hs, m; cbn; rewrite ?HM, ?HD, ?after_shutdown_selecting in *; cbn; try done;
    intros H; rewrite ?H, ?orb_true_r; try done; destruct Hm as [Hm _]; by rewrite Hm in H.
Qed.

Lemma timed_start_flag m : flag m (serve_init lg) = false.
Proof. by destruct m. Qed.

(** A mark is noted when it is first reached, and kept. *)
Lemma mark_kept v' t m a : t_at t m = Some a → t_at (moved grace v' t) m = Some a.
Proof. intros H. cbn. by rewrite H. Qed.

Lemma mark_new v' t m a :
  t_at (moved grace v' t) m = Some a →
  t_at t m = Some a ∨ t_at t m = None ∧ a = t_now t ∧ flag m v' = true.
Proof. cbn. destruct (t_at t m) as [b|]; [by left|]. destruct (flag m v'); [|done]. intros [= <-]. by right. Qed.

Definition marks_ok (t : timed) : Prop := ∀ m,
  match t_at t m with
  | Some a => flag m (t_serving t) = true ∧ a <= t_now t
  | None => flag m (t_serving t) = false
  end.

Lemma mark_of t m : marks_ok t → flag m (t_serving t) = true → ∃ a, t_at t m = Some a ∧ a <= t_now t.
Proof. intros H Hf. specialize (H m). destruct (t_at t m) as [a|]; [|congruence]. exists a. by destruct H. Qed.

Lemma mark_None t m : marks_ok t → flag m (t_serving t) = false → t_at t m = None.
Proof. intros H Hf. specialize (H m). destruct (t_at t m); [|done]. destruct H. congruence. Qed.

Lemma marks_moved v' t :
  serves (t_serving t) → marks_ok t → serve_step (t_serving t) v' → marks_ok (moved grace v' t).
Proof.
  intros Hv H Hs m. specialize (H m). cbn. destruct (t_at t m) as [a|].
  - destruct H. split; [by eapply flag_kept|done].
  - destruct (flag m v'); [split; [done|lia]|done].
Qed.

(** ** The invariant *)

Section in_time.
Context (late : Z) (Hlate : 0 <= late).

(** What the clock shows of where [Serve] is. *)
Definition main_ok (t : timed) : Prop :=
  match v_main (t_serving t) with
  | Selecting => ∀ a, t_at t Triggered = Some a → t_since t <= a
  | Shutting _ => t_at t Began = Some (t_since t) ∧ t_deadline t = t_since t + grace
  | Cutting _ => t_at t CutOff = Some (t_since t)
  | Receiving _ => ∃ d, t_at t Drained = Some d ∧ t_since t <= d + 2 * late
  | Done _ => ∃ d r, t_at t Drained = Some d ∧ t_at t Returned = Some r ∧ t_since t <= Z.max d r + 3 * late
  end.

Record clock_inv (t : timed) : Prop := {
  ci_serves : serves (t_serving t);
  ci_received : received (t_serving t);
  ci_marks : marks_ok t;
  ci_in_time : in_time late t;
  ci_since : t_since t <= t_now t;
  ci_main : main_ok t;
  ci_began : ∀ b, t_at t Began = Some b → ∃ a, t_at t Triggered = Some a ∧ a <= b <= a + late;
  ci_cut : ∀ c, t_at t CutOff = Some c →
    (∃ b, t_at t Began = Some b ∧ b + grace <= c <= b + grace + late) ∧
    ∀ d, t_at t Drained = Some d → c <= d + late;
  ci_drained : ∀ d, t_at t Drained = Some d → ∃ b, t_at t Began = Some b ∧ b <= d;
}.

(** ** Each step *)

Lemma woken_in_time t m a :
  in_time late t → awaited (v_main (t_serving t)) = Some m → t_at t m = Some a →
  t_now t <= Z.max (t_since t) a + late.
Proof.
  unfold in_time, due. intros Hi Hm Ha. rewrite Hm in Hi. cbn in Hi. rewrite Ha in Hi. cbn in Hi.
  destruct (v_main (t_serving t)); specialize (Hi _ eq_refl); lia.
Qed.

Lemma began_moved v' t :
  clock_inv t → serve_step (t_serving t) v' →
  ∀ b, t_at (moved grace v' t) Began = Some b →
    ∃ a, t_at (moved grace v' t) Triggered = Some a ∧ a <= b <= a + late.
Proof.
  intros Hi Hs b [Hb|(Hb & -> & Hf)]%mark_new.
  { destruct (ci_began _ Hi b Hb) as (a & Ha & ?). exists a. split; [by apply mark_kept|done]. }
  pose proof (ci_marks _ Hi Began) as Hsel. rewrite Hb in Hsel. cbn in Hsel.
  assert (v_main (t_serving t) = Selecting) as Hm by (by destruct (v_main (t_serving t))).
  assert (flag Triggered (t_serving t) = true) as Ht.
  { destruct (ci_received _ Hi) as [Hr _]. destruct Hs; cbn in Hf |- *; rewrite ?HM, ?Hm in *; try done.
    - rewrite (Hr ltac:(by eexists)). by rewrite orb_true_r.
    - by rewrite HD. }
  destruct (mark_of _ _ (ci_marks _ Hi) Ht) as (a & Ha & Hle). exists a. split; [by apply mark_kept|].
  pose proof (woken_in_time t Triggered a (ci_in_time _ Hi) ltac:(by rewrite Hm) Ha) as Hn.
  pose proof (ci_main _ Hi) as Hok. unfold main_ok in Hok. rewrite Hm in Hok. specialize (Hok a Ha). lia.
Qed.

Lemma drained_moved v' t :
  clock_inv t → serve_step (t_serving t) v' →
  ∀ d, t_at (moved grace v' t) Drained = Some d → ∃ b, t_at (moved grace v' t) Began = Some b ∧ b <= d.
Proof.
  intros Hi Hs d [Hd|(_ & -> & Hf)]%mark_new.
  { destruct (ci_drained _ Hi d Hd) as (b & Hb & ?). exists b. split; [by apply mark_kept|done]. }
  assert (flag Began v' = true) as Hb.
  { pose proof (vi_main _ _ _ _ _ _ _ _ (serves_ok v' (rtc_r _ _ _ (ci_serves _ Hi) Hs))) as Hm. cbn in Hf |- *. destruct (v_main v'); try done.
    destruct Hm as [Hm _]. by rewrite Hm in Hf. }
  exact (mark_of _ _ (marks_moved _ _ (ci_serves _ Hi) (ci_marks _ Hi) Hs) Hb).
Qed.

(** [Serve] leaves the select of [shutdown], or the wait for its goroutine,
    soon after that goroutine has ended. *)
Lemma drained_in_time t :
  clock_inv t → v_drain (t_serving t) = Stopped → awaited (v_main (t_serving t)) = Some Drained →
  ∃ d, t_at t Drained = Some d ∧ d <= t_now t ∧ t_now t <= Z.max (t_since t) d + late.
Proof.
  intros Hi Hd Hm. destruct (mark_of t Drained (ci_marks _ Hi)) as (d & Ha & Hle); [cbn; by rewrite Hd|].
  exists d. split_and!; [done..|]. by eapply woken_in_time; [apply Hi| |].
Qed.

(** The grace elapses when the timer says so. *)
Lemma elapses_in_time v' t e :
  clock_inv t → v_main (t_serving t) = Shutting e → elapses (Shutting e) (v_main v') = true → ready v' t = true →
  ∃ b, t_at t Began = Some b ∧ b + grace <= t_now t <= b + grace + late ∧
    ∀ d, t_at t Drained = Some d → t_now t <= d + late.
Proof.
  intros Hi Hm He Hr. unfold ready in Hr. rewrite Hm, He in Hr. cbn in Hr.
  pose proof (ci_main _ Hi) as Hok. unfold main_ok in Hok. rewrite Hm in Hok. destruct Hok as [Hb Hd].
  pose proof (ci_in_time _ Hi) as Ht. unfold in_time, due in Ht. rewrite Hm in Ht. cbn in Ht.
  specialize (Ht _ eq_refl). exists (t_since t). split_and!; [done|lia| |].
  - destruct (t_at t Drained); cbn in Ht; lia.
  - intros d Ha. rewrite Ha in Ht. cbn in Ht. destruct (ci_drained _ Hi d Ha) as (b & Hb' & Hle).
    rewrite Hb in Hb'. simplify_eq. lia.
Qed.

Lemma cut_moved v' t :
  clock_inv t → serve_step (t_serving t) v' → ready v' t = true →
  ∀ c, t_at (moved grace v' t) CutOff = Some c →
    (∃ b, t_at (moved grace v' t) Began = Some b ∧ b + grace <= c <= b + grace + late) ∧
    ∀ d, t_at (moved grace v' t) Drained = Some d → c <= d + late.
Proof.
  intros Hi Hs Hr c [Hc|(Hc & -> & Hf)]%mark_new.
  - destruct (ci_cut _ Hi c Hc) as [(b & Hb & ?) Hd]. split; [exists b; split; [by apply mark_kept|done]|].
    intros d [Hd'|(_ & -> & _)]%mark_new; [by apply Hd|].
    pose proof (ci_marks _ Hi CutOff) as Hm. rewrite Hc in Hm. lia.
  - pose proof (ci_marks _ Hi CutOff) as Hm. rewrite Hc in Hm. cbn in Hm, Hf.
    assert (∃ e, v_main (t_serving t) = Shutting e ∧ elapses (Shutting e) (v_main v') = true ∧
      v_drain v' = v_drain (t_serving t)) as (e & He & Hel & Hdr) by (destruct Hs; cbn in Hf; try congruence; eauto).
    destruct (elapses_in_time v' t e Hi He Hel Hr) as (b & Hb & Hle & Hd).
    split; [exists b; split; [by apply mark_kept|done]|].
    intros d [Hd'|(Hn & _ & Hf')]%mark_new; [by apply Hd|].
    pose proof (ci_marks _ Hi Drained) as Hm'. rewrite Hn in Hm'. cbn in Hm', Hf'. rewrite Hdr in Hf'. congruence.
Qed.

(** Where [Serve] stays, the clock shows the same. *)
Lemma main_stays v' t :
  clock_inv t → v_main v' = v_main (t_serving t) → main_ok (moved grace v' t).
Proof.
  intros Hi Hm. pose proof (ci_main _ Hi) as Hok. pose proof (ci_since _ Hi).
  assert (enters (v_main (t_serving t)) (v_main v') = false) as He by (rewrite Hm; by destruct (v_main (t_serving t))).
  unfold main_ok in *. cbn -[t_at]. rewrite Hm, Nat.eqb_refl in *. rewrite He.
  destruct (v_main (t_serving t)).
  - intros a [Ha|(_ & -> & _)]%mark_new; [by apply Hok|lia].
  - destruct Hok as [Hb Hd]. split; [by apply mark_kept|done].
  - by apply mark_kept.
  - destruct Hok as (d & Hd & ?). exists d. split; [by apply mark_kept|done].
  - destruct Hok as (d & r' & Hd & Hr & ?). exists d, r'. split_and!; [by apply mark_kept..|done].
Qed.

(** The goroutine of [shutdown] has ended, and its select or wait with it. *)
Lemma left_ok v' t e d :
  clock_inv t → v_main v' = after_shutdown e d → (e ≠ None → has_returned (t_serving t) = true) →
  (main_rank (v_main v') < main_rank (v_main (t_serving t)))%nat →
  (∃ at_, t_at t Drained = Some at_ ∧ t_now t <= at_ + 2 * late) → main_ok (moved grace v' t).
Proof.
  intros Hi Hm Hr Hlt (at_ & Hd & Hle). unfold main_ok. cbn -[t_at].
  rewrite (proj2 (Nat.eqb_neq _ _)) by lia. rewrite Hm. destruct e as [e|]; cbn -[t_at].
  - destruct (mark_of t Returned (ci_marks _ Hi)) as (r' & Hr' & ?); [by apply Hr|].
    exists at_, r'. split_and!; [by apply mark_kept..|lia].
  - exists at_. split; [by apply mark_kept|lia].
Qed.

Lemma main_enters v' t e :
  clock_inv t → v_main (t_serving t) = Selecting → v_main v' = Shutting e → main_ok (moved grace v' t).
Proof.
  intros Hi Hm Hm'. unfold main_ok, moved. cbn. rewrite Hm, Hm'. cbn. split; [|done].
  by rewrite (mark_None t Began (ci_marks _ Hi) ltac:(cbn; by rewrite Hm)).
Qed.

Lemma main_cuts v' t e e' :
  clock_inv t → v_main (t_serving t) = Shutting e → v_main v' = Cutting e' → v_cut v' = true →
  main_ok (moved grace v' t).
Proof.
  intros Hi Hm Hm' Hc. pose proof (vi_main _ _ _ _ _ _ _ _ (serves_ok _ (ci_serves _ Hi))) as Hv. rewrite Hm in Hv.
  unfold main_ok, moved. cbn. rewrite Hm, Hm'. cbn. rewrite Hc. by rewrite (mark_None t CutOff (ci_marks _ Hi) Hv).
Qed.

Lemma main_moved v' t : clock_inv t → serve_step (t_serving t) v' → main_ok (moved grace v' t).
Proof.
  intros Hi Hs. pose proof (ci_received _ Hi) as [_ Hr]. destruct Hs; cbn [v_main] in *; try by apply main_stays.
  - by eapply main_enters.
  - by eapply main_enters.
  - rewrite HM in Hr. destruct (drained_in_time t Hi HD) as (d & Hd & _ & Hle); [by rewrite HM|].
    pose proof (ci_main _ Hi) as Hok. unfold main_ok in Hok. rewrite HM in Hok. destruct Hok as [Hb _].
    destruct (ci_drained _ Hi d Hd) as (b & Hb' & ?). rewrite Hb in Hb'. simplify_eq.
    eapply left_ok; [done|done| | |exists d; split; [done|lia]].
    + by destruct serveErr.
    + rewrite HM. cbn. destruct serveErr; cbn; lia.
  - by eapply main_cuts.
  - rewrite HM in Hr. destruct (drained_in_time t Hi HD) as (d & Hd & _ & Hle); [by rewrite HM|].
    pose proof (ci_main _ Hi) as Hok. unfold main_ok in Hok. rewrite HM in Hok.
    destruct (ci_cut _ Hi _ Hok) as [_ Hc]. specialize (Hc d Hd).
    eapply left_ok; [done|done| | |exists d; split; [done|lia]].
    + by destruct serveErr.
    + rewrite HM. cbn. destruct serveErr; cbn; lia.
  - pose proof (ci_main _ Hi) as Hok. unfold main_ok in Hok. rewrite HM in Hok. destruct Hok as (d & Hd & Hle).
    pose proof (proj1 (ci_received _ Hi) ltac:(by eexists)) as Hret.
    destruct (mark_of t Returned (ci_marks _ Hi) Hret) as (x & Hx & _).
    pose proof (woken_in_time t Returned x (ci_in_time _ Hi) ltac:(by rewrite HM) Hx).
    unfold main_ok. cbn -[t_at]. rewrite HM. cbn -[t_at]. exists d, x. split_and!; [by apply mark_kept..|lia].
Qed.

(** ** Every run *)

Lemma serve_clock_pass d t : clock_inv t → 0 <= d → in_time late (pass d t) → clock_inv (pass d t).
Proof.
  intros [Hv Hr Hm _ Hs Hok Hb Hc Hd] H0 Hi. constructor; try done; cbn; [|lia].
  intros m. specialize (Hm m). cbn. destruct (t_at t m); [|done]. destruct Hm. split; [done|lia].
Qed.

Lemma serve_clock_step t t' : clock_inv t → prompt_step late t t' → clock_inv t'.
Proof.
  intros Hi [[d HD|v' HS HR] Ht]; [by apply serve_clock_pass|]. constructor.
  - by eapply rtc_r; [apply Hi|].
  - by eapply serve_step_received; [apply Hi|].
  - by apply marks_moved; [apply Hi..|].
  - done.
  - pose proof (ci_since _ Hi). cbn. destruct (_ =? _)%nat; lia.
  - by apply main_moved.
  - by apply began_moved.
  - by apply cut_moved.
  - by apply drained_moved.
Qed.

Lemma serve_clock_start at_ : clock_inv (timed_start lg at_).
Proof.
  constructor; cbn; try done; try lia; [apply rtc_refl|by split; [intros []|]|].
  intros m. cbn. apply timed_start_flag.
Qed.

Lemma serve_clock_run t t' : clock_inv t → rtc (prompt_step late) t t' → clock_inv t'.
Proof. intros Hi H. revert Hi. induction H; eauto using serve_clock_step. Qed.

(** ** [Serve] can always take its next step in time *)

Context (Hgrace : 0 <= grace).

(** A step of [Serve] itself leaves it in time. *)
Lemma moved_in_time v' t :
  (main_rank (v_main v') < main_rank (v_main (t_serving t)))%nat → in_time late (moved grace v' t).
Proof.
  intros Hlt d. unfold due. cbn -[t_at main_rank]. rewrite (proj2 (Nat.eqb_neq _ _)) by lia.
  assert (∀ p, v_main v' = Shutting p → enters (v_main (t_serving t)) (Shutting p) = true) as He.
  { intros p Hp. rewrite Hp in Hlt. destruct (v_main (t_serving t)); cbn in Hlt |- *; lia || done. }
  destruct (v_main v') eqn:Hm; rewrite ?(He _ eq_refl); cbn -[t_at];
    try destruct (t_at (moved grace v' t) _); cbn; intros; simplify_eq; lia.
Qed.

Lemma goes_on v' t :
  serve_step (t_serving t) v' → ready v' t = true →
  (main_rank (v_main v') < main_rank (v_main (t_serving t)))%nat →
  ∃ t', rtc (prompt_step late) t t' ∧
    (main_rank (v_main (t_serving t')) < main_rank (v_main (t_serving t)))%nat.
Proof.
  intros Hs Hr Hlt. exists (moved grace v' t). split; [|done]. apply rtc_once.
  split; [by apply Moves|by apply moved_in_time].
Qed.

(** Every step of [Serve] but the timer's is ready. *)
Lemma goes_on_untimed v' t p :
  v_main (t_serving t) = p → elapses p (v_main v') = false → (main_rank (v_main v') < main_rank p)%nat →
  serve_step (t_serving t) v' →
  ∃ t', rtc (prompt_step late) t t' ∧
    (main_rank (v_main (t_serving t')) < main_rank (v_main (t_serving t)))%nat.
Proof. intros <- He Hlt Hs. apply (goes_on v'); [done| |done]. unfold ready. by rewrite He. Qed.

Lemma after_shutdown_rank e d : (main_rank (after_shutdown e d) < 2)%nat.
Proof. destruct e; cbn; lia. Qed.

(** The timer's arm, once the clock has reached its deadline. *)
Lemma timer_goes_on t e :
  clock_inv t → v_main (t_serving t) = Shutting e → t_at t Drained = None →
  ∃ t', rtc (prompt_step late) t t' ∧
    (main_rank (v_main (t_serving t')) < main_rank (v_main (t_serving t)))%nat.
Proof.
  intros Hi Hm Hn. set (t1 := pass (Z.max 0 (t_deadline t - t_now t)) t).
  assert (∀ t2, t_serving t2 = t_serving t → t_at t2 = t_at t → t_deadline t2 = t_deadline t →
    due t2 = Some (t_deadline t)) as Hdue.
  { intros t2 Hv Ha Hd. unfold due. rewrite Hv, Ha, Hd, Hm. cbn. by rewrite Hn. }
  pose proof (ci_in_time _ Hi _ (Hdue t eq_refl eq_refl eq_refl)) as Ht.
  assert (prompt_step late t t1) as H1.
  { split; [apply Passes; lia|]. intros d. rewrite (Hdue t1) by done. intros [= <-]. cbn. lia. }
  destruct (goes_on _ t1 (GraceElapses _ _ _ _ logger grace _ _ _ e Hm)) as (t' & Ht' & Hlt).
  - unfold ready. apply orb_true_iff. right. cbn. lia.
  - cbn. rewrite Hm. cbn. lia.
  - exists t'. split; [by eapply rtc_l|exact Hlt].
Qed.

Lemma shutdown_goes_on t e :
  clock_inv t → v_main (t_serving t) = Shutting e →
  ∃ t', rtc (prompt_step late) t t' ∧
    (main_rank (v_main (t_serving t')) < main_rank (v_main (t_serving t)))%nat.
Proof.
  intros Hi Hm. pose proof (ci_marks _ Hi Drained) as Hd.
  destruct (t_at t Drained) as [a|] eqn:Ha; [|by eapply timer_goes_on]. destruct Hd as [Hd _]. cbn in Hd.
  destruct (v_drain (t_serving t)) eqn:E; try done.
  eapply goes_on_untimed; [done| | |by eapply ShutdownDrained]; cbn; [by destruct e|].
  pose proof (after_shutdown_rank e true). lia.
Qed.

Lemma serve_goes_on t d :
  clock_inv t → due t = Some d →
  ∃ t', rtc (prompt_step late) t t' ∧
    (main_rank (v_main (t_serving t')) < main_rank (v_main (t_serving t)))%nat.
Proof.
  intros Hi Hd. set (v := t_serving t).
  destruct (serves_waits _ _ _ _ _ _ _ _ _ draining_refuses graceful_waits v (ci_serves _ Hi)) as [_ Hw].
  pose proof (wt_served _ Hw) as Hserved.
  assert (s_tasks (v_system v) !! fresh (dom (s_tasks (v_system v))) = None) as Hfresh
    by apply not_elem_of_dom, is_fresh.
  assert (∀ m, awaited (v_main v) = Some m → (∀ e, v_main v ≠ Shutting e) → flag m v = true) as Hf.
  { intros m Hm Hne. pose proof (ci_marks _ Hi m) as H. unfold due in Hd. fold v in Hd. rewrite Hm in Hd. cbn in Hd.
    destruct (t_at t m); [by destruct H|]. destruct (v_main v) as [|e|e|b|r]; try done. by destruct (Hne e). }
  destruct (v_main v) as [|e|e|b|r] eqn:Hm; rewrite <-Hm.
  - specialize (Hf Triggered eq_refl ltac:(done)). cbn in Hf. apply orb_true_iff in Hf as [Hdone|Hret].
    + eapply goes_on_untimed; [done| | |eapply SelectDone; [done|done|cbn; fold v; by rewrite Hfresh]]; cbn; [done|lia].
    + destruct (Hserved (proj1 (has_returned_Some v) Hret)) as [e He].
      eapply goes_on_untimed; [done| | |eapply SelectServed; [done|done|cbn; fold v; by rewrite Hfresh]]; cbn; [done|lia].
  - by eapply shutdown_goes_on.
  - specialize (Hf Drained eq_refl ltac:(done)). cbn in Hf. destruct (v_drain v) eqn:Hdr; try done.
    eapply goes_on_untimed; [done| | |by eapply ShutdownCut]; cbn; [done|].
    pose proof (after_shutdown_rank e false); lia.
  - specialize (Hf Returned eq_refl ltac:(done)). destruct (Hserved (proj1 (has_returned_Some v) Hf)) as [e He].
    eapply goes_on_untimed; [done| | |by eapply TransportReceived]; cbn; [done|lia].
  - unfold due in Hd. fold v in Hd. by rewrite Hm in Hd.
Qed.

End in_time.

(** ** Property *)

(** C16: [Serve] keeps its grace, and returns on time. Of a server that is
    never more than [late] behind in its own steps, the clock forgotten, every
    run is one of [Serve]; its shutdown begins when its context is done or the
    transport returns, or at most [late] after; the transport is cut
    no sooner than the grace after the shutdown began and no later than [late]
    after that; a shutdown that ends more than [late] before its grace is never
    cut; [Serve] has returned within three times [late] of the end of the
    shutdown and of the transport, and what it returns is the error of the
    transport and whether it cut; and until then, whenever it has something to
    do, it can do it in time. *)
Theorem serve_on_time (late at_ : Z) (t : timed) (HL : 0 <= late) (HG : 0 <= grace)
  (HR : rtc (prompt_step late) (timed_start lg at_) t) :
  serves (t_serving t) ∧
  (∀ b, t_at t Began = Some b → ∃ a, t_at t Triggered = Some a ∧ a <= b <= a + late) ∧
  (∀ c, t_at t CutOff = Some c → ∃ b, t_at t Began = Some b ∧ b + grace <= c <= b + grace + late) ∧
  (∀ b d, t_at t Began = Some b → t_at t Drained = Some d → d + late < b + grace →
    t_at t CutOff = None) ∧
  (∀ r, v_main (t_serving t) = Done r →
    (∃ serveErr, v_returned (t_serving t) = Some serveErr ∧ r = outcome serveErr (bool_decide (t_at t CutOff = None))) ∧
    ∃ d x, t_at t Drained = Some d ∧ t_at t Returned = Some x ∧ t_since t <= Z.max d x + 3 * late) ∧
  (∀ d, due t = Some d → t_now t <= d + late ∧
    ∃ t', rtc (prompt_step late) t t' ∧
      (main_rank (v_main (t_serving t')) < main_rank (v_main (t_serving t)))%nat).
Proof.
  pose proof (serve_clock_run late HL _ _ (serve_clock_start late at_) HR) as Hi.
  pose proof (serves_ok _ (ci_serves _ _ Hi)) as Hv. split_and!.
  - apply Hi.
  - apply Hi.
  - intros c Hc. by apply (ci_cut _ _ Hi).
  - intros b d Hb Hd Hlt. destruct (t_at t CutOff) as [c|] eqn:E; [|done].
    destruct (ci_cut _ _ Hi c E) as [(b' & Hb' & Hle) Hd']. specialize (Hd' d Hd). simplify_eq. lia.
  - intros r Hr. pose proof (ci_main _ _ Hi) as Hm. pose proof (vi_main _ _ _ _ _ _ _ _ Hv) as Hm'.
    unfold main_ok in Hm. rewrite Hr in Hm, Hm'. split; [|exact Hm]. destruct Hm' as [_ (e & Hret & He)]. exists e. split; [exact Hret|].
    pose proof (ci_marks _ _ Hi CutOff) as Hc. cbn in Hc. rewrite He.
    destruct (t_at t CutOff); [destruct Hc as [Hc _]|]; by rewrite Hc.
  - intros d Hd. split; [by apply Hi|]. by eapply serve_goes_on.
Qed.

End serve.

(** ** The property at work: a shutdown that outlives a grace of 5 ns *)

Section samples.
Import sample.

Abbreviation serve_step := (server.serve_step seconds "stack" sample.interceptor sample.svc slog.DiscardHandler 5
  lets_in graceful_returns).
Abbreviation prompt_step := (prompt_step seconds "stack" sample.interceptor sample.svc slog.DiscardHandler 5
  lets_in graceful_returns 1).

(** Interrupted at 103, the shutdown begins at 104 and is cut at 109. *)
Definition sample_run (v1 v2 v3 : serving) : timed :=
  let t1 := moved 5 v1 (pass 3 (timed_start None 100)) in
  moved 5 v3 (pass 5 (moved 5 v2 (pass 1 t1))).

Lemma sample_cut : ∃ t, rtc prompt_step (timed_start None 100) t ∧
  t_at t Began = Some 104 ∧ t_at t CutOff = Some 109.
Proof.
  destruct (sys_step seconds "stack" sample.interceptor sample.svc (BeginShutdown 0) (sys_init None))
    as [sys|] eqn:E; [|vm_compute in E; discriminate E].
  set (v1 := mkServing (sys_init None) Selecting NotStarted None None true false []).
  set (v2 := mkServing sys (Shutting None) (StoppingJobs 0) None None true false []).
  set (v3 := mkServing sys (Cutting None) (StoppingJobs 0) None None true true (warning slog.DiscardHandler 5)).
  exists (sample_run v1 v2 v3). split; [|by split].
  assert (serve_step (serve_init None) v1) as H1 by apply ContextDone.
  assert (serve_step v1 v2) as H2 by by eapply (SelectDone _ _ _ _ _ _ _ _ v1 0 sys).
  assert (serve_step v2 v3) as H3 by
    exact (GraceElapses seconds "stack" sample.interceptor sample.svc slog.DiscardHandler 5 lets_in graceful_returns
      v2 None eq_refl).
  eapply rtc_l; [split; [by apply (Passes _ _ _ _ _ _ _ _ _ 3)|by intros d [=]]|].
  eapply rtc_l; [split; [by apply (Moves _ _ _ _ _ _ _ _ _ v1)|by intros d [= <-]]|].
  eapply rtc_l; [split; [by apply (Passes _ _ _ _ _ _ _ _ _ 1)|by intros d [= <-]]|].
  eapply rtc_l; [split; [by apply (Moves _ _ _ _ _ _ _ _ _ v2)|by intros d [= <-]]|].
  eapply rtc_l; [split; [by apply (Passes _ _ _ _ _ _ _ _ _ 5)|by intros d [= <-]]|].
  apply rtc_once. split; [by apply (Moves _ _ _ _ _ _ _ _ _ v3)|by intros d [= <-]].
Qed.

Lemma serve_on_time_witness : ∃ t, rtc prompt_step (timed_start None 100) t ∧ t_at t CutOff = Some 109 ∧
  ∃ b, t_at t Began = Some b ∧ b + 5 <= 109 <= b + 5 + 1.
Proof.
  destruct sample_cut as (t & HR & Hb & Hc). exists t. split; [exact HR|]. split; [exact Hc|].
  exact (proj1 (proj2 (proj2 (serve_on_time seconds "stack" sample.interceptor sample.svc slog.DiscardHandler 5 None
    lets_in graceful_returns lets_in_refuses graceful_returns_waits 1 100 t
    ltac:(done) ltac:(done) HR))) 109 Hc).
Defined.

(** A drain that ends as the grace elapses leaves both arms of the select
    ready, and [shutdown] may take the timer's: the server has drained, no RPC is
    open, and [Serve] returns [ErrShutdownGraceElapsed]. *)
Section race.
Import daemon.
Abbreviation svc := (NewService (Some logger)).1.
Abbreviation serve_step := (server.serve_step seconds "stack" sample.interceptor svc logger 5 lets_in graceful_returns).
Abbreviation race_step := (timed_server.prompt_step seconds "stack" sample.interceptor svc logger 5
  lets_in graceful_returns 0).

Definition raced (main : main_pc) (served returned : option (option error)) : serving :=
  mkServing stopped_system main Stopped served returned true true (warning logger 5).

Lemma race_moves v v' t :
  t_serving t = v → serve_step v v' → ready v' t = true → in_time 0 (moved 5 v' t) →
  race_step t (moved 5 v' t).
Proof. intros <- Hs Hr Hi. split; [by apply Moves|done]. Qed.

Lemma drained_shutdown_cut : ∃ t,
  rtc race_step (timed_start (Some logger) 100) t ∧
  t_at t Began = Some 100 ∧ t_at t Drained = Some 105 ∧ t_at t CutOff = Some 105 ∧
  no_rpc_in_flight (v_system (t_serving t)) ∧
  v_main (t_serving t) = Done (Some (errorf "serve" (Sentinel ErrShutdownGraceElapsed))).
Proof.
  destruct (sample_stops sample.interceptor) as (sys & Hbegin & Hrun).
  assert (no_rpc_in_flight stopped_system) as Hq by (apply answered_check_sound; vm_compute; reflexivity).
  set (v1 := mkServing (sys_init (Some logger)) Selecting NotStarted None None true false []).
  set (v2 := mkServing sys (Shutting None) (StoppingJobs 0) None None true false []).
  set (v3 := mkServing stopped_system (Shutting None) (StoppingJobs 0) None None true false []).
  set (v4 := mkServing stopped_system (Shutting None) Draining None None true false []).
  set (v5 := mkServing stopped_system (Shutting None) Stopped None None true false []).
  assert (serve_step (serve_init (Some logger)) v1) as H1 by apply ContextDone.
  assert (serve_step v1 v2) as H2 by by eapply (SelectDone _ _ _ _ _ _ _ _ v1 0 sys).
  assert (serve_step v2 v3) as H3.
  { cbn [turns replicate sys_run] in Hrun.
    destruct (sys_step _ _ _ _ (TaskRuns 0 Tau) sys) as [sys'|] eqn:E; [|done]. injection Hrun as ->.
    by eapply (SystemRuns _ _ _ _ _ _ _ _ v2 (TaskRuns 0 Tau)). }
  assert (serve_step v3 v4) as H4 by by eapply (JobsStopped _ _ _ _ _ _ _ _ v3 0).
  assert (serve_step v4 v5) as H5 by by apply (GracefulReturns _ _ _ _ _ _ _ _ v4); [|right].
  assert (serve_step v5 (raced (Cutting None) None None)) as H6 by
    exact (GraceElapses _ _ _ _ _ _ _ _ v5 None eq_refl).
  assert (serve_step (raced (Cutting None) None None) (raced (Receiving false) None None)) as H7 by
    exact (ShutdownCut _ _ _ _ _ _ _ _ (raced (Cutting None) None None) None eq_refl eq_refl).
  assert (serve_step (raced (Receiving false) None None) (raced (Receiving false) (Some None) (Some None))) as H8 by
    exact (TransportReturns _ _ _ _ _ _ _ _ (raced (Receiving false) None None) None eq_refl).
  assert (serve_step (raced (Receiving false) (Some None) (Some None)) (raced (Done (outcome None false)) None (Some None))) as H9 by
    exact (TransportReceived _ _ _ _ _ _ _ _ (raced (Receiving false) (Some None) (Some None)) false None eq_refl eq_refl).
  eexists. split; [|split; [|split; [|split; [|split]]]].
  { do 4 (eapply rtc_l; [by eapply race_moves; [reflexivity|eassumption|reflexivity|intros d [= <-]]|]).
    eapply rtc_l; [split; [by apply (Passes _ _ _ _ _ _ _ _ _ 5)|by intros d [= <-]]|].
    do 4 (eapply rtc_l; [by eapply race_moves; [reflexivity|eassumption|reflexivity|intros d [= <-]]|]).
    apply rtc_once. by eapply race_moves; [reflexivity|exact H9|reflexivity|intros d [=]]. }
  all: cbn; done.
Qed.
End race.

End samples.
End timed_server.
