(* ===== verification/InterceptorProperties.v ===== *)
(** * What the interceptors guarantee

    The decision on one call and its record, the gate it puts before every
    handler, and that those who may pass do. A call is run by itself here; what
    holds among others is in [SystemProperties]. *)

From S2P Require Import Prelude GoStrings GoErrors Conc Trace X509 SpiffeID X509SVID Identity Authz Slog.
From S2P Require Import Context Authenticator Wire Job Registry Ticks Service ServiceSpec.
From S2P Require Import Interceptor System Sample.

Module interceptor_properties.
Import authn authz conc trace context authenticator registry service service_spec interceptor system.

Section interceptor.
Context {A : Type} `{peers : PeerAuthenticator A}.

(** ** The decision on one call *)

(** What a decision leaves: its answer, its grounds among the choices the call
    met, and its record, the only change of the world. *)
Definition decides (i : Interceptor A) (ctx : Context) (fullMethod jobID : string) (cs : list choice)
    (w w' : world) (r : result Context) : Prop :=
  let logged lvl msg attrs := w' = with_log (slog.LogAttrs (i_logger i) lvl msg attrs) w in
  let decided agent action decision extra :=
    logged slog.LevelInfo "authorization decision" (decision_attributes agent action jobID decision extra) in
  let verified answer := ∃ state now, FromContext ctx = Some (TLSInfo state) ∧ ClockReads now ∈ cs ∧
    authenticate_peer (i_authenticator i) now state = answer in
  match r with
  | Ok ctx' => ∃ agent action, actionFor fullMethod = Some action ∧ verified (Ok agent) ∧
      Authorize (i_authorizer i) agent action = None ∧ ctx' = WithValue ctx agent ∧
      decided agent action "allow" []
  | Err e =>
      (actionFor fullMethod = None ∧ e = StatusError Internal internalErrorMessage ∧
         logged slog.LevelError "no action is mapped to the method" [("method", fullMethod)]) ∨
      (∃ agent action reason, actionFor fullMethod = Some action ∧ verified (Ok agent) ∧
         Authorize (i_authorizer i) agent action = Some reason ∧
         e = StatusError PermissionDenied "permission denied" ∧
         decided agent action "deny" [("reason", Error reason)]) ∨
      (is_Some (actionFor fullMethod) ∧
       (e = StatusError Unauthenticated "no peer" ∧ FromContext ctx = None ∧
          logged slog.LevelInfo "no peer is found" [] ∨
        e = StatusError Unauthenticated "connection is not mTLS" ∧
          (∃ text, FromContext ctx = Some (OtherAuthInfo text) ∧
             logged slog.LevelInfo "connection is not mTLS" [("auth_info", text)]) ∨
        e = StatusError Unauthenticated "unauthenticated" ∧ w' = w ∧ ∃ reason, verified (Err reason)))
  end.

(** A call to the authenticator that panicked, or a decision. *)
Lemma authorize_run i ctx fullMethod jobID cs w w' p o :
  prog_run cs (authorize i ctx fullMethod jobID) w = Some (w', p) → outcome p = Some o →
  match o with inl r => decides i ctx fullMethod jobID cs w w' r | inr v => cs = [CallPanics v] ∧ w' = w end.
Proof.
  intros HR HO. unfold authorize in HR. destruct (actionFor fullMethod) as [action|] eqn:Ea.
  2:{ destruct cs as [|[] [|? ?]]; cbn in HR; try done; injection HR as <- <-; [done|].
      injection HO as <-. left. auto. }
  unfold authenticate in HR. destruct (FromContext ctx) as [[state|text]|] eqn:Ef.
  2:{ destruct cs as [|[] [|? ?]]; cbn in HR; try done; injection HR as <- <-; [done|].
      injection HO as <-. right. right. eauto 10. }
  2:{ destruct cs as [|[] [|? ?]]; cbn in HR; try done; injection HR as <- <-; [done|].
      injection HO as <-. right. right. eauto 10. }
  destruct cs as [|c cs]; [by injection HR as <- <-|]. destruct c as [| | |v|now| |]; try done; cbn in HR.
  { destruct cs; [|done]. injection HR as <- <-. by injection HO as <-. }
  destruct (authenticate_peer _ now state) as [agent|e] eqn:Eq; cbn in HR.
  - assert (∀ cs, ClockReads now ∈ ClockReads now :: cs) as Hin by (intros ?; left).
    destruct (Authorize _ agent action) as [reason|] eqn:Ez; cbn in HR;
      (destruct cs as [|c cs]; [by injection HR as <- <-|]); destruct c, cs; cbn in HR; try done;
      injection HR as <- <-; injection HO as <-.
    + right. left. exists agent, action, reason. split_and!; eauto.
    + exists agent, action. split_and!; eauto.
  - destruct cs; cbn in HR; [|done]. injection HR as <- <-. injection HO as <-. right. right. split; [done|].
    right. right. split_and!; [done|done|]. exists e, state, now. split_and!; [done|left|done].
Qed.

(** ** Properties *)

(** C19: the decision on one call, and its record. The caller is admitted as the
    agent its certificate names at the time the clock read, for the action of
    the method, and exactly then the line "allow" is written; a known agent
    without the role is refused with the line "deny" and its reason, which the
    caller does not see; an unknown method, a call without a peer or without TLS
    and a chain that does not verify are refused before any decision, each with
    its own line or none. Nothing else changes. *)
Theorem authorize_decides (i : Interceptor A) (ctx : Context) (fullMethod jobID : string) (cs : list choice)
  (w w' : world) (r : result Context)
  (HR : prog_run cs (authorize i ctx fullMethod jobID) w = Some (w', Ret r)) :
  decides i ctx fullMethod jobID cs w w' r.
Proof. exact (authorize_run _ _ _ _ _ _ _ _ _ HR eq_refl). Qed.

(** C18: the gate. Behind the interceptors, the unary one and the stream's, a
    handler, whichever it is, runs only for an admitted agent: from the world
    the decision "allow" and its record left, on a context that carries that
    agent and nothing else new; and its answer is passed on as it is. Every
    other call is refused, with nothing run but the decision. When the
    authenticator or the handler panics, the panic is recorded and the caller
    is answered with a fixed error. No panic leaves the interceptor. *)
Theorem handlers_gated {R} (Stack : string) (i : Interceptor A) (ctx : Context) (request : fizzledv1.Request)
  (fullMethod jobID : string) (handler : Context → prog world (result R)) (rpc : prog world (result R))
  (cs : list choice) (w w' : world) (p : prog world (result R)) (o : result R + panic_value)
  (HI : (rpc = Unary Stack i ctx request fullMethod handler ∧ jobID = targetJobID request) ∨
        (rpc = Stream Stack i ctx fullMethod handler ∧ jobID = ""))
  (HR : prog_run cs rpc w = Some (w', p)) (HO : outcome p = Some o) :
  ∃ r, o = inl r ∧
    let panicked v w1 := r = Err (StatusError Internal internalErrorMessage) ∧
      w' = with_log (slog.LogAttrs (i_logger i) slog.LevelError "panic in handler"
             [("method", fullMethod); ("panic", panic_text v); ("stack", Stack)]) w1 in
    ((∃ e, r = Err e ∧ decides i ctx fullMethod jobID cs w w' (Err e)) ∨
     (∃ v, cs = [CallPanics v; Tau] ∧ panicked v w) ∨
     ∃ agent cs0 cs1 w1, admitted i ctx fullMethod agent ∧
       decides i ctx fullMethod jobID cs0 w w1 (Ok (WithValue ctx agent)) ∧
       ((cs = cs0 ++ cs1 ∧ prog_run cs1 (handler (WithValue ctx agent)) w1 = Some (w', Ret r)) ∨
        ∃ v w2, cs = cs0 ++ cs1 ++ [Tau] ∧
          prog_run cs1 (handler (WithValue ctx agent)) w1 = Some (w2, Raise v) ∧ panicked v w2)).
Proof.
  assert (rpc = guard Stack i fullMethod (r ← authorize i ctx fullMethod jobID;
    match r with Err e => mret (Err e) | Ok authorized => handler authorized end)) as ->
    by by destruct HI as [[-> ->]|[-> ->]].
  clear HI. unfold guard in HR.
  assert (∀ cs w1 v, prog_run cs (_ ← write i slog.LevelError "panic in handler"
      [("method", fullMethod); ("panic", panic_text v); ("stack", Stack)];
      mret (Err (StatusError Internal internalErrorMessage))) w1 = Some (w', p) →
    cs = [Tau] ∧ o = inl (Err (StatusError Internal internalErrorMessage)) ∧
    w' = with_log (slog.LogAttrs (i_logger i) slog.LevelError "panic in handler"
           [("method", fullMethod); ("panic", panic_text v); ("stack", Stack)]) w1) as Hpanic.
  { intros cs1 w1 v H. destruct cs1 as [|[] [|? ?]]; cbn in H; try done; injection H as <- <-; [done|].
    by injection HO as <-. }
  destruct (run_recover _ _ _ _ _ _ _ HR HO) as [(r & Hr & ->)|(cs1 & cs2 & w1 & v & -> & Hr & Hh)].
  - injection HO as <-. exists r. split; [done|].
    destruct (run_bind _ _ _ _ _ _ _ Hr eq_refl) as [(cs1 & cs2 & w1 & a & -> & H1 & H2)|(v & _ & [=])].
    pose proof (authorize_run _ _ _ _ _ _ _ _ _ H1 eq_refl) as Hd. cbn in Hd. destruct a as [ctx'|e].
    + destruct (Hd) as (agent & action & Ha & (state & now & Hf & _ & Hv) & Hz & -> & _).
      right. right. exists agent, cs1, cs2, w1. split_and!; [by exists action, state, now|done|by left].
    + destruct (run_settled _ _ _ _ _ H2 eq_refl) as (-> & -> & [= ->]). rewrite app_nil_r. left. eauto.
  - destruct (Hpanic _ _ _ Hh) as (-> & -> & Hw). eexists. split; [done|]. right.
    destruct (run_bind _ _ _ _ _ _ _ Hr eq_refl) as [(cs2 & cs3 & w2 & a & -> & H1 & H2)|(v' & H1 & [= <-])];
      pose proof (authorize_run _ _ _ _ _ _ _ _ _ H1 eq_refl) as Hd; cbn in Hd.
    + destruct a as [ctx'|e]; [|by destruct (run_settled _ _ _ _ _ H2 eq_refl) as (_ & _ & [=])].
      destruct (Hd) as (agent & action & Ha & (state & now & Hf & _ & Hv) & Hz & -> & _).
      right. exists agent, cs2, cs3, w2. split_and!; [by exists action, state, now|done|].
      right. exists v, w1. split_and!; [by rewrite app_assoc|done..].
    + left. destruct Hd as [-> ->]. by exists v.
Qed.

(** An agent with the role gets through: one reading of the clock and one
    line in the log later its handler runs, on the context that carries it. *)
Theorem admitted_reaches_handler {R} (Stack : string) (i : Interceptor A) (ctx : Context) (request : fizzledv1.Request)
  (fullMethod : string) (handler : Context → prog world (result R)) (state : ConnectionState)
  (agent : AgentID) (action : Action) (now : Z) (w : world)
  (HM : actionFor fullMethod = Some action) (HC : FromContext ctx = Some (TLSInfo state))
  (HA : authenticate_peer (i_authenticator i) now state = Ok agent)
  (HZ : Authorize (i_authorizer i) agent action = None) :
  prog_run [ClockReads now; Tau] (Unary Stack i ctx request fullMethod handler) w =
  Some (with_log (slog.LogAttrs (i_logger i) slog.LevelInfo "authorization decision"
          (decision_attributes agent action (targetJobID request) "allow" [])) w,
        guard Stack i fullMethod (handler (WithValue ctx agent))).
Proof.
  unfold Unary, guard, authorize. rewrite HM. unfold authenticate. rewrite HC. cbn.
  rewrite HA. cbn. by rewrite HZ.
Qed.

End interceptor.

(** ** The properties at work *)

Section samples.
Import sample.

(** smith asks for a status, and is let through. *)
Lemma admitted_reaches_handler_witness :
  is_Some (prog_run [ClockReads 10; Tau] (Unary "stack" sample.interceptor (sample.rpc_ctx 1 "smith")
    (fizzledv1.StopRequest "smith/0") fizzledv1.FizzledService_Stop_FullMethodName
    (λ ctx, mret (Ok (agent_of ctx)))) (s_world sample.init)).
Proof.
  eexists. refine (admitted_reaches_handler "stack" sample.interceptor (sample.rpc_ctx 1 "smith")
    (fizzledv1.StopRequest "smith/0") fizzledv1.FizzledService_Stop_FullMethodName _
    (mkConnectionState [Some (sample.leaf_of "smith")]) "smith" ActionStop 10 _ _ _ _ _);
    vm_compute; reflexivity.
Defined.

(** The agent of a certificate nobody gave a role is denied, on the record. *)
Lemma authorize_decides_witness :
  ∃ agent action reason, Authorize (i_authorizer sample.interceptor) agent action = Some reason ∧
    "brown" = agent.
Proof.
  destruct (authorize_decides sample.interceptor (sample.rpc_ctx 1 "brown")
    fizzledv1.FizzledService_Stop_FullMethodName "smith/0" [ClockReads 10; Tau] (s_world sample.init)
    (with_log [slog.mkRecord slog.LevelInfo "authorization decision" (decision_attributes "brown" ActionStop "smith/0"
       "deny" [("reason", "authorize [agent brown action Stop]: " +:+ sentinel_text ErrActionUnauthorized)])]
       (s_world sample.init))
    (Err (StatusError PermissionDenied "permission denied")))
    as [(_ & He & _)|[(agent & action & reason & _ & (state & now & Hs & _ & Ha) & Hz & _)|(_ & [[He _]|[[He _]|[He _]]])]];
    [vm_compute; reflexivity|discriminate He| |discriminate He..].
  exists agent, action, reason. split; [exact Hz|].
  injection Hs as <-. apply Authenticate_agent in Ha as [leaf Hl]. apply clientSVID_Ok in Hl as (Hl & Hu & _).
  apply verified_leaf_Ok in Hl as [Hv _]. apply x509svid.Verify_Ok in Hv as (signers & pool & Hc & _).
  cbn in Hc. injection Hc as Hc _. rewrite <-Hc in Hu. by injection Hu.
Defined.

(** A handler that panics, for smith: it ran in the world the decision left,
    the panic is on the record, and the caller is told nothing. *)
Lemma handlers_gated_witness :
  let handler := (λ _, Raise (PanicWithOther "boom")) : Context → prog world (result unit) in
  ∃ agent cs0 cs1 w1 w2, admitted sample.interceptor (rpc_ctx 1 "smith")
      fizzledv1.FizzledService_Stop_FullMethodName agent ∧
    decides sample.interceptor (rpc_ctx 1 "smith") fizzledv1.FizzledService_Stop_FullMethodName "smith/0" cs0
      (s_world init) w1 (Ok (WithValue (rpc_ctx 1 "smith") agent)) ∧
    prog_run cs1 (handler (WithValue (rpc_ctx 1 "smith") agent)) w1 = Some (w2, Raise (PanicWithOther "boom")).
Proof.
  intros handler.
  destruct (prog_run [ClockReads 10; Tau; Tau] (Unary (R := unit) "stack" sample.interceptor (rpc_ctx 1 "smith")
    (fizzledv1.StopRequest "smith/0") fizzledv1.FizzledService_Stop_FullMethodName handler) (s_world init))
    as [[w' p]|] eqn:E; [|vm_compute in E; discriminate E].
  destruct (handlers_gated "stack" sample.interceptor (rpc_ctx 1 "smith")
    (fizzledv1.StopRequest "smith/0") fizzledv1.FizzledService_Stop_FullMethodName "smith/0"
    handler _ [ClockReads 10; Tau; Tau] (s_world init) w' p
    (inl (Err (StatusError Internal internalErrorMessage))) (or_introl (conj eq_refl eq_refl)) E)
    as (r & Hr & [(e & He & Hd)|[(v & Hv & _)|(agent & cs0 & cs1 & w1 & Ha & Hd & [[_ H]|(v & w2 & _ & H & _)])]]).
  - vm_compute in E. injection E as _ <-. reflexivity.
  - exfalso. injection Hr as <-. injection He as <-.
    destruct Hd as [(Hd & _)|[(? & ? & ? & _ & _ & _ & Hd & _)|(_ & [[Hd _]|[[Hd _]|[Hd _]]])]]; discriminate Hd.
  - discriminate Hv.
  - destruct (run_settled cs1 (handler (WithValue (rpc_ctx 1 "smith") agent)) _ _ _ H eq_refl) as (_ & _ & Hq).
    discriminate Hq.
  - exists agent, cs0, cs1, w1, w2. split; [exact Ha|]. split; [exact Hd|].
    destruct (run_settled cs1 (handler (WithValue (rpc_ctx 1 "smith") agent)) _ _ _ H eq_refl) as (_ & _ & Hq).
    injection Hq as ->. exact H.
Defined.

End samples.
End interceptor_properties.
