(* ===== verification/SystemProperties.v ===== *)
(** * What the server guarantees

    The properties of the whole: what an RPC is answered, what its client can
    affect, what a stream delivers, who can stop a job, and what a shutdown
    leaves behind, in every interleaving. [fits] bounds the jobs a process has
    started by the width of the counters that name them. *)

From S2P Require Import Prelude GoStrings GoErrors Conc Trace X509 SpiffeID X509SVID Identity Authz Slog.
From S2P Require Import Context Authenticator Wire Job JobInvariant Registry Ticks Service.
From S2P Require Import ServiceSpec StreamSpec Interceptor System Ownership Evidence Sample.

Module system_properties.
Import authn worker worker_spec conc trace context authenticator registry service service_spec stream_spec
  interceptor system ownership evidence.

Section server.
Context {A : Type} `{peers : PeerAuthenticator A}.
Context (durationpb_New : Z → fizzledv1.Duration) (Stack : string).
Context (i : Interceptor A) (svc : Service) (logger : option slog.Logger).
Abbreviation sys_step := (sys_step durationpb_New Stack i svc).
Abbreviation sys_run := (sys_run durationpb_New Stack i svc).
Abbreviation reachable := (reachable durationpb_New Stack i svc logger).
Abbreviation sys_inv := (sys_inv durationpb_New i).
Abbreviation task_ok_from := (task_ok_from durationpb_New i).

(** ** Following one goroutine *)

Lemma tracked_step w0 tid t ev s s' :
  sys_inv s → s_tasks s !! tid = Some t → task_ok_from w0 tid t (s_world s) →
  sys_step ev s = Some s' →
  ∃ t', s_tasks s' !! tid = Some t' ∧ same_task t t' ∧ task_ok_from w0 tid t' (s_world s').
Proof.
  intros Hi Ht Hok H. destruct (event_others _ _ _ _ _ _ _ _ _ Hi H Ht) as [[Hs Hr]|(c & t' & Hs & Ht')].
  - exists t. split_and!; [done|done|]. by eapply task_ok_from_stable.
  - exists t'. split_and!; [done|by eapply task_step_same|]. by eapply task_step_ok_from.
Qed.

Lemma tracked_run w0 tid t l s s' :
  sys_inv s → s_tasks s !! tid = Some t → task_ok_from w0 tid t (s_world s) →
  sys_run l s = Some s' →
  ∃ t', s_tasks s' !! tid = Some t' ∧ same_task t t' ∧ task_ok_from w0 tid t' (s_world s').
Proof.
  revert s t. induction l as [|ev l IH]; intros s t Hi Ht Hok H; cbn in H.
  { injection H as <-. by exists t. }
  destruct (sys_step ev s) as [s1|] eqn:E; [|done].
  destruct (tracked_step _ _ _ _ _ _ Hi Ht Hok E) as (t1 & Ht1 & Hs1 & Hok1).
  destruct (IH s1 t1) as (t' & ? & ? & ?); [by eapply sys_step_inv|done..|].
  exists t'. split_and!; [done|by etrans|done].
Qed.

Lemma sys_run_app l l' s :
  sys_run (l ++ l') s = match sys_run l s with Some s' => sys_run l' s' | None => None end.
Proof.
  revert s. induction l as [|ev l IH]; intros s; [done|]. cbn -[sys_step]. destruct (sys_step ev s); [apply IH|done].
Qed.

(** The system has come from [s0], where an RPC arrives, to [s1] by the events
    [l]. *)
Definition arrival_run (l : list sys_event) (s0 : system) (tid : nat) (peer : option AuthInfo)
    (req : fizzledv1.Request) (s1 : system) : Prop :=
  reachable s0 ∧ sys_run (Arrive tid peer req :: l) s0 = Some s1.

(** An RPC that arrived in [s0], in a system that has come to [s1]. *)
Definition since_arrival (s0 : system) (tid : nat) (peer : option AuthInfo) (req : fizzledv1.Request)
    (s1 : system) : Prop :=
  reachable s0 ∧ ∃ l, sys_run (Arrive tid peer req :: l) s0 = Some s1.

Lemma arrival_run_since l s0 tid peer req s1 : arrival_run l s0 tid peer req s1 → since_arrival s0 tid peer req s1.
Proof. intros [Hr H]. split; [done|by exists l]. Qed.

Lemma reachable_step_run s ev l s' : reachable s → sys_run (ev :: l) s = Some s' → reachable s'.
Proof. intros [l0 H] Hr. exists (l0 ++ ev :: l). by rewrite sys_run_app, H. Qed.

(** The goroutine of the RPC as it started, and the rest of the run. *)
Lemma arrival_run_starts l s0 tid peer req s1 :
  arrival_run l s0 tid peer req s1 →
  ∃ t0 s, serve durationpb_New Stack i svc tid peer req = Some t0 ∧ sys_inv s ∧ s_world s = s_world s0 ∧
    s_tasks s !! tid = Some t0 ∧ sys_run l s = Some s1.
Proof.
  intros [Hr H]. pose proof (reachable_inv _ _ _ _ _ _ Hr) as Hi0. cbn -[serve] in H.
  destruct (s_tasks s0 !! tid) eqn:E; [done|].
  destruct (serve _ _ _ _ tid peer req) as [t0|] eqn:Es; [|done]. cbn in H.
  exists t0, (mkSystem (s_world s0) (<[tid:=t0]> (s_tasks s0))). split_and!; [done| |done|apply lookup_insert_eq|done].
  eapply (sys_step_inv durationpb_New Stack i svc (Arrive tid peer req) s0); [done|]. cbn -[serve]. by rewrite E, Es.
Qed.

(** It is still there, and its own choices say why it was refused. *)
Lemma arrival_traced l s0 tid peer req s1 :
  arrival_run l s0 tid peer req s1 →
  ∃ t, s_tasks s1 !! tid = Some t ∧ task_traced i t (choices_of tid l) ∧
    ∀ ctx id p, t = Streaming ctx id p → req = fizzledv1.StreamOutputRequest id.
Proof.
  intros H. destruct (arrival_run_starts _ _ _ _ _ _ H) as (t0 & s & Hs & _ & _ & Ht0 & Hrun).
  destruct (traced_run durationpb_New Stack i svc tid t0 l s s1 [] Ht0 (serve_traced _ _ _ _ _ _ _ _ _ Hs) Hrun)
    as (t & Ht & Hsame & Hok). exists t. split_and!; [done..|]. intros ctx id p ->.
  destruct t0; try done. destruct Hsame as [_ ->].
  destruct req as [count|id'|id'|id'|]; cbn -[Unary Stream] in Hs; simplify_eq; [by case_bool_decide|done].
Qed.

Lemma since_arrival_ok s0 tid peer req s1 t :
  since_arrival s0 tid peer req s1 → s_tasks s1 !! tid = Some t →
  sys_inv s1 ∧ evolves (s_world s0) (s_world s1) ∧ task_ok_from (s_world s0) tid t (s_world s1) ∧
  ∃ t0, serve durationpb_New Stack i svc tid peer req = Some t0 ∧ same_task t0 t.
Proof.
  intros (Hr & l & H) Ht. pose proof (reachable_inv _ _ _ _ _ _ Hr) as Hi0.
  destruct (sys_run_inv _ _ _ _ _ _ _ Hi0 H) as [Hi1 He]. split; [done|]. split; [done|].
  cbn -[serve] in H. destruct (s_tasks s0 !! tid) eqn:E; [done|].
  destruct (serve _ _ _ _ tid peer req) as [t0|] eqn:Es; [|done]. cbn in H.
  pose proof (serve_ok durationpb_New Stack i svc tid peer req t0 (s_world s0)
    (sy_world _ _ _ Hi0) (sy_fresh _ _ _ Hi0 _ E) Es) as Hok.
  assert (sys_inv (mkSystem (s_world s0) (<[tid:=t0]> (s_tasks s0)))) as Hi.
  { eapply (sys_step_inv durationpb_New Stack i svc (Arrive tid peer req) s0); [done|].
    cbn -[serve]. by rewrite E, Es. }
  destruct (tracked_run (s_world s0) tid t0 l _ s1 Hi (lookup_insert_eq _ _ _) Hok H) as (t' & Ht' & Hs & Hok').
  rewrite Ht in Ht'. injection Ht' as <-. split; [done|]. by exists t0.
Qed.

(** ** An RPC for a job out of its reach *)

Section unreachable.
Context (tid : nat) (peer : option AuthInfo) (req : fizzledv1.Request) (id : JobID) (asks : asks_for id req).
Abbreviation beyond := (out_of_reach i (mkContext peer None (Some tid)) req id).

(** What is out of its reach was so at every moment of its run. *)
Lemma beyond_before l s s' :
  sys_inv s → sys_run l s = Some s' → fits (s_world s') → beyond (s_world s') → beyond (s_world s).
Proof.
  intros Hi H Hf Ho agent Ha. destruct (Find agent id (s_world s)) as [k|] eqn:E; [|done].
  destruct (sys_run_inv _ _ _ _ _ _ _ Hi H) as [_ He].
  destruct (sy_world _ _ _ Hi (fits_le _ _ (ev_length _ _ He) Hf)) as [Hr _].
  destruct (ev_grows _ _ He Hr Hf) as [_ Hg]. pose proof (gr_find _ _ Hg _ _ _ E) as Hk.
  by rewrite (Ho agent Ha) in Hk.
Qed.

(** It has become what its choices alone decide. *)
Lemma beyond_run l s0 s1 t :
  arrival_run l s0 tid peer req s1 → fits (s_world s1) → beyond (s_world s1) → s_tasks s1 !! tid = Some t →
  ∃ t0, serve durationpb_New Stack i svc tid peer req = Some t0 ∧ same_task t0 t ∧
    task_blind beyond t0 ∧ program_steps beyond (choices_of tid l) t0 t.
Proof.
  intros HS Hf Ho Ht. destruct (arrival_run_starts _ _ _ _ _ _ HS) as (t0 & s & Hs & Hi & _ & Ht0 & Hrun).
  destruct (steps_run durationpb_New Stack i svc beyond tid t0 l s s1 Ht0 Hrun) as (t' & Ht' & Hsame & Hst).
  { intros l1 s2 [l2 ->] H1. rewrite sys_run_app, H1 in Hrun.
    eapply beyond_before; [by eapply sys_run_inv|exact Hrun|done|done]. }
  rewrite Ht in Ht'. injection Ht' as <-. exists t0. split_and!; [done..| |done]. by eapply serve_blind.
Qed.

(** It is denied, when it is answered. *)
Lemma beyond_denied l s0 s1 t :
  arrival_run l s0 tid peer req s1 → fits (s_world s1) → beyond (s_world s1) → s_tasks s1 !! tid = Some t →
  match t with
  | Calling _ _ p => ∀ o, outcome p = Some o → denied o
  | Streaming _ _ p => ∀ o, outcome p = Some o → denied o
  | _ => False
  end.
Proof.
  intros HS Hf Ho Ht. destruct (beyond_run _ _ _ _ HS Hf Ho Ht) as (t0 & _ & Hsame & Hb & Hst).
  destruct t0, t; try done; intros o Hout; exact (blind_settles _ _ _ _ _ _ Hb Hst Hout).
Qed.

(** Two of them that met the same choices have become the same. *)
Lemma beyond_same l s0 s1 t l' s0' s1' t' :
  arrival_run l s0 tid peer req s1 → fits (s_world s1) → beyond (s_world s1) → s_tasks s1 !! tid = Some t →
  arrival_run l' s0' tid peer req s1' → fits (s_world s1') → beyond (s_world s1') → s_tasks s1' !! tid = Some t' →
  choices_of tid l' = choices_of tid l → t' = t.
Proof.
  intros HS Hf Ho Ht HS' Hf' Ho' Ht' Hcs.
  destruct (beyond_run _ _ _ _ HS Hf Ho Ht) as (t0 & Hs & Hsame & Hb & Hst).
  destruct (beyond_run _ _ _ _ HS' Hf' Ho' Ht') as (t0' & Hs' & Hsame' & _ & Hst').
  rewrite Hs in Hs'. injection Hs' as <-. rewrite Hcs in Hst'.
  destruct t0, t; try done; destruct t'; try done; destruct Hsame as [-> ->], Hsame' as [<- <-];
    f_equal; exact (blind_steps _ _ _ _ _ _ Hb Hst' Hst).
Qed.

End unreachable.

(** ** Properties *)

Section answers.
Context (s0 s1 : system) (tid : nat) (peer : option AuthInfo).
Context (count : Z) (id : JobID) (ctx : Context).

(** C6: a [Start] that was answered was refused by the interceptors, or the
    agent it was admitted for is told why it cannot be, or has a new job: under
    an id nobody had when the call arrived, which finds the job from then on. *)
Theorem start_answers (r : result fizzledv1.Response)
  (HS : since_arrival s0 tid peer (fizzledv1.StartRequest count) s1)
  (HR : s_tasks s1 !! tid = Some (Calling ctx (fizzledv1.StartRequest count) (Ret r)))
  (HF : fits (s_world s1)) :
  (∃ e, r = Err e ∧ refusal e) ∨
  ∃ agent, admitted i ctx fizzledv1.FizzledService_Start_FullMethodName agent ∧
    ((∃ new l, r = Ok (fizzledv1.StartResponse new) ∧ (1 <= count <= MaxCount)%Z ∧
        (∀ b, Find b new (s_world s0) = None) ∧ Find agent new (s_world s1) = Some l) ∨
     (r = Err (StatusError InvalidArgument "count must be between 1 and 100") ∧
        ¬ (1 <= count <= MaxCount)%Z) ∨
     (r = Err (StatusError Unavailable "unavailable") ∧
        isAcceptingJobs (w_registry (s_world s1)) = false)).
Proof.
  destruct (since_arrival_ok _ _ _ _ _ _ HS HR) as (_ & _ & Hok & _). cbn in Hok.
  destruct Hok as [Hok|(agent & Ha & Hok)]; [by left|]. right. exists agent. split; [done|]. cbn in Hok.
  destruct r as [[new|st|st]|e]; cbn in Hok; try done.
  - destruct Hok as (Hc & Hn & Hl). destruct (Hl HF) as [_ [l Hl']]. left. eauto 10.
  - right. destruct Hok as [[-> ?]|[-> Hc]]; [by left|]. right. split; [done|]. by destruct (Hc HF).
Qed.

(** C7: a [Stop] that was answered was refused by the interceptors, or the
    agent it was admitted for owned no job under that id when it arrived and is
    told just that, or is told the final status of its job, which has ended. *)
Theorem stop_answers (r : result fizzledv1.Response)
  (HS : since_arrival s0 tid peer (fizzledv1.StopRequest id) s1)
  (HR : s_tasks s1 !! tid = Some (Calling ctx (fizzledv1.StopRequest id) (Ret r)))
  (HF : fits (s_world s1)) :
  (∃ e, r = Err e ∧ refusal e) ∨
  ∃ agent, admitted i ctx fizzledv1.FizzledService_Stop_FullMethodName agent ∧
    ((r = Err (StatusError NotFound "job not found") ∧ Find agent id (s_world s0) = None) ∨
     ∃ l j, Find agent id (s_world s1) = Some l ∧ job_at l (s_world s1) = Some j ∧
       is_finished j = true ∧ terminal (status j) ∧
       r = Ok (fizzledv1.StopResponse (wire_status (status j))) ∧
       wire_status (status j) ≠ fizzledv1.Status_STATUS_RUNNING ∧
       wire_status (status j) ≠ fizzledv1.Status_STATUS_UNSPECIFIED).
Proof.
  destruct (since_arrival_ok _ _ _ _ _ _ HS HR) as (_ & _ & Hok & _). cbn in Hok.
  destruct Hok as [Hok|(agent & Ha & Hok)]; [by left|]. right. exists agent. split; [done|]. cbn in Hok.
  destruct r as [[|pb|]|e]; cbn in Hok; try done.
  - right. destruct Hok as (st & -> & Hf). destruct (Hf HF) as (_ & l & Hl & j & Hj & Hfin & Hst & Ht).
    unfold Job_Status in Hst. subst st. exists l, j. split_and!; try done; by destruct Ht as [->|[->| ->]].
  - left. destruct Hok as [-> Hn]. auto.
Qed.

(** A [GetStatus] that was answered was refused, or found no job of the
    agent under that id, or reports the status that job had at a moment of the
    call. *)
Theorem get_status_answers (r : result fizzledv1.Response)
  (HS : since_arrival s0 tid peer (fizzledv1.GetStatusRequest id) s1)
  (HR : s_tasks s1 !! tid = Some (Calling ctx (fizzledv1.GetStatusRequest id) (Ret r)))
  (HF : fits (s_world s1)) :
  (∃ e, r = Err e ∧ refusal e) ∨
  ∃ agent, admitted i ctx fizzledv1.FizzledService_GetStatus_FullMethodName agent ∧
    ((r = Err (StatusError NotFound "job not found") ∧ Find agent id (s_world s0) = None) ∨
     ∃ w l j, evolves (s_world s0) w ∧ evolves w (s_world s1) ∧ Find agent id w = Some l ∧ job_at l w = Some j ∧
       r = Ok (fizzledv1.GetStatusResponse (wire_status (status j)))).
Proof.
  destruct (since_arrival_ok _ _ _ _ _ _ HS HR) as (_ & _ & Hok & _). cbn in Hok.
  destruct Hok as [Hok|(agent & Ha & Hok)]; [by left|]. right. exists agent. split; [done|]. cbn in Hok.
  destruct r as [[| |pb]|e]; cbn in Hok; try done.
  - right. destruct Hok as (st & w & -> & He0 & He & Hf).
    destruct (Hf (fits_le _ _ (ev_length _ _ He) HF)) as (_ & l & Hl & j & Hj & Hst).
    unfold Job_Status in Hst. subst st. by exists w, l, j.
  - left. destruct Hok as [-> Hn]. auto.
Qed.

(** C8: a [StreamOutput] that was answered was refused by the interceptors, for
    a reason its own choices show; or found no job of the agent under that id;
    or delivered a prefix of the output of the agent's job, in order, and ended
    for one of three reasons: it delivered all of it and the job has ended; its
    context is done; or the transport answered one of its sends with the very
    error it ended with. It never gives up by itself before that. *)
Theorem stream_answers (l : list sys_event) (r : result stream_end)
  (HS : arrival_run l s0 tid peer (fizzledv1.StreamOutputRequest id) s1)
  (HR : s_tasks s1 !! tid = Some (Streaming ctx id (Ret r)))
  (HF : fits (s_world s1)) :
  (∃ e, r = Err e ∧ refused_for i ctx fizzledv1.FizzledService_StreamOutput_FullMethodName (choices_of tid l) e) ∨
  ∃ agent, admitted i ctx fizzledv1.FizzledService_StreamOutput_FullMethodName agent ∧
    ((r = Err (StatusError NotFound "job not found") ∧ Find agent id (s_world s0) = None) ∨
     ∃ k j ts, Find agent id (s_world s1) = Some k ∧ job_at k (s_world s1) = Some j ∧
       ts `prefix_of` ticks j ∧ sent tid (s_world s1) = protoTick durationpb_New <$> ts ∧
       ((r = Ok (Ended None) ∧ terminal (status j) ∧ ts = ticks j) ∨
        (r = Ok (Ended None) ∧ is_Some (Context_Err (w_done (s_world s1)) ctx)) ∨
        ∃ e, r = Ok (Ended (Some e)) ∧ Answer (Some e) ∈ choices_of tid l)).
Proof.
  destruct (since_arrival_ok _ _ _ _ _ _ (arrival_run_since _ _ _ _ _ _ HS) HR) as (_ & _ & Hok & _).
  destruct (arrival_traced _ _ _ _ _ _ HS) as (t & Ht1 & Ht & _). rewrite HR in Ht1. injection Ht1 as <-.
  destruct Ht as [Ht|Ht]; [by left|]. cbn in Hok, Ht.
  destruct Hok as [(e & -> & He)|(agent & Ha & Hok)]; [by destruct Ht|]. right. exists agent. split; [done|]. cbn in Hok.
  destruct r as [o|e]; [|left; destruct Hok as [-> Hn]; auto].
  right. destruct Hok as (k & Hk & Hp). destruct (Hk HF) as [_ Hk']. destruct o as [[e|]|]; [| |done].
  - destruct (Hp HF) as [_ (j & ts & Hj & Hpre & Hs)]. exists k, j, ts. split_and!; try done.
    right. right. exists e. split; [done|]. by apply Ht.
  - destruct Hp as [He Hp]. destruct (He HF) as [_ [(j & Hj & Hter & Hs)|Hd]].
    + exists k, j, (ticks j). split_and!; try done. by left.
    + destruct (Hp HF) as [_ (j & ts & Hj & Hpre & Hs)]. exists k, j, ts. split_and!; try done. right. by left.
Qed.

(** C10: what an agent does not own, it cannot tell from what does not exist. An
    RPC that asks for a job of an agent its peer is not admitted as (a [Stop], a
    [GetStatus] or a [StreamOutput]) is answered with a refusal of the
    interceptors, for a reason its own choices show, or with "job not found",
    and delivers nothing; and compared with the same RPC in any run of any server
    where no agent at all has a job under that id, it has come to the very same
    point, and the same answer, whenever the two have met the same choices. *)
Theorem foreign_jobs_invisible (l : list sys_event) (req : fizzledv1.Request) (owner : AgentID) (k : loc)
  (HQ : asks_for id req) (HC : ctx = mkContext peer None (Some tid))
  (HS : arrival_run l s0 tid peer req s1) (HF : fits (s_world s1))
  (HO : Find owner id (s_world s0) = Some k) (HN : ¬ admitted i ctx (method_of req) owner) :
  (∀ r, s_tasks s1 !! tid = Some (Calling ctx req (Ret r)) →
     (∃ e, r = Err e ∧ refused_for i ctx (method_of req) (choices_of tid l) e) ∨
     r = Err (StatusError NotFound "job not found")) ∧
  (∀ r, s_tasks s1 !! tid = Some (Streaming ctx id (Ret r)) →
     (∃ e, r = Err e ∧ refused_for i ctx (method_of req) (choices_of tid l) e) ∨
     r = Err (StatusError NotFound "job not found")) ∧
  (∀ p, s_tasks s1 !! tid = Some (Streaming ctx id p) → sent tid (s_world s1) = []) ∧
  (∀ l' s0' s1', arrival_run l' s0' tid peer req s1' → fits (s_world s1') →
     (∀ agent, Find agent id (s_world s1') = None) → choices_of tid l' = choices_of tid l →
     s_tasks s1' !! tid = s_tasks s1 !! tid).
Proof.
  subst ctx. set (ctx := mkContext peer None (Some tid)) in *.
  destruct (arrival_traced _ _ _ _ _ _ HS) as (t & Ht & Htr & Hstream).
  assert (out_of_reach i ctx req id (s_world s1)) as Hb.
  { intros agent Ha. destruct (Find agent id (s_world s1)) as [k'|] eqn:E; [|done]. exfalso. apply HN.
    destruct (since_arrival_ok _ _ _ _ _ _ (arrival_run_since _ _ _ _ _ _ HS) Ht) as (Hi1 & He & _).
    destruct (sy_world _ _ _ (reachable_inv _ _ _ _ _ _ (proj1 HS)) (fits_le _ _ (ev_length _ _ He) HF)) as [Hr _].
    destruct (ev_grows _ _ He Hr HF) as [Hr1 Hg]. pose proof (gr_find _ _ Hg _ _ _ HO) as HO1.
    by rewrite (Find_owner _ _ _ _ _ _ Hr1 HO1 E). }
  pose proof (beyond_denied tid peer req id HQ _ _ _ _ HS HF Hb Ht) as Hd.
  rewrite Ht. split_and!.
  - intros r [= ->]. destruct Htr as [H|H]; [by left|]. right.
    destruct (Hd (inl r) eq_refl) as (e & -> & [He| ->]); [|done]. by destruct (H e).
  - intros r [= ->]. rewrite (Hstream _ _ _ eq_refl). destruct Htr as [H|H]; [by left|]. right.
    destruct (Hd (inl r) eq_refl) as (e & -> & [He| ->]); done.
  - intros p [= ->]. pose proof (reachable_step_run _ _ _ _ (proj1 HS) (proj2 HS)) as HR1.
    destruct (reachable_streamed _ _ _ _ _ _ HR1 _ _ _ _ Ht) as [H|(a & k' & Ha & Hk' & _)]; [done|].
    destruct (Hk' HF) as [_ H]. rewrite (Hstream _ _ _ eq_refl) in Hb. by rewrite (Hb a Ha) in H.
  - intros l' s0' s1' HS' HF' Hnone Hcs. destruct (arrival_traced _ _ _ _ _ _ HS') as (t' & Ht' & _).
    rewrite Ht'. f_equal.
    eapply (beyond_same tid peer req id HQ l s0 s1 t l' s0' s1' t'); try done. intros agent _. apply Hnone.
Qed.

End answers.

(** Whatever a client does, no RPC ever crashes the process: a goroutine of
    an RPC or of a shutdown never ends in a panic. *)
Theorem rpc_never_panics (s : system) (tid : nat) (t : task) (HR : reachable s)
  (HT : s_tasks s !! tid = Some t) :
  match t with
  | Calling _ _ (Raise _) | Streaming _ _ (Raise _) | ShuttingDown (Raise _) | UndecodedStream _ _ (Raise _) => False
  | _ => True
  end.
Proof.
  destruct (sy_tasks _ _ _ (reachable_inv _ _ _ _ _ _ HR) _ _ HT) as [w0 H].
  by destruct t as [? ? []|? ? []|[]|? ?|? ? []].
Qed.

(** When a shutdown has returned, no job is accepted any more and every job
    there is has ended; both stay so. *)
Theorem shutdown_drains (s s' : system) (tid : nat) (l : list sys_event) (HR : reachable s)
  (HT : s_tasks s !! tid = Some (ShuttingDown (Ret tt)))
  (HS : sys_run l s = Some s') (HF : fits (s_world s')) :
  drained (s_world s') ∧ length (w_heap (s_world s')) = length (w_heap (s_world s)).
Proof.
  pose proof (reachable_inv _ _ _ _ _ _ HR) as Hi. destruct (sys_run_inv _ _ _ _ _ _ _ Hi HS) as [_ He].
  destruct (sy_tasks _ _ _ Hi _ _ HT) as [w0 H]. cbn in H.
  split; [by destruct (drained_stable _ _ H He HF)|].
  destruct (H (fits_le _ _ (ev_length _ _ He) HF)) as [Hr [Hc _]].
  destruct (ev_grows _ _ He Hr HF) as [_ Hg]. by apply (gr_closed _ _ Hg).
Qed.

(** C21: a message that cannot be decoded does nothing. Neither the arrival of
    an RPC with such a message nor a step of the goroutine that serves it
    changes anything but the log; it delivers nothing; and a stream is answered
    with a refusal, or, when its peer was admitted, with the decoder's error. *)
Theorem undecoded_harmless (s : system) (HR : reachable s) :
  (∀ tid t, s_tasks s !! tid = Some t → undecoded t = true →
    sent tid (s_world s) = [] ∧
    ∀ c s', sys_step (TaskRuns tid c) s = Some s' → quiet (s_world s) (s_world s')) ∧
  (∀ tid peer stream e s', sys_step (ArriveUndecoded tid peer stream e) s = Some s' →
    s_world s' = s_world s) ∧
  (∀ tid ctx e p o, s_tasks s !! tid = Some (UndecodedStream ctx e p) → outcome p = Some o →
    ∃ r, o = inl r ∧
      ((∃ e', r = Err e' ∧ refusal e') ∨
       ∃ agent, admitted i ctx fizzledv1.FizzledService_StreamOutput_FullMethodName agent ∧ r = Err e)).
Proof.
  pose proof (reachable_inv _ _ _ _ _ _ HR) as Hi. split_and!.
  - intros tid t Ht Hu. split; [by eapply reachable_silent|]. intros c s' H.
    cbn -[task_step] in H. rewrite Ht in H. cbn -[task_step] in H.
    destruct (task_step c t (s_world s)) as [[w' t']|] eqn:E; [|done]. injection H as <-.
    eapply undecoded_quiet; [done|]. by apply (task_step_ok _ _ _ _ _ _ _ _ (sy_tasks _ _ _ Hi _ _ Ht) E).
  - intros tid peer stream e s' H. cbn in H. destruct (s_tasks s !! tid); [done|]. by injection H as <-.
  - intros tid ctx e p o Ht Ho. destruct (sy_tasks _ _ _ Hi _ _ Ht) as [w0 Hok].
    destruct p as [r|v|f]; cbn in Ho, Hok; simplify_eq; [|done]. by exists r.
Qed.

(** C1: isolation. In one event a job changes in one of these ways only: its own
    goroutine moves; or it is cancelled, by a shutdown or by a [Stop] on its id
    from a peer that was admitted as its owner. Nothing any other agent sends,
    and no client that goes away, reaches it. *)
Theorem jobs_isolated (s s' : system) (ev : sys_event) (agent : AgentID) (id : JobID) (l : loc) (o : object)
  (HR : reachable s) (HS : sys_step ev s = Some s') (HF : fits (s_world s))
  (HL : Find agent id (s_world s) = Some l) (HO : w_heap (s_world s) !! l = Some o) :
  w_heap (s_world s') !! l = Some o ∨
  (∃ e c, ev = JobRuns l e ∧ job_step (Go e) (o_cell o) = Some c ∧
     w_heap (s_world s') !! l = Some (with_cell c o)) ∨
  (∃ tid c t, ev = TaskRuns tid c ∧ s_tasks s !! tid = Some t ∧ stops i t agent id ∧
     w_heap (s_world s') !! l = Some (cancel_object o)).
Proof.
  pose proof (reachable_inv _ _ _ _ _ _ HR) as Hi. pose proof (reachable_detached _ _ _ _ _ _ HR) as Hd.
  destruct (sys_step_inv _ _ _ _ _ _ _ Hi HS) as [_ He].
  pose proof (lookup_lt_Some _ _ _ HO) as Hlt. pose proof (ev_length _ _ He) as Hlen.
  destruct (lookup_lt_is_Some_2 (w_heap (s_world s')) l ltac:(lia)) as [o' Ho'].
  destruct (heap_step _ _ _ _ _ _ _ _ _ Hi Hd HS Ho') as [H|Hle Hp id' n lg Hs|o1 e H -> Hc Hp|o1 tid c t H -> -> Ht Hs].
  - left. congruence.
  - lia.
  - right. left. exists e, (o_cell o'). rewrite HO in H. injection H as <-. split_and!; [done|done|].
    rewrite Ho'. f_equal. destruct o', o; cbn in *. by subst.
  - right. right. rewrite HO in H. injection H as <-. exists tid, c, t. split_and!; try done. by apply Hs.
Qed.

(** C11: a job that reports STOPPED was told to stop, by a shutdown or by a [Stop]
    from a peer that was admitted as its owner. *)
Theorem stopped_on_request (s : system) (agent : AgentID) (id : JobID) (l : loc) (j : Job)
  (HR : reachable s) (HF : fits (s_world s)) (HL : Find agent id (s_world s) = Some l)
  (HJ : job_at l (s_world s) = Some j) (HT : status j = StatusStopped) :
  ∃ tid t, s_tasks s !! tid = Some t ∧ stops i t agent id.
Proof.
  destruct (reachable_told _ _ _ _ _ _ HR) as [_ Ht].
  apply fmap_Some in HJ as (o & Ho & ->). eapply (Ht HF); [done|done|by left].
Qed.

(** C9: at any moment a stream has delivered nothing, or a prefix of the output
    of the one job that its agent, admitted from the peer's certificate, owns
    under the id it asked for. *)
Theorem stream_delivers_prefix (s : system) (tid : nat) (ctx : Context) (id : JobID)
  (p : prog world (result stream_end)) (HR : reachable s) (HF : fits (s_world s))
  (HT : s_tasks s !! tid = Some (Streaming ctx id p)) :
  sent tid (s_world s) = [] ∨
  ∃ agent l j ts, admitted i ctx fizzledv1.FizzledService_StreamOutput_FullMethodName agent ∧
    Find agent id (s_world s) = Some l ∧ job_at l (s_world s) = Some j ∧
    sent tid (s_world s) = protoTick durationpb_New <$> ts ∧ ts `prefix_of` ticks j.
Proof.
  destruct (reachable_streamed _ _ _ _ _ _ HR _ _ _ _ HT) as [H|(a & l & Ha & Hl & Hd)]; [by left|].
  right. destruct (Hl HF) as [_ Hl']. destruct (Hd HF) as [_ (j & ts & Hj & Hp & Hs)]. by exists a, l, j, ts.
Qed.

End server.

(** ** The properties at work *)

Section samples.
Import sample.

(** A call in a run of the sample server. *)
Lemma sample_since before tid agent req l :
  possible before = true → possible (before ++ Arrive tid (sample.peer agent) req :: l) = true →
  since_arrival seconds "stack" sample.interceptor svc None
    (after before) tid (sample.peer agent) req (after (before ++ Arrive tid (sample.peer agent) req :: l)).
Proof. intros H H'. split; [by exists before; apply run_after|]. exists l. by apply run_from. Qed.

Lemma sample_arrival before tid agent req l :
  possible before = true → possible (before ++ Arrive tid (sample.peer agent) req :: l) = true →
  arrival_run seconds "stack" sample.interceptor svc None l
    (after before) tid (sample.peer agent) req (after (before ++ Arrive tid (sample.peer agent) req :: l)).
Proof. intros H H'. split; [by exists before; apply run_after|]. by apply run_from. Qed.

Lemma sample_reachable l : possible l = true → reachable seconds "stack" sample.interceptor svc None (after l).
Proof. intros H. exists l. by apply run_after. Qed.

Lemma sample_fits (s : system) :
  (Z.of_nat (length (w_heap (s_world s))) <=? MaxInt64)%Z = true → fits (s_world s).
Proof. apply Z.leb_le. Qed.

Lemma start_answers_witness :
  ∃ agent l, admitted sample.interceptor (rpc_ctx 1 "smith") fizzledv1.FizzledService_Start_FullMethodName agent ∧
    (∀ b, Find b "smith/0" (s_world init) = None) ∧ Find agent "smith/0" (s_world (after started)) = Some l.
Proof.
  destruct (start_answers seconds "stack" sample.interceptor svc None (after []) (after started) 1
    (sample.peer "smith") 1 (rpc_ctx 1 "smith") (Ok (fizzledv1.StartResponse "smith/0")))
    as [(e & He & _)|(agent & Ha & [(new & l & [= <-] & _ & Hn & Hl)|[[He _]|[He _]]])]; try discriminate He.
  - apply (sample_since [] 1 "smith" (fizzledv1.StartRequest 1)); vm_compute; reflexivity.
  - vm_compute. reflexivity.
  - apply sample_fits. vm_compute. reflexivity.
  - exact (ex_intro _ agent (ex_intro _ l (conj Ha (conj Hn Hl)))).
Defined.

Lemma stop_answers_witness :
  let s := after (started ++ stop_calls) in
  ∃ agent l j, Find agent "smith/0" (s_world s) = Some l ∧ job_at l (s_world s) = Some j ∧ is_finished j = true ∧
    wire_status (status j) = fizzledv1.Status_STATUS_STOPPED.
Proof.
  destruct (stop_answers seconds "stack" sample.interceptor svc None (after started)
    (after (started ++ stop_calls)) 2 (sample.peer "smith") "smith/0" (rpc_ctx 2 "smith")
    (Ok (fizzledv1.StopResponse fizzledv1.Status_STATUS_STOPPED)))
    as [(e & He & _)|(agent & Ha & [[He _]|(l & j & Hl & Hj & Hf & _ & [= Hs] & _)])]; try discriminate He.
  - apply (sample_since started 2 "smith" (fizzledv1.StopRequest "smith/0")); vm_compute; reflexivity.
  - vm_compute. reflexivity.
  - apply sample_fits. vm_compute. reflexivity.
  - exists agent, l, j. exact (conj Hl (conj Hj (conj Hf (eq_sym Hs)))).
Defined.

Lemma get_status_answers_witness :
  ∃ agent w l j, Find agent "smith/0" w = Some l ∧ job_at l w = Some j ∧
    wire_status (status j) = fizzledv1.Status_STATUS_RUNNING.
Proof.
  destruct (get_status_answers seconds "stack" sample.interceptor svc None (after started)
    (after (started ++ status_calls "smith")) 3 (sample.peer "smith") "smith/0" (rpc_ctx 3 "smith")
    (Ok (fizzledv1.GetStatusResponse fizzledv1.Status_STATUS_RUNNING)))
    as [(e & He & _)|(agent & Ha & [[He _]|(w & l & j & _ & _ & Hl & Hj & [= Hs])])]; try discriminate He.
  - apply (sample_since started 3 "smith" (fizzledv1.GetStatusRequest "smith/0")); vm_compute; reflexivity.
  - vm_compute. reflexivity.
  - apply sample_fits. vm_compute. reflexivity.
  - exists agent, w, l, j. exact (conj Hl (conj Hj (eq_sym Hs))).
Defined.

(** The client's context is alive, so the stream delivered everything. *)
Lemma stream_answers_witness :
  let s := after (started ++ completes ++ stream_calls) in
  ∃ agent k j, Find agent "smith/0" (s_world s) = Some k ∧ job_at k (s_world s) = Some j ∧
    terminal (status j) ∧ sent 4 (s_world s) = protoTick seconds <$> ticks j.
Proof.
  destruct (stream_answers seconds "stack" sample.interceptor svc None (after (started ++ completes))
    (after (started ++ completes ++ stream_calls)) 4 (sample.peer "smith") "smith/0" (rpc_ctx 4 "smith")
    (drop 1 stream_calls) (Ok (Ended None)))
    as [(e & He & _)|(agent & Ha & [[He _]|(k & j & ts & Hk & Hj & _ & Hs & [(_ & Ht & Hts)|[[_ [e Hd]]|(e & Hx & _)]])])];
    [| | |discriminate He|discriminate He| | |discriminate Hx].
  - apply (sample_arrival (started ++ completes) 4 "smith" (fizzledv1.StreamOutputRequest "smith/0"));
      vm_compute; reflexivity.
  - vm_compute. reflexivity.
  - apply sample_fits. vm_compute. reflexivity.
  - exists agent, k, j. rewrite Hts in Hs. exact (conj Hk (conj Hj (conj Ht Hs))).
  - exfalso. vm_compute in Hd. discriminate Hd.
Defined.

(** jones asks for the output of smith's job; and again where there is none. *)
Definition jones_streams : list sys_event :=
  call_of 3 "jones" (fizzledv1.StreamOutputRequest "smith/0") ++ turns 2 3.

Lemma foreign_jobs_invisible_witness :
  s_tasks (after (started ++ jones_streams)) !! 3 =
    Some (Streaming (rpc_ctx 3 "jones") "smith/0" (Ret (Err (StatusError NotFound "job not found")))) ∧
  sent 3 (s_world (after (started ++ jones_streams))) = [] ∧
  s_tasks (after ([] ++ jones_streams)) !! 3 = s_tasks (after (started ++ jones_streams)) !! 3.
Proof.
  destruct (foreign_jobs_invisible seconds "stack" sample.interceptor svc None (after started)
    (after (started ++ jones_streams)) 3 (sample.peer "jones") "smith/0" (rpc_ctx 3 "jones")
    (drop 1 jones_streams) (fizzledv1.StreamOutputRequest "smith/0") "smith" 0) as (_ & Hr & Hs & Hsame).
  - right. right. reflexivity.
  - reflexivity.
  - apply (sample_arrival started 3 "jones" (fizzledv1.StreamOutputRequest "smith/0")); vm_compute; reflexivity.
  - apply sample_fits. vm_compute. reflexivity.
  - vm_compute. reflexivity.
  - apply jones_is_not_smith.
  - assert (s_tasks (after (started ++ jones_streams)) !! 3 = Some (Streaming (rpc_ctx 3 "jones") "smith/0"
      (Ret (Err (StatusError NotFound "job not found"))))) as Ht by (vm_compute; reflexivity).
    split; [exact Ht|]. split; [by eapply Hs|].
    apply (Hsame (drop 1 jones_streams) (after []) (after ([] ++ jones_streams))).
    + apply (sample_arrival [] 3 "jones" (fizzledv1.StreamOutputRequest "smith/0")); vm_compute; reflexivity.
    + apply sample_fits. vm_compute. reflexivity.
    + intros agent. assert (records (w_registry (s_world (after ([] ++ jones_streams)))) = ∅) as Hnone
        by (vm_compute; reflexivity). unfold Find. rewrite Hnone, lookup_empty. reflexivity.
    + reflexivity.
Defined.

Lemma rpc_never_panics_witness :
  ∃ t, s_tasks (after (started ++ completes ++ stream_opens ++ [TaskRuns 4 (CallPanics (PanicWithOther "boom"))])) !! 4
       = Some t ∧
    match t with
    | Calling _ _ (Raise _) | Streaming _ _ (Raise _) | ShuttingDown (Raise _) | UndecodedStream _ _ (Raise _) => False
    | _ => True
    end.
Proof.
  set (l := started ++ completes ++ stream_opens ++ _). destruct (s_tasks (after l) !! 4) as [t|] eqn:E.
  - exists t. split; [done|].
    refine (rpc_never_panics seconds "stack" sample.interceptor svc None (after l) 4 t (sample_reachable l _) E).
    vm_compute. reflexivity.
  - exfalso. assert (bool_decide (is_Some (s_tasks (after l) !! 4)) = true) as H by (vm_compute; reflexivity).
    rewrite E in H. discriminate H.
Defined.

Lemma shutdown_drains_witness :
  drained (s_world (after (started ++ shuts_down))) ∧
  length (w_heap (s_world (after (started ++ shuts_down)))) = length (w_heap (s_world (after (started ++ shuts_down)))).
Proof.
  apply (shutdown_drains seconds "stack" sample.interceptor svc None (after (started ++ shuts_down))
    (after (started ++ shuts_down)) 5 []).
  - apply sample_reachable. vm_compute. reflexivity.
  - vm_compute. reflexivity.
  - reflexivity.
  - apply sample_fits. vm_compute. reflexivity.
Defined.

(** jones opens a stream with a message that is none, and is told so: she has
    been admitted. *)
Definition undecoded_stream : list sys_event :=
  [ArriveUndecoded 6 (sample.peer "jones") true (StatusError Internal "malformed");
   TaskRuns 6 (ClockReads 10); TaskRuns 6 Tau].

Lemma undecoded_harmless_witness :
  ∃ agent, admitted sample.interceptor (rpc_ctx 6 "jones") fizzledv1.FizzledService_StreamOutput_FullMethodName agent.
Proof.
  assert (s_tasks (after undecoded_stream) !! 6 = Some (UndecodedStream (rpc_ctx 6 "jones")
    (StatusError Internal "malformed") (Ret (Err (StatusError Internal "malformed"))))) as Ht
    by (vm_compute; reflexivity).
  assert (reachable seconds "stack" sample.interceptor svc None (after undecoded_stream)) as Hr
    by (apply sample_reachable; vm_compute; reflexivity).
  destruct (proj2 (proj2 (undecoded_harmless seconds "stack" sample.interceptor svc None _ Hr)) 6 _ _ _ _ Ht eq_refl)
    as (r & [= <-] & [(e' & [= <-] & H)|(agent & Ha & _)]).
  - exfalso. unfold refusal in H. naive_solver.
  - exact (ex_intro _ agent Ha).
Defined.

(** The client of the RPC that started the job goes away. *)
Lemma jobs_isolated_witness :
  ∃ o, w_heap (s_world (after started)) !! 0 = Some o ∧
    w_heap (s_world (after (started ++ [RPCEnds 1 (Sentinel context_Canceled)]))) !! 0 = Some o.
Proof.
  eexists. split; [vm_compute; reflexivity|].
  edestruct (jobs_isolated seconds "stack" sample.interceptor svc None (after started)
    (after (started ++ [RPCEnds 1 (Sentinel context_Canceled)])) (RPCEnds 1 (Sentinel context_Canceled))
    "smith" "smith/0" 0) as [H|[(e & c & He & _)|(tid & c & t & He & _)]];
    [| | | | |exact H|discriminate He|discriminate He].
  - apply sample_reachable. vm_compute. reflexivity.
  - assert (run [RPCEnds 1 (Sentinel context_Canceled)] (after started) =
      Some (after (started ++ [RPCEnds 1 (Sentinel context_Canceled)]))) as H
      by (apply run_from; vm_compute; reflexivity).
    cbn [run sys_run] in H. unfold run in H. cbn [system.sys_run] in H.
    destruct (system.sys_step _ _ _ _ _ _) as [s|]; [exact H|discriminate H].
  - apply sample_fits. vm_compute. reflexivity.
  - vm_compute. reflexivity.
  - vm_compute. reflexivity.
Defined.

Lemma stopped_on_request_witness :
  ∃ tid t, s_tasks (after (started ++ stop_calls)) !! tid = Some t ∧
    stops sample.interceptor t "smith" "smith/0".
Proof.
  eapply (stopped_on_request seconds "stack" sample.interceptor svc None (after (started ++ stop_calls))
    "smith" "smith/0" 0).
  - apply sample_reachable. vm_compute. reflexivity.
  - apply sample_fits. vm_compute. reflexivity.
  - vm_compute. reflexivity.
  - vm_compute. reflexivity.
  - reflexivity.
Defined.

(** After one tick. *)
Lemma stream_delivers_prefix_witness :
  let s := after (started ++ completes ++ stream_opens) in
  ∃ agent l j ts, Find agent "smith/0" (s_world s) = Some l ∧ job_at l (s_world s) = Some j ∧
    length ts = 1 ∧ sent 4 (s_world s) = protoTick seconds <$> ts ∧ ts `prefix_of` ticks j.
Proof.
  intros s. assert (possible (started ++ completes ++ stream_opens) = true) as Hp by (vm_compute; reflexivity).
  assert (length (sent 4 (s_world s)) = 1) as Hlen by (vm_compute; reflexivity).
  assert (match s_tasks s !! 4 with Some (Streaming _ id _) => id | _ => "" end = "smith/0") as Hid
    by (vm_compute; reflexivity).
  destruct (s_tasks s !! 4) as [[|ctx id p| | |]|] eqn:E; [discriminate Hid| |discriminate Hid..].
  rewrite Hid in E. clear Hid.
  destruct (stream_delivers_prefix seconds "stack" sample.interceptor svc None s 4 ctx "smith/0" p
    (sample_reachable _ Hp)) as [Hs|(agent & l & j & ts & _ & Hl & Hj & Hs & Hpre)].
  - apply sample_fits. vm_compute. reflexivity.
  - exact E.
  - rewrite Hs in Hlen. discriminate Hlen.
  - exists agent, l, j, ts. rewrite Hs, length_fmap in Hlen.
    exact (conj Hl (conj Hj (conj Hlen (conj Hs Hpre)))).
Defined.

End samples.
End system_properties.
