(* ===== verification/WireTypes.v ===== *)
(** * What crosses the wire is well formed

    Every answer the server gives has the type its request promises, and every
    stream is a well-formed sequence of ticks: no status a client does not know,
    no 32-bit count that has wrapped, no error that is not a gRPC status, no
    text of an internal error. *)

From S2P Require Import Prelude GoStrings GoErrors Conc X509 SpiffeID X509SVID Identity Authz Slog.
From S2P Require Import Context Authenticator Wire Job JobInvariant Registry Ticks Service.
From S2P Require Import ServiceSpec StreamSpec Interceptor System Sample Ownership SystemProperties.

Module wire_types.
Import authn worker worker_spec conc context authenticator registry service service_spec stream_spec
  interceptor system ownership system_properties.

(** ** Types *)

(** A status error: one of the codes the service uses, with a fixed text. *)
Definition well_typed_error (e : error) : Prop :=
  e = StatusError InvalidArgument "count must be between 1 and 100" ∨
  e = StatusError Unavailable "unavailable" ∨
  e = StatusError NotFound "job not found" ∨
  refusal e.

(** An answer of the message that the request is answered with. *)
Definition well_typed_answer (req : fizzledv1.Request) (r : result fizzledv1.Response) : Prop :=
  match r with
  | Err e => well_typed_error e
  | Ok answer =>
      match req, answer with
      | fizzledv1.StartRequest _, fizzledv1.StartResponse id => ∃ agent n,
          valid_agent agent ∧ (0 <= n)%Z ∧ id = mint agent n
      | fizzledv1.StopRequest _, fizzledv1.StopResponse st => (2 <= st <= 4)%Z
      | fizzledv1.GetStatusRequest _, fizzledv1.GetStatusResponse st => (1 <= st <= 4)%Z
      | _, _ => False
      end
  end.

(** The ticks of a countdown from [count]: one step down with each, and only
    the last one ends it. *)
Definition well_typed_stream (count : Z) (ts : list fizzledv1.Tick) : Prop :=
  ∀ k t, ts !! k = Some t →
    match fizzledv1.Kind_ t with
    | Some (fizzledv1.Tick_Progress p) =>
        fizzledv1.Remaining p = (count - Z.of_nat k)%Z ∧ (0 <= fizzledv1.Remaining p <= MaxCount)%Z ∧
        (fizzledv1.Remaining p = 0%Z → S k = length ts)
    | Some fizzledv1.Tick_Stopped => S k = length ts
    | Some (fizzledv1.Tick_Failure text) => text = unexpectedErrorMessage ∧ S k = length ts
    | None => False
    end.

(** ** A buffer is sent as such a stream *)

Section ticks.
Context (durationpb_New : Z → fizzledv1.Duration).

Lemma counting_typed count ps :
  (0 < count <= MaxCount)%Z → counting count ps → (Z.of_nat (length ps) <= count)%Z →
  ∀ k t, ps !! k = Some t → ∃ e, t = TickProgress (mkProgress e (count - Z.of_nat k)) ∧
    int32 (count - Z.of_nat k) = (count - Z.of_nat k)%Z ∧ (0 < count - Z.of_nat k <= MaxCount)%Z.
Proof.
  intros Hc Hps Hl k t Ht. pose proof (lookup_lt_Some _ _ _ Ht). destruct (Hps k t Ht) as (e & -> & _). exists e.
  unfold MaxCount in *. split_and!; [done|apply int32_id; unfold MinInt32, MaxInt32; lia|lia..].
Qed.

Lemma buffer_typed count j ts :
  (0 < count <= MaxCount)%Z → well_ticked count (abs_of j) → ts `prefix_of` ticks j →
  well_typed_stream count (protoTick durationpb_New <$> ts).
Proof.
  intros Hc Hw [rest Hp] k t' Ht'. apply list_lookup_fmap_Some in Ht' as (t & -> & Ht). rewrite length_fmap.
  pose proof (lookup_lt_Some _ _ _ Ht) as Hk.
  assert (∀ ps, counting count ps → (Z.of_nat (length ps) <= count)%Z → ps !! k = Some t →
    match fizzledv1.Kind_ (protoTick durationpb_New t) with
    | Some (fizzledv1.Tick_Progress p) =>
        fizzledv1.Remaining p = (count - Z.of_nat k)%Z ∧ (0 <= fizzledv1.Remaining p <= MaxCount)%Z ∧
        (fizzledv1.Remaining p = 0%Z → S k = length ts)
    | _ => False
    end) as Hcount.
  { intros ps Hps Hl Hlt. destruct (counting_typed count ps Hc Hps Hl k t Hlt) as (e & -> & Hi & Hr).
    cbn. rewrite Hi. split_and!; [done|lia|lia|lia]. }
  destruct Hw as [(_ & Hcnt & Hl)|(ps & lst & Hps & Hcnt & Hl & Hr & Hn)]; cbn in *.
  - assert (ticks j !! k = Some t) as Hj by (rewrite Hp; by apply lookup_app_l_Some).
    specialize (Hcount _ Hcnt Hl Hj). by destruct t.
  - assert ((ps ++ [lst]) !! k = Some t) as Hj by (rewrite <-Hps, Hp; by apply lookup_app_l_Some).
    apply lookup_app_Some in Hj as [Hj|[Hge Hj]].
    + specialize (Hcount _ Hcnt Hl Hj). by destruct t.
    + apply list_lookup_singleton_Some in Hj as [Hk0 <-].
      assert (S k = length ts) as Hlast.
      { apply (f_equal length) in Hp. rewrite Hps, !length_app in Hp. cbn in Hp. lia. }
      destruct Hr as [(Hs & e & ->)|[(_ & e & ->)|(_ & e & -> & _)]]; cbn; [|done..].
      specialize (Hn Hs). change (int32 0) with 0%Z. unfold MaxCount. split_and!; [lia|lia|lia|done].
Qed.
End ticks.

Section server.
Context {A : Type} `{peers : PeerAuthenticator A}.
Context (durationpb_New : Z → fizzledv1.Duration) (Stack : string).
Context (i : Interceptor A) (svc : Service) (logger : option slog.Logger).
Abbreviation reachable := (reachable durationpb_New Stack i svc logger).

Lemma refusal_typed e : refusal e → well_typed_error e.
Proof. by do 3 right. Qed.

Lemma answer_typed w0 ctx req r w :
  call_answer i ctx req w0 r w → fits w → well_typed_answer req r.
Proof.
  intros [(e & -> & Hr)|(agent & Ha & H)] Hf; [by apply refusal_typed|].
  pose proof (admitted_valid _ _ _ _ Ha) as Hv.
  destruct req as [count|id|id|id|]; cbn in H; [| | |done..]; destruct r as [[new|st|st]|e]; cbn in H; try done.
  - destruct H as (_ & _ & Hl). destruct (Hl Hf) as [Hi [l Hfind]].
    apply Find_record in Hfind as (rec & Hrec & Hl'). destruct (ri_minted _ Hi _ _ _ _ Hrec Hl') as (n & j & Hn & Hid & _).
    exists agent, n. split_and!; [done|lia|done].
  - destruct H as [[-> _]|[-> _]]; [by left|by right; left].
  - destruct H as (st' & -> & H). destruct (H Hf) as (_ & l & _ & j & _ & _ & _ & Ht).
    by destruct Ht as [->|[->| ->]].
  - destruct H as [-> _]. by right; right; left.
  - destruct H as (st' & w1 & -> & _ & He & H).
    destruct (H (fits_le _ _ (ev_length _ _ He) Hf)) as (Hi & l & _ & j & Hj & Hst). unfold Job_Status in Hst. subst st'.
    apply fmap_Some in Hj as (o & Ho & ->). destruct (object_job_inv _ (ri_cells _ Hi _ _ Ho)) as [count Hc].
    destruct (ji_ticks _ _ Hc) as [(Hs & _)|(ps & t & _ & _ & _ & Hr & _)]; cbn in *; [by rewrite Hs|].
    by apply reports_terminal in Hr as [[->|[->| ->]] _].
  - destruct H as [-> _]. by right; right; left.
Qed.

(** C13: the types of the wire. In every reachable server, the answer of an RPC
    that could be decoded is of the message its request is answered with, with a status a client
    knows, terminal for a [Stop], or the id of a job of a valid agent; or a
    status error with one of a few fixed texts. And what a stream has delivered
    so far is a countdown: one step down with each tick, from a count of at most
    100 that the wire's 32 bits hold, only the last tick ending it, and no text
    of an error in it but the fixed one. *)
Theorem wire_well_typed (s : system) (HR : reachable s) (HF : fits (s_world s)) :
  (∀ tid ctx req r, s_tasks s !! tid = Some (Calling ctx req (Ret r)) → well_typed_answer req r) ∧
  (∀ tid ctx id e, s_tasks s !! tid = Some (Streaming ctx id (Ret (Err e))) → well_typed_error e) ∧
  (∀ tid ctx id p, s_tasks s !! tid = Some (Streaming ctx id p) →
     ∃ count, well_typed_stream count (sent tid (s_world s))).
Proof.
  pose proof (reachable_inv _ _ _ _ _ _ HR) as Hi. destruct (sy_world _ _ _ Hi HF) as [Hr _]. split_and!.
  - intros tid ctx req r Ht. destruct (sy_tasks _ _ _ Hi _ _ Ht) as [w0 H]. cbn in H. by eapply answer_typed.
  - intros tid ctx id e Ht. destruct (sy_tasks _ _ _ Hi _ _ Ht) as [w0 H]. cbn in H.
    destruct H as [(e' & [= <-] & H)|(agent & _ & -> & _)]; [by apply refusal_typed|by right; right; left].
  - intros tid ctx id p Ht. destruct (reachable_streamed _ _ _ _ _ _ HR _ _ _ _ Ht) as [Hn|(agent & l & _ & _ & Hd)].
    + exists 0%Z. rewrite Hn. by intros k t.
    + destruct (Hd HF) as [_ (j & ts & Hj & Hp & ->)]. apply fmap_Some in Hj as (o & Ho & ->).
      destruct (object_job_inv _ (ri_cells _ Hr _ _ Ho)) as [count [Hc Hw _ _ _]]. exists count. by eapply buffer_typed.
Qed.

End server.

(** ** The property at work *)

Section samples.
Import sample.

Lemma wire_well_typed_witness :
  let s := after (started ++ completes ++ stream_calls) in
  (∃ count, well_typed_stream count (sent 4 (s_world s)) ∧ length (sent 4 (s_world s)) = 2) ∧
  well_typed_answer (fizzledv1.StartRequest 1) (Ok (fizzledv1.StartResponse "smith/0")).
Proof.
  intros s.
  destruct (wire_well_typed seconds "stack" interceptor svc None s) as (Ha & _ & Hs).
  - apply sample_reachable. vm_compute. reflexivity.
  - apply sample_fits. vm_compute. reflexivity.
  - split.
    + assert (s_tasks s !! 4 = Some (Streaming (rpc_ctx 4 "smith") "smith/0" (Ret (Ok (Ended None))))) as Ht
        by (vm_compute; reflexivity).
      destruct (Hs _ _ _ _ Ht) as [count Hc]. exists count. split; [exact Hc|vm_compute; reflexivity].
    + apply (Ha 1 (rpc_ctx 1 "smith")). vm_compute. reflexivity.
Defined.

End samples.
End wire_types.
