(* ===== verification/EndToEnd.v ===== *)
(** * From the client to a job and back

    The two ends of the program composed: what the methods of the client
    ([internal/client]) answer their caller when the RPC was served by the
    running server. gRPC is assumed to carry a request to the server, and its
    answer, or the code and message of its error, back; a stream's ticks in
    order, then [io.EOF]. *)

From S2P Require Import Prelude GoStrings GoErrors Conc Trace X509 SpiffeID X509SVID Identity Authz Slog.
From S2P Require Import Context Authenticator Wire Job JobInvariant Registry Ticks Service.
From S2P Require Import ServiceSpec StreamSpec Interceptor Client System Sample Ownership Evidence SystemProperties.

Module end_to_end.
Import authn authz worker worker_spec conc trace context authenticator registry service service_spec stream_spec
  interceptor system ownership evidence system_properties.

(** The error is reported as the sentinel [k], and as no other. *)
Definition blames (e : error) (k : sentinel) : Prop := ∀ k', Is e k' = bool_decide (k = k').

Section client.
(** [status.Code], which answers the code of a status error. *)
Context (Code : error → code) (Code_status : ∀ c text, Code (StatusError c text) = c).
(** The text of an unknown status. *)
Context (Status_String : fizzledv1.Status → string).

(** What the client's method for a request answers, when the server answered
    [r]. *)
Definition reported (req : fizzledv1.Request) (r : result fizzledv1.Response) : result string :=
  match req with
  | fizzledv1.StartRequest count => client.Start Code (λ _, r) count
  | fizzledv1.StopRequest id => client.Stop Code Status_String (λ _, r) id
  | fizzledv1.GetStatusRequest id => client.GetStatus Code Status_String (λ _, r) id
  | _ => Err (Foreign "")
  end.

Lemma fails_status {B} (zero : B) operation c text :
  ∃ e, client.fails zero (client.errorFrom Code operation (Some (StatusError c text))) = Err e ∧
    blames e (client.sentinel_for c).
Proof.
  eexists. split; [reflexivity|]. intros k. rewrite Is_errorf2, Code_status, Is_sentinel. cbn. by rewrite orb_false_r.
Qed.

(** A status error becomes the sentinel of its code. *)
Lemma reported_status req c text :
  match req with
  | fizzledv1.StartRequest count => (MinInt32 <= count <= MaxInt32)%Z
  | fizzledv1.StopRequest _ | fizzledv1.GetStatusRequest _ => True
  | _ => False
  end →
  ∃ e, reported req (Err (StatusError c text)) = Err e ∧ blames e (client.sentinel_for c).
Proof.
  destruct req as [count|id|id|id|]; intros Hc; [|apply fails_status..|done|done].
  cbn [reported]. unfold client.Start.
  rewrite (proj2 (Z.ltb_ge _ _)), Z.gtb_ltb, (proj2 (Z.ltb_ge _ _)) by lia. apply fails_status.
Qed.

(** Statuses cross the wire unchanged. *)
Lemma statusFrom_wire st :
  st = StatusRunning ∨ terminal st → client.statusFrom Status_String (wire_status st) = Ok st.
Proof. intros [->|[->|[->| ->]]]; reflexivity. Qed.

Lemma job_status_known w l j :
  registry_inv w → job_at l w = Some j → status j = StatusRunning ∨ terminal (status j).
Proof.
  intros Hi (o & Ho & ->)%fmap_Some. destruct (object_job_inv _ (ri_cells _ Hi _ _ Ho)) as [count Hc].
  destruct (ji_ticks _ _ Hc) as [(? & _)|(ps & t & _ & _ & _ & Hr & _)]; [by left|]. right.
  by apply reports_terminal in Hr as [? _].
Qed.

Section server.
Context {A : Type} `{peers : PeerAuthenticator A}.
Context (durationpb_New : Z → fizzledv1.Duration) (Stack : string).
Context (i : Interceptor A) (svc : Service) (logger : option slog.Logger).
Abbreviation arrival_run := (arrival_run durationpb_New Stack i svc logger).

(** The peer has no TLS connection, or its chain did not verify at the time the
    clock read. *)
Definition not_authenticated (ctx : Context) (cs : list choice) : Prop :=
  FromContext ctx = None ∨ (∃ text, FromContext ctx = Some (OtherAuthInfo text)) ∨
  ∃ state now reason, FromContext ctx = Some (TLSInfo state) ∧ ClockReads now ∈ cs ∧
    authenticate_peer (i_authenticator i) now state = Err reason.

(** The peer is an agent whose roles do not allow the action of the method. *)
Definition not_permitted (ctx : Context) (fullMethod : string) (cs : list choice) : Prop :=
  ∃ agent action state now reason, actionFor fullMethod = Some action ∧
    FromContext ctx = Some (TLSInfo state) ∧ ClockReads now ∈ cs ∧
    authenticate_peer (i_authenticator i) now state = Ok agent ∧
    Authorize (i_authorizer i) agent action = Some reason.

(** A call out of the RPC's goroutine panicked. *)
Definition crashed (cs : list choice) : Prop := ∃ v, CallPanics v ∈ cs.

(** The refusals of the interceptors, as the client reports them, each with its
    reason. *)
Definition refused (ctx : Context) (fullMethod : string) (cs : list choice) (e : error) : Prop :=
  (blames e ErrRPC ∧ crashed cs) ∨
  (blames e ErrUnauthenticated ∧ not_authenticated ctx cs) ∨
  (blames e ErrPermissionDenied ∧ not_permitted ctx fullMethod cs).

(** A refusal is a status whose sentinel names its reason. *)
Lemma refused_for_status ctx fullMethod cs e :
  is_Some (actionFor fullMethod) → refused_for i ctx fullMethod cs e →
  ∃ c text, e = StatusError c text ∧
    ∀ e', blames e' (client.sentinel_for c) → refused ctx fullMethod cs e'.
Proof.
  intros [action Ha] H. unfold refused, not_authenticated, not_permitted, crashed.
  destruct H as [(-> & [H|H])|[(-> & H)|[(-> & H)|[(-> & H)|(-> & H)]]]]; [congruence|..];
    eexists _, _; (split; [done|]); intros e' He'; cbn in He'; auto 6.
Qed.

(** What the caller of a method of the client may conclude from its answer. *)
Definition holds_of (cs : list choice) (s0 s1 : system) (ctx : Context) (req : fizzledv1.Request)
    (answer : result string) : Prop :=
  (∃ e, answer = Err e ∧ refused ctx (method_of req) cs e) ∨
  ∃ agent, admitted i ctx (method_of req) agent ∧
    match req, answer with
    | fizzledv1.StartRequest count, Ok id => ∃ l,
        (1 <= count <= MaxCount)%Z ∧ (∀ b, Find b id (s_world s0) = None) ∧ Find agent id (s_world s1) = Some l
    | fizzledv1.StartRequest count, Err e =>
        (blames e ErrInvalidArgument ∧ ¬ (1 <= count <= MaxCount)%Z) ∨
        (blames e ErrUnavailable ∧ isAcceptingJobs (w_registry (s_world s1)) = false)
    | fizzledv1.StopRequest id, Ok st => ∃ l j,
        Find agent id (s_world s1) = Some l ∧ job_at l (s_world s1) = Some j ∧
        is_finished j = true ∧ terminal st ∧ status j = st
    | fizzledv1.GetStatusRequest id, Ok st => ∃ w l j,
        evolves (s_world s0) w ∧ evolves w (s_world s1) ∧
        Find agent id w = Some l ∧ job_at l w = Some j ∧ status j = st
    | fizzledv1.StopRequest id, Err e | fizzledv1.GetStatusRequest id, Err e =>
        blames e ErrNotFound ∧ Find agent id (s_world s0) = None
    | _, _ => False
    end.

Lemma reported_refused req ctx cs e :
  match req with
  | fizzledv1.StartRequest count => (MinInt32 <= count <= MaxInt32)%Z
  | fizzledv1.StopRequest _ | fizzledv1.GetStatusRequest _ => True
  | _ => False
  end →
  refused_for i ctx (method_of req) cs e →
  ∃ e', reported req (Err e) = Err e' ∧ refused ctx (method_of req) cs e'.
Proof.
  intros Hreq Hr. assert (is_Some (actionFor (method_of req))) as Hm by (destruct req; try done; eexists; reflexivity).
  destruct (refused_for_status _ _ _ _ Hm Hr) as (c & text & -> & H).
  destruct (reported_status req c text Hreq) as (e' & He & Hb). exists e'. auto.
Qed.

(** End to end. A method of the client whose RPC the server answered tells
    its caller the truth. [Start] returns the new id of a job of the agent the
    client was admitted as; [Stop] the final status of that agent's job, which
    has ended; [GetStatus] a status its job had during the call. An error blames
    one cause: an argument that is out of range, a server that shuts down, a job
    the agent does not have, or a refusal; whatever it blames is the case. *)
Lemma calls_end_to_end (evs : list sys_event) (s0 s1 : system) (tid : nat) (peer : option AuthInfo) (req : fizzledv1.Request)
  (ctx : Context) (r : result fizzledv1.Response)
  (HS : arrival_run evs s0 tid peer req s1) (HR : s_tasks s1 !! tid = Some (Calling ctx req (Ret r)))
  (HF : fits (s_world s1)) :
  holds_of (choices_of tid evs) s0 s1 ctx req (reported req r).
Proof.
  destruct (since_arrival_ok _ _ _ _ _ _ _ _ _ _ _ (arrival_run_since _ _ _ _ _ _ _ _ _ _ _ HS) HR)
    as (Hi1 & He & Hok & t0 & Hserve & Hsame). cbn in Hok.
  destruct (arrival_traced _ _ _ _ _ _ _ _ _ _ _ HS) as (t & Ht & Htr & _).
  rewrite HR in Ht. injection Ht as <-.
  destruct (sy_world _ _ _ Hi1 HF) as [Hr1 _].
  assert (match req with
          | fizzledv1.StartRequest count => (MinInt32 <= count <= MaxInt32)%Z
          | fizzledv1.StopRequest _ | fizzledv1.GetStatusRequest _ => True
          | _ => False
          end) as Hreq.
  { destruct req as [count|id|id|id|]; cbn -[Unary Stream] in Hserve; try done.
    - by case_bool_decide.
    - injection Hserve as <-. done. }
  destruct Htr as [(e & -> & Href)|Hown]; [left; by apply reported_refused|].
  destruct Hok as [(e & -> & Href)|(agent & Ha & Hok)]; [by destruct (Hown e)|].
  right. exists agent. split; [done|].
  destruct req as [count|id|id|id|]; cbn in Hok; try done.
  - destruct r as [[new|st|st]|e]; cbn in Hok; try done.
    + destruct Hok as (Hc & Hn & Hl). destruct (Hl HF) as [_ [l Hl']]. cbn [reported]. unfold client.Start.
      rewrite (proj2 (Z.ltb_ge _ _)), Z.gtb_ltb, (proj2 (Z.ltb_ge _ _)) by lia. cbn. eauto.
    + destruct Hok as [[-> Hc]|[-> Hc]].
      * destruct (reported_status (fizzledv1.StartRequest count) InvalidArgument "count must be between 1 and 100" Hreq)
          as (e & -> & Hb). by left.
      * destruct (reported_status (fizzledv1.StartRequest count) Unavailable "unavailable" Hreq) as (e & -> & Hb).
        right. split; [done|]. by destruct (Hc HF).
  - destruct r as [[|pb|]|e]; cbn in Hok; try done.
    + destruct Hok as (st & -> & Hf). destruct (Hf HF) as (_ & l & Hl & j & Hj & Hfin & Hst & Ht).
      cbn [reported]. unfold client.Stop. cbn [client.GetStatus_]. rewrite statusFrom_wire by by right. cbn. by exists l, j.
    + destruct Hok as [-> Hn]. destruct (reported_status (fizzledv1.StopRequest id) NotFound "job not found" Hreq)
        as (e & -> & Hb). split; [done|]. by apply Hn.
  - destruct r as [[| |pb]|e]; cbn in Hok; try done.
    + destruct Hok as (st & w & -> & He0 & He1 & Hf).
      destruct (Hf (fits_le _ _ (ev_length _ _ He1) HF)) as (Hri & l & Hl & j & Hj & Hst).
      unfold Job_Status in Hst. subst st.
      cbn [reported]. unfold client.GetStatus. cbn [client.GetStatus_].
      rewrite statusFrom_wire by by eapply job_status_known. cbn. by exists w, l, j.
    + destruct Hok as [-> Hn]. destruct (reported_status (fizzledv1.GetStatusRequest id) NotFound "job not found" Hreq)
        as (e & -> & Hb). split; [done|]. by apply Hn.
Qed.

(** A stream that has ended by itself with the client's context alive has
    delivered the whole output of a job of the agent it was admitted for, which
    has ended. *)
Lemma stream_delivers (l : list sys_event) (s0 s1 : system) (tid : nat) (peer : option AuthInfo) (id : JobID)
  (ctx : Context) (ended : stream_end) :
  arrival_run l s0 tid peer (fizzledv1.StreamOutputRequest id) s1 →
  s_tasks s1 !! tid = Some (Streaming ctx id (Ret (Ok ended))) → fits (s_world s1) →
  Context_Err (w_done (s_world s1)) ctx = None → (∀ e, ended ≠ Ended (Some e)) →
  ∃ agent k j, admitted i ctx fizzledv1.FizzledService_StreamOutput_FullMethodName agent ∧
    Find agent id (s_world s1) = Some k ∧ job_at k (s_world s1) = Some j ∧ terminal (status j) ∧
    sent tid (s_world s1) = protoTick durationpb_New <$> ticks j.
Proof.
  intros HS HR HF HA HT.
  destruct (since_arrival_ok _ _ _ _ _ _ _ _ _ _ _ (arrival_run_since _ _ _ _ _ _ _ _ _ _ _ HS) HR) as (_ & _ & Hok & _).
  cbn in Hok. destruct Hok as [(e & [=] & _)|(agent & Ha & k & Hk & Hp)].
  destruct ended as [[e|]|]; [by destruct (HT e)| |by destruct Hp]. cbn in Hp. destruct Hp as [Hp _].
  destruct (Hp HF) as [_ [(j & Hj & Ht & Hs)|Hd]].
  - exists agent, k, j. split_and!; try done. by destruct (Hk HF).
  - change (is_Some (Context_Err (w_done (s_world s1)) ctx)) in Hd. rewrite HA in Hd. by destruct Hd.
Qed.

(** A stream that was refused, or found no job. *)
Lemma stream_refused (l : list sys_event) (s0 s1 : system) (tid : nat) (peer : option AuthInfo) (id : JobID)
  (ctx : Context) (e : error) :
  arrival_run l s0 tid peer (fizzledv1.StreamOutputRequest id) s1 →
  s_tasks s1 !! tid = Some (Streaming ctx id (Ret (Err e))) → fits (s_world s1) →
  ∃ c text, e = StatusError c text ∧ ∀ e', blames e' (client.sentinel_for c) →
    refused ctx fizzledv1.FizzledService_StreamOutput_FullMethodName (choices_of tid l) e' ∨
    blames e' ErrNotFound ∧ ∃ agent, admitted i ctx fizzledv1.FizzledService_StreamOutput_FullMethodName agent ∧
      Find agent id (s_world s0) = None.
Proof.
  intros HS HR HF.
  destruct (since_arrival_ok _ _ _ _ _ _ _ _ _ _ _ (arrival_run_since _ _ _ _ _ _ _ _ _ _ _ HS) HR) as (_ & _ & Hok & _).
  destruct (arrival_traced _ _ _ _ _ _ _ _ _ _ _ HS) as (t & Ht & Htr & _). rewrite HR in Ht. injection Ht as <-.
  cbn in Hok, Htr. destruct Htr as [(e' & [= <-] & Hr)|Hown].
  - destruct (refused_for_status _ fizzledv1.FizzledService_StreamOutput_FullMethodName _ _ (mk_is_Some _ _ eq_refl) Hr) as (c & text & -> & H). exists c, text. auto.
  - destruct Hok as [(e' & [= <-] & Hr)|(agent & Ha & -> & Hn)]; [by destruct Hown|].
    eexists _, _. split; [done|]. intros e' He'. right. split; [done|]. exists agent. auto.
Qed.

End server.
End client.

(** ** The properties at work *)

Section samples.
Import sample.

(** [status.Code]: the code of a status error, [Unknown] of any other. *)
Definition Code (e : error) : code := match e with StatusError c _ => c | _ => Unknown end.

Lemma Code_status c text : Code (StatusError c text) = c.
Proof. reflexivity. Qed.

Lemma calls_end_to_end_witness :
  reported Code pretty (fizzledv1.StopRequest "smith/0") (Ok (fizzledv1.StopResponse fizzledv1.Status_STATUS_STOPPED)) =
    Ok StatusStopped ∧
  ∃ agent l j, Find agent "smith/0" (s_world (after (started ++ stop_calls))) = Some l ∧
    job_at l (s_world (after (started ++ stop_calls))) = Some j ∧ is_finished j = true ∧ status j = StatusStopped.
Proof.
  split; [reflexivity|].
  destruct (calls_end_to_end Code Code_status pretty seconds "stack" interceptor svc None
    (drop 1 stop_calls) (after started) (after (started ++ stop_calls)) 2 (peer "smith")
    (fizzledv1.StopRequest "smith/0") (rpc_ctx 2 "smith")
    (Ok (fizzledv1.StopResponse fizzledv1.Status_STATUS_STOPPED)))
    as [(e & He & _)|(agent & _ & l & j & Hl & Hj & Hf & _ & Hs)]; [| | |discriminate He|].
  - apply (sample_arrival started 2 "smith" (fizzledv1.StopRequest "smith/0")); vm_compute; reflexivity.
  - vm_compute. reflexivity.
  - apply sample_fits. vm_compute. reflexivity.
  - exists agent, l, j. exact (conj Hl (conj Hj (conj Hf Hs))).
Defined.

End samples.
End end_to_end.
