(* ===== verification/Commands.v ===== *)
(** * From the command line to a job and back

    The command [fizzle] ([cmd/fizzle]) composed with the running server: the
    exit code and the output of a command whose RPC the server answered, against
    the state of the server's jobs. gRPC is assumed to carry a request to the
    server and its answer back ([EndToEnd.v]), and a write to stdout to succeed. *)

From S2P Require Import Prelude GoStrings GoErrors Conc Trace X509 SpiffeID X509SVID Identity TrustBundle.
From S2P Require Import CommandLine Authz Slog Context Authenticator Wire Job JobInvariant Registry Ticks Service.
From S2P Require Import ServiceSpec StreamSpec Interceptor Client Fizzle System Sample Ownership Evidence.
From S2P Require Import SystemProperties EndToEnd.

Module commands.
Import x509 authn worker worker_spec conc trace context authenticator trustbundle registry service service_spec.
Import stream_spec interceptor system ownership evidence system_properties end_to_end fizzle.

(** Lines of output. *)
Definition lines_of (lines : list string) : string :=
  foldr (λ line rest, line +:+ newline +:+ rest) "" lines.

Section commands.
Context (NumError : string → string → string).
Context (Write_stdout Write_stderr : string → string → string * option error).
Context (Certificate_Verify : Certificate → VerifyOptions → option error).
Context (ReadFile : string → result string) (Clean : string → string).
Context (Decode : string → option (Block * string)) (ParseCertificate : string → result Certificate).
Context (LoadX509KeyPair : string → string → result KeyPair) (Time_text : Z → string).
Context (NewClient : string → authenticator.Config → option error) (now : Z).
Context (Code : error → code) (Status_String : fizzledv1.Status → string).
Context (Marshal : fizzledv1.Tick → result string) (Compact : string → result string).
Context (stub : client.Client → fizzledv1.Request → result fizzledv1.Response).
Context (stream : client.Client → JobID → option error * list (result fizzledv1.Tick)).

Abbreviation main := (fizzle.main NumError Write_stdout Write_stderr Certificate_Verify ReadFile Clean Decode
  ParseCertificate LoadX509KeyPair Time_text NewClient now Code Status_String Marshal Compact stub stream).
Abbreviation execute := (fizzle.execute NumError Write_stdout Certificate_Verify ReadFile Clean Decode
  ParseCertificate LoadX509KeyPair Time_text NewClient now Code Status_String Marshal Compact stub stream).
Abbreviation command_execute := (fizzle.command_execute Write_stdout Code Status_String Marshal Compact stub stream).
Abbreviation New_client := (client.New Certificate_Verify ReadFile Clean Decode ParseCertificate LoadX509KeyPair
  Time_text NewClient).

(** The command line spells [cmd], and its files make the client [fizzle]. *)
Definition spells (args : list string) (cmd : command) (fizzle : client.Client) : Prop :=
  ∃ p recs, parse args = Ok p ∧ newCommand NumError (name p) (argument p) = Ok cmd ∧
    New_client (config p) None now = Some (Ok fizzle, recs).

Lemma execute_spells args cmd fizzle stdout :
  spells args cmd fizzle → execute args stdout = command_execute cmd fizzle stdout.
Proof. intros (p & recs & Hp & Hc & Hn). unfold fizzle.execute. by rewrite Hp, Hc, Hn. Qed.

(** ** Failures *)

(** The causes an RPC is reported to fail for. *)
Definition is_cause (k : sentinel) : Prop := ∃ c, client.sentinel_for c = k.

(** The line on stderr. *)
Definition diagnosed (stderr : string) (e : error) : string :=
  (Write_stderr stderr ("fizzle: " +:+ Error e +:+ newline)).1.

Lemma blames_errorf label e k : blames e k → blames (errorf label e) k.
Proof. intros H k'. by rewrite Is_errorf. Qed.

Lemma main_failure program args stdout stderr out label e k :
  execute args stdout = Some (out, Some (errorf label e)) → blames e k → is_cause k →
  main (program :: args) stdout stderr =
    Some (if bool_decide (k = ErrInvalidArgument) then exitUsage else exitFailure, out,
          diagnosed stderr (errorf label e)).
Proof.
  intros He Hb [c <-]. unfold fizzle.main, fizzle.run. rewrite He. cbn -[Is]. unfold exitCodeFor.
  rewrite !Is_errorf, !Hb. by destruct c.
Qed.

Lemma main_success program args stdout stderr printed :
  execute args stdout = Some (printed, None) →
  main (program :: args) stdout stderr = Some (exitSuccess, printed, stderr).
Proof. intros He. unfold fizzle.main, fizzle.run. by rewrite He. Qed.

(** ** Commands that make one call *)

Definition label (cmd : command) : string :=
  match cmd with
  | startCommand count => "start execute [" +:+ pretty count +:+ "]"
  | stopCommand id => "stop execute [" +:+ id +:+ "]"
  | statusCommand id => "status execute [" +:+ id +:+ "]"
  | outputsCommand id => ""
  end.

(** What a command prints of the answer it got. *)
Definition prints (cmd : command) (answer : string) : string :=
  match cmd with stopCommand _ => "" | _ => answer +:+ newline end.

Context (Hstdout : ∀ out text, Write_stdout out text = (out +:+ text, None)).

Lemma writeLine_appends out line : writeLine Write_stdout out line = (out +:+ line +:+ newline, None).
Proof. unfold writeLine. by rewrite Hstdout. Qed.

Lemma execute_call cmd fizzle req stdout :
  request_of cmd = Some req → representable cmd →
  command_execute cmd fizzle stdout =
    match reported Code Status_String req (stub fizzle req) with
    | Err e => Some (stdout, Some (errorf (label cmd) e))
    | Ok answer => Some (stdout +:+ prints cmd answer, None)
    end.
Proof.
  intros Hq Hc. destruct cmd as [count|id|id|id]; cbn in Hq; simplify_eq; cbn -[int32].
  - cbn in Hc. rewrite (int32_id count Hc). unfold client.Start. rewrite !(int32_id count Hc).
    destruct (_ || _); [done|]. destruct (stub fizzle _); [by rewrite writeLine_appends|done].
  - unfold client.Stop. destruct (stub fizzle _); [|done].
    destruct (client.statusFrom _ _); cbn; [by rewrite append_nil_r|done].
  - unfold client.GetStatus. destruct (stub fizzle _); [|done].
    destruct (client.statusFrom _ _); cbn; [by rewrite writeLine_appends|done].
Qed.

(** A count that does not fit an int32 is refused before any call. *)
Lemma unrepresentable_call cmd fizzle stdout :
  ¬ representable cmd →
  ∃ e, command_execute cmd fizzle stdout = Some (stdout, Some (errorf (label cmd) e)) ∧
    blames e ErrInvalidArgument.
Proof.
  intros Hn. destruct cmd as [count|id|id|id]; [|by destruct Hn..]. cbn in Hn |- *. unfold client.Start.
  assert ((count <? MinInt32)%Z || (count >? MaxInt32)%Z = true) as ->.
  { destruct (Z.ltb_spec count MinInt32), (Z.gtb_spec count MaxInt32); done || lia. }
  eexists. split; [done|]. intros k. rewrite Is_errorf. apply Is_sentinel.
Qed.

(** ** A command and the running server *)

Section server.
Context {A : Type} `{peers : PeerAuthenticator A}.
Context (durationpb_New : Z → fizzledv1.Duration) (Stack : string).
Context (i : Interceptor A) (svc : Service) (logger : option slog.Logger).
Context (Code_status : ∀ c text, Code (StatusError c text) = c).
Abbreviation arrival_run := (arrival_run durationpb_New Stack i svc logger).

(** Why a command failed, by the sentinel its error wraps: [cs] are the choices
    its RPC met at the server. *)
Definition fails_because (cs : list choice) (s0 s1 : system) (ctx : Context) (cmd : command) (k : sentinel) : Prop :=
  match k with
  | ErrRPC => crashed cs
  | ErrUnauthenticated => not_authenticated i ctx cs
  | ErrPermissionDenied => ∃ req, request_of cmd = Some req ∧ not_permitted i ctx (method_of req) cs
  | ErrInvalidArgument => ∃ count, cmd = startCommand count ∧ ¬ (1 <= count <= MaxCount)%Z
  | ErrUnavailable => isAcceptingJobs (w_registry (s_world s1)) = false
  | ErrNotFound => ∃ req id agent, request_of cmd = Some req ∧ admitted i ctx (method_of req) agent ∧
      (cmd = stopCommand id ∨ cmd = statusCommand id) ∧ Find agent id (s_world s0) = None
  | _ => False
  end.

(** What a command that succeeded printed, and what it did or saw. *)
Definition succeeds_with (s0 s1 : system) (ctx : Context) (cmd : command) (printed : string) : Prop :=
  ∃ req agent, request_of cmd = Some req ∧ admitted i ctx (method_of req) agent ∧
  match cmd with
  | startCommand count => ∃ id l,
      printed = id +:+ newline ∧ (1 <= count <= MaxCount)%Z ∧
      (∀ b, Find b id (s_world s0) = None) ∧ Find agent id (s_world s1) = Some l
  | stopCommand id => ∃ l j,
      printed = "" ∧ Find agent id (s_world s1) = Some l ∧ job_at l (s_world s1) = Some j ∧
      is_finished j = true ∧ terminal (status j)
  | statusCommand id => ∃ w l j,
      printed = status j +:+ newline ∧ evolves (s_world s0) w ∧ evolves w (s_world s1) ∧
      Find agent id w = Some l ∧ job_at l w = Some j
  | outputsCommand _ => False
  end.

Lemma holds_fails cs s0 s1 ctx cmd req e :
  request_of cmd = Some req → representable cmd → holds_of i cs s0 s1 ctx req (Err e) →
  ∃ k, is_cause k ∧ blames e k ∧ fails_because cs s0 s1 ctx cmd k.
Proof.
  intros Hq Hc [(e' & [= <-] & Hr)|(agent & Ha & H)].
  - destruct Hr as [[Hb H]|[[Hb H]|[Hb H]]]; eexists; (split; [|split; [exact Hb|]]);
      [by exists Internal|exact H|by exists Unauthenticated|exact H|by exists PermissionDenied|by exists req].
  - assert (∀ id, (cmd = stopCommand id ∨ cmd = statusCommand id) → Find agent id (s_world s0) = None →
      fails_because cs s0 s1 ctx cmd ErrNotFound) as Hnone by (intros id ??; by exists req, id, agent).
    destruct cmd as [count|id|id|id]; cbn in Hq; simplify_eq; cbn -[int32] in H, Hc.
    + rewrite (int32_id count Hc) in H. destruct H as [[Hb H]|[Hb H]]; eexists; (split; [|split; [exact Hb|]]);
        [by exists InvalidArgument|by exists count|by exists Unavailable|done].
    + destruct H as [Hb H]. eexists. split; [|split; [exact Hb|]]; [by exists NotFound|eauto].
    + destruct H as [Hb H]. eexists. split; [|split; [exact Hb|]]; [by exists NotFound|eauto].
Qed.

Lemma holds_succeeds cs s0 s1 ctx cmd req answer :
  request_of cmd = Some req → representable cmd → holds_of i cs s0 s1 ctx req (Ok answer) →
  succeeds_with s0 s1 ctx cmd (prints cmd answer).
Proof.
  intros Hq Hc [(e' & [=] & _)|(agent & Ha & H)]. exists req, agent. split_and!; [done|done|].
  destruct cmd as [count|id|id|id]; cbn in Hq; simplify_eq; cbn -[int32] in H, Hc |- *.
  - rewrite (int32_id count Hc) in H. destruct H as (l & ? & ? & ?). by exists answer, l.
  - destruct H as (l & j & ? & ? & ? & ? & <-). by exists l, j.
  - destruct H as (w & l & j & ? & ? & ? & ? & <-). by exists w, l, j.
Qed.

(** C4: the commands [start], [stop] and [status] end to end. A command whose
    RPC the server answered either failed, and its error names one cause, and no
    other, that is the case: a count out of range; a server that no longer takes
    jobs; a job the agent did not have; a peer without TLS, or whose chain did not
    verify at the time the clock read; an agent without the role; or a call out of the
    interceptor that panicked. Then it printed nothing, its error is on stderr,
    and it exits 2 when the cause is the count and 1 otherwise. Or it exits 0 and did what it
    was asked to: [start] printed the id of a new job of the agent it was
    admitted as; [stop] printed nothing, and that agent's job has ended; [status]
    printed a status its job had during the call. A count that no request can
    carry exits 2 without any call. Writes to stdout are assumed to succeed. *)
Theorem command_end_to_end (program : string) (args : list string) (cmd : command)
  (fizzle : client.Client) (req : fizzledv1.Request) (stdout stderr : string) (evs : list sys_event)
  (s0 s1 : system) (tid : nat) (peer : option AuthInfo) (ctx : Context)
  (HC : spells args cmd fizzle) (HQ : request_of cmd = Some req) (HS : arrival_run evs s0 tid peer req s1)
  (HA : s_tasks s1 !! tid = Some (Calling ctx req (Ret (stub fizzle req)))) (HF : fits (s_world s1)) :
  (¬ representable cmd →
   ∃ e, blames e ErrInvalidArgument ∧
     main (program :: args) stdout stderr = Some (exitUsage, stdout, diagnosed stderr e)) ∧
  (representable cmd →
   (∃ k e, blames e k ∧ fails_because (choices_of tid evs) s0 s1 ctx cmd k ∧
      main (program :: args) stdout stderr =
        Some (if bool_decide (k = ErrInvalidArgument) then exitUsage else exitFailure, stdout,
              diagnosed stderr e)) ∨
   ∃ printed, succeeds_with s0 s1 ctx cmd printed ∧
      main (program :: args) stdout stderr = Some (exitSuccess, stdout +:+ printed, stderr)).
Proof.
  pose proof (λ out, execute_spells args cmd fizzle out HC) as Hexec. split.
  - intros Hn. destruct (unrepresentable_call cmd fizzle stdout Hn) as (e & He & Hb).
    rewrite <-Hexec in He. eexists. rewrite (main_failure _ _ _ _ _ _ _ _ He Hb ltac:(by exists InvalidArgument)).
    split; [|done]. by apply blames_errorf.
  - intros Hc. specialize (Hexec stdout). rewrite (execute_call _ _ _ _ HQ Hc) in Hexec.
    pose proof (calls_end_to_end Code Code_status Status_String durationpb_New Stack i svc logger
      evs s0 s1 tid peer req ctx (stub fizzle req) HS HA HF) as Hholds.
    destruct (reported Code Status_String req (stub fizzle req)) as [answer|e].
    + right. eexists. split; [by eapply holds_succeeds|]. by apply main_success.
    + left. destruct (holds_fails _ _ _ _ _ _ _ HQ Hc Hholds) as (k & Hk & Hb & Hwhy).
      exists k, (errorf (label cmd) e). split_and!; [by apply blames_errorf|done|by apply main_failure].
Qed.

(** ** The command [outputs] *)

Lemma print_all_lines id out lines rest :
  print_all Write_stdout id out ((Ok <$> lines) ++ rest) = print_all Write_stdout id (out +:+ lines_of lines) rest.
Proof.
  revert out. induction lines as [|line lines IH]; intros out; cbn; [by rewrite append_nil_r|].
  rewrite writeLine_appends, IH. by rewrite !append_assoc.
Qed.

(** As long as it is handed lines, the command wants more. *)
Lemma wants_lines id out lines : bool_decide ((print_all Write_stdout id out (Ok <$> lines)).2 = None) = true.
Proof.
  apply bool_decide_eq_true. rewrite <-(app_nil_r (Ok <$> lines)), print_all_lines. done.
Qed.

(** The JSON texts of ticks, one line each. *)
Abbreviation written := (Forall2 (λ t line, client.tickJSON Marshal Compact t = Ok line)).

(** Ticks have texts, or there is a first one that has none. *)
Lemma encode_all ts :
  (∃ lines, written ts lines) ∨
  ∃ ts1 t ts2 lines e, ts = ts1 ++ t :: ts2 ∧ written ts1 lines ∧ client.tickJSON Marshal Compact t = Err e.
Proof.
  induction ts as [|t ts IH]; [by left; exists []|]. destruct (client.tickJSON Marshal Compact t) as [line|e] eqn:E.
  - destruct IH as [[lines H]|(ts1 & t' & ts2 & lines & e & -> & H & He)].
    + left. exists (line :: lines). by constructor.
    + right. exists (t :: ts1), t', ts2, (line :: lines), e. split_and!; [done|by constructor|done].
  - right. by exists [], t, ts, [], e.
Qed.

Lemma outputs_all id fizzle stdout ticks lines eof :
  stream fizzle id = (None, (Ok <$> ticks) ++ [Err eof]) → Is eof io_EOF = true → written ticks lines →
  command_execute (outputsCommand id) fizzle stdout = Some (stdout +:+ lines_of lines, None).
Proof.
  intros Hs He Hl. cbn. rewrite Hs. unfold client.StreamOutput.
  rewrite (client.recv_loop_all _ _ _ _ _ _ lines); [|done|done|apply wants_lines].
  rewrite app_nil_l, <-(app_nil_r (Ok <$> _)), print_all_lines. done.
Qed.

Lemma outputs_fails id fizzle stdout ticks lines c text :
  stream fizzle id = (None, (Ok <$> ticks) ++ [Err (StatusError c text)]) → written ticks lines →
  ∃ e, command_execute (outputsCommand id) fizzle stdout =
         Some (stdout +:+ lines_of lines, Some (errorf ("outputs [" +:+ id +:+ "]") e)) ∧
       blames e (client.sentinel_for c).
Proof.
  intros Hs Hl. cbn. rewrite Hs. unfold client.StreamOutput.
  rewrite (client.recv_loop_ok _ _ _ _ _ _ lines); [|done|apply wants_lines].
  rewrite app_nil_l. cbn -[print_all]. rewrite print_all_lines. eexists. split; [reflexivity|].
  intros k. rewrite Is_errorf2, Code_status, Is_sentinel. cbn. by rewrite orb_false_r.
Qed.

(** The error of a tick that has no JSON text, as the command reports it. *)
Definition unencodable (id : JobID) (e : error) : error :=
  errorf ("outputs [" +:+ id +:+ "]") (errorf ("stream output [" +:+ id +:+ "]") e).

Lemma outputs_unencodable id fizzle stdout ts1 t rest lines e :
  stream fizzle id = (None, (Ok <$> ts1) ++ Ok t :: rest) → written ts1 lines →
  client.tickJSON Marshal Compact t = Err e →
  command_execute (outputsCommand id) fizzle stdout = Some (stdout +:+ lines_of lines, Some (unencodable id e)).
Proof.
  intros Hs Hl He. cbn. rewrite Hs. unfold client.StreamOutput.
  rewrite (client.recv_loop_ok _ _ _ _ _ _ lines); [|done|apply wants_lines].
  rewrite app_nil_l. cbn -[print_all client.tickJSON]. rewrite He, print_all_lines. done.
Qed.

(** What the last [Recv] of a stream answers: [io.EOF] when the server ended it
    well, its status otherwise. *)
Definition last_recv (r : result stream_end) : error :=
  match r with Err e => e | Ok _ => Sentinel io_EOF end.

(** The errors of [protojson] and [json.Compact] are none of the sentinels of
    this program or of [flag]. *)
Context (encoder_errors : ∀ t e k, client.tickJSON Marshal Compact t = Err e → Is e k = false).

Lemma main_unencodable program args id fizzle stdout stderr ts1 t rest lines e :
  spells args (outputsCommand id) fizzle →
  stream fizzle id = (None, (Ok <$> ts1) ++ Ok t :: rest) → written ts1 lines →
  client.tickJSON Marshal Compact t = Err e →
  main (program :: args) stdout stderr =
    Some (exitFailure, stdout +:+ lines_of lines, diagnosed stderr (unencodable id e)).
Proof.
  intros HC Hs Hl He. pose proof (execute_spells args _ fizzle stdout HC) as Hexec.
  rewrite (outputs_unencodable _ _ _ _ _ _ _ _ Hs Hl He) in Hexec.
  unfold fizzle.main, fizzle.run. rewrite Hexec. cbn -[Is]. unfold exitCodeFor, unencodable.
  by rewrite !Is_errorf, !(encoder_errors _ _ _ He).
Qed.

(** C5: the command [outputs] end to end. When the server's stream has ended
    with the client's context alive and no tick refused by the transport, and
    writes to stdout succeed: if each tick the server sent has a JSON text, the
    command printed them, one line each, in order, and either exits 0, with
    nothing on stderr, and that was the whole output of a job of the agent it was
    admitted as, which has ended; or exits 1, with the error on stderr, and the
    stream was refused, for the one reason the error names, or the agent had no
    such job. If a tick has none, the command printed the lines of the ticks
    before it, reports it on stderr, and exits 1. *)
Theorem outputs_end_to_end (program : string) (args : list string) (id : JobID) (fizzle : client.Client)
  (stdout stderr : string) (evs : list sys_event) (s0 s1 : system) (tid : nat) (peer : option AuthInfo)
  (ctx : Context) (r : result stream_end)
  (HC : spells args (outputsCommand id) fizzle)
  (HS : arrival_run evs s0 tid peer (fizzledv1.StreamOutputRequest id) s1)
  (HA : s_tasks s1 !! tid = Some (Streaming ctx id (Ret r))) (HF : fits (s_world s1))
  (HD : Context_Err (w_done (s_world s1)) ctx = None) (HT : ∀ e, r ≠ Ok (Ended (Some e)))
  (HR : stream fizzle id = (None, (Ok <$> sent tid (s_world s1)) ++ [Err (last_recv r)])) :
  (∃ lines, Forall2 (λ t line, client.tickJSON Marshal Compact t = Ok line) (sent tid (s_world s1)) lines ∧
     ((∃ agent k j, admitted i ctx fizzledv1.FizzledService_StreamOutput_FullMethodName agent ∧
         Find agent id (s_world s1) = Some k ∧ job_at k (s_world s1) = Some j ∧ terminal (status j) ∧
         sent tid (s_world s1) = protoTick durationpb_New <$> ticks j ∧
         main (program :: args) stdout stderr = Some (exitSuccess, stdout +:+ lines_of lines, stderr)) ∨
      (∃ e, main (program :: args) stdout stderr =
              Some (exitFailure, stdout +:+ lines_of lines, diagnosed stderr e) ∧
         (refused i ctx fizzledv1.FizzledService_StreamOutput_FullMethodName (choices_of tid evs) e ∨
          blames e ErrNotFound ∧
            ∃ agent, admitted i ctx fizzledv1.FizzledService_StreamOutput_FullMethodName agent ∧
              Find agent id (s_world s0) = None)))) ∨
  (∃ ts1 t ts2 lines e, sent tid (s_world s1) = ts1 ++ t :: ts2 ∧
     Forall2 (λ t line, client.tickJSON Marshal Compact t = Ok line) ts1 lines ∧
     client.tickJSON Marshal Compact t = Err e ∧
     main (program :: args) stdout stderr =
       Some (exitFailure, stdout +:+ lines_of lines, diagnosed stderr (unencodable id e))).
Proof.
  pose proof (execute_spells args _ fizzle stdout HC) as Hexec.
  destruct (encode_all (sent tid (s_world s1))) as [[lines Hl]|(ts1 & t & ts2 & lines & e & Hs & Hl & He)].
  2:{ right. exists ts1, t, ts2, lines, e. split_and!; [done..|]. rewrite Hs, fmap_app, <-app_assoc in HR.
      exact (main_unencodable _ _ _ _ _ _ _ _ _ _ _ HC HR Hl He). }
  left. exists lines. split; [done|]. destruct r as [ended|e]; cbn [last_recv] in HR.
  - left. destruct (stream_delivers durationpb_New Stack i svc logger evs s0 s1 tid peer id ctx ended HS HA HF HD)
      as (agent & k & j & Ha & Hk & Hj & Ht & Hs); [intros e ->; by destruct (HT e)|].
    exists agent, k, j. split_and!; [done..|]. apply main_success. by rewrite Hexec, (outputs_all _ _ _ _ _ _ HR eq_refl Hl).
  - right. destruct (stream_refused durationpb_New Stack i svc logger evs s0 s1 tid peer id ctx e HS HA HF)
      as (c & text & -> & Hc).
    destruct (outputs_fails _ _ stdout _ _ _ _ HR Hl) as (e & He & Hb). rewrite <-Hexec in He.
    pose proof (Hc _ (blames_errorf ("outputs [" +:+ id +:+ "]") _ _ Hb)) as Hwhy.
    eexists. split; [|exact Hwhy].
    rewrite (main_failure _ _ _ _ _ _ _ _ He Hb ltac:(by exists c)).
    rewrite bool_decide_eq_false_2; [done|]. intros Hk. rewrite Hk in Hb.
    pose proof (blames_errorf ("outputs [" +:+ id +:+ "]") _ _ Hb) as Hb'.
    destruct Hwhy as [[[H _]|[[H _]|[H _]]]|[H _]]; pose proof (Hb' ErrInvalidArgument) as H1;
      rewrite H in H1; by vm_compute in H1.
Qed.

End server.
End commands.

(** ** The properties at work *)

Section samples.
Import sample.

Definition append_write (out text : string) : string * option error := (out +:+ text, None).

(** The files: a bundle of two roots, and smith's certificate. *)
Definition sample_files (der : string) : result Certificate :=
  if (der =? "leaf")%string then Ok (leaf_of "smith") else trustbundle.sample_ParseCertificate der.

Definition made : option (result client.Client * list slog.LogRecord) :=
  client.New (λ _ _, None) (λ _, Ok trustbundle.sample_bundle) (λ p, p) trustbundle.sample_Decode sample_files
    (λ _ _, Ok (mkKeyPair ["leaf"])) (λ _, "") (λ _ _, None) (newFlagSet ∅) None 10.

Lemma sample_made : ∃ fizzle recs, made = Some (Ok fizzle, recs).
Proof.
  assert (match made with Some (Ok _, _) => true | _ => false end = true) as H by (vm_compute; reflexivity).
  destruct made as [[[fizzle|e] recs]|]; [by exists fizzle, recs|discriminate H..].
Qed.

Definition sample_spells (args : list string) (cmd : command) (fizzle : client.Client) : Prop :=
  spells (λ _ r, r) (λ _ _, None) (λ _, Ok trustbundle.sample_bundle) (λ p, p) trustbundle.sample_Decode
    sample_files (λ _ _, Ok (mkKeyPair ["leaf"])) (λ _, "") (λ _ _, None) 10 args cmd fizzle.

Definition sample_run (answer : result fizzledv1.Response) (recvs : list (result fizzledv1.Tick)) (args : list string)
    : option (Z * string * string) :=
  fizzle.main (λ _ r, r) append_write append_write (λ _ _, None) (λ _, Ok trustbundle.sample_bundle) (λ p, p)
    trustbundle.sample_Decode sample_files (λ _ _, Ok (mkKeyPair ["leaf"])) (λ _, "") (λ _ _, None) 10
    Code pretty (λ _, Ok "{}") Ok (λ _ _, answer) (λ _ _, (None, recvs)) ("fizzle" :: args) "" "".

(** smith asks for the status of its job once it has been stopped. *)
Definition asked : list sys_event := started ++ stop_calls ++ status_calls "smith".

Definition stopped_answer : result fizzledv1.Response :=
  Ok (fizzledv1.GetStatusResponse fizzledv1.Status_STATUS_STOPPED).

Lemma sample_status :
  sample_run stopped_answer [] ["status"; "smith/0"] = Some (exitSuccess, "STOPPED" +:+ newline, "").
Proof. vm_compute. reflexivity. Qed.

Lemma command_end_to_end_witness :
  sample_run stopped_answer [] ["status"; "smith/0"] = Some (exitSuccess, "STOPPED" +:+ newline, "") ∧
  ∃ s0 w agent l j, evolves (s_world s0) w ∧ Find agent "smith/0" w = Some l ∧ job_at l w = Some j ∧
    status j +:+ newline = "STOPPED" +:+ newline.
Proof.
  split; [exact sample_status|]. pose proof sample_status as Hok. unfold sample_run in Hok.
  destruct sample_made as (fizzle & recs & Hmade).
  assert (sample_spells ["status"; "smith/0"] (statusCommand "smith/0") fizzle) as Hspells.
  { exists (mkInvocation "status" "smith/0" (newFlagSet ∅)), recs.
    split; [vm_compute; reflexivity|]. split; [vm_compute; reflexivity|exact Hmade]. }
  destruct (proj2 (command_end_to_end (λ _ r, r) append_write append_write (λ _ _, None)
    (λ _, Ok trustbundle.sample_bundle) (λ p, p) trustbundle.sample_Decode sample_files
    (λ _ _, Ok (mkKeyPair ["leaf"])) (λ _, "") (λ _ _, None) 10 Code pretty (λ _, Ok "{}") Ok
    (λ _ _, stopped_answer) (λ _ _, (None, [])) (λ _ _, eq_refl) seconds "stack" interceptor svc None Code_status
    "fizzle" ["status"; "smith/0"] (statusCommand "smith/0") fizzle (fizzledv1.GetStatusRequest "smith/0") "" ""
    (drop 1 (status_calls "smith")) (after (started ++ stop_calls)) (after asked) 3 (peer "smith") (rpc_ctx 3 "smith")
    Hspells eq_refl ltac:(apply (sample_arrival (started ++ stop_calls) 3 "smith" (fizzledv1.GetStatusRequest "smith/0"));
          vm_compute; reflexivity)
    ltac:(vm_compute; reflexivity) ltac:(apply sample_fits; vm_compute; reflexivity)) I)
    as [(k & e & _ & _ & Hrun)|(printed & (req & agent & _ & _ & w & l & j & Hp & He & _ & Hl & Hj) & Hrun)].
  - exfalso. rewrite Hok in Hrun. by case_bool_decide.
  - exists (after (started ++ stop_calls)), w, agent, l, j. split; [exact He|]. split; [exact Hl|]. split; [exact Hj|].
    rewrite Hok in Hrun. injection Hrun as Hrun. rewrite <-Hp. symmetry. exact Hrun.
Defined.

(** smith's job runs to its end, and smith reads all of it. *)
Definition read_all : list sys_event := started ++ completes ++ stream_calls.

Definition read_recvs : list (result fizzledv1.Tick) :=
  (Ok <$> sent 4 (s_world (after read_all))) ++ [Err (Sentinel io_EOF)].

Lemma outputs_end_to_end_witness :
  sample_run (Err (Foreign "")) read_recvs ["outputs"; "smith/0"] =
    Some (exitSuccess, lines_of ["{}"; "{}"], "") ∧
  ∃ agent k j, Find agent "smith/0" (s_world (after read_all)) = Some k ∧
    job_at k (s_world (after read_all)) = Some j ∧ terminal (status j) ∧
    sent 4 (s_world (after read_all)) = protoTick seconds <$> ticks j.
Proof.
  assert (sample_run (Err (Foreign "")) read_recvs ["outputs"; "smith/0"] =
    Some (exitSuccess, lines_of ["{}"; "{}"], "")) as Hok by (vm_compute; reflexivity).
  split; [exact Hok|]. destruct sample_made as (fizzle & recs & Hmade).
  assert (sample_spells ["outputs"; "smith/0"] (outputsCommand "smith/0") fizzle) as Hspells.
  { exists (mkInvocation "outputs" "smith/0" (newFlagSet ∅)), recs.
    split; [vm_compute; reflexivity|]. split; [vm_compute; reflexivity|exact Hmade]. }
  unfold sample_run in Hok.
  destruct (outputs_end_to_end (λ _ r, r) append_write append_write (λ _ _, None)
    (λ _, Ok trustbundle.sample_bundle) (λ p, p) trustbundle.sample_Decode sample_files
    (λ _ _, Ok (mkKeyPair ["leaf"])) (λ _, "") (λ _ _, None) 10 Code pretty (λ _, Ok "{}") Ok
    (λ _ _, Err (Foreign "")) (λ _ _, (None, read_recvs)) (λ _ _, eq_refl) seconds "stack" interceptor svc None
    Code_status ltac:(discriminate) "fizzle" ["outputs"; "smith/0"] "smith/0" fizzle "" "" (drop 1 stream_calls)
    (after (started ++ completes)) (after read_all) 4 (peer "smith") (rpc_ctx 4 "smith") (Ok (Ended None)) Hspells
    ltac:(apply (sample_arrival (started ++ completes) 4 "smith" (fizzledv1.StreamOutputRequest "smith/0"));
          vm_compute; reflexivity)
    ltac:(vm_compute; reflexivity) ltac:(apply sample_fits; vm_compute; reflexivity) ltac:(vm_compute; reflexivity)
    ltac:(discriminate) eq_refl)
    as [(lines & _ & [(agent & k & j & _ & Hk & Hj & Ht & Hs & _)|(e & Hrun & _)])|(ts1 & t & ts2 & lines & e & _ & _ & He & _)];
    [|rewrite Hok in Hrun; discriminate Hrun|discriminate He].
  exists agent, k, j. exact (conj Hk (conj Hj (conj Ht Hs))).
Defined.

End samples.
End commands.
